(* ===== verification/_CoqProject ===== *)
-Q . S2P
Prelude.v
CLib.v
Sys.v
Sem.v
FsSpec.v
StreamSpec.v
SeqSpec.v
QueueSpec.v
Lpi.v
FileIO.v
Files.v
PosixIpc.v
Pipes.v
Msg.v
SemShm.v
Mq.v
MqSpec.v
Locks.v
Sockets.v
Signals.v
Procs.v
ProcSpec.v
Misc.v
OptSpec.v
Walks.v
MemSpec.v
FailStop.v
Auth.v
SeekSpec.v
Conc.v
PthreadSpec.v
Threads.v
Numbers.v
IncrMutex.v
ShmXfer.v
PipeSpec.v
PipeSync.v
PipeRelay.v
HeapLogic.v
Cmocka.v
CmBase.v
CmLists.v
CmMock.v
CmOps.v
CmLeft.v
CmHeap.v
CmMem.v
CmRun.v
CmVerdict.v
CmMatch.v
CmFloat.v
UnitTests.v
