(* ===== verification/Prelude.v ===== *)
(** * The Linux programming interface exercises: verification library

    The repository holds some ninety small C programs, one per topic of the
    Linux programming interface, a library they share (src/, include/lpi/), and
    the unit tests of that library with the framework they are linked with
    (tests/, extern/cmocka/). Each program is verified as it is written: with its
    argument checks, its error paths and its output. Names of files below are
    those under src/.

    ** The model

    A program is an interaction tree over the calls it makes ([SysE], Sys.v) and
    its effects on itself ([ProcE]: errno, the text given to stdio, the end of the
    process). A call is not given a meaning where the program is defined: the
    kernel is a parameter. [run] (Sem.v) executes a program with fuel against a
    kernel; [wp] is total correctness, proved equivalent to the existence of a
    fuel with which [run] ends, so no theorem depends on a choice of fuel. Loops
    of the programs are [ITree.iter], with a measure where the theorem says that
    they end, and [rounds] where they are meant not to. Programs that run
    together are a pool of trees over a machine (Conc.v): the threads of a process,
    or processes, and a thread or a fork adds a task to the pool. A schedule is the
    sequence of the tasks that take a step, and the theorems hold for every
    schedule. What is relied on of the kernel is stated per component as a class
    of laws (FsSpec, StreamSpec, QueueSpec, MqSpec, ProcSpec, MemSpec, PthreadSpec,
    ShmXfer, PipeSpec), each with an executable kernel that satisfies them and on which the theorems are
    evaluated.

    The test framework makes next to no calls; what it has is linked structures
    on a heap that it mutates. Its functions are programs of another kind (HeapLogic):
    they pass a heap of cells and the variables of the file, and end in a value, in
    a fault, in a jump back to the runner or in the end of the process. A heap
    predicate [hwp] over them is total correctness, and the assertions are an affine
    separation logic, an instance of Iris's BI, in which the rule of a function
    names only the cells it touches. The theorems are on runs, not on [hwp]: a rule
    is applied to the initial heap by its adequacy.

    Integers are Z with the conversions of C written out ([u32], [i64] and so on),
    on a platform with 32-bit int, 64-bit long and signed char. Buffers and
    C strings are strings of 8-bit characters; a struct that crosses the kernel is
    its bytes. Text of the platform (strerror, strsignal, quotients in floating
    point) is a parameter, [CText]. printf, strtol, strtoul, sscanf, getopt,
    strncpy, snprintf, dirname and basename are functions (CLib.v). What a variable
    holds that is declared without a value is an argument of the program, or, where it
    is declared anew in each iteration, an answer ([Indeterminate]). Memory that
    nothing reads again, like the erased password of check_passwd.c, is a local value.

    ** The files

    Prelude     machine integers, byte strings, integers in memory, tactics
    CLib        the functions of the C library the programs compute with
    Sys, Sem    calls, programs, their semantics and the rules of [wp]
    FsSpec, StreamSpec, QueueSpec, SeqSpec   interfaces: files, streams, message
                queues; and what a server of sequence numbers promises
    Lpi         src/*.c: Error, FilePerms, SignalFunctions
    FileIO      fileio/: copy, seek_io, t_readv; Files: files/, dirs_links/
    PosixIpc    psem/, pshm/; Mq: pmsg/
    Pipes       pipes/; Sockets: sockets/; Locks: filelock/
    Msg         svipc/; SemShm: svsem/, svshm/
    Signals     signals/
    Procs       procexec/, mmap/, proc/, proccred/, memalloc/, users_groups/
    Misc        filesys/, getopt/, inotify/, xattr/, sysinfo/, syslim/, time/
    Conc        pools of tasks, schedules, and a logic for one task under the
                interference of the others; PthreadSpec: the pthread calls
    Threads     threads/
    The files that follow hold theorems on the programs of the files above:
    MqSpec, ProcSpec, OptSpec, Walks, MemSpec, FailStop, Auth, SeekSpec, Numbers,
    IncrMutex, ShmXfer; PipeSpec (processes that share a pipe), PipeSync and
    PipeRelay on the programs of pipes/ that fork.
    HeapLogic   commands over a heap, and their separation logic
    Cmocka      extern/cmocka/src/cmocka.c
    CmBase      the rules of its variables, of malloc and of the end of a test;
    CmLists     lists as sequences; CmMock: trees of values by symbol;
    CmOps       what set-up functions, mock functions and checks do to the abstract
                state [mocks]; CmLeft: what remains when a test ends;
    CmHeap      the blocks that tests allocate, with their guards; CmMem: the
                operations on them as steps of the blocks of a test;
    CmRun       tests as scripts, the verdict of the model, the runner;
    CmVerdict   its theorems; CmMatch: the filters; CmFloat: comparisons of
                floating-point numbers, by the Standard Library's SpecFloat
    UnitTests   tests/test_FilePerms.c

    In each of them a Module is a C file and has its name; a Definition is a C
    function, a loop or a case of its [main], or a structure, and has the name it
    has there. The variables a loop updates are its argument, static variables
    are addresses in memory where threads or processes share them, and a handler
    is a function of the signal and of the variables it changes. In Cmocka.v a
    structure is a cell at its address, and a loop over a list is [walk], whose fuel is
    the number of cells: a longer walk is one that never ends, an outcome of its own,
    which the rules exclude.

    ** What is proved

    Files: copy.c yields an equal file or an error, whatever the lengths of the
    reads ([copy_correct]); a command line of seek_io.c implements an abstract
    session ([seek_io_session]).
    Clients and servers: the file server of svipc/ sends the file and its client
    reports it ([svmsg_server_sends_file], [svmsg_client_reports]); the two
    servers of sequence numbers go through consecutive ranges
    ([fifo_server_consecutive], [is_server_consecutive], both instances of
    SeqSpec; the second leaves a gap for a response it could not write), and the client
    and the server of the FIFOs complete an exchange ([fifo_exchange]); the stream and
    datagram programs relay or transform what they read ([us_xfr_sv_copies],
    [ucase_servers_reply]); a request survives its encoding ([svmsg_request_roundtrip]).
    Notifications and children: the programs of pmsg/ that wait for notifications
    print what they receive and never leave a message waiting with none under way
    ([mq_notify_sig_watches], [mq_notify_thread_watches]); multi_wait.c waits for
    each of its children once ([multi_wait_reaps]).
    Concurrency, for every interleaving: the counter under the mutex is exact and
    its threads never deadlock ([thread_incr_mutex_exact],
    [thread_incr_mutex_progress]); without it increments are lost
    ([thread_incr_loses]). The transfer of svshm/ keeps its data in order, is
    complete and never deadlocks ([svshm_output_prefix], [svshm_complete],
    [svshm_progress]). simple_pipe.c delivers its argument through its child
    ([simple_pipe_delivers], [simple_pipe_progress]); pipe_sync.c is a barrier
    for the children it makes ([pipe_sync_waits], [pipe_sync_progress]).
    Command lines: getopt loops end on every command line and only permute it
    ([t_getopt_total]), a rendered command line is read back ([t_getopt_prints],
    [t_mount_mounts]), and every function that reads a number equals a reference
    with its way of checking ([getters_reference]).
    Buffers and memory: walks over variable records come to each once
    ([inotify_prints_events], [xattr_shows_names]); accesses to mappings are in
    bounds, but for a text of t_mmap.c ([mappings_in_bounds], [t_mmap_sets_value]); blocks are freed as asked
    and once ([free_and_sbrk_frees]).
    Errors: programs without loops stop at the first failure and say so
    ([programs_fail_stop], [t_mount_fail_stop]); the error functions end the
    process as they say ([error_exits], [errorMsg_preserves_errno]).
    Tests: the runner of Cmocka comes to the verdict of an abstract model of the
    queues of mock values, expected parameters and ordered calls and of guarded
    memory, group after group ([group_verdicts], [mock_values_in_order],
    [memory_is_guarded]); a block with its guards is laid out in what malloc gave
    ([block_layout]); numbers are compared by their exact values up to the two tolerances,
    but for infinities ([float_compare_exact]); the filters match globs ([strmatch_glob]); and the unit tests of the library pass under it
    ([unit_tests_pass]).
    Authentication: check_passwd.c accepts only the password of the user
    ([check_passwd_authentic]).
    Faults of the programs that the model shows: [copy_onto_itself_empties],
    [us_xfr_cl_only_multiples], [svshm_count_races]; the fault of an ordered call in [group_verdicts], the end of the
    process in [memory_is_guarded] and the infinities of [float_compare_exact].

    ** Bounds

    The fuel of [run] in a witness is chosen for its input; [digits] has one unit
    of fuel per bit of the number, and a digit is at most a bit. Sizes of buffers
    are those of the C files.

    ** Not modelled

    Of extern/cmocka/: the variants for Windows, the macros of the headers that the
    file itself does not use, the examples and the models for Coverity. Of the signals
    that its handler catches, the one a program raises is SIGSEGV, where a load or a
    store is out of the cells; the handler is called there. The verdict of the model
    covers tests without fixtures of their own; setup and teardown functions and the
    XML report are definitions that are not in a theorem. Use of memory that C leaves
    undefined (a block released twice, a write past the guards) has no verdict.
    The kernel is not modelled: signals are delivered where a program waits for them,
    a thread is cancelled in its wait for a condition, and the memory of a process
    is visible only in loads and stores that programs share. A write to a pipe that
    nobody reads fails; the signal that would end the process is not sent. Weak memory orders
    are not: the machine of Conc.v is sequentially consistent. *)

From stdpp Require Export base gmap strings list.
From Stdlib Require Export ZArith Lia Ascii.
From ITree Require Export ITree.

#[global] Open Scope Z_scope.

(** ** Notations

    Programs are interaction trees; they are sequenced with a notation of the
    development's own, because the ones of ITree and stdpp clash. *)
Declare Scope c_scope.
Delimit Scope c_scope with c.
#[warnings="-notation-incompatible-prefix"]
Notation "' p <- c ;; k" := (ITree.bind c (fun x => match x with p => k end))
  (at level 100, p pattern, c at next level, right associativity) : c_scope.
Notation "x <- c ;; k" := (ITree.bind c (fun x => k))
  (at level 100, c at next level, right associativity) : c_scope.
Notation "c ;; k" := (ITree.bind c (fun _ => k))
  (at level 100, k at level 200, right associativity) : c_scope.
#[global] Open Scope c_scope.

(** Equality tests as C writes them. *)
Notation "x ==? y" := (Z.eqb x y) (at level 70, no associativity) : Z_scope.
Notation "x ==c y" := (Ascii.eqb x%char y%char) (at level 70, no associativity) : Z_scope.
Notation "x !=? y" := (negb (Z.eqb x y)) (at level 70, no associativity) : Z_scope.

Create HintDb lpi discriminated.

(** ** Machine integers

    An integer of width [w] is a [Z]; the conversions of C to a signed or an
    unsigned type of width [w] are written out. *)
Definition uwrap (w : Z) (z : Z) : Z := z mod 2 ^ w.
Definition swrap (w : Z) (z : Z) : Z := (z + 2 ^ (w - 1)) mod 2 ^ w - 2 ^ (w - 1).
Abbreviation u8 := (uwrap 8).
Abbreviation u16 := (uwrap 16).
Abbreviation u32 := (uwrap 32).
Abbreviation u64 := (uwrap 64).
Abbreviation i8 := (swrap 8).
Abbreviation i16 := (swrap 16).
Abbreviation i32 := (swrap 32).
Abbreviation i64 := (swrap 64).

Definition LONG_MAX : Z := 2 ^ 63 - 1.
Definition LONG_MIN : Z := - 2 ^ 63.
Definition ULONG_MAX : Z := 2 ^ 64 - 1.

Lemma uwrap_range w z : 0 <= w -> 0 <= uwrap w z < 2 ^ w.
Proof. intros. apply Z.mod_pos_bound. lia. Qed.

Lemma swrap_range w z : 0 < w -> - 2 ^ (w - 1) <= swrap w z < 2 ^ (w - 1).
Proof.
  intros Hw. unfold swrap.
  pose proof (Z.mod_pos_bound (z + 2 ^ (w - 1)) (2 ^ w)) as H.
  replace (2 ^ w) with (2 * 2 ^ (w - 1)) in *.
  - pose proof (Z.pow_pos_nonneg 2 (w - 1)). lia.
  - rewrite <- Z.pow_succ_r by lia. f_equal. lia.
Qed.

Lemma uwrap_id w z : 0 <= z < 2 ^ w -> uwrap w z = z.
Proof. intros. by apply Z.mod_small. Qed.

Lemma swrap_id w z : 0 < w -> - 2 ^ (w - 1) <= z < 2 ^ (w - 1) -> swrap w z = z.
Proof.
  intros Hw H. unfold swrap. rewrite Z.mod_small; [lia|].
  replace (2 ^ w) with (2 * 2 ^ (w - 1)); [lia|].
  rewrite <- Z.pow_succ_r by lia. f_equal. lia.
Qed.

(** A signed conversion only sees the value modulo the width. *)
Lemma swrap_congr w z z' : z mod 2 ^ w = z' mod 2 ^ w -> swrap w z = swrap w z'.
Proof.
  intros H. unfold swrap. f_equal.
  rewrite <- (Zplus_mod_idemp_l z), <- (Zplus_mod_idemp_l z'). by rewrite H.
Qed.

Lemma swrap_mod w z : 0 < w -> swrap w z mod 2 ^ w = z mod 2 ^ w.
Proof.
  intros Hw. unfold swrap. rewrite Zminus_mod_idemp_l. f_equal. lia.
Qed.

Lemma swrap_add_l w a b : 0 < w -> swrap w (swrap w a + b) = swrap w (a + b).
Proof.
  intros Hw. apply swrap_congr. rewrite <- Zplus_mod_idemp_l, swrap_mod by done.
  by rewrite Zplus_mod_idemp_l.
Qed.

(** ** Byte strings

    C strings, buffers and messages are [string]s of 8-bit characters. *)
Definition slen (s : string) : Z := Z.of_nat (String.length s).

Fixpoint stake_nat (n : nat) (s : string) : string :=
  match n, s with
  | S n, String c s => String c (stake_nat n s)
  | _, _ => EmptyString
  end.

Fixpoint sdrop_nat (n : nat) (s : string) : string :=
  match n, s with
  | S n, String _ s => sdrop_nat n s
  | _, _ => s
  end.

Definition stake (n : Z) (s : string) : string := stake_nat (Z.to_nat n) s.
Definition sdrop (n : Z) (s : string) : string := sdrop_nat (Z.to_nat n) s.

Fixpoint srepeat (n : nat) (c : ascii) : string :=
  match n with O => EmptyString | S n => String c (srepeat n c) end.

Fixpoint smap (f : ascii -> ascii) (s : string) : string :=
  match s with EmptyString => EmptyString | String c s => String (f c) (smap f s) end.

Fixpoint sforallb (f : ascii -> bool) (s : string) : bool :=
  match s with EmptyString => true | String c s => f c && sforallb f s end.

(** [buf[i]], the NUL character outside of the buffer. *)
Definition nul : ascii := Ascii.zero.
Fixpoint snth_nat (n : nat) (s : string) : ascii :=
  match n, s with
  | O, String c _ => c
  | S n, String _ s => snth_nat n s
  | _, EmptyString => nul
  end.
Definition snth (i : Z) (s : string) : ascii := snth_nat (Z.to_nat i) s.

(** [buf[i] = c], inside of the buffer. *)
Fixpoint supd_nat (n : nat) (c : ascii) (s : string) : string :=
  match n, s with
  | O, String _ s => String c s
  | S n, String d s => String d (supd_nat n c s)
  | _, EmptyString => EmptyString
  end.
Definition supd (i : Z) (c : ascii) (s : string) : string := supd_nat (Z.to_nat i) c s.

(** [data] copied over the first bytes of [buf], as [read] and [memcpy] do. *)
Definition overlay (data buf : string) : string := data +:+ sdrop (slen data) buf.

(** The C string a buffer holds: the bytes before the first NUL. *)
Fixpoint cstr (s : string) : string :=
  match s with
  | EmptyString => EmptyString
  | String c s => if Ascii.eqb c nul then EmptyString else String c (cstr s)
  end.

Definition ord (c : ascii) : Z := Z.of_N (N_of_ascii c).
Definition chr (z : Z) : ascii := ascii_of_N (Z.to_N (u8 z)).

(** [char] is signed on the modelled platform. *)
Definition schar (c : ascii) : Z := i8 (ord c).

Definition streq (a b : string) : bool := String.eqb a b.

Lemma slen_nonneg s : 0 <= slen s.
Proof. unfold slen. lia. Qed.

Lemma slen_app s t : slen (s +:+ t) = slen s + slen t.
Proof.
  unfold slen. induction s as [|c s IH]; [done|].
  change (String c s +:+ t) with (String c (s +:+ t)). cbn [String.length]. lia.
Qed.

Lemma app_nil_l_s s : "" +:+ s = s.
Proof. done. Qed.

Lemma app_cons_s c s t : String c s +:+ t = String c (s +:+ t).
Proof. done. Qed.

Lemma app_nil_r_s s : s +:+ "" = s.
Proof. induction s as [|c s IH]; [done|]. by rewrite app_cons_s, IH. Qed.

Lemma app_assoc_s s t u : s +:+ (t +:+ u) = (s +:+ t) +:+ u.
Proof. induction s as [|c s IH]; [done|]. by rewrite !app_cons_s, IH. Qed.

Lemma slen_0 s : slen s = 0 -> s = "".
Proof. destruct s; [done|]. unfold slen. cbn. lia. Qed.

Lemma stake_app s t : stake (slen s) (s +:+ t) = s.
Proof.
  unfold stake, slen. rewrite Nat2Z.id.
  induction s as [|c s IH]; [by destruct t|]. rewrite app_cons_s. cbn. by rewrite IH.
Qed.

Lemma sdrop_app s t : sdrop (slen s) (s +:+ t) = t.
Proof.
  unfold sdrop, slen. rewrite Nat2Z.id.
  induction s as [|c s IH]; [by destruct t|]. rewrite app_cons_s. cbn. by rewrite IH.
Qed.

Lemma stake_overlay data buf : stake (slen data) (overlay data buf) = data.
Proof. apply stake_app. Qed.

Lemma stake_nat_all n s : (String.length s <= n)%nat -> stake_nat n s = s.
Proof.
  revert s. induction n as [|n IH]; intros [|c s] H; cbn in *; try done; [lia|].
  rewrite IH; [done|lia].
Qed.

Lemma stake_all n s : slen s <= n -> stake n s = s.
Proof. intros. apply stake_nat_all. unfold slen in *. lia. Qed.

Lemma slen_stake n s : 0 <= n -> slen (stake n s) = Z.min n (slen s).
Proof.
  intros Hn. unfold stake, slen.
  assert (forall m, String.length (stake_nat m s) = (m `min` String.length s)%nat) as H.
  { induction s as [|c s IH]; intros [|m]; cbn; try done. by rewrite IH. }
  rewrite H. lia.
Qed.

Lemma slen_sdrop n s : 0 <= n -> slen (sdrop n s) = Z.max 0 (slen s - n).
Proof.
  intros Hn. unfold sdrop, slen.
  assert (forall m, String.length (sdrop_nat m s) = (String.length s - m)%nat) as H.
  { induction s as [|c s IH]; intros [|m]; cbn; try done. }
  rewrite H. lia.
Qed.

Lemma stake_sdrop n s : stake n s +:+ sdrop n s = s.
Proof.
  unfold stake, sdrop. generalize (Z.to_nat n) as m.
  induction s as [|c s IH]; intros [|m]; cbn; try done.
  change (String c (stake_nat m s +:+ sdrop_nat m s) = String c s). by rewrite IH.
Qed.

Lemma slen_overlay data buf :
  slen data <= slen buf -> slen (overlay data buf) = slen buf.
Proof.
  intros. unfold overlay. rewrite slen_app, slen_sdrop by apply slen_nonneg. lia.
Qed.

Lemma slen_smap f s : slen (smap f s) = slen s.
Proof. unfold slen. induction s; cbn; lia. Qed.

Lemma smap_app f s t : smap f (s +:+ t) = smap f s +:+ smap f t.
Proof. induction s as [|c s IH]; [done|]. rewrite !app_cons_s. cbn. by rewrite IH. Qed.

#[export] Hint Rewrite app_nil_r_s slen_app stake_overlay stake_app sdrop_app slen_smap : lpi_str.

Lemma streq_spec a b : streq a b = true <-> a = b.
Proof. apply String.eqb_eq. Qed.

Lemma streq_refl a : streq a a = true.
Proof. by apply streq_spec. Qed.

Lemma streq_neq a b : streq a b = false <-> a <> b.
Proof. apply String.eqb_neq. Qed.

Lemma ord_range c : 0 <= ord c < 256.
Proof. unfold ord. pose proof (N_ascii_bounded c). lia. Qed.

Lemma chr_ord c : chr (ord c) = c.
Proof.
  unfold chr. rewrite uwrap_id by apply ord_range.
  unfold ord. rewrite N2Z.id. apply ascii_N_embedding.
Qed.

Lemma ord_chr z : ord (chr z) = u8 z.
Proof.
  unfold chr, ord. pose proof (uwrap_range 8 z ltac:(lia)).
  change (2 ^ 8) with 256 in *.
  rewrite N_ascii_embedding by lia. lia.
Qed.

Lemma supd_app c d s t : supd (slen s) c (s +:+ String d t) = s +:+ String c t.
Proof.
  unfold supd, slen. rewrite Nat2Z.id.
  induction s as [|e s IH]; [done|]. rewrite !app_cons_s. cbn. by rewrite IH.
Qed.

Lemma snth_app d s t : snth (slen s) (s +:+ String d t) = d.
Proof.
  unfold snth, slen. rewrite Nat2Z.id.
  induction s as [|e s IH]; [done|]. rewrite !app_cons_s. cbn. by rewrite IH.
Qed.

Lemma cstr_app_nul s t : cstr s = s -> cstr (s +:+ String nul t) = s.
Proof.
  induction s as [|c s IH]; [done|]. rewrite app_cons_s. cbn.
  destruct (Ascii.eqb c nul); [done|]. intros [= H]. by rewrite IH.
Qed.

Lemma slen_srepeat n c : slen (srepeat n c) = Z.of_nat n.
Proof. unfold slen. induction n; cbn; lia. Qed.

(** A list of pieces as one string. *)
Fixpoint sconcat (l : list string) : string :=
  match l with [] => EmptyString | s :: l => s +:+ sconcat l end.

Lemma sconcat_app l l' : sconcat (l ++ l') = sconcat l +:+ sconcat l'.
Proof. induction l as [|s l IH]; [done|]. cbn. by rewrite IH, app_assoc_s. Qed.

(** ** Fixed-width integers in memory

    [sizeof (int)] bytes, least significant first. *)
Definition encode_int (z : Z) : string :=
  String (chr z) (String (chr (Z.shiftr z 8))
    (String (chr (Z.shiftr z 16)) (String (chr (Z.shiftr z 24)) EmptyString))).

Definition decode_int (s : string) : Z :=
  i32 (ord (snth 0 s) + 2 ^ 8 * ord (snth 1 s) + 2 ^ 16 * ord (snth 2 s) + 2 ^ 24 * ord (snth 3 s)).

Definition sizeof_int : Z := 4.

Lemma slen_encode_int z : slen (encode_int z) = sizeof_int.
Proof. done. Qed.

Lemma decode_encode_int_app z s : decode_int (encode_int z +:+ s) = i32 z.
Proof.
  unfold decode_int, encode_int. rewrite !app_cons_s.
  change (snth 0 ?s) with (snth_nat 0 s). change (snth 1 ?s) with (snth_nat 1 s).
  change (snth 2 ?s) with (snth_nat 2 s). change (snth 3 ?s) with (snth_nat 3 s).
  cbn [snth_nat]. rewrite !ord_chr. apply swrap_congr.
  rewrite !Z.shiftr_div_pow2 by lia. unfold uwrap.
  change (2 ^ 32) with 4294967296. change (2 ^ 8) with 256.
  change (2 ^ 16) with 65536. change (2 ^ 24) with 16777216.
  Z.div_mod_to_equations. lia.
Qed.

Lemma decode_encode_int z : decode_int (encode_int z) = i32 z.
Proof. by rewrite <- (decode_encode_int_app z ""), app_nil_r_s. Qed.

(** ** Argument vectors *)
Definition argc (argv : list string) : Z := Z.of_nat (length argv).
Definition nth_arg (argv : list string) (i : Z) : string := nth (Z.to_nat i) argv "".
Notation "argv .[ i ]" := (nth_arg argv i) (at level 1, left associativity, format "argv .[ i ]") : c_scope.

(** The argument check of most programs, on a well-formed command line. *)
Lemma usage_guard n m s t : n = m -> s <> t -> (n !=? m) || streq s t = false.
Proof. intros -> H. rewrite Z.eqb_refl. cbn. by apply streq_neq. Qed.

(** ** Tactics *)

(** Splits on the [if], [match] and [let '(..)] at the head of the goal. *)
Ltac case_if :=
  match goal with
  | |- context [if ?b then _ else _] => destruct b eqn:?
  end.

(** Turns boolean tests of Z and of strings into propositions. *)
Ltac bool_props :=
  repeat match goal with
  | H : (_ && _)%bool = true |- _ => apply andb_prop in H; destruct H
  | H : (_ || _)%bool = false |- _ => apply orb_false_elim in H; destruct H
  | H : (_ || _)%bool = true |- _ => apply orb_prop in H
  | H : negb _ = true |- _ => apply negb_true_iff in H
  | H : negb _ = false |- _ => apply negb_false_iff in H
  | H : Z.eqb _ _ = true |- _ => apply Z.eqb_eq in H
  | H : Z.eqb _ _ = false |- _ => apply Z.eqb_neq in H
  | H : Z.ltb _ _ = true |- _ => apply Z.ltb_lt in H
  | H : Z.ltb _ _ = false |- _ => apply Z.ltb_ge in H
  | H : Z.leb _ _ = true |- _ => apply Z.leb_le in H
  | H : Z.leb _ _ = false |- _ => apply Z.leb_gt in H
  | H : Z.gtb _ _ = _ |- _ => rewrite Z.gtb_ltb in H
  | H : Z.geb _ _ = _ |- _ => rewrite Z.geb_leb in H
  | H : streq _ _ = true |- _ => apply streq_spec in H
  | H : streq _ _ = false |- _ => apply streq_neq in H
  end.
