(* ===== verification/CLib.v ===== *)
(** * The C library functions the programs compute with

    ISO C and POSIX functions whose result is a function of their arguments:
    number formatting and [printf], [strtol]/[strtoul], [sscanf] of one
    integer, the character classes, [strncpy], [snprintf], [getopt] in the
    permuting form of the GNU library, [dirname] and [basename]. *)

From S2P Require Import Prelude.

(** ** Numbers as text *)

Definition digit_chr (d : Z) : ascii :=
  if d <? 10 then chr (48 + d) else chr (87 + d).

Fixpoint digits (fuel : nat) (b n : Z) (acc : string) : string :=
  match fuel with
  | O => acc
  | S fuel =>
      let acc := String (digit_chr (n mod b)) acc in
      if n <? b then acc else digits fuel b (n / b) acc
  end.

(** The digits of [n >= 0] in base [b]; a number has at most as many digits
    as bits, so the fuel is enough. *)
Definition show_base (b n : Z) : string := digits (S (Z.to_nat (Z.log2 n))) b n "".

Definition show_int (n : Z) : string :=
  if n <? 0 then String "-" (show_base 10 (- n)) else show_base 10 n.

(** ** printf

    [format fmt args] is the text [printf (fmt, args)] produces. The escapes of
    the C literal are interpreted here too, so a format is written as in the
    source: \n, \t, \\ and three-digit octal escapes. *)
Inductive farg := Int (z : Z) | Str (s : string).

Record fspec := FSpec { f_zero : bool; f_width : Z; f_prec : option Z; f_dot : bool }.
Definition fspec0 := FSpec false 0 None false.

Definition pad (zero : bool) (w : Z) (s : string) : string :=
  srepeat (Z.to_nat (w - slen s)) (if zero then "0" else " ")%char +:+ s.

Definition conv (c : ascii) (sp : fspec) (a : farg) : string :=
  let p := pad (f_zero sp) (f_width sp) in
  match a with
  | Int z =>
      if Ascii.eqb c "d" || Ascii.eqb c "i" || Ascii.eqb c "u" then p (show_int z)
      else if Ascii.eqb c "x" then p (show_base 16 z)
      else if Ascii.eqb c "o" then p (show_base 8 z)
      else if Ascii.eqb c "c" then p (String (chr z) "")
      else if Ascii.eqb c "p" then p ("0x" +:+ show_base 16 z)
      else ""
  | Str s =>
      let s := cstr s in
      p match f_prec sp with Some n => if n <? 0 then s else stake n s | None => s end
  end.

Definition digit_of (c : ascii) : Z := ord c - 48.
Definition is_digit (c : ascii) : bool := (48 <=? ord c) && (ord c <=? 57).

Inductive fstate := FLit | FEsc | FOct (n : nat) (v : Z) | FConv (sp : fspec).

Fixpoint format_from (st : fstate) (fmt : string) (args : list farg) : string :=
  match fmt with
  | EmptyString => EmptyString
  | String c fmt =>
      match st with
      | FLit =>
          if Ascii.eqb c "%" then format_from (FConv fspec0) fmt args
          else if Ascii.eqb c "\" then format_from FEsc fmt args
          else String c (format_from FLit fmt args)
      | FEsc =>
          if Ascii.eqb c "n" then String "010" (format_from FLit fmt args)
          else if Ascii.eqb c "t" then String "009" (format_from FLit fmt args)
          else if is_digit c then format_from (FOct 2 (digit_of c)) fmt args
          else String c (format_from FLit fmt args)
      | FOct (S (S n)) v => format_from (FOct (S n) (8 * v + digit_of c)) fmt args
      | FOct _ v => String (chr (8 * v + digit_of c)) (format_from FLit fmt args)
      | FConv sp =>
          if Ascii.eqb c "%" then String "%" (format_from FLit fmt args)
          else if Ascii.eqb c "." then
            format_from (FConv (FSpec (f_zero sp) (f_width sp) (Some 0) true)) fmt args
          else if Ascii.eqb c "*" then
            match args with
            | Int n :: args =>
                format_from (FConv (if f_dot sp then FSpec (f_zero sp) (f_width sp) (Some n) true
                                    else FSpec (f_zero sp) n (f_prec sp) false)) fmt args
            | _ => format_from (FConv sp) fmt args
            end
          else if is_digit c then
            let d := digit_of c in
            format_from (FConv (if f_dot sp then
                FSpec (f_zero sp) (f_width sp)
                  (Some (10 * default 0 (f_prec sp) + d)) true
              else if (d ==? 0) && (f_width sp ==? 0) then FSpec true 0 (f_prec sp) false
              else FSpec (f_zero sp) (10 * f_width sp + d) (f_prec sp) false)) fmt args
          else if Ascii.eqb c "l" || Ascii.eqb c "z" then format_from (FConv sp) fmt args
          else match args with
               | a :: args => conv c sp a +:+ format_from FLit fmt args
               | [] => format_from FLit fmt []
               end
      end
  end.

Definition format (fmt : string) (args : list farg) : string := format_from FLit fmt args.
#[global] Arguments format : simpl never.
#[global] Strategy 1000 [format].

(** [snprintf (buf, n, ..)] keeps at most [n - 1] characters. *)
Definition snprintf (n : Z) (fmt : string) (args : list farg) : string :=
  stake (n - 1) (format fmt args).

(** [strncpy (dst, src, n)] into the first bytes of [dst]: the characters of
    [src], padded with NULs up to [n]. *)
Definition strncpy (src : string) (n : Z) (dst : string) : string :=
  let s := stake n src in
  overlay (s +:+ srepeat (Z.to_nat (n - slen s)) nul) dst.

(** ** Character classes (the C locale) *)
Definition isspace (c : ascii) : bool := (ord c ==? 32) || ((9 <=? ord c) && (ord c <=? 13)).
Definition isprint (c : ascii) : bool := (32 <=? ord c) && (ord c <=? 126).
Definition toupper (c : ascii) : ascii :=
  if (97 <=? ord c) && (ord c <=? 122) then chr (ord c - 32) else c.

(** [strchr (s, c) != NULL]; the terminating NUL is part of the string. *)
Fixpoint strchr (s : string) (c : ascii) : bool :=
  match s with
  | EmptyString => Ascii.eqb c nul
  | String d s => Ascii.eqb d c || strchr s c
  end.

(** ** strtol and strtoul *)

Definition digit_val (c : ascii) : option Z :=
  let z := ord c in
  if (48 <=? z) && (z <=? 57) then Some (z - 48)
  else if (97 <=? z) && (z <=? 122) then Some (z - 87)
  else if (65 <=? z) && (z <=? 90) then Some (z - 55)
  else None.

(** Digits of base [b], most significant first: the value, whether there was a
    digit, and the rest of the string. *)
Fixpoint scan_digits (b : Z) (s : string) (acc : Z) (some : bool) : Z * bool * string :=
  match s with
  | String c s' =>
      match digit_val c with
      | Some d => if d <? b then scan_digits b s' (acc * b + d) true else (acc, some, s)
      | None => (acc, some, s)
      end
  | EmptyString => (acc, some, s)
  end.

Fixpoint skip_space (s : string) : string :=
  match s with
  | String c s' => if isspace c then skip_space s' else s
  | EmptyString => s
  end.

Definition scan_sign (s : string) : bool * string :=
  match s with
  | String "-" s' => (true, s')
  | String "+" s' => (false, s')
  | _ => (false, s)
  end.

Definition is_hex_digit (c : ascii) : bool :=
  match digit_val c with Some d => d <? 16 | None => false end.

(** The base and the digits after the optional prefix: base 0 reads 0x and 0
    prefixes, and 0x counts as a prefix only before a hexadecimal digit. *)
Definition scan_base (base : Z) (s : string) : Z * string :=
  match s with
  | String "0" (String x (String d _ as s')) =>
      if (Ascii.eqb x "x" || Ascii.eqb x "X") && is_hex_digit d && ((base ==? 0) || (base ==? 16))
      then (16, s')
      else (if base ==? 0 then 8 else base, s)
  | String "0" _ => (if base ==? 0 then 8 else base, s)
  | _ => (if base ==? 0 then 10 else base, s)
  end.

Record strto := StrTo { st_val : Z; st_range : bool; st_conv : bool; st_end : string }.

(** The magnitude and sign [strtol] and [strtoul] read. *)
Definition scan_number (base : Z) (str : string) : option (bool * Z * string) :=
  let '(neg, s) := scan_sign (skip_space str) in
  let '(b, s) := scan_base base s in
  let '(v, some, rest) := scan_digits b s 0 false in
  if some : bool then Some (neg, v, rest) else None.

Definition strtol_ (str : string) (base : Z) : strto :=
  match scan_number base str with
  | None => StrTo 0 false false str
  | Some (neg, v, rest) =>
      let z := if neg : bool then - v else v in
      if z <? LONG_MIN then StrTo LONG_MIN true true rest
      else if LONG_MAX <? z then StrTo LONG_MAX true true rest
      else StrTo z false true rest
  end.

Definition strtoul_ (str : string) (base : Z) : strto :=
  match scan_number base str with
  | None => StrTo 0 false false str
  | Some (neg, v, rest) =>
      if ULONG_MAX <? v then StrTo ULONG_MAX true true rest
      else StrTo (if neg : bool then u64 (- v) else v) false true rest
  end.

(** [sscanf (str, "%i", &n)] and ["%li"]: the number, or [None] when nothing
    was converted. *)
Definition sscanf_long (str : string) : option Z :=
  let r := strtol_ str 0 in if st_conv r then Some (st_val r) else None.
(** What [sscanf] returns: the number of conversions, or EOF when the input ends
    before the first one. *)
Definition sscanf_ret (str : string) : Z :=
  if st_conv (strtol_ str 0) then 1 else if streq (skip_space str) "" then -1 else 0.
Definition sscanf_int (str : string) : option Z := option_map i32 (sscanf_long str).

(** ** getopt

    The permuting [getopt] of the GNU library with short options: operands
    found before an option are set aside, in order, and ["--"] ends the
    options. [g_used] holds the elements already consumed. *)
Record gopt := GOpt {
  g_used : list string; g_non : list string; g_rest : list string; g_cur : string }.

Definition getopt_init (argv : list string) : gopt := GOpt [] [] (tail argv) "".

Inductive gopt_ans :=
| GEnd                                  (* -1 *)
| GFound (c : ascii) (optarg : string)
| GError (msg : string).                (* '?', and the diagnostic *)

(** Whether [c] is an option of [optstring], and whether it takes an argument. *)
Fixpoint opt_lookup (optstring : string) (c : ascii) : option bool :=
  match optstring with
  | EmptyString => None
  | String d s =>
      if Ascii.eqb d c && negb (Ascii.eqb c ":") then
        Some match s with String ":" _ => true | _ => false end
      else opt_lookup s c
  end.

Definition is_option (a : string) : bool :=
  match a with String "-" (String _ _) => true | _ => false end.

(** The next element that is an option, with the operands before it set aside. *)
Fixpoint gopt_advance (used non rest : list string) : option gopt * gopt :=
  match rest with
  | [] => (None, GOpt used non [] "")
  | a :: rest =>
      if streq a "--" then (None, GOpt (used ++ [a]) (non ++ rest) [] "")
      else if is_option a then
        let g := GOpt (used ++ [a]) non rest (sdrop 1 a) in (Some g, g)
      else gopt_advance used (non ++ [a]) rest
  end.

Definition gopt_char (optstring : string) (c : ascii) (g : gopt) : gopt_ans * gopt :=
  match opt_lookup optstring c with
  | None => (GError (format "%s -- '%c'\n" [Str "invalid option"; Int (ord c)]), g)
  | Some false => (GFound c "", g)
  | Some true =>
      match g_cur g, g_rest g with
      | EmptyString, [] =>
          (GError (format "%s -- '%c'\n" [Str "option requires an argument"; Int (ord c)]), g)
      | EmptyString, a :: rest => (GFound c a, GOpt (g_used g ++ [a]) (g_non g) rest "")
      | cur, _ => (GFound c cur, GOpt (g_used g) (g_non g) (g_rest g) "")
      end
  end.

Definition getopt_step (optstring : string) (g : gopt) : gopt_ans * gopt :=
  match g_cur g with
  | String c cur => gopt_char optstring c (GOpt (g_used g) (g_non g) (g_rest g) cur)
  | EmptyString =>
      match gopt_advance (g_used g) (g_non g) (g_rest g) with
      | (Some g', _) =>
          match g_cur g' with
          | String c cur => gopt_char optstring c (GOpt (g_used g') (g_non g') (g_rest g') cur)
          | EmptyString => (GEnd, g')
          end
      | (None, g') => (GEnd, g')
      end
  end.

(** After the end of the options: the permuted vector and [optind]. *)
Definition getopt_argv (argv : list string) (g : gopt) : list string :=
  firstn 1 argv ++ g_used g ++ g_non g ++ g_rest g.
Definition optind (g : gopt) : Z := 1 + Z.of_nat (length (g_used g)).

(** ** dirname and basename *)

Fixpoint srev_app (s t : string) : string :=
  match s with EmptyString => t | String c s => srev_app s (String c t) end.
Definition srev (s : string) : string := srev_app s "".

Fixpoint drop_slashes (s : string) : string :=
  match s with String "/" s' => drop_slashes s' | _ => s end.
Fixpoint take_to_slash (s : string) : string :=
  match s with
  | String c s' => if Ascii.eqb c "/" then "" else String c (take_to_slash s')
  | EmptyString => EmptyString
  end.
Fixpoint drop_to_slash (s : string) : string :=
  match s with
  | String c s' => if Ascii.eqb c "/" then s else drop_to_slash s'
  | EmptyString => EmptyString
  end.

Definition basename (path : string) : string :=
  match path with
  | EmptyString => "."
  | _ => match drop_slashes (srev path) with
         | EmptyString => "/"
         | r => srev (take_to_slash r)
         end
  end.

Definition dirname (path : string) : string :=
  match drop_slashes (srev path) with
  | EmptyString => match path with EmptyString => "." | _ => "/" end
  | r => match drop_to_slash r with
         | EmptyString => "."
         | r => match drop_slashes r with EmptyString => "/" | r => srev r end
         end
  end.

(** ** Lemmas *)

Lemma digit_val_chr d : 0 <= d < 36 -> digit_val (digit_chr d) = Some d.
Proof.
  intros Hd. unfold digit_chr, digit_val.
  destruct (Z.ltb_spec d 10); rewrite ord_chr, uwrap_id by lia.
  - rewrite (proj2 (Z.leb_le 48 _)), (proj2 (Z.leb_le _ 57)) by lia. cbn. f_equal. lia.
  - rewrite (proj2 (Z.leb_gt _ 57)), (proj2 (Z.leb_le 97 _)), (proj2 (Z.leb_le _ 122)) by lia.
    rewrite andb_false_r. cbn. f_equal. lia.
Qed.

Lemma scan_digits_digits b fuel n acc some :
  2 <= b <= 36 -> 0 <= n < 2 ^ Z.of_nat fuel -> (0 < fuel)%nat ->
  scan_digits b (digits fuel b n acc) 0 some = scan_digits b acc n true.
Proof.
  intros Hb. revert n acc. induction fuel as [|fuel IH]; intros n acc Hn Hf; [lia|].
  cbn [digits]. destruct (Z.ltb_spec n b).
  - cbn [scan_digits]. rewrite Z.mod_small, digit_val_chr by lia.
    by rewrite (proj2 (Z.ltb_lt _ _)) by lia.
  - rewrite Nat2Z.inj_succ, Z.pow_succ_r in Hn by lia.
    assert (0 <= n / b < 2 ^ Z.of_nat fuel) as Hq.
    { split; [apply Z.div_pos; lia|]. apply Z.div_lt_upper_bound; nia. }
    pose proof (Z.mod_pos_bound n b ltac:(lia)) as Hr.
    assert (1 <= n / b) by (apply Z.div_le_lower_bound; lia).
    destruct fuel as [|fuel]; [cbn in Hq; lia|].
    rewrite IH by lia. cbn [scan_digits]. rewrite digit_val_chr by lia.
    rewrite (proj2 (Z.ltb_lt _ _)) by lia. f_equal.
    pose proof (Z.div_mod n b). lia.
Qed.

Lemma log2_fuel n : 0 <= n -> n < 2 ^ Z.of_nat (S (Z.to_nat (Z.log2 n))).
Proof.
  intros Hn. rewrite Nat2Z.inj_succ, Z2Nat.id by apply Z.log2_nonneg.
  destruct (Z.eq_dec n 0) as [->|]; [done|]. apply Z.log2_spec. lia.
Qed.

Lemma scan_digits_show b n some :
  2 <= b <= 36 -> 0 <= n -> scan_digits b (show_base b n) 0 some = (n, true, "").
Proof.
  intros Hb Hn. unfold show_base.
  rewrite scan_digits_digits; [done|lia| |lia].
  split; [lia|]. by apply log2_fuel.
Qed.

(** The text of a positive number starts with a nonzero digit. *)
Lemma digits_head b fuel n acc :
  2 <= b -> 0 < n < 2 ^ Z.of_nat fuel ->
  exists d s, digits fuel b n acc = String (digit_chr d) s /\ 1 <= d < b.
Proof.
  intros Hb. revert n acc. induction fuel as [|fuel IH]; intros n acc Hn; [cbn in Hn; lia|].
  cbn [digits]. destruct (Z.ltb_spec n b).
  - exists n, acc. rewrite Z.mod_small by lia. split; [done|lia].
  - rewrite Nat2Z.inj_succ, Z.pow_succ_r in Hn by lia.
    apply IH. split; [|apply Z.div_lt_upper_bound; nia].
    apply Z.lt_le_trans with 1; [lia|]. apply Z.div_le_lower_bound; lia.
Qed.

Lemma show_base_head n :
  0 < n -> exists d s, show_base 10 n = String (digit_chr d) s /\ 1 <= d < 10.
Proof. intros. apply digits_head; [lia|]. split; [lia|]. apply log2_fuel. lia. Qed.

(** A text that starts with a nonzero decimal digit is read as it stands. *)
Lemma scan_unsigned base d s :
  base = 0 \/ base = 10 -> 1 <= d < 10 ->
  scan_base base (String (digit_chr d) s) = (10, String (digit_chr d) s) /\
  skip_space (String (digit_chr d) s) = String (digit_chr d) s /\
  scan_sign (String (digit_chr d) s) = (false, String (digit_chr d) s).
Proof.
  intros Hb Hd.
  assert (d = 1 \/ d = 2 \/ d = 3 \/ d = 4 \/ d = 5 \/ d = 6 \/ d = 7 \/ d = 8 \/ d = 9) as H by lia.
  destruct Hb as [-> | ->]; repeat destruct H as [-> | H]; try subst d; done.
Qed.

Lemma scan_show_pos base n :
  base = 0 \/ base = 10 -> 0 <= n ->
  skip_space (show_base 10 n) = show_base 10 n /\
  scan_sign (show_base 10 n) = (false, show_base 10 n) /\
  exists b, scan_base base (show_base 10 n) = (b, show_base 10 n) /\
    scan_digits b (show_base 10 n) 0 false = (n, true, "").
Proof.
  intros Hb Hn. destruct (Z.eq_dec n 0) as [->|Hnz].
  - repeat (split; [done|]). destruct Hb as [-> | ->]; eexists; split; reflexivity.
  - destruct (show_base_head n) as (d & s & Hs & Hd); [lia|].
    destruct (scan_unsigned base d s Hb Hd) as (H1 & H2 & H3). rewrite <- Hs in *.
    repeat (split; [done|]). exists 10. split; [done|]. apply scan_digits_show; lia.
Qed.

(** Reading back a printed number. *)
Lemma scan_number_show base n :
  base = 0 \/ base = 10 ->
  scan_number base (show_int n) = Some (n <? 0, Z.abs n, "").
Proof.
  intros Hb. unfold scan_number, show_int. destruct (Z.ltb_spec n 0).
  - destruct (scan_show_pos base (- n) Hb ltac:(lia)) as (_ & _ & b & H1 & H2).
    cbn [skip_space scan_sign]. change (isspace "-") with false. cbv iota.
    cbn [scan_sign]. rewrite H1. cbv iota beta. rewrite H2. cbn. do 3 f_equal. lia.
  - destruct (scan_show_pos base n Hb ltac:(lia)) as (H3 & H4 & b & H1 & H2).
    rewrite H3, H4. cbv iota beta. rewrite H1. cbv iota beta. rewrite H2. do 3 f_equal. lia.
Qed.

Lemma strtol_show base n :
  base = 0 \/ base = 10 -> LONG_MIN <= n <= LONG_MAX ->
  strtol_ (show_int n) base = StrTo n false true "".
Proof.
  intros Hb Hn. unfold strtol_. rewrite scan_number_show by done. cbv iota beta.
  replace (if n <? 0 then - Z.abs n else Z.abs n) with n by (destruct (Z.ltb_spec n 0); lia).
  cbv zeta. rewrite (proj2 (Z.ltb_ge _ _)), (proj2 (Z.ltb_ge _ _)) by lia. done.
Qed.

Lemma strtoul_show base n :
  base = 0 \/ base = 10 -> 0 <= n <= ULONG_MAX ->
  strtoul_ (show_int n) base = StrTo n false true "".
Proof.
  intros Hb Hn. unfold strtoul_. rewrite scan_number_show by done. cbv iota beta.
  rewrite (proj2 (Z.ltb_ge n 0)), (proj2 (Z.ltb_ge _ _)) by lia.
  f_equal; lia.
Qed.

Lemma strtol_range str base :
  LONG_MIN <= st_val (strtol_ str base) <= LONG_MAX.
Proof.
  unfold strtol_. destruct (scan_number base str) as [[[neg v] rest]|].
  - cbv zeta. destruct neg; repeat case_if; cbn [st_val]; bool_props;
      unfold LONG_MIN, LONG_MAX in *; lia.
  - done.
Qed.

Lemma scan_digits_nonneg b s acc some :
  0 <= acc -> 2 <= b -> 0 <= (scan_digits b s acc some).1.1.
Proof.
  revert acc some. induction s as [|c s IH]; intros acc some Ha Hb; cbn [scan_digits]; [done|].
  destruct (digit_val c) as [d|] eqn:E; [|done]. destruct (d <? b); [|done].
  apply IH; [|done]. unfold digit_val in E. pose proof (ord_range c).
  repeat match type of E with context [if ?x then _ else _] => destruct x eqn:? end;
    bool_props; simplify_eq; nia.
Qed.
