(* ===== verification/Sys.v ===== *)
(** * System calls and the language the programs are written in

    [SysE] has one constructor per system call, or per library call whose
    answer is not a function of its arguments; a pointer result is an address,
    an out parameter is part of the answer. [ProcE] are the effects of a process
    on itself: [errno], the text given to stdio, process termination. A program
    is an interaction tree over both: no call is given a meaning here. *)

From S2P Require Import Prelude.
From S2P Require Import CLib.

(** ** Constants of the Linux headers *)
Definition EXIT_SUCCESS : Z := 0.
Definition EXIT_FAILURE : Z := 1.
Definition STDIN_FILENO : Z := 0.
Definition STDOUT_FILENO : Z := 1.

Definition EPERM : Z := 1.
Definition ENOENT : Z := 2.
Definition ESRCH : Z := 3.
Definition EINTR : Z := 4.
Definition EBADF : Z := 9.
Definition ECHILD : Z := 10.
Definition EAGAIN : Z := 11.
Definition EWOULDBLOCK : Z := 11.
Definition EACCES : Z := 13.
Definition EEXIST : Z := 17.
Definition EPIPE : Z := 32.
Definition ERANGE : Z := 34.
Definition EDEADLK : Z := 35.
Definition ENOSYS : Z := 38.

Definition O_RDONLY : Z := 0.
Definition O_WRONLY : Z := 1.
Definition O_RDWR : Z := 2.
Definition O_CREAT : Z := 64.
Definition O_EXCL : Z := 128.
Definition O_TRUNC : Z := 512.
Definition O_APPEND : Z := 1024.
Definition O_NONBLOCK : Z := 2048.

(** Mode bits, in the octal of sys/stat.h. *)
Definition S_ISUID : Z := 2048.
Definition S_ISGID : Z := 1024.
Definition S_ISVTX : Z := 512.
Definition S_IRUSR : Z := 256.
Definition S_IWUSR : Z := 128.
Definition S_IXUSR : Z := 64.
Definition S_IRGRP : Z := 32.
Definition S_IWGRP : Z := 16.
Definition S_IXGRP : Z := 8.
Definition S_IROTH : Z := 4.
Definition S_IWOTH : Z := 2.
Definition S_IXOTH : Z := 1.
Definition S_IRWXU : Z := 448.
Definition S_IRWXG : Z := 56.
Definition S_IRWXO : Z := 7.
Definition S_IFMT : Z := 61440.
Definition S_IFSOCK : Z := 49152.
Definition S_IFLNK : Z := 40960.
Definition S_IFREG : Z := 32768.
Definition S_IFBLK : Z := 24576.
Definition S_IFDIR : Z := 16384.
Definition S_IFCHR : Z := 8192.
Definition S_IFIFO : Z := 4096.

Definition SEEK_SET : Z := 0.
Definition SEEK_CUR : Z := 1.
Definition SEEK_END : Z := 2.

Definition IPC_PRIVATE : Z := 0.
Definition IPC_CREAT : Z := 512.
Definition IPC_EXCL : Z := 1024.
Definition IPC_NOWAIT : Z := 2048.

Definition SIGHUP : Z := 1.
Definition SIGINT : Z := 2.
Definition SIGQUIT : Z := 3.
Definition SIGUSR1 : Z := 10.
Definition SIGSEGV : Z := 11.
Definition SIGUSR2 : Z := 12.
Definition SIGPIPE : Z := 13.
Definition SIGTERM : Z := 15.
Definition SIGCHLD : Z := 17.
Definition SIGRTMAX : Z := 64.
Definition SA_SIGINFO : Z := 4.
Definition SA_ONSTACK : Z := 134217728.
Definition SA_RESTART : Z := 268435456.
Definition WNOHANG : Z := 1.

(** [a | b] on flags. *)
Infix ".|" := Z.lor (at level 50, left associativity) : Z_scope.
(** [a & m] as a condition. *)
Definition has_bit (a m : Z) : bool := Z.land a m !=? 0.

(** ** Structures of the system interface *)
Record stat_t := Stat {
  st_mode : Z; st_ino : Z; st_nlink : Z; st_uid : Z; st_gid : Z; st_rdev : Z;
  st_size : Z; st_blksize : Z; st_blocks : Z; st_atim : Z; st_mtim : Z; st_ctim : Z }.
Definition stat0 : stat_t := Stat 0 0 0 0 0 0 0 0 0 0 0 0.

Record passwd := Passwd { pw_name : string; pw_passwd : string; pw_uid : Z }.
Record group := Group { gr_name : string; gr_gid : Z }.
Record flock_t := Flock { l_type : Z; l_whence : Z; l_start : Z; l_len : Z; l_pid : Z }.
Record mq_attr := MqAttr { mq_flags : Z; mq_maxmsg : Z; mq_msgsize : Z; mq_curmsgs : Z }.
Record sembuf := Sembuf { sem_num : Z; sem_op : Z; sem_flg : Z }.
Record semid_ds := SemidDs { sem_nsems : Z; sem_ctime : Z; sem_otime : Z }.
Record addrinfo := Addrinfo { ai_family : Z; ai_socktype : Z; ai_addr : string }.
Record ftw_visit := FtwVisit {
  ftw_path : string; ftw_stat : stat_t; ftw_type : Z; ftw_base : Z; ftw_level : Z }.

Record tm := Tm {
  tm_sec : Z; tm_min : Z; tm_hour : Z; tm_mday : Z; tm_mon : Z; tm_year : Z;
  tm_wday : Z; tm_yday : Z; tm_isdst : Z }.

(** What a handler is, by the name of its C function. *)
Inductive sigfun := SIG_DFL | SIG_IGN | SigFun (name : string).
Inductive sigevent := SigevSignal (signo : Z) | SigevThread (fn : string).

(** ** Calls answered by the system *)
Variant SysE : Type -> Type :=
(* files *)
| Open (path : string) (flags mode : Z) : SysE Z
| Read (fd count : Z) : SysE (Z * string)
| Write (fd : Z) (data : string) : SysE Z
| Readv (fd : Z) (lens : list Z) : SysE (Z * string)
| Lseek (fd offset whence : Z) : SysE Z
| Close (fd : Z) : SysE Z
| Ftruncate (fd length : Z) : SysE Z
| Unlink (path : string) : SysE Z
| Remove (path : string) : SysE Z
| Mkdir (path : string) (mode : Z) : SysE Z
| Rmdir (path : string) : SysE Z
| Umask (mask : Z) : SysE Z
| StatPath (path : string) : SysE (Z * stat_t)
| Lstat (path : string) : SysE (Z * stat_t)
| Fstat (fd : Z) : SysE (Z * stat_t)
| Readlink (path : string) (size : Z) : SysE (Z * string)
| Realpath (path : string) : SysE (option string)
| Opendir (path : string) : SysE Z
| Readdir (dir : Z) : SysE (option string)
| Closedir (dir : Z) : SysE Z
| Nftw (path : string) (nopenfd flags : Z) : SysE (Z * list ftw_visit)
| Chown (path : string) (uid gid : Z) : SysE Z
| Mkstemp (template : string) : SysE (Z * string)
| Fcntl (fd cmd arg : Z) : SysE Z
| FcntlLock (fd cmd : Z) (fl : flock_t) : SysE (Z * flock_t)
| FlockFd (fd op : Z) : SysE Z
| Mkfifo (path : string) (mode : Z) : SysE Z
| Mount (source target : string) (fstype : option string) (flags : Z) (data : option string) : SysE Z
| Listxattr (path : string) (size : Z) : SysE (Z * string)
| Getxattr (path name : string) (size : Z) : SysE (Z * string)
| InotifyInit : SysE Z
| InotifyAddWatch (fd : Z) (path : string) (mask : Z) : SysE Z
(* memory *)
| Malloc (size : Z) : SysE Z
| Free (addr : Z) : SysE unit
| Strdup (s : string) : SysE bool
| Sbrk (incr : Z) : SysE Z
| Mmap (length prot flags fd offset : Z) : SysE Z
| Munmap (addr length : Z) : SysE Z
| Msync (addr length flags : Z) : SysE Z
| LoadBytes (addr n : Z) : SysE string
| StoreBytes (addr : Z) (data : string) : SysE unit
| LoadInt (addr : Z) : SysE Z
| StoreInt (addr v : Z) : SysE unit
| LoadString (addr : Z) : SysE string       (* the bytes before the first NUL *)
| Indeterminate (n : Z) : SysE string       (* of a variable that is declared without a value *)
(* processes *)
| Fork : SysE Z
| Wait : SysE Z
| Waitpid (pid options : Z) : SysE Z
| Getpid : SysE Z
| Getuid : SysE Z
| Sleep (secs : Z) : SysE Z
| Pause : SysE Z
| Pipe : SysE (Z * (Z * Z))
| Dup2 (fd fd2 : Z) : SysE Z
| Execlp (file : string) (args : list string) : SysE Z
| System (cmd : string) : SysE Z
| Acct (path : option string) : SysE Z
| Getenv (name : string) : SysE (option string)
| Time : SysE Z
(* identity *)
| Getppid : SysE Z
| Getresuid : SysE (Z * (Z * Z * Z))
| Getresgid : SysE (Z * (Z * Z * Z))
| Setfsuid (uid : Z) : SysE Z
| Setfsgid (gid : Z) : SysE Z
| Getgroups (size : Z) : SysE (Z * list Z)
(* the environment *)
| Environ : SysE (list string)
| Clearenv : SysE Z
| Putenv (s : string) : SysE Z
| Setenv (name value : string) (overwrite : Z) : SysE Z
| Unsetenv (name : string) : SysE Z
(* time *)
| Gettimeofday : SysE (Z * (Z * Z))
| Gmtime (t : Z) : SysE (option tm)
| Localtime (t : Z) : SysE (option tm)
| Mktime (t : tm) : SysE Z
| Ctime (t : Z) : SysE (option string)
| Asctime (t : tm) : SysE (option string)
| Strftime (size : Z) (fmt : string) (t : tm) : SysE (Z * string)
| Clock : SysE Z
| Times : SysE (Z * (Z * Z))
(* signals *)
| Sigaltstack (size : Z) : SysE Z
| StackAddr : SysE Z
| Kill (pid sig : Z) : SysE Z
| Sigqueue (pid sig value : Z) : SysE Z
| Signal (sig : Z) (h : sigfun) : SysE Z
| Sigaction (sig : Z) (h : sigfun) (mask flags : Z) : SysE Z
| Sigprocmask (how : Z) (set : option Z) : SysE (Z * Z)
| Sigpending : SysE (Z * Z)
| Sigsuspend (mask : Z) : SysE Z
(* threads: a condition wait is a sleep, which releases the mutex, and a wake,
   which takes it again; a thread function is named, its argument an address *)
| PthreadCreate (fn : string) (arg : Z) : SysE (Z * Z)
| PthreadJoin (tid : Z) : SysE (Z * Z)
| PthreadCancel (tid : Z) : SysE Z
| MutexLock (m : Z) : SysE Z
| MutexUnlock (m : Z) : SysE Z
| CondSleep (c m : Z) : SysE Z
| CondWake (c m : Z) : SysE Z
| CondSignal (c : Z) : SysE Z
(* POSIX IPC *)
| MqOpen (name : string) (oflag mode : Z) (attr : option mq_attr) : SysE Z
| MqGetattr (mqd : Z) : SysE (Z * mq_attr)
| MqSend (mqd : Z) (data : string) (prio : Z) : SysE Z
| MqReceive (mqd size : Z) : SysE (Z * string * Z)
| MqNotify (mqd : Z) (sev : sigevent) : SysE Z
| MqClose (mqd : Z) : SysE Z
| MqUnlink (name : string) : SysE Z
| SemOpen (name : string) (oflag mode value : Z) : SysE Z
| SemPost (sem : Z) : SysE Z
| SemWait (sem : Z) : SysE Z
| SemGetvalue (sem : Z) : SysE (Z * Z)
| SemUnlink (name : string) : SysE Z
| ShmOpen (name : string) (oflag mode : Z) : SysE Z
| ShmUnlink (name : string) : SysE Z
(* System V IPC *)
| Ftok (path : string) (id : Z) : SysE Z
| Msgget (key flags : Z) : SysE Z
| Msgsnd (id type : Z) (data : string) (flags : Z) : SysE Z
| Msgrcv (id size type flags : Z) : SysE (Z * Z * string)
| MsgctlRmid (id : Z) : SysE Z
| Semget (key nsems flags : Z) : SysE Z
| SemctlSetval (id num v : Z) : SysE Z
| SemctlStat (id : Z) : SysE (Z * semid_ds)
| SemctlGetall (id : Z) : SysE (Z * list Z)
| SemctlSetall (id : Z) (vals : list Z) : SysE Z
| SemctlGet (id num cmd : Z) : SysE Z
| SemctlRmid (id : Z) : SysE Z
| Semop (id : Z) (ops : list sembuf) : SysE Z
| Shmget (key size flags : Z) : SysE Z
| Shmat (id flags : Z) : SysE Z
| Shmdt (addr : Z) : SysE Z
| ShmctlRmid (id : Z) : SysE Z
(* sockets *)
| Socket (domain type : Z) : SysE Z
| Bind (fd : Z) (addr : string) : SysE Z
| Listen (fd backlog : Z) : SysE Z
| Accept (fd : Z) : SysE (Z * string)
| Connect (fd : Z) (addr : string) : SysE Z
| Setsockopt (fd level name value : Z) : SysE Z
| Sendto (fd : Z) (data addr : string) : SysE Z
| Recvfrom (fd size : Z) : SysE (Z * string * string)
| Getaddrinfo (host : option string) (service : string) (flags family socktype : Z)
    : SysE (Z * list addrinfo)
| Getnameinfo (addr : string) : SysE (Z * (string * string))
| InetPton (family : Z) (src : string) : SysE (Z * string)
| InetNtop (family : Z) (addr : string) : SysE (option string)
(* users, limits, terminal *)
| Getpwnam (name : string) : SysE (option passwd)
| Getpwuid (uid : Z) : SysE (option passwd)
| Getgrnam (name : string) : SysE (option group)
| Getgrgid (gid : Z) : SysE (option group)
| Getspnam (name : string) : SysE (option string)
| Getpass (prompt : string) : SysE (option string)
| Crypt (key salt : string) : SysE (option string)
| Sysconf (name : Z) : SysE Z
| Fpathconf (fd name : Z) : SysE Z
| Uname : SysE (Z * list string)
| Fgets (size : Z) : SysE (option string).

(** Whether an answer reports that the call failed. *)
Definition failed {X} (s : SysE X) : X -> bool :=
  match s in SysE X return X -> bool with
  | Open _ _ _ | Lseek _ _ _ | Close _ | Ftruncate _ _ | Unlink _ | Remove _
  | Mkdir _ _ | Rmdir _ | Closedir _ | Chown _ _ _ | Fcntl _ _ _ | FlockFd _ _
  | Mkfifo _ _ | Mount _ _ _ _ _ | InotifyInit | InotifyAddWatch _ _ _
  | Mmap _ _ _ _ _ | Munmap _ _ | Msync _ _ _ | Fork | Wait | Waitpid _ _
  | Dup2 _ _ | Execlp _ _ | Acct _ | Kill _ _ | Sigqueue _ _ _ | Signal _ _
  | Sigaction _ _ _ _ | MqOpen _ _ _ _ | MqSend _ _ _ | MqNotify _ _ | MqClose _
  | MqUnlink _ | SemOpen _ _ _ _ | SemPost _ | SemWait _ | SemUnlink _
  | ShmOpen _ _ _ | ShmUnlink _ | Ftok _ _ | Msgget _ _ | Msgsnd _ _ _ _
  | MsgctlRmid _ | Semget _ _ _ | SemctlSetval _ _ _ | SemctlSetall _ _
  | SemctlGet _ _ _ | SemctlRmid _ | Semop _ _ | Shmget _ _ _ | Shmat _ _
  | Shmdt _ | ShmctlRmid _ | Socket _ _ | Bind _ _ | Listen _ _ | Connect _ _
  | Setsockopt _ _ _ _ | Sysconf _ | Fpathconf _ _ | Setenv _ _ _ | Unsetenv _
  | Mktime _ | Clock | Sigaltstack _ => fun r => r ==? -1
  | Clearenv | Putenv _ => fun r => r !=? 0
  | Getresuid | Getresgid => fun '(r, _) => r ==? -1
  | Getgroups _ => fun '(r, _) => r ==? -1
  | Gettimeofday | Times => fun '(r, _) => r ==? -1
  | Gmtime _ | Localtime _ => fun o => match o with Some _ => false | None => true end
  | Ctime _ | Asctime _ => fun o => match o with Some _ => false | None => true end
  | Strftime _ _ _ => fun '(r, _) => r ==? 0
  | Getppid | Setfsuid _ | Setfsgid _ | StackAddr => fun _ => false
  | Environ => fun _ => false
  | PthreadCreate _ _ | PthreadJoin _ => fun '(r, _) => r !=? 0
  | PthreadCancel _ | MutexLock _ | MutexUnlock _ | CondSleep _ _ | CondWake _ _
  | CondSignal _ => fun r => r !=? 0
  | Write _ data => fun r => r !=? slen data
  | Sendto _ data _ => fun r => r !=? slen data
  | Read _ _ | Readv _ _ | Readlink _ _ | Mkstemp _ | Listxattr _ _
  | Getxattr _ _ _ => fun '(r, _) => r ==? -1
  | StatPath _ | Lstat _ | Fstat _ => fun '(r, _) => r ==? -1
  | Nftw _ _ _ => fun '(r, _) => r ==? -1
  | FcntlLock _ _ _ => fun '(r, _) => r ==? -1
  | Pipe => fun '(r, _) => r ==? -1
  | Sigprocmask _ _ | Sigpending => fun '(r, _) => r ==? -1
  | MqGetattr _ => fun '(r, _) => r ==? -1
  | MqReceive _ _ => fun '(r, _, _) => r ==? -1
  | SemGetvalue _ => fun '(r, _) => r ==? -1
  | Msgrcv _ _ _ _ => fun '(r, _, _) => r ==? -1
  | SemctlStat _ => fun '(r, _) => r ==? -1
  | SemctlGetall _ => fun '(r, _) => r ==? -1
  | Accept _ => fun '(r, _) => r ==? -1
  | Recvfrom _ _ => fun '(r, _, _) => r ==? -1
  | Getaddrinfo _ _ _ _ _ => fun '(r, _) => r !=? 0
  | Getnameinfo _ => fun '(r, _) => r !=? 0
  | InetPton _ _ => fun '(r, _) => r !=? 1
  | Uname => fun '(r, _) => r ==? -1
  | Opendir _ | Malloc _ => fun r => r ==? 0
  | Strdup _ => negb
  | Realpath _ | InetNtop _ _ | Getpass _ | Crypt _ _ | Fgets _ =>
      fun o => match o with Some _ => false | None => true end
  | Getpwnam _ | Getpwuid _ => fun o => match o with Some _ => false | None => true end
  | Getgrnam _ | Getgrgid _ => fun o => match o with Some _ => false | None => true end
  | Umask _ | Sbrk _ | Getpid | Getuid | Sleep _ | Pause | System _ | Sigsuspend _ => fun _ => false
  | Time => fun _ => false
  | Readdir _ | Getenv _ | Getspnam _ | LoadBytes _ _ | StoreBytes _ _ | LoadInt _
  | StoreInt _ _ | LoadString _ | Indeterminate _ | Free _ => fun _ => false
  end.

(** The answer of a system that supports no call: every call fails. *)
Definition refuse {X} (s : SysE X) : X :=
  match s in SysE X return X with
  | Umask _ | Sbrk _ | Opendir _ | Malloc _ | Getpid | Getuid | Sleep _ | System _ | Time => 0
  | Getppid | Setfsuid _ | Setfsgid _ | StackAddr => 0
  | Getresuid | Getresgid => (-1, (0, 0, 0))
  | Getgroups _ => (-1, [])
  | Environ => []
  | Gettimeofday | Times => (-1, (0, 0))
  | Gmtime _ | Localtime _ => None
  | Ctime _ | Asctime _ => None
  | Strftime _ _ _ => (0, "")
  | Read _ _ | Readv _ _ | Readlink _ _ | Mkstemp _ | Listxattr _ _ | Getxattr _ _ _ => (-1, "")
  | PthreadCreate _ _ | PthreadJoin _ => (EAGAIN, 0)
  | PthreadCancel _ | MutexLock _ | MutexUnlock _ | CondSleep _ _ | CondWake _ _
  | CondSignal _ => EAGAIN
  | StatPath _ | Lstat _ | Fstat _ => (-1, stat0)
  | Nftw _ _ _ => (-1, [])
  | FcntlLock _ _ fl => (-1, fl)
  | Pipe => (-1, (0, 0))
  | Sigprocmask _ _ | Sigpending => (-1, 0)
  | MqGetattr _ => (-1, MqAttr 0 0 0 0)
  | MqReceive _ _ => (-1, "", 0)
  | SemGetvalue _ => (-1, 0)
  | Msgrcv _ _ _ _ => (-1, 0, "")
  | SemctlStat _ => (-1, SemidDs 0 0 0)
  | SemctlGetall _ => (-1, [])
  | Accept _ => (-1, "")
  | Recvfrom _ _ => (-1, "", "")
  | Getaddrinfo _ _ _ _ _ => (-1, [])
  | Getnameinfo _ => (-1, ("", ""))
  | InetPton _ _ => (-1, "")
  | Uname => (-1, [])
  | Strdup _ => false
  | Realpath _ | InetNtop _ _ | Getpass _ | Crypt _ _ | Fgets _ => None
  | Readdir _ | Getenv _ | Getspnam _ => None
  | Getpwnam _ | Getpwuid _ => None
  | Getgrnam _ | Getgrgid _ => None
  | LoadBytes _ _ | LoadString _ | Indeterminate _ => ""
  | LoadInt _ => 0
  | StoreBytes _ _ | StoreInt _ _ | Free _ => tt
  | _ => -1
  end.

(** ** Effects of a process on itself *)
Inductive stream := stdout | stderr.
#[export] Instance stream_eq_dec : EqDecision stream.
Proof. solve_decision. Defined.

Variant ProcE : Type -> Type :=
| GetErrno : ProcE Z
| SetErrno (e : Z) : ProcE unit
| Print (f : stream) (text : string) : ProcE unit
| Fflush (f : stream) : ProcE unit
| Setbuf (f : stream) : ProcE unit
| Atexit (fn : string) : ProcE Z
| ExitE (status : Z) : ProcE void     (* exit *)
| ImmExitE (status : Z) : ProcE void  (* _exit *)
| AbortE : ProcE void.                (* abort *)

Definition E : Type -> Type := ProcE +' SysE.
Abbreviation prog := (itree E).

(** Text of the platform, whatever it is: error and signal descriptions, and
    times. *)
Class CText := {
  strerror : Z -> string;
  strsignal : Z -> string;
  gai_strerror : Z -> string;
  ctime : Z -> string;
  ratio2 : Z -> Z -> string   (* a quotient in the format %0.2lf *) }.

(** A text of the platform to evaluate programs with: the numbers themselves. *)
Definition plain_text : CText := {|
  strerror := show_int; strsignal := show_int; gai_strerror := show_int; ctime := show_int;
  ratio2 a b := format "%d/%d" [Int a; Int b] |}.

(** ** Statements *)
Definition sys {X} (s : SysE X) : prog X := ITree.trigger (inr1 s).
Definition errno : prog Z := ITree.trigger (inl1 GetErrno).
Definition set_errno (e : Z) : prog unit := ITree.trigger (inl1 (SetErrno e)).
Definition fprintf (f : stream) (fmt : string) (args : list farg) : prog unit :=
  ITree.trigger (inl1 (Print f (format fmt args))).
Definition printf (fmt : string) (args : list farg) : prog unit := fprintf stdout fmt args.
Definition fputs (f : stream) (s : string) : prog unit := ITree.trigger (inl1 (Print f s)).
Definition fflush (f : stream) : prog unit := ITree.trigger (inl1 (Fflush f)).
Definition setbuf (f : stream) : prog unit := ITree.trigger (inl1 (Setbuf f)).
Definition atexit (fn : string) : prog Z := ITree.trigger (inl1 (Atexit fn)).
Definition exit {R} (status : Z) : prog R :=
  Vis (inl1 (ExitE status)) (fun v : void => match v with end).
Definition _exit {R} (status : Z) : prog R :=
  Vis (inl1 (ImmExitE status)) (fun v : void => match v with end).
Definition abort {R} : prog R := Vis (inl1 AbortE) (fun v : void => match v with end).

(** An access through a null pointer: the process dies by a signal. *)
Definition crash {R} : prog R := abort.

(** [if (b) t] *)
Definition when (b : bool) (t : prog unit) : prog unit := if b then t else Ret tt.

(** [for (i = lo; i < hi; ++i) body], with the variables [a] the body updates. *)
Definition for_loop {A} (lo hi : Z) (body : Z -> A -> prog A) (a : A) : prog A :=
  ITree.iter (fun '(i, a) =>
    if i <? hi then a' <- body i a ;; Ret (inl (i + 1, a')) else Ret (inr a)) (lo, a).
Definition for_ (lo hi : Z) (body : Z -> prog unit) : prog unit :=
  for_loop lo hi (fun i _ => body i) tt.

(** [strtol] and [strtoul] report a range error through [errno]. *)
Definition strtol (str : string) (base : Z) : prog strto :=
  let r := strtol_ str base in when (st_range r) (set_errno ERANGE) ;; Ret r.
Definition strtoul (str : string) (base : Z) : prog strto :=
  let r := strtoul_ str base in when (st_range r) (set_errno ERANGE) ;; Ret r.

(** [getopt (argc, argv, optstring)]: the option, [None] for -1 and ['?'] after
    a diagnostic on stderr, with [optarg]. *)
Definition getopt (argv : list string) (optstring : string) (g : gopt)
    : prog (option ascii * string * gopt) :=
  match getopt_step optstring g with
  | (GEnd, g) => Ret (None, "", g)
  | (GFound c optarg, g) => Ret (Some c, optarg, g)
  | (GError msg, g) => fprintf stderr "%s: %s" [Str (nth_arg argv 0); Str msg] ;; Ret (Some "?"%char, "", g)
  end.
