(* ===== verification/Sem.v ===== *)
(** * Running a program against a system

    The kernel is a parameter: a state type and an answer to every call. [run]
    executes a program with fuel; [wp] says that a program terminates and that
    its outcome and final state satisfy a postcondition, whatever the kernel
    answers. [wp] is proved equivalent to the existence of a terminating run. *)

From S2P Require Import Prelude.
From S2P Require Import CLib.
From S2P Require Import Sys.

(** The answer to a call may set [errno] ([Some e]) or leave it ([None]). *)
Class Kernel := {
  kstate : Type;
  kcall : forall X, SysE X -> kstate -> X * option Z * kstate }.
Arguments kcall {_ X} s k.

(** What a process does, in order: its calls with their answers and the text it
    hands to stdio. *)
Inductive event :=
| ECall {X} (s : SysE X) (x : X)
| EPrint (f : stream) (text : string)
| EFlush (f : stream)
| ESetbuf (f : stream)
| EAtexit (fn : string).

Inductive stop := Exited (status : Z) | ImmExited (status : Z) | Aborted.
Inductive res (R : Type) := Returned (r : R) | Stopped (s : stop).
Arguments Returned {R} r.
Arguments Stopped {R} s.

Section Semantics.
Context `{K : Kernel}.

Record St := mkSt { s_errno : Z; s_log : list event; s_kern : kstate }.

Definition add_ev (ev : event) (st : St) : St :=
  mkSt (s_errno st) (s_log st ++ [ev]) (s_kern st).

(** The state after the call [s], answered by the kernel. *)
Definition answer {X} (s : SysE X) (st : St) : X := (kcall s (s_kern st)).1.1.
Definition after {X} (s : SysE X) (st : St) : St :=
  let '(x, e, k) := kcall s (s_kern st) in
  mkSt (default (s_errno st) e) (s_log st ++ [ECall s x]) k.

Definition stepE {X} (e : E X) (st : St) : (X * St) + stop :=
  match e with
  | inr1 s => inl (answer s st, after s st)
  | inl1 p =>
      match p in ProcE X return (X * St) + stop with
      | GetErrno => inl (s_errno st, st)
      | SetErrno e => inl (tt, mkSt e (s_log st) (s_kern st))
      | Print f text => inl (tt, add_ev (EPrint f text) st)
      | Fflush f => inl (tt, add_ev (EFlush f) st)
      | Setbuf f => inl (tt, add_ev (ESetbuf f) st)
      | Atexit fn => inl (0, add_ev (EAtexit fn) st)
      | ExitE c => inr (Exited c)
      | ImmExitE c => inr (ImmExited c)
      | AbortE => inr Aborted
      end
  end.

Fixpoint run {R} (fuel : nat) (t : prog R) (st : St) : option (res R * St) :=
  match fuel with
  | O => None
  | S fuel =>
      match observe t with
      | RetF r => Some (Returned r, st)
      | TauF t => run fuel t st
      | VisF e k =>
          match stepE e st with
          | inl (x, st') => run fuel (k x) st'
          | inr s => Some (Stopped s, st)
          end
      end
  end.

Inductive wpF {R} (Q : res R -> St -> Prop) : itree' E R -> St -> Prop :=
| wpF_ret r st : Q (Returned r) st -> wpF Q (RetF r) st
| wpF_tau t st : wpF Q (observe t) st -> wpF Q (TauF t) st
| wpF_vis X (e : E X) k st x st' :
    stepE e st = inl (x, st') -> wpF Q (observe (k x)) st' -> wpF Q (VisF e k) st
| wpF_stop X (e : E X) k st s :
    stepE e st = inr s -> Q (Stopped s) st -> wpF Q (VisF e k) st.

Definition wp {R} (t : prog R) (Q : res R -> St -> Prop) (st : St) : Prop :=
  wpF Q (observe t) st.

(** ** [wp] is total correctness of [run] *)
Lemma wp_run {R} (t : prog R) Q st :
  wp t Q st -> exists n r st', run n t st = Some (r, st') /\ Q r st'.
Proof.
  unfold wp. remember (observe t) as o eqn:Ho. intros H. revert t Ho.
  induction H as [r st HQ|t' st H IH|X e k st x st' He H IH|X e k st s He HQ]; intros t Ho.
  - exists 1%nat, (Returned r), st. cbn. by rewrite <- Ho.
  - destruct (IH t' eq_refl) as (n & r & st' & Hn & HQ).
    exists (S n), r, st'. cbn. by rewrite <- Ho.
  - destruct (IH (k x) eq_refl) as (n & r & st'' & Hn & HQ).
    exists (S n), r, st''. cbn. by rewrite <- Ho, He.
  - exists 1%nat, (Stopped s), st. cbn. by rewrite <- Ho, He.
Qed.

Lemma run_wp {R} (t : prog R) (Q : res R -> St -> Prop) n st r st' :
  run n t st = Some (r, st') -> Q r st' -> wp t Q st.
Proof.
  unfold wp. revert t st. induction n as [|n IH]; intros t st; [done|]. cbn.
  destruct (observe t) as [r0|t0|X e k] eqn:Ho.
  - intros [= <- <-] HQ. by constructor.
  - intros Hr HQ. constructor. eauto.
  - destruct (stepE e st) as [[x st1]|s] eqn:He.
    + intros Hr HQ. eapply wpF_vis; eauto.
    + intros [= <- <-] HQ. eapply wpF_stop; eauto.
Qed.

(** A run's outcome does not depend on the fuel. *)
Lemma run_det {R} (t : prog R) n m st a b :
  run n t st = Some a -> run m t st = Some b -> a = b.
Proof.
  revert t st m. induction n as [|n IH]; intros t st [|m]; try done. cbn.
  destruct (observe t) as [r|t'|X e k]; [congruence|apply IH|].
  destruct (stepE e st) as [[x st']|s]; [apply IH|congruence].
Qed.

(** ** Rules *)
Lemma wp_mono {R} (t : prog R) (Q Q' : res R -> St -> Prop) st :
  wp t Q st -> (forall r st', Q r st' -> Q' r st') -> wp t Q' st.
Proof.
  unfold wp. intros H HQ. induction H; [constructor|constructor|eapply wpF_vis|eapply wpF_stop]; eauto.
Qed.

(** Both postconditions of a program at once: it has one outcome. *)
Lemma wp_conj {R} (t : prog R) (Q Q' : res R -> St -> Prop) st :
  wp t Q st -> wp t Q' st -> wp t (fun r st' => Q r st' /\ Q' r st') st.
Proof.
  intros (n & r & st1 & H1 & HQ)%wp_run (m & r' & st2 & H2 & HQ')%wp_run.
  pose proof (run_det _ _ _ _ _ _ H1 H2) as [= <- <-].
  eapply run_wp; eauto.
Qed.

Lemma observe_bind {R S} (t : prog R) (k : R -> prog S) :
  observe (ITree.bind t k) =
  match observe t with
  | RetF r => observe (k r)
  | TauF t' => TauF (ITree.bind t' k)
  | VisF e h => VisF e (fun x => ITree.bind (h x) k)
  end.
Proof.
  change (observe (ITree.bind t k)) with (observe (match observe t with
    | RetF r => k r
    | TauF t' => Tau (ITree.bind t' k)
    | VisF e h => Vis e (fun x => ITree.bind (h x) k)
    end)).
  by destruct (observe t).
Qed.

Lemma wp_bind {R S} (t : prog R) (k : R -> prog S) (Q : res S -> St -> Prop) st :
  wp t (fun r st' => match r with
                     | Returned x => wp (k x) Q st'
                     | Stopped s => Q (Stopped s) st'
                     end) st ->
  wp (ITree.bind t k) Q st.
Proof.
  unfold wp. remember (observe t) as o eqn:Ho. intros H. revert t Ho.
  induction H as [r st HQ|t' st H IH|X e h st x st' He H IH|X e h st s He HQ]; intros t Ho.
  - rewrite observe_bind, <- Ho. exact HQ.
  - rewrite observe_bind, <- Ho. constructor. by apply IH.
  - rewrite observe_bind, <- Ho. eapply wpF_vis; [exact He|]. by apply IH.
  - rewrite observe_bind, <- Ho. eapply wpF_stop; [exact He|exact HQ].
Qed.

Lemma wp_ret {R} (r : R) (Q : res R -> St -> Prop) st : Q (Returned r) st -> wp (Ret r) Q st.
Proof. intros. by constructor. Qed.

Lemma wp_sys {X} (s : SysE X) (Q : res X -> St -> Prop) st :
  Q (Returned (answer s st)) (after s st) -> wp (sys s) Q st.
Proof. intros. eapply wpF_vis; [done|]. by constructor. Qed.

Lemma wp_errno (Q : res Z -> St -> Prop) st : Q (Returned (s_errno st)) st -> wp errno Q st.
Proof. intros. eapply wpF_vis; [done|]. by constructor. Qed.

Lemma wp_set_errno e (Q : res unit -> St -> Prop) st :
  Q (Returned tt) (mkSt e (s_log st) (s_kern st)) -> wp (set_errno e) Q st.
Proof. intros. eapply wpF_vis; [done|]. by constructor. Qed.

Lemma wp_fputs f s (Q : res unit -> St -> Prop) st :
  Q (Returned tt) (add_ev (EPrint f s) st) -> wp (fputs f s) Q st.
Proof. intros. eapply wpF_vis; [done|]. by constructor. Qed.

Lemma wp_fprintf f fmt args (Q : res unit -> St -> Prop) st :
  Q (Returned tt) (add_ev (EPrint f (format fmt args)) st) -> wp (fprintf f fmt args) Q st.
Proof. apply wp_fputs. Qed.

Lemma wp_fflush f (Q : res unit -> St -> Prop) st :
  Q (Returned tt) (add_ev (EFlush f) st) -> wp (fflush f) Q st.
Proof. intros. eapply wpF_vis; [done|]. by constructor. Qed.

Lemma wp_setbuf f (Q : res unit -> St -> Prop) st :
  Q (Returned tt) (add_ev (ESetbuf f) st) -> wp (setbuf f) Q st.
Proof. intros. eapply wpF_vis; [done|]. by constructor. Qed.

Lemma wp_atexit fn (Q : res Z -> St -> Prop) st :
  Q (Returned 0) (add_ev (EAtexit fn) st) -> wp (atexit fn) Q st.
Proof. intros. eapply wpF_vis; [done|]. by constructor. Qed.

Lemma wp_exit {R} c (Q : res R -> St -> Prop) st : Q (Stopped (Exited c)) st -> wp (exit c) Q st.
Proof. intros. by eapply wpF_stop. Qed.

Lemma wp__exit {R} c (Q : res R -> St -> Prop) st :
  Q (Stopped (ImmExited c)) st -> wp (_exit c) Q st.
Proof. intros. by eapply wpF_stop. Qed.

Lemma wp_abort {R} (Q : res R -> St -> Prop) st : Q (Stopped Aborted) st -> wp abort Q st.
Proof. intros. by eapply wpF_stop. Qed.

Lemma wp_when b t (Q : res unit -> St -> Prop) st :
  (b = true -> wp t Q st) -> (b = false -> Q (Returned tt) st) -> wp (when b t) Q st.
Proof. destruct b; intros; [auto|]. apply wp_ret. auto. Qed.

(** One unfolding of a loop. *)
Lemma wp_iter {A B} (body : A -> prog (A + B)) a (Q : res B -> St -> Prop) st :
  wp (body a) (fun r st' => match r with
                            | Returned (inl a') => wp (ITree.iter body a') Q st'
                            | Returned (inr b) => Q (Returned b) st'
                            | Stopped s => Q (Stopped s) st'
                            end) st ->
  wp (ITree.iter body a) Q st.
Proof.
  intros H.
  change (wp (ITree.iter body a) Q st) with
    (wp (ITree.bind (body a) (fun lr => match lr with
        | inl l => Tau (ITree.iter body l) | inr r => Ret r end)) Q st).
  apply wp_bind. eapply wp_mono; [exact H|].
  intros [[a'|b]|s] st'; [|apply wp_ret|done].
  intros Hw. by constructor.
Qed.

(** A loop that decreases a measure while it keeps an invariant. *)
Lemma wp_iter_measure {A B} (body : A -> prog (A + B)) (I : A -> St -> Prop)
    (m : A -> St -> nat) (Q : res B -> St -> Prop) :
  (forall a st, I a st ->
    wp (body a) (fun r st' => match r with
                              | Returned (inl a') => I a' st' /\ (m a' st' < m a st)%nat
                              | Returned (inr b) => Q (Returned b) st'
                              | Stopped s => Q (Stopped s) st'
                              end) st) ->
  forall a st, I a st -> wp (ITree.iter body a) Q st.
Proof.
  intros Hb a st. remember (m a st) as n eqn:Hn. revert a st Hn.
  induction (lt_wf n) as [n _ IH]. intros a st -> HI.
  apply wp_iter. eapply wp_mono; [by apply Hb|].
  intros [[a'|b]|s] st'; try done. intros [HI' Hm]. by eapply IH.
Qed.

(** A counting loop keeps an invariant indexed by the counter. *)
Lemma wp_for_loop {A} lo hi (body : Z -> A -> prog A) (I : Z -> A -> St -> Prop)
    (Q : res A -> St -> Prop) a st :
  I lo a st ->
  (forall i a st, lo <= i < hi -> I i a st ->
    wp (body i a) (fun r st' => match r with
                                | Returned a' => I (i + 1) a' st'
                                | Stopped s => Q (Stopped s) st'
                                end) st) ->
  (forall i a st, hi <= i -> (lo < hi -> i = hi) -> I i a st -> Q (Returned a) st) ->
  wp (for_loop lo hi body a) Q st.
Proof.
  intros H0 Hb HQ. unfold for_loop.
  apply (wp_iter_measure _ (fun '(i, a) st => lo <= i /\ (lo < hi -> i <= hi) /\ I i a st)
           (fun '(i, _) _ => Z.to_nat (hi - i))); [|by repeat split; auto; lia].
  intros [i a'] st' (Hi & Hhi & HI). destruct (Z.ltb_spec i hi).
  - apply wp_bind. eapply wp_mono; [apply Hb; [lia|done]|].
    intros [a''|s] st'' HI'; [|done]. apply wp_ret. repeat split; [lia|lia|done|lia].
  - apply wp_ret. eapply HQ; [done|lia|done].
Qed.

(** ** Loops that need not end

    [rounds body n a st a' st']: [n] iterations of the loop lead from variables
    [a] and state [st] to [a'] and [st']. *)
Inductive rounds {A B} (body : A -> prog (A + B)) : nat -> A -> St -> A -> St -> Prop :=
| rounds_0 a st : rounds body 0 a st a st
| rounds_S n a st m a1 st1 a' st' :
    run m (body a) st = Some (Returned (inl a1), st1) ->
    rounds body n a1 st1 a' st' -> rounds body (S n) a st a' st'.

(** What one iteration keeps holds after any number of them. *)
Lemma rounds_inv {A B} (body : A -> prog (A + B)) (I : nat -> A -> St -> Prop) :
  (forall j a st, I j a st ->
    wp (body a) (fun r st' => match r with
                              | Returned (inl a') => I (S j) a' st'
                              | _ => True
                              end) st) ->
  forall n j a st a' st', I j a st -> rounds body n a st a' st' -> I (j + n)%nat a' st'.
Proof.
  intros Hb n j a st a' st' HI H. revert j HI.
  induction H as [a st|n a st m a1 st1 a' st' Hr H IH]; intros j HI.
  - by rewrite Nat.add_0_r.
  - replace (j + S n)%nat with (S j + n)%nat by lia. apply IH.
    pose proof (Hb j a st HI) as (m' & r & st2 & Hr' & HQ)%wp_run.
    pose proof (run_det _ _ _ _ _ _ Hr Hr') as [= <- <-]. exact HQ.
Qed.

(** The loop itself goes through its rounds. *)
Lemma rounds_wp {A B} (body : A -> prog (A + B)) n a st a' st' (Q : res B -> St -> Prop) :
  rounds body n a st a' st' -> wp (ITree.iter body a') Q st' -> wp (ITree.iter body a) Q st.
Proof.
  induction 1 as [|n a st m a1 st1 a' st' Hr H IH]; [done|].
  intros Hw. apply wp_iter. eapply run_wp; [exact Hr|]. cbn. auto.
Qed.

(** Rounds by evaluation, with fuel [m] for each. *)
Fixpoint run_rounds {A B} (m : nat) (body : A -> prog (A + B)) (n : nat) (a : A) (st : St) : option (A * St) :=
  match n with
  | O => Some (a, st)
  | S n =>
      match run m (body a) st with
      | Some (Returned (inl a1), st1) => run_rounds m body n a1 st1
      | _ => None
      end
  end.

Lemma run_rounds_rounds {A B} m (body : A -> prog (A + B)) n a st a' :
  option_map fst (run_rounds m body n a st) = Some a' -> exists st', rounds body n a st a' st'.
Proof.
  revert a st. induction n as [|n IH]; intros a st; cbn.
  - intros [= <-]. exists st. constructor.
  - destruct (run m (body a) st) as [[[[a1|b]|s] st1]|] eqn:E; try done.
    intros H. destruct (IH _ _ H) as [st' Hr]. exists st'. by econstructor.
Qed.
End Semantics.

Arguments St {K}.
Arguments wp {K R} t Q st.
Arguments run {K R} fuel t st.

(** ** The log of a state *)
Section Log.
Context `{K : Kernel}.

Lemma s_log_after {X} (s : SysE X) st : s_log (after s st) = s_log st ++ [ECall s (answer s st)].
Proof. unfold after, answer. by destruct (kcall s (s_kern st)) as [[x e] k]. Qed.

Lemma s_log_add ev st : s_log (add_ev ev st) = s_log st ++ [ev].
Proof. done. Qed.

Lemma s_kern_add ev st : s_kern (add_ev ev st) = s_kern st.
Proof. done. Qed.

Lemma s_kern_after {X} (s : SysE X) st : s_kern (after s st) = (kcall s (s_kern st)).2.
Proof. unfold after. by destruct (kcall s (s_kern st)) as [[x e] k]. Qed.

Lemma answer_add {X} (s : SysE X) ev st : answer s (add_ev ev st) = answer s st.
Proof. done. Qed.

Lemma s_errno_add ev st : s_errno (add_ev ev st) = s_errno st.
Proof. done. Qed.

Lemma s_errno_after {X} (s : SysE X) st :
  s_errno (after s st) = default (s_errno st) (kcall s (s_kern st)).1.2.
Proof. unfold after. by destruct (kcall s (s_kern st)) as [[x e] k]. Qed.
End Log.

#[export] Hint Rewrite @s_log_after @s_log_add : st_log.
#[export] Hint Rewrite @s_kern_add @s_kern_after @answer_add : st_kern.

(** The calls of a log, and the text a log hands to a stream. *)
Definition is_call (ev : event) : bool := match ev with ECall _ _ => true | _ => false end.
Definition calls (l : list event) : list event := filter (fun ev => is_call ev = true) l.

Fixpoint text_on (f : stream) (l : list event) : string :=
  match l with
  | [] => ""
  | EPrint g s :: l => if decide (f = g) then s +:+ text_on f l else text_on f l
  | _ :: l => text_on f l
  end.

Lemma text_on_app f l l' : text_on f (l ++ l') = text_on f l +:+ text_on f l'.
Proof.
  induction l as [|ev l IH]; [done|].
  destruct ev as [X s x|g s|g|g|fn]; cbn; try done.
  case_decide; [|done]. by rewrite IH, app_assoc_s.
Qed.

Lemma calls_app l l' : calls (l ++ l') = calls l ++ calls l'.
Proof. apply filter_app. Qed.

#[export] Hint Rewrite text_on_app calls_app : st_log.

(** ** Printing on stdout *)
Section Prints.
Context `{K : Kernel}.

(** The state after the texts [l] have been printed. *)
Definition printed (l : list string) (st : St) : St :=
  mkSt (s_errno st) (s_log st ++ map (EPrint stdout) l) (s_kern st).

Lemma printed_nil st : printed [] st = st.
Proof. unfold printed. destruct st. cbn. by rewrite app_nil_r. Qed.

Lemma printed_app l l' st : printed l' (printed l st) = printed (l ++ l') st.
Proof. unfold printed. cbn. by rewrite map_app, app_assoc. Qed.

Lemma add_ev_printed s st : add_ev (EPrint stdout s) st = printed [s] st.
Proof. done. Qed.

Lemma text_printed l : text_on stdout (map (EPrint stdout) l) = sconcat l.
Proof. induction l as [|s l IH]; [done|]. cbn. by rewrite IH. Qed.

Lemma quiet_printed l : calls (map (EPrint stdout) l) = [].
Proof. induction l as [|s l IH]; [done|]. exact IH. Qed.
(** A counting loop that prints one text per round. *)
Lemma wp_for_print n (piece : Z -> string) (body : Z -> prog unit) (Q : res unit -> St -> Prop) st :
  (forall i (Q' : res unit -> St -> Prop) st', Q' (Returned tt) (printed [piece i] st') -> wp (body i) Q' st') ->
  Q (Returned tt) (printed (map piece (seqZ 0 n)) st) -> wp (for_ 0 n body) Q st.
Proof.
  intros Hb HQ. unfold for_.
  apply (wp_for_loop _ _ _ (fun j _ st' => 0 <= j <= Z.max 0 n /\
    st' = printed (map piece (seqZ 0 j)) st)).
  - rewrite printed_nil. split; [lia|done].
  - intros i [] st' Hi [_ ->]. apply Hb. split; [lia|].
    rewrite printed_app, seqZ_app by lia. by rewrite map_app.
  - intros i [] st' Hi _ [H0 ->]. replace (seqZ 0 i) with (seqZ 0 n); [done|].
    unfold seqZ. do 2 f_equal. lia.
Qed.
End Prints.

(** ** Fail-stop programs

    A log is fail-stop when no call follows a call that failed. *)
Definition ev_failed (ev : event) : bool :=
  match ev with ECall s x => failed s x | _ => false end.

Fixpoint stops_at_failure (l : list event) : bool :=
  match l with
  | [] => true
  | ev :: l =>
      if ev_failed ev then forallb (fun ev => negb (is_call ev)) l else stops_at_failure l
  end.

Definition no_failure (l : list event) : bool := forallb (fun ev => negb (ev_failed ev)) l.

Definition success (r : res Z) : bool :=
  match r with
  | Returned c => c ==? EXIT_SUCCESS
  | Stopped (Exited c) | Stopped (ImmExited c) => c ==? EXIT_SUCCESS
  | Stopped Aborted => false
  end.

(** Something was written on stderr. *)
Definition reports (l : list event) : bool :=
  existsb (fun ev => match ev with EPrint stderr _ => true | _ => false end) l.

(** Every run of the program terminates, and for the events [l] of the run: no
    call follows a call that failed; when the program reports success no call
    failed; when it reports failure it has written on stderr, and either a call
    failed or no call was made at all. *)
Definition fail_stop_log (ok : bool) (l : list event) : bool :=
  stops_at_failure l &&
  if ok then no_failure l
  else reports l && (negb (no_failure l) || forallb (fun ev => negb (is_call ev)) l).

Definition fail_stop `{Kernel} (t : prog Z) : Prop :=
  forall st, wp t (fun r st' =>
    exists l, s_log st' = s_log st ++ l /\ fail_stop_log (success r) l = true) st.

(** ** Symbolic execution *)
Ltac wp_head :=
  lazymatch goal with
  | |- wp (ITree.bind _ _) _ _ => apply wp_bind
  | |- wp (Ret _) _ _ => apply wp_ret; cbv beta iota
  | |- wp (sys _) _ _ => apply wp_sys; cbv beta iota
  | |- wp errno _ _ => apply wp_errno; cbv beta iota
  | |- wp (set_errno _) _ _ => apply wp_set_errno; cbv beta iota
  | |- wp (printf _ _) _ _ => apply wp_fprintf; cbv beta iota
  | |- wp (fprintf _ _ _) _ _ => apply wp_fprintf; cbv beta iota
  | |- wp (fputs _ _) _ _ => apply wp_fputs; cbv beta iota
  | |- wp (fflush _) _ _ => apply wp_fflush; cbv beta iota
  | |- wp (setbuf _) _ _ => apply wp_setbuf; cbv beta iota
  | |- wp (atexit _) _ _ => apply wp_atexit; cbv beta iota
  | |- wp (exit _) _ _ => apply wp_exit; cbv beta iota
  | |- wp (_exit _) _ _ => apply wp__exit; cbv beta iota
  | |- wp abort _ _ => apply wp_abort; cbv beta iota
  | |- wp (when true ?t) _ _ => change (when true t) with t
  | |- wp (when false ?t) _ _ => apply wp_ret; cbv beta iota
  end.

Ltac wp_branch :=
  lazymatch goal with
  | |- wp (when ?b _) _ _ =>
      apply wp_when; let H := fresh "Hb" in intros H; try discriminate H; cbv beta iota
  | |- wp (if ?b then _ else _) _ _ => let H := fresh "Hb" in destruct b eqn:H; try discriminate H
  | |- wp (match ?x with _ => _ end) _ _ => destruct x eqn:?
  end.

(** Runs the program until a loop or a definition; [wp_go] splits branches. *)
Ltac wp_run1 := cbv zeta; wp_head.
Ltac wp_steps := repeat wp_run1.
Ltac wp_go := repeat (cbv zeta; first [wp_head | wp_branch]).

(** The events of the run, as one list after those of the initial state. *)
Ltac log_events :=
  autorewrite with st_log; rewrite <- ?app_assoc; cbn [app].

(** Steps over a call, keeping only its event: its answer and the state after it
    become variables. *)
Ltac wp_call :=
  lazymatch goal with
  | |- wp (sys ?s) _ ?st =>
      apply wp_sys;
      let L := fresh "Hlog" in pose proof (s_log_after s st) as L;
      let st1 := fresh "st" in let x := fresh "x" in
      revert L; generalize (after s st) as st1; generalize (answer s st) as x;
      intros x st1 L; rewrite ?s_log_add in *; cbn [s_log] in L; cbv beta iota
  end.
Ltac wp_call_go := repeat (cbv zeta; first [wp_call | wp_head | wp_branch]).

(** Steps over a call whose law [law] gives, and keeps the law as [H], the event
    as an equation of the log, and no other fact of the answer and the state. *)
Ltac wp_law H law :=
  lazymatch goal with
  | |- wp (sys ?s) _ ?st =>
      apply wp_sys;
      let p := law s st in pose proof p as H;
      let L := fresh "Hlog" in pose proof (s_log_after s st) as L;
      let st1 := fresh "st" in let x := fresh "x" in
      revert H L; generalize (after s st) as st1; generalize (answer s st) as x;
      intros x st1 H L; rewrite ?s_log_add in *; cbv beta iota
  end.

(** The events since the first state, from those of each step. *)
Ltac log_chain :=
  rewrite ?s_log_add; cbn [s_log]; repeat match goal with H : s_log ?st = _ |- context [s_log ?st] => rewrite H end;
  rewrite <- ?app_assoc; cbn [app].

(** Replaces the answers that the branches of a path have named. *)
Ltac use_answers :=
  repeat match goal with H : answer ?s ?st = _ |- context [answer ?s ?st] => rewrite H end.

(** Closes the goals of [fail_stop] at the end of each path. *)
Create HintDb consts.
Ltac use_branches :=
  repeat match goal with
  | H : answer ?s ?st = _ |- context [answer ?s ?st] => rewrite H; cbn
  | H : ?b = true |- context [?b] => rewrite H; cbn
  | H : ?b = false |- context [?b] => rewrite H; cbn
  end.
Ltac fail_stop_path :=
  log_events; eexists; split; [reflexivity|];
  repeat autounfold with consts in *;
  unfold fail_stop_log; cbn; use_branches; try reflexivity.
Ltac fail_stop_tac := intros ?; wp_go; fail_stop_path.
