(* ===== verification/FsSpec.v ===== *)
(** * What the programs rely on from the file calls

    An abstract file system: names, file contents and open descriptors with
    their offsets. [fs_post] states the documented effect of a call on it, with
    the freedom POSIX leaves (any call may fail, reads and writes may be short);
    [FileKernel] is the interface the file programs are verified against, and
    [mem_kernel] an executable kernel that implements it. *)

From S2P Require Import Prelude.
From S2P Require Import CLib.
From S2P Require Import Sys.
From S2P Require Import Sem.

Record fs := Fs {
  fs_names : gmap string Z;
  fs_data : gmap Z string;
  fs_fds : gmap Z (Z * Z) }.

(** [d] written over the content [c] at offset [off]; a gap reads as zeros. *)
Definition write_at (off : Z) (d c : string) : string :=
  stake off c +:+ srepeat (Z.to_nat (off - slen c)) nul +:+ d +:+ sdrop (off + slen d) c.

Definition set_fd (fd : Z) (p : Z * Z) (v : fs) : fs :=
  Fs (fs_names v) (fs_data v) (<[fd := p]> (fs_fds v)).
Definition set_data (ino : Z) (c : string) (v : fs) : fs :=
  Fs (fs_names v) (<[ino := c]> (fs_data v)) (fs_fds v).
Definition set_name (path : string) (ino : Z) (v : fs) : fs :=
  Fs (<[path := ino]> (fs_names v)) (fs_data v) (fs_fds v).
Definition del_fd (fd : Z) (v : fs) : fs :=
  Fs (fs_names v) (fs_data v) (delete fd (fs_fds v)).

Definition fd_at (v : fs) (fd ino off : Z) (c : string) : Prop :=
  fs_fds v !! fd = Some (ino, off) /\ fs_data v !! ino = Some c.

Definition open_post (path : string) (flags fd : Z) (v v' : fs) : Prop :=
  (fd = -1 /\ v' = v) \/
  (0 <= fd /\ fs_fds v !! fd = None /\ exists ino c,
     ((fs_names v !! path = Some ino /\ fs_data v !! ino = Some c) \/
      (fs_names v !! path = None /\ has_bit flags O_CREAT = true /\
       fs_data v !! ino = None /\ c = "")) /\
     v' = set_fd fd (ino, 0)
            (set_data ino (if has_bit flags O_TRUNC then "" else c) (set_name path ino v))).

Definition read_post (fd n r : Z) (d : string) (v v' : fs) : Prop :=
  (r = -1 /\ v' = v) \/
  exists ino off c, fd_at v fd ino off c /\
    r = slen d /\ r <= n /\ d = stake r (sdrop off c) /\
    (r = 0 -> 0 < n -> slen c <= off) /\ v' = set_fd fd (ino, off + r) v.

Definition write_post (fd r : Z) (d : string) (v v' : fs) : Prop :=
  (r = -1 /\ v' = v) \/
  exists ino off c, fd_at v fd ino off c /\ 0 <= r <= slen d /\
    v' = set_fd fd (ino, off + r) (set_data ino (write_at off (stake r d) c) v).

Definition lseek_post (fd offset whence r : Z) (v v' : fs) : Prop :=
  (r = -1 /\ v' = v) \/
  exists ino off c, fd_at v fd ino off c /\ 0 <= r /\
    r = (if whence ==? SEEK_SET then 0 else if whence ==? SEEK_CUR then off else slen c) + offset /\
    v' = set_fd fd (ino, r) v.

Definition close_post (fd r : Z) (v v' : fs) : Prop :=
  (r = -1 /\ v' = v) \/ (r = 0 /\ is_Some (fs_fds v !! fd) /\ v' = del_fd fd v).

(** Calls that are not listed may do anything to the file system. *)
Definition fs_post {X} (s : SysE X) : X -> fs -> fs -> Prop :=
  match s in SysE X return X -> fs -> fs -> Prop with
  | Open path flags _ => open_post path flags
  | Read fd n => fun '(r, d) => read_post fd n r d
  | Write fd d => fun r => write_post fd r d
  | Lseek fd offset whence => lseek_post fd offset whence
  | Close fd => close_post fd
  | Malloc _ | Getpid | Sleep _ => fun _ v v' => v' = v
  | Free _ => fun _ v v' => v' = v
  | Msgsnd _ _ _ _ | Msgget _ _ => fun _ v v' => v' = v
  | _ => fun _ _ _ => True
  end.

Class FileKernel `{K : Kernel} := {
  view : kstate -> fs;
  fs_law : forall X (s : SysE X) k, fs_post s (kcall s k).1.1 (view k) (view (kcall s k).2) }.

Section FsLemmas.
Context `{FK : FileKernel}.

Definition fsv (st : St) : fs := view (s_kern st).

Lemma fs_after {X} (s : SysE X) st : fs_post s (answer s st) (fsv st) (fsv (after s st)).
Proof. unfold answer, fsv. rewrite s_kern_after. apply fs_law. Qed.

Lemma fsv_add ev st : fsv (add_ev ev st) = fsv st.
Proof. done. Qed.
End FsLemmas.

(** The lookups of an updated file system. *)
Lemma fd_at_set_fd v fd fd' ino off p c :
  fd <> fd' -> fd_at v fd ino off c -> fd_at (set_fd fd' p v) fd ino off c.
Proof. intros Hne [? ?]. split; cbn; [by rewrite lookup_insert_ne|done]. Qed.

Lemma fd_at_set_fd_eq v fd ino off' c :
  fs_data v !! ino = Some c -> fd_at (set_fd fd (ino, off') v) fd ino off' c.
Proof. split; cbn; [by rewrite lookup_insert_eq|done]. Qed.

Lemma fd_at_set_data v fd ino ino' off c c' :
  ino <> ino' -> fd_at v fd ino off c -> fd_at (set_data ino' c' v) fd ino off c.
Proof. intros Hne [? ?]. split; cbn; [done|by rewrite lookup_insert_ne]. Qed.

Lemma fd_at_det v fd ino off c ino' off' c' :
  fd_at v fd ino off c -> fd_at v fd ino' off' c' -> ino = ino' /\ off = off' /\ c = c'.
Proof. intros [H1 H2] [H3 H4]. naive_solver. Qed.

#[export] Hint Resolve fd_at_set_fd fd_at_set_fd_eq fd_at_set_data : lpi.

(** Opening an existing file, and opening one that another inode does not back. *)
Lemma open_existing path flags fd v v' ino c :
  open_post path flags fd v v' -> fd <> -1 -> has_bit flags O_TRUNC = false ->
  fs_names v !! path = Some ino -> fs_data v !! ino = Some c ->
  fs_fds v !! fd = None /\ fd_at v' fd ino 0 c /\ fs_names v' = fs_names v.
Proof.
  intros [[-> _]|(Hfd & Hnone & ino' & c' & Hf & ->)] Hne Ht Hn Hd; [done|].
  destruct Hf as [[Hn' Hd']|[Hn' _]]; [|congruence].
  replace ino' with ino in * by congruence. replace c' with c in * by congruence.
  rewrite Ht. split; [done|]. split.
  - apply fd_at_set_fd_eq. cbn. by rewrite lookup_insert_eq.
  - cbn. by apply insert_id.
Qed.

Lemma open_other path flags fd v v' ino c :
  open_post path flags fd v v' -> fd <> -1 -> has_bit flags O_TRUNC = true ->
  fs_names v !! path <> Some ino -> fs_data v !! ino = Some c ->
  fs_fds v !! fd = None /\ exists ino', ino <> ino' /\ fd_at v' fd ino' 0 "" /\
    fs_names v' !! path = Some ino' /\ fs_data v' !! ino = Some c /\
    forall fd', fd' <> fd -> fs_fds v' !! fd' = fs_fds v !! fd'.
Proof.
  intros [[-> _]|(Hfd & Hnone & ino' & c' & Hf & ->)] Hne Ht Hn Hd; [done|].
  rewrite Ht. split; [done|]. exists ino'.
  assert (ino <> ino') as Hi by (intros ->; destruct Hf as [[? _]|(_ & _ & ? & _)]; congruence).
  split; [done|]. split; [|split; [|split]].
  - apply fd_at_set_fd_eq. cbn. by rewrite lookup_insert_eq.
  - cbn. by rewrite lookup_insert_eq.
  - cbn. by rewrite lookup_insert_ne.
  - intros fd' Hfd'. cbn. by rewrite lookup_insert_ne.
Qed.

Lemma close_data fd r v v' : close_post fd r v v' -> fs_data v' = fs_data v /\ fs_names v' = fs_names v.
Proof. by intros [[_ ->]|(_ & _ & ->)]. Qed.

(** Appending at the end of a file. *)
Lemma write_at_end d c : write_at (slen c) d c = c +:+ d.
Proof.
  unfold write_at. rewrite Z.sub_diag. cbn [Z.to_nat srepeat].
  rewrite stake_all by lia. rewrite app_nil_l_s.
  assert (sdrop (slen c + slen d) c = "") as ->.
  { apply slen_0. pose proof (slen_nonneg c). pose proof (slen_nonneg d).
    rewrite slen_sdrop by lia. lia. }
  by rewrite app_nil_r_s.
Qed.

(** Reading [r] bytes extends the prefix read so far. *)
Lemma stake_sdrop_app off r c :
  0 <= off -> 0 <= r -> stake off c +:+ stake r (sdrop off c) = stake (off + r) c.
Proof.
  intros Ho Hr. unfold stake, sdrop. rewrite Z2Nat.inj_add by done.
  generalize (Z.to_nat off) as n, (Z.to_nat r) as m. clear. intros n m. revert c.
  induction n as [|n IH]; intros [|a c]; cbn; try done; [by destruct m|].
  change (String a (stake_nat n c +:+ stake_nat m (sdrop_nat n c)) = String a (stake_nat (n + m) c)).
  by rewrite IH.
Qed.

(** ** An executable kernel

    The file system itself is the state; descriptors and files get the least
    free number, every call reads or writes as much as it is asked to. *)
Definition fresh_from {A} (m : gmap Z A) : Z :=
  1 + map_fold (fun k _ acc => Z.max k acc) 2 m.

Definition mem_open (path : string) (flags : Z) (v : fs) : Z * option Z * fs :=
  let fd := fresh_from (fs_fds v) in
  match fs_names v !! path with
  | Some ino =>
      match fs_data v !! ino with
      | Some c =>
          (fd, None, set_fd fd (ino, 0)
             (set_data ino (if has_bit flags O_TRUNC then "" else c) (set_name path ino v)))
      | None => (-1, Some ENOENT, v)
      end
  | None =>
      if has_bit flags O_CREAT then
        let ino := fresh_from (fs_data v) in
        (fd, None, set_fd fd (ino, 0)
           (set_data ino (if has_bit flags O_TRUNC then "" else "") (set_name path ino v)))
      else (-1, Some ENOENT, v)
  end.

Definition mem_on_fd {X} (fd : Z) (v : fs) (err : X)
    (f : Z -> Z -> string -> X * option Z * fs) : X * option Z * fs :=
  match fs_fds v !! fd with
  | Some (ino, off) =>
      match fs_data v !! ino with
      | Some c => f ino off c
      | None => (err, Some ENOSYS, v)
      end
  | None => (err, Some ENOSYS, v)
  end.

Definition mem_read (fd n : Z) (v : fs) : (Z * string) * option Z * fs :=
  mem_on_fd fd v (-1, "") (fun ino off c =>
    if (n <? 0) || (off <? 0) then ((-1, ""), Some ENOSYS, v) else
    let d := stake n (sdrop off c) in
    ((slen d, d), None, set_fd fd (ino, off + slen d) v)).

Definition mem_write (fd : Z) (d : string) (v : fs) : Z * option Z * fs :=
  mem_on_fd fd v (-1) (fun ino off c =>
    (slen d, None, set_fd fd (ino, off + slen d) (set_data ino (write_at off d c) v))).

Definition mem_lseek (fd offset whence : Z) (v : fs) : Z * option Z * fs :=
  mem_on_fd fd v (-1) (fun ino off c =>
    let r := (if whence ==? SEEK_SET then 0 else if whence ==? SEEK_CUR then off else slen c) + offset in
    if r <? 0 then (-1, Some ENOSYS, v) else (r, None, set_fd fd (ino, r) v)).

Definition mem_close (fd : Z) (v : fs) : Z * option Z * fs :=
  match fs_fds v !! fd with
  | Some _ => (0, None, del_fd fd v)
  | None => (-1, Some ENOSYS, v)
  end.

Definition mem_call {X} (s : SysE X) : fs -> X * option Z * fs :=
  match s in SysE X return fs -> X * option Z * fs with
  | Open path flags _ => mem_open path flags
  | Read fd n => mem_read fd n
  | Write fd d => mem_write fd d
  | Lseek fd offset whence => mem_lseek fd offset whence
  | Close fd => mem_close fd
  | Malloc _ => fun v => (4096, None, v)
  | Msgsnd _ _ _ _ => fun v => (0, None, v)
  | s => fun v => (refuse s, Some ENOSYS, v)
  end.

#[export] Instance mem_kernel : Kernel := {| kstate := fs; kcall := @mem_call |}.

Lemma fresh_from_spec {A} (m : gmap Z A) : 3 <= fresh_from m /\ m !! fresh_from m = None.
Proof.
  assert (forall k, is_Some (m !! k) -> k < fresh_from m) as H.
  { unfold fresh_from. apply (map_fold_weak_ind (fun r m => forall k, is_Some (m !! k) -> k < 1 + r)).
    - intros k [x Hx]. by rewrite lookup_empty in Hx.
    - intros i x m' r Hi IH k [y Hk]. destruct (decide (i = k)) as [->|Hne]; [lia|].
      rewrite lookup_insert_ne in Hk by done. specialize (IH k (mk_is_Some _ _ Hk)). lia. }
  assert (3 <= fresh_from m) as Hm.
  { unfold fresh_from. apply (map_fold_weak_ind (fun r (m : gmap Z A) => 3 <= 1 + r)); [done|].
    intros. lia. }
  split; [done|]. destruct (m !! fresh_from m) eqn:E; [|done].
  pose proof (H (fresh_from m) (mk_is_Some _ _ E)). lia.
Qed.

Lemma mem_fs_law X (s : SysE X) k : fs_post s (kcall s k).1.1 k (kcall s k).2.
Proof.
  destruct s; cbn; try done.
  - unfold mem_open, open_post. pose proof (fresh_from_spec (fs_fds k)) as [H1 H2].
    destruct (fs_names k !! path) as [ino|] eqn:En.
    + destruct (fs_data k !! ino) as [c|] eqn:Ed; [|by left].
      right. cbn. split; [lia|]. split; [done|]. exists ino, c. by split; [left|].
    + destruct (has_bit flags O_CREAT) eqn:Ec; [|by left]. right. cbn.
      split; [lia|]. split; [done|]. exists (fresh_from (fs_data k)), "".
      pose proof (fresh_from_spec (fs_data k)) as [_ H4]. split; [right|]; naive_solver.
  - unfold mem_read, mem_on_fd, read_post.
    destruct (fs_fds k !! fd) as [[ino off]|] eqn:Ef; [|by left].
    destruct (fs_data k !! ino) as [c|] eqn:Ed; [|by left].
    case_if; [by left|]. bool_props. right. cbn. exists ino, off, c.
    pose proof (slen_nonneg (sdrop off c)).
    rewrite !slen_stake by lia. repeat split; try done; [lia| |].
    + destruct (Z.min_spec count (slen (sdrop off c))) as [[_ ->]|[? ->]]; [done|].
      rewrite !stake_all; lia || done.
    + intros Hz Hc. assert (slen (sdrop off c) = 0) as H3 by lia.
      rewrite slen_sdrop in H3 by lia. lia.
  - unfold mem_write, mem_on_fd, write_post.
    destruct (fs_fds k !! fd) as [[ino off]|] eqn:Ef; [|by left].
    destruct (fs_data k !! ino) as [c|] eqn:Ed; [|by left].
    right. cbn. exists ino, off, c. rewrite stake_all by lia.
    pose proof (slen_nonneg data). repeat split; try done; lia.
  - unfold mem_lseek, mem_on_fd, lseek_post.
    destruct (fs_fds k !! fd) as [[ino off]|] eqn:Ef; [|by left].
    destruct (fs_data k !! ino) as [c|] eqn:Ed; [|by left].
    case_if; [by left|]. bool_props. right. exists ino, off, c. by repeat split.
  - unfold mem_close, close_post. destruct (fs_fds k !! fd) eqn:Ef; [|by left].
    right. by repeat split.
Qed.

#[export] Instance mem_files : @FileKernel mem_kernel :=
  {| view := fun k : @kstate mem_kernel => k; fs_law := mem_fs_law |}.

(** Steps over a call, keeping what the file interface says of it and the log. *)
Ltac wp_fs :=
  let H := fresh "Hfs" in wp_law H ltac:(fun s st => constr:(fs_after s st));
  cbn [fs_post] in H; rewrite ?fsv_add in *.
Ltac wp_fs_go := repeat (cbv zeta; first [wp_fs | wp_head | wp_branch]).
