(* ===== verification/StreamSpec.v ===== *)
(** * What the programs rely on from pipes and connections

    A descriptor that is read as a stream holds the bytes that are still to be
    read before the end of the stream. A read fails, or takes a prefix of them
    that is empty only at the end; reads of other descriptors, writes, closes
    and forks leave them alone. [StreamKernel] is this interface, [pipe_kernel] an executable
    kernel that implements it. *)

From S2P Require Import Prelude.
From S2P Require Import CLib.
From S2P Require Import Sys.
From S2P Require Import Sem.

Definition streams := Z -> string.

Definition stream_read (fd n r : Z) (d : string) (v v' : streams) : Prop :=
  (r = -1 /\ forall fd', v' fd' = v fd') \/
  (0 <= r <= n /\ d = stake r (v fd) /\ slen d = r /\
   (r = 0 -> 0 < n -> v fd = "") /\
   v' fd = sdrop r (v fd) /\ forall fd', fd' <> fd -> v' fd' = v fd').

Definition stream_post {X} (s : SysE X) : X -> streams -> streams -> Prop :=
  match s in SysE X return X -> streams -> streams -> Prop with
  | Read fd n => fun '(r, d) => stream_read fd n r d
  | Write _ _ | Close _ | Fork | Wait => fun _ v v' => forall fd, v' fd = v fd
  | Pipe => fun _ v v' => forall fd, v' fd = v fd
  | _ => fun _ _ _ => True
  end.

Class StreamKernel `{K : Kernel} := {
  pending : kstate -> streams;
  stream_law : forall X (s : SysE X) k, stream_post s (kcall s k).1.1 (pending k) (pending (kcall s k).2) }.

(** The bytes a log hands to a descriptor with writes that took all of them. *)
Definition wrote (fd : Z) (ev : event) : string :=
  match ev with
  | ECall s x =>
      match s in SysE X return X -> string with
      | Write fd' d => fun r => if (fd' ==? fd) && (r ==? slen d) then d else ""
      | _ => fun _ => ""
      end x
  | _ => ""
  end.
Fixpoint written (fd : Z) (l : list event) : string :=
  match l with [] => "" | ev :: l => wrote fd ev +:+ written fd l end.

Lemma written_app fd l l' : written fd (l ++ l') = written fd l +:+ written fd l'.
Proof. induction l as [|ev l IH]; [done|]. cbn. by rewrite IH, app_assoc_s. Qed.

Lemma wrote_full fd d r : r = slen d -> wrote fd (ECall (Write fd d) r) = d.
Proof. intros ->. cbn. by rewrite !Z.eqb_refl. Qed.

Section StreamLemmas.
Context `{SK : StreamKernel}.

Definition strm (st : St) : streams := pending (s_kern st).

Lemma stream_after {X} (s : SysE X) st : stream_post s (answer s st) (strm st) (strm (after s st)).
Proof. unfold answer, strm. rewrite s_kern_after. apply stream_law. Qed.

Lemma strm_add ev st : strm (add_ev ev st) = strm st.
Proof. done. Qed.
End StreamLemmas.

(** Steps over a call, keeping what the interface says and the log. *)
Ltac wp_strm :=
  let H := fresh "Hst" in wp_law H ltac:(fun s st => constr:(stream_after s st));
  cbn [stream_post] in H; rewrite ?strm_add in *.

(** ** An executable kernel: the streams, an opened file gets
    the descriptor 7, a pipe 3 and 4, [fork] answers
    in the child, connections get the descriptor 5, datagrams are those of one
    client, and the calls that are not listed fail. *)
Definition pipe_view (k : gmap Z string) : streams := fun fd => default "" (k !! fd).

Definition pipe_read (fd n : Z) (k : gmap Z string) : (Z * string) * option Z * gmap Z string :=
  if n <? 0 then ((-1, ""), Some ENOSYS, k) else
  let d := stake n (pipe_view k fd) in
  ((slen d, d), None, <[fd := sdrop (slen d) (pipe_view k fd)]> k).

Definition pipe_call {X} (s : SysE X) : gmap Z string -> X * option Z * gmap Z string :=
  match s in SysE X return gmap Z string -> X * option Z * gmap Z string with
  | Open _ _ _ => fun k => (7, None, k)
  | Read fd n => pipe_read fd n
  | Write _ d => fun k => (slen d, None, k)
  | Close _ => fun k => (0, None, k)
  | Accept _ => fun k => ((5, ""), None, k)
  | Recvfrom fd n => fun k => let '((r, d), e, k) := pipe_read fd n k in ((r, d, "client"), e, k)
  | Sendto _ d _ => fun k => (slen d, None, k)
  | Pipe => fun k => ((0, (3, 4)), None, k)
  | Fork => fun k => (0, None, k)
  | s => fun k => (refuse s, Some ENOSYS, k)
  end.

#[export] Instance pipe_kernel : Kernel := {| kstate := gmap Z string; kcall := @pipe_call |}.

Lemma pipe_stream_law X (s : SysE X) k :
  stream_post s (kcall s k).1.1 (pipe_view k) (pipe_view (kcall s k).2).
Proof.
  destruct s; cbn; try done. unfold pipe_read, stream_read.
  case_if; [by left|]. bool_props. right. cbn.
  pose proof (slen_nonneg (pipe_view k fd)). rewrite slen_stake by lia.
  split_and!; try done; try lia.
  - rewrite Z.min_comm. destruct (Z.min_spec (slen (pipe_view k fd)) count) as [[? ->]|[? ->]]; [|done].
    rewrite !stake_all; lia || done.
  - intros Hz Hc. apply slen_0. lia.
  - unfold pipe_view at 1. by rewrite lookup_insert_eq.
  - intros fd' Hne. unfold pipe_view at 1. by rewrite lookup_insert_ne.
Qed.

#[export] Instance pipe_streams : @StreamKernel pipe_kernel :=
  {| pending := fun k : @kstate pipe_kernel => pipe_view k; stream_law := pipe_stream_law |}.

(** ** Pumps

    A loop that reads up to [n] bytes into [buffer] and hands what it read to
    [out], as three of the programs have one. [Q] says how the loop reports the
    end. *)
Section Pump.
Context `{SK : StreamKernel}.
Variables (fd n out : Z).
Hypothesis Hn : 0 < n.

(** After a run from [st0], [done] of the stream has been handed on. *)
Definition pumped (st0 st : St) (l : list event) (done : string) : Prop :=
  s_log st = s_log st0 ++ l /\ written out l = done /\ strm st0 fd = done +:+ strm st fd.

Lemma pumped_0 st : pumped st st [] "".
Proof. split; [by rewrite app_nil_r|done]. Qed.

Lemma pumped_read st0 st l done st1 r d :
  pumped st0 st l done -> stream_read fd n r d (strm st) (strm st1) ->
  s_log st1 = s_log st ++ [ECall (Read fd n) (r, d)] -> r <= 0 ->
  r = -1 /\ pumped st0 st1 (l ++ [ECall (Read fd n) (r, d)]) done \/
  r = 0 /\ pumped st0 st1 (l ++ [ECall (Read fd n) (r, d)]) done /\ done = strm st0 fd.
Proof.
  intros (Hl & Hw & Hs) Hr Hl1 Hle.
  destruct Hr as [[-> Hv]|(Hr & Hd & Hlen & Hz & Hv & _)]; [left|right].
  - split; [done|]. split_and!; [by rewrite Hl1, Hl, app_assoc| |by rewrite Hv].
    rewrite written_app, Hw. cbn. by rewrite app_nil_r_s.
  - assert (r = 0) as -> by lia. rewrite (Hz eq_refl Hn) in *.
    split; [done|]. rewrite app_nil_r_s in Hs. split; [|done].
    split_and!; [by rewrite Hl1, Hl, app_assoc| |rewrite Hv; by rewrite Hs, app_nil_r_s].
    rewrite written_app, Hw. cbn. by rewrite app_nil_r_s.
Qed.

Lemma pumped_step st0 st l done st1 r d st2 r' :
  pumped st0 st l done -> stream_read fd n r d (strm st) (strm st1) ->
  s_log st1 = s_log st ++ [ECall (Read fd n) (r, d)] -> 0 < r ->
  (forall fd, strm st2 fd = strm st1 fd) ->
  s_log st2 = s_log st1 ++ [ECall (Write out d) r'] -> r' = r ->
  pumped st0 st2 (l ++ [ECall (Read fd n) (r, d)] ++ [ECall (Write out d) r']) (done +:+ d) /\
  slen (strm st2 fd) < slen (strm st fd).
Proof.
  intros (Hl & Hw & Hs) Hr Hl1 Hpos Hv2 Hl2 ->.
  destruct Hr as [[-> _]|(Hr & Hd & Hlen & _ & Hv & _)]; [lia|].
  split; [split_and!|].
  - by rewrite Hl2, Hl1, Hl, !app_assoc.
  - rewrite !written_app, Hw. cbn [written]. rewrite (wrote_full out d r) by done.
    cbn. by rewrite ?app_nil_r_s.
  - rewrite Hs, Hv2, Hv, <- app_assoc_s, Hd. by rewrite stake_sdrop.
  - rewrite Hv2, Hv, slen_sdrop by lia. pose proof (f_equal slen Hd) as He.
    rewrite slen_stake in He by lia. lia.
Qed.

(** Reads are as long as what they return. *)
Lemma stream_read_len r d v v' : stream_read fd n r d v v' -> 0 < r -> r = slen d.
Proof. intros [[-> _]|(_ & _ & H & _)]; [lia|done]. Qed.
End Pump.
