(* ===== verification/SeqSpec.v ===== *)
(** * What a sequence-number server promises

    The two servers of the programs, over FIFOs and over sockets, hand out ranges
    of numbers. The abstract promise is that the ranges follow one another;
    [SeqServer] is the interface a server implements, one round at a time, and
    [rounds_consecutive] what its clients may rely on after any number of rounds. *)

From S2P Require Import Prelude.
From S2P Require Import CLib.
From S2P Require Import Sys.
From S2P Require Import Sem.

(** [consecutive s g s']: the ranges of [g] (first number and length) follow one
    another from [s], and [s'] is the first number after them. *)
Inductive consecutive : Z -> list (Z * Z) -> Z -> Prop :=
| consecutive_nil s : consecutive s [] s
| consecutive_cons s n g s' : consecutive (i32 (s + n)) g s' -> consecutive s ((s, n) :: g) s'.

#[export] Hint Constructors consecutive : lpi.

Lemma consecutive_app s g s1 g' s2 :
  consecutive s g s1 -> consecutive s1 g' s2 -> consecutive s (g ++ g') s2.
Proof. induction 1; cbn; auto with lpi. Qed.

Lemma i32_idem z : i32 (i32 z) = i32 z.
Proof. apply swrap_id; [lia|]. apply swrap_range. lia. Qed.

(** What an event adds to the ranges: [ev_grant v ev] is what is known of the last
    request after [ev] and what [ev] hands out, when [v] was known before. *)
Section Grants.
Context {V G : Type}.
Variable ev_grant : V -> event -> V * list G.

Fixpoint grants (v : V) (l : list event) : list G :=
  match l with [] => [] | ev :: l => let '(v, g) := ev_grant v ev in g ++ grants v l end.

Definition last_known (v : V) (l : list event) : V := fold_left (fun v ev => (ev_grant v ev).1) l v.

Lemma grants_app v l l' : grants v (l ++ l') = grants v l ++ grants (last_known v l) l'.
Proof.
  revert v. induction l as [|ev l IH]; intros v; [done|]. cbn.
  destruct (ev_grant v ev) as [v' g] eqn:E. by rewrite IH, app_assoc, ?E.
Qed.
End Grants.

(** A server whose state is the next number; [range] is the first number and the
    length of what it hands out. *)
Class SeqServer `{Kernel} {V G} (body : Z -> prog (Z + unit)) (ev_grant : V -> event -> V * list G)
    (range : G -> Z * Z) :=
  seq_round : forall s st, i32 s = s ->
    wp (body s) (fun r st' => exists l, s_log st' = s_log st ++ l /\
      match r with
      | Returned (inl s') =>
          i32 s' = s' /\ exists g, (forall v, grants ev_grant v l = g) /\ consecutive s (map range g) s'
      | Returned (inr _) => False
      | Stopped x => x = Exited EXIT_FAILURE
      end) st.

Lemma rounds_consecutive `{SeqServer} v n s st s' st' :
  i32 s = s -> rounds body n s st s' st' ->
  i32 s' = s' /\ exists l, s_log st' = s_log st ++ l /\ consecutive s (map range (grants ev_grant v l)) s'.
Proof.
  intros Hs Hr.
  refine (rounds_inv _ (fun _ s1 st1 => i32 s1 = s1 /\ exists l, s_log st1 = s_log st ++ l /\
      consecutive s (map range (grants ev_grant v l)) s1) _ n 0%nat s st s' st' _ Hr);
    [|split; [done|]; exists []; split; [by rewrite app_nil_r|constructor]].
  intros j s1 st1 (Hs1 & l & Hl & Hc). eapply wp_mono; [by apply seq_round|].
  intros [[s2|[]]|x] st2 (l' & Hl' & Hx); try done. destruct Hx as (Hs' & g & Hg & Hc').
  split; [done|]. exists (l ++ l'). rewrite Hl', Hl, app_assoc, grants_app, Hg, map_app.
  split; [done|]. by eapply consecutive_app.
Qed.
