(* ===== verification/QueueSpec.v ===== *)
(** * What the programs rely on from System V message queues

    [inbox k id] are the messages a process will still receive from the queue
    [id], in order: a receive for any type fails, or takes the first of them whole;
    the other calls of a client leave them alone. [QueueKernel] is this interface,
    [queue_kernel] an executable kernel that implements it. *)

From S2P Require Import Prelude.
From S2P Require Import CLib.
From S2P Require Import Sys.
From S2P Require Import Sem.

(** A message: its type and its data. *)
Definition inboxes := Z -> list (Z * string).

Definition rcv_post (id size type r t : Z) (d : string) (v v' : inboxes) : Prop :=
  (r = -1 /\ forall id', v' id' = v id') \/
  (type = 0 -> exists rest, v id = (t, d) :: rest /\ r = slen d /\ r <= size /\
     v' id = rest /\ forall id', id' <> id -> v' id' = v id').

Definition queue_post {X} (s : SysE X) : X -> inboxes -> inboxes -> Prop :=
  match s in SysE X return X -> inboxes -> inboxes -> Prop with
  | Msgrcv id size type _ => fun '(r, t, d) => rcv_post id size type r t d
  | Msgget _ _ | Msgsnd _ _ _ _ => fun _ v v' => forall id, v' id = v id
  | _ => fun _ _ _ => True
  end.

Class QueueKernel `{K : Kernel} := {
  inbox : kstate -> inboxes;
  queue_law : forall X (s : SysE X) k, queue_post s (kcall s k).1.1 (inbox k) (inbox (kcall s k).2) }.

(** The messages a log has sent to the queue [id]. *)
Definition sent_ev (id : Z) (ev : event) : list (Z * string) :=
  match ev with
  | ECall s x =>
      match s in SysE X return X -> list (Z * string) with
      | Msgsnd id' t d _ => fun r => if (id' ==? id) && (r !=? -1) then [(t, d)] else []
      | _ => fun _ => []
      end x
  | _ => []
  end.
Definition sent (id : Z) (l : list event) : list (Z * string) := l ≫= sent_ev id.

Lemma sent_app id l l' : sent id (l ++ l') = sent id l ++ sent id l'.
Proof. apply bind_app. Qed.

Lemma sent_ok id t d flags r : r <> -1 -> sent_ev id (ECall (Msgsnd id t d flags) r) = [(t, d)].
Proof. intros H. cbn. rewrite Z.eqb_refl. by rewrite (proj2 (Z.eqb_neq _ _)). Qed.

Section QueueLemmas.
Context `{QK : QueueKernel}.

Definition inb (st : St) : inboxes := inbox (s_kern st).

Lemma queue_after {X} (s : SysE X) st : queue_post s (answer s st) (inb st) (inb (after s st)).
Proof. unfold answer, inb. rewrite s_kern_after. apply queue_law. Qed.

Lemma inb_add ev st : inb (add_ev ev st) = inb st.
Proof. done. Qed.
End QueueLemmas.

(** Steps over a call, keeping what the interface says and the log. *)
Ltac wp_queue :=
  let H := fresh "Hq" in wp_law H ltac:(fun s st => constr:(queue_after s st));
  cbn [queue_post] in H; rewrite ?inb_add in *.
Ltac wp_queue_go := repeat (cbv zeta; first [wp_queue | wp_head | wp_branch]).

(** ** An executable kernel

    Every queue is there; what is sent is received by others. *)
Definition queue_view (k : gmap Z (list (Z * string))) : inboxes := fun id => default [] (k !! id).

Definition queue_rcv (id size : Z) (k : gmap Z (list (Z * string)))
    : (Z * Z * string) * option Z * gmap Z (list (Z * string)) :=
  match queue_view k id with
  | (t, d) :: rest =>
      if slen d <=? size then ((slen d, t, d), None, <[id := rest]> k) else ((-1, 0, ""), Some ENOSYS, k)
  | [] => ((-1, 0, ""), Some EINTR, k)
  end.

Definition queue_call {X} (s : SysE X) :
    gmap Z (list (Z * string)) -> X * option Z * gmap Z (list (Z * string)) :=
  match s in SysE X return gmap Z (list (Z * string)) -> X * option Z * gmap Z (list (Z * string)) with
  | Msgget key _ => fun k => (1 + key, None, k)
  | Msgsnd _ _ _ _ => fun k => (0, None, k)
  | Msgrcv id size 0 _ => queue_rcv id size
  | s => fun k => (refuse s, Some ENOSYS, k)
  end.

#[export] Instance queue_kernel : Kernel := {| kstate := gmap Z (list (Z * string)); kcall := @queue_call |}.

Lemma queue_queue_law X (s : SysE X) k :
  queue_post s (kcall s k).1.1 (queue_view k) (queue_view (kcall s k).2).
Proof.
  destruct s; cbn; try done. destruct type; cbn; [|by left|by left].
  unfold queue_rcv, rcv_post. destruct (queue_view k id) as [|[t d] rest] eqn:E; [by left|].
  case_if; [|by left]. bool_props. right. intros _. cbn. exists rest. split_and!; try done.
  - unfold queue_view. by rewrite lookup_insert_eq.
  - intros id' Hne. unfold queue_view. by rewrite lookup_insert_ne.
Qed.

#[export] Instance queue_queues : @QueueKernel queue_kernel :=
  {| inbox := fun k : @kstate queue_kernel => queue_view k; queue_law := queue_queue_law |}.
