(* ===== verification/Lpi.v ===== *)
(** * The library shared by the programs: src/ and include/lpi/ *)

From S2P Require Import Prelude.
From S2P Require Import CLib.
From S2P Require Import Sys.
From S2P Require Import Sem.

(** ** Error.c *)
Module Error.
Inductive ExitType := EXIT_NORMAL | EXIT_IMMEDIATE.

Definition terminate {R} (exitType : ExitType) : prog R :=
  s <- sys (Getenv "EF_DUMPCORE") ;;
  when (match s with Some s => 0 <? slen s | None => false end) abort ;;
  match exitType with
  | EXIT_NORMAL => exit EXIT_FAILURE
  | EXIT_IMMEDIATE => _exit EXIT_FAILURE
  end.

Definition printErrorMsg `{CText} (error : Z) (fmt : string) (argList : list farg) : prog unit :=
  fprintf stderr "%s: " [Str (strerror error)] ;;
  fprintf stderr fmt argList ;;
  fprintf stderr "\n" [] ;;
  fflush stderr.

Definition errorMsg `{CText} (fmt : string) (argList : list farg) : prog unit :=
  savedErrno <- errno ;;
  printErrorMsg savedErrno fmt argList ;;
  fflush stdout ;;
  set_errno savedErrno.

Definition errorExit `{CText} {R} (fmt : string) (argList : list farg) : prog R :=
  e <- errno ;;
  printErrorMsg e fmt argList ;;
  fflush stdout ;;
  terminate EXIT_NORMAL.

Definition errorNumExit `{CText} {R} (errorNum : Z) (fmt : string) (argList : list farg) : prog R :=
  printErrorMsg errorNum fmt argList ;;
  fflush stdout ;;
  terminate EXIT_NORMAL.

Definition errorExitImmediate `{CText} {R} (fmt : string) (argList : list farg) : prog R :=
  e <- errno ;;
  printErrorMsg e fmt argList ;;
  fflush stdout ;;
  terminate EXIT_IMMEDIATE.

Definition fatal {R} (fmt : string) (argList : list farg) : prog R :=
  fprintf stderr fmt argList ;;
  fprintf stderr "\n" [] ;;
  fflush stderr ;;
  fflush stdout ;;
  terminate EXIT_NORMAL.

Definition usageError {R} (fmt : string) (argList : list farg) : prog R :=
  fprintf stderr "Usage: " [] ;;
  fprintf stderr fmt argList ;;
  fflush stderr ;;
  fflush stdout ;;
  exit EXIT_FAILURE.

Definition cmdlineError {R} (fmt : string) (argList : list farg) : prog R :=
  fprintf stderr "Command-line usage error: " [] ;;
  fprintf stderr fmt argList ;;
  fflush stderr ;;
  fflush stdout ;;
  exit EXIT_FAILURE.
End Error.

(** ** FilePerms.c *)
Module FilePerms.
Definition FILE_PERM_STR_SIZE : Z := 10.

Definition filePermStr (perm : Z) : string :=
  let c (b : bool) (x y : ascii) := if b then x else y in
  let chars : list ascii :=
    [c (has_bit perm S_IRUSR) "r" "-";
     c (has_bit perm S_IWUSR) "w" "-";
     (if has_bit perm S_IXUSR then c (has_bit perm S_ISUID) "s" "x"
      else c (has_bit perm S_ISUID) "S" "-");
     c (has_bit perm S_IRGRP) "r" "-";
     c (has_bit perm S_IWGRP) "w" "-";
     (if has_bit perm S_IXGRP then c (has_bit perm S_ISGID) "s" "x"
      else c (has_bit perm S_ISGID) "S" "-");
     c (has_bit perm S_IROTH) "r" "-";
     c (has_bit perm S_IWOTH) "w" "-";
     (if has_bit perm S_IXOTH then c (has_bit perm S_ISVTX) "t" "x"
      else c (has_bit perm S_ISVTX) "T" "-")]%char in
  snprintf FILE_PERM_STR_SIZE "%c%c%c%c%c%c%c%c%c" (map (fun a => Int (ord a)) chars).
End FilePerms.

(** ** Signal sets

    A [sigset_t] is the bit mask of its signals, signal [sig] at bit [sig - 1]. *)
Definition NSIG : Z := 65.
Definition SIG_BLOCK : Z := 0.
Definition SIG_UNBLOCK : Z := 1.
Definition SIG_SETMASK : Z := 2.
Definition sigmember (set sig : Z) : bool := Z.testbit set (sig - 1).
Definition sigismember (set sig : Z) : Z := if sigmember set sig then 1 else 0.
Definition sigemptyset : Z * Z := (0, 0).
Definition sigfillset : Z * Z := (0, Z.ones 64).
Definition valid_sig (sig : Z) : bool := (1 <=? sig) && (sig <? NSIG).
Definition sigaddset (set sig : Z) : Z * Z :=
  if valid_sig sig then (0, Z.setbit set (sig - 1)) else (-1, set).
Definition sigdelset (set sig : Z) : Z * Z :=
  if valid_sig sig then (0, Z.clearbit set (sig - 1)) else (-1, set).

(** ** SignalFunctions.c *)
Module SignalFunctions.
Definition printSigSet `{CText} (file : stream) (prefix : string) (sigSet : Z) : prog unit :=
  count <- for_loop 1 NSIG (fun sig count =>
    if sigismember sigSet sig ==? 1 then
      fprintf file "%s%d (%s)\n" [Str prefix; Int sig; Str (strsignal sig)] ;;
      Ret (count + 1)
    else Ret count) 0 ;;
  when (count ==? 0) (fprintf file "%s<empty signal set>\n" [Str prefix]).

Definition printSigMask `{CText} (file : stream) (msg : option string) : prog Z :=
  match msg with Some msg => fprintf file "%s" [Str msg] | None => Ret tt end ;;
  '(r, sigMask) <- sys (Sigprocmask SIG_BLOCK None) ;;
  if r ==? -1 then Ret (-1) else
  printSigSet file (format "\t\t" []) sigMask ;;
  Ret 0.

Definition printPendingSigs `{CText} (file : stream) (msg : option string) : prog Z :=
  match msg with Some msg => fprintf file "%s" [Str msg] | None => Ret tt end ;;
  '(r, pendingSigs) <- sys Sigpending ;;
  if r ==? -1 then Ret (-1) else
  printSigSet file (format "\t\t" []) pendingSigs ;;
  Ret 0.
End SignalFunctions.

(** ** Math.h *)
Module Math.
Definition min (m n : Z) : Z := if m <? n then m else n.
Definition max (m n : Z) : Z := if n <? m then m else n.
End Math.

(** ** The permission string *)

(** The permission bits a character of the string stands for: the read, write
    and execute bits of a class and its special bit. *)
Definition perm_triple (r w x special : Z) (s : string) (i : Z) : Z :=
  (if snth i s ==c "r" then r else 0) + (if snth (i + 1) s ==c "w" then w else 0) +
  (let c := snth (i + 2) s in
   if c ==c "x" then x
   else if (c ==c "s") || (c ==c "t") then x + special
   else if (c ==c "S") || (c ==c "T") then special
   else 0).
Definition perm_of_str (s : string) : Z :=
  perm_triple S_IRUSR S_IWUSR S_IXUSR S_ISUID s 0 +
  perm_triple S_IRGRP S_IWGRP S_IXGRP S_ISGID s 3 +
  perm_triple S_IROTH S_IWOTH S_IXOTH S_ISVTX s 6.

Lemma has_bit_mask p m k : Z.land k m = m -> has_bit (Z.land p k) m = has_bit p m.
Proof. intros H. unfold has_bit. by rewrite <- Z.land_assoc, H. Qed.

Lemma filePermStr_mask p : FilePerms.filePermStr p = FilePerms.filePermStr (Z.land p 4095).
Proof. unfold FilePerms.filePermStr. by rewrite !has_bit_mask. Qed.

Lemma land_4095_range p : 0 <= Z.land p 4095 < 4096.
Proof. change 4095 with (Z.ones 12). rewrite Z.land_ones by lia. apply Z.mod_pos_bound. lia. Qed.

Lemma perm_table :
  forallb (fun n => let p := Z.of_nat n in
    (perm_of_str (FilePerms.filePermStr p) =? p) && (slen (FilePerms.filePermStr p) =? 9))
    (seq 0 4096) = true.
Proof. vm_compute. reflexivity. Qed.

Lemma perm_lookup p : 0 <= p < 4096 ->
  perm_of_str (FilePerms.filePermStr p) = p /\ slen (FilePerms.filePermStr p) = 9.
Proof.
  intros Hp. pose proof (proj1 (forallb_forall _ _) perm_table (Z.to_nat p)) as H.
  specialize (H ltac:(apply in_seq; lia)). cbv beta zeta in H. rewrite Z2Nat.id in H by lia.
  apply andb_prop in H as [H1 H2]. bool_props. done.
Qed.

(** C39: [filePermStr] loses nothing: for every mode the twelve permission bits
    (set-user-ID, set-group-ID, sticky and rwx for the three classes) can be read
    back from the nine characters it returns. *)
Theorem filePermStr_roundtrip perm :
  perm_of_str (FilePerms.filePermStr perm) = Z.land perm 4095 /\
  slen (FilePerms.filePermStr perm) = 9.
Proof. rewrite filePermStr_mask. apply perm_lookup, land_4095_range. Qed.

(** ** Errors *)

Lemma printErrorMsg_ok `{CText} `{Kernel} e fmt args st :
  wp (Error.printErrorMsg e fmt args) (fun r st' => r = Returned tt /\
    s_kern st' = s_kern st /\ s_errno st' = s_errno st /\
    s_log st' = s_log st ++ [EPrint stderr (format "%s: " [Str (strerror e)]);
                             EPrint stderr (format fmt args);
                             EPrint stderr (format "\n" []); EFlush stderr]) st.
Proof.
  unfold Error.printErrorMsg. wp_go. repeat split.
  by log_events.
Qed.

(** [errorMsg] reports the error that was pending when it was called, on
    stderr, makes no system call and leaves [errno] as it found it. *)
Theorem errorMsg_preserves_errno `{CText} `{Kernel} fmt args st :
  wp (Error.errorMsg fmt args) (fun r st' => r = Returned tt /\
    s_errno st' = s_errno st /\ s_kern st' = s_kern st /\
    exists l, s_log st' = s_log st ++ l /\ calls l = [] /\
      text_on stderr l = format "%s: " [Str (strerror (s_errno st))] +:+
        format fmt args +:+ format "\n" []) st.
Proof.
  unfold Error.errorMsg. wp_head. wp_head. wp_head.
  eapply wp_mono; [apply printErrorMsg_ok|]. intros r st' (-> & Hk & He & Hl).
  wp_go. repeat split; [done|]. cbn. eexists.
  rewrite Hl, <- app_assoc. split; [reflexivity|]. split; [done|].
  cbn. by rewrite app_nil_r_s.
Qed.

(** How [terminate] ends the process: by [abort] when EF_DUMPCORE is set and not
    empty, else by the exit the caller chose. *)
Definition terminate_stop (dump : option string) (t : Error.ExitType) : stop :=
  match dump with
  | Some (String _ _) => Aborted
  | _ => match t with
         | Error.EXIT_NORMAL => Exited EXIT_FAILURE
         | Error.EXIT_IMMEDIATE => ImmExited EXIT_FAILURE
         end
  end.

Lemma terminate_ok `{Kernel} R t l st0 (st : St) :
  s_log st = s_log st0 ++ l ->
  wp (@Error.terminate R t) (fun r st' => exists dump,
    s_log st' = s_log st0 ++ l ++ [ECall (Getenv "EF_DUMPCORE") dump] /\
    r = Stopped (terminate_stop dump t)) st.
Proof.
  intros Hl. unfold Error.terminate. wp_head. wp_head.
  assert (s_log (after (Getenv "EF_DUMPCORE") st) =
    s_log st0 ++ l ++ [ECall (Getenv "EF_DUMPCORE") (answer (Getenv "EF_DUMPCORE") st)]) as Hl'.
  { by rewrite s_log_after, Hl, <- app_assoc. }
  destruct (answer (Getenv "EF_DUMPCORE") st) as [[|c s]|]; destruct t; wp_go; eauto.
Qed.

(** C40: the fatal error functions never return: each writes its message on stderr
    before it ends the process, [errorExit], [errorExitImmediate] and
    [errorNumExit] with the description of the right error number in front, and
    all of them through [terminate]: an abort exactly when EF_DUMPCORE holds a
    nonempty value, else status EXIT_FAILURE, by [_exit] only for
    [errorExitImmediate]. *)
Theorem error_exits `{CText} `{Kernel} R fmt args errorNum st :
  let ends (p : prog R) (t : Error.ExitType) (msg : string) :=
    wp p (fun r st' => exists l dump, s_log st' = s_log st ++ l ++ [ECall (Getenv "EF_DUMPCORE") dump] /\
      calls l = [] /\ text_on stderr l = msg /\ r = Stopped (terminate_stop dump t)) st in
  let msg e := format "%s: " [Str (strerror e)] +:+ format fmt args +:+ format "\n" [] in
  ends (Error.errorExit fmt args) Error.EXIT_NORMAL (msg (s_errno st)) /\
  ends (Error.errorExitImmediate fmt args) Error.EXIT_IMMEDIATE (msg (s_errno st)) /\
  ends (Error.errorNumExit errorNum fmt args) Error.EXIT_NORMAL (msg errorNum) /\
  ends (Error.fatal fmt args) Error.EXIT_NORMAL (format fmt args +:+ format "\n" []).
Proof.
  cbv zeta. split; [|split; [|split]].
  all: unfold Error.errorExit, Error.errorExitImmediate, Error.errorNumExit, Error.fatal.
  1-3: repeat wp_head; eapply wp_mono; [apply printErrorMsg_ok|];
    intros r st' (-> & Hk & He & Hl); repeat wp_head.
  4: repeat wp_head.
  all: eapply wp_mono; [eapply (terminate_ok _ _ _ st); log_events; rewrite ?Hl, <- ?app_assoc; reflexivity|].
  all: intros r' st2 [dump [Hl2 ->]]; do 2 eexists; split; [exact Hl2|].
  all: cbn; by rewrite app_nil_r_s.
Qed.

(** ** printSigSet *)
Section SigSet.
Context `{T : CText} `{K : Kernel}.
Variables (file : stream) (prefix : string) (sigSet : Z).

Definition sig_line (sig : Z) : string :=
  format "%s%d (%s)\n" [Str prefix; Int sig; Str (strsignal sig)].

(** The signals of the set, in increasing order. *)
Definition sigs_upto (n : Z) : list Z :=
  filter (fun sig => sigmember sigSet sig = true) (map Z.of_nat (seq 1 (Z.to_nat (n - 1)))).

Lemma sigs_upto_S n : 1 <= n ->
  sigs_upto (n + 1) = sigs_upto n ++ (if sigmember sigSet n then [n] else []).
Proof.
  intros Hn. unfold sigs_upto.
  replace (Z.to_nat (n + 1 - 1)) with (Z.to_nat (n - 1) + 1)%nat by lia.
  rewrite seq_app, map_app, filter_app. cbn [seq map].
  replace (Z.of_nat (1 + Z.to_nat (n - 1))) with n by lia.
  f_equal. cbn. destruct (sigmember sigSet n) eqn:E; by case_decide.
Qed.

Lemma printSigSet_ok st :
  wp (SignalFunctions.printSigSet file prefix sigSet) (fun r st' => r = Returned tt /\
    s_kern st' = s_kern st /\ s_errno st' = s_errno st /\
    s_log st' = s_log st ++ match sigs_upto NSIG with
      | [] => [EPrint file (format "%s<empty signal set>\n" [Str prefix])]
      | sigs => map (fun sig => EPrint file (sig_line sig)) sigs
      end) st.
Proof.
  unfold SignalFunctions.printSigSet. wp_head.
  apply (wp_for_loop _ _ _ (fun n count st' => 1 <= n /\ count = Z.of_nat (length (sigs_upto n)) /\
    s_kern st' = s_kern st /\ s_errno st' = s_errno st /\
    s_log st' = s_log st ++ map (fun sig => EPrint file (sig_line sig)) (sigs_upto n))).
  - split_and!; [lia|done|done|done|]. by rewrite app_nil_r.
  - intros i count st1 Hi (Hi1 & -> & Hk & He & Hl). unfold sigismember.
    rewrite sigs_upto_S by lia.
    destruct (sigmember sigSet i); wp_go; rewrite ?length_app, ?map_app, ?app_nil_r; cbn.
    + split_and!; [lia|lia|done|done|]. by rewrite Hl, app_assoc.
    + split_and!; [lia|lia|done|done|done].
  - intros i count st1 Hi Hlast (_ & -> & Hk & He & Hl). rewrite (Hlast ltac:(done)) in *.
    destruct (sigs_upto NSIG) as [|s l]; cbn [length] in *; wp_go; try (exfalso; bool_props; lia).
    + split_and!; [done|done|done|]. log_events. rewrite Hl. cbn. by rewrite app_nil_r.
    + split_and!; done.
Qed.
End SigSet.

(** [printSigMask] and [printPendingSigs] print the signals of the mask, or of
    the pending set, the system reports, each once and in increasing order between
    1 and NSIG - 1, and ["<empty signal set>"] when there is none; they return -1
    and print no signal when the system call fails. *)
Theorem print_sig_sets `{CText} `{Kernel} file msg st :
  let prints (p : prog Z) (s : SysE (Z * Z)) :=
    wp p (fun r st' => exists ret set l,
      s_log st' = s_log st ++ (if msg is Some m then [EPrint file (format "%s" [Str m])] else []) ++
        ECall s (ret, set) :: l /\
      if ret ==? -1 then r = Returned (-1) /\ l = []
      else r = Returned 0 /\
        l = match sigs_upto set NSIG with
            | [] => [EPrint file (format "%s<empty signal set>\n" [Str (format "\t\t" [])])]
            | sigs => map (fun sig => EPrint file (sig_line (format "\t\t" []) sig)) sigs
            end) st in
  prints (SignalFunctions.printSigMask file msg) (Sigprocmask SIG_BLOCK None) /\
  prints (SignalFunctions.printPendingSigs file msg) Sigpending.
Proof.
  cbv zeta. split.
  all: unfold SignalFunctions.printSigMask, SignalFunctions.printPendingSigs; destruct msg as [m|].
  all: wp_go; try (exists z, z0; bool_props; subst; eexists; log_events;
    match goal with Hp : answer _ _ = _ |- _ => rewrite Hp end; split; [reflexivity|done]).
  all: eapply wp_mono; [apply printSigSet_ok|]; intros r' st2 (-> & Hk & He & Hl); wp_go;
    exists z, z0; eexists; rewrite Hl; log_events;
    match goal with Hp : answer _ _ = _ |- _ => rewrite Hp end; (split; [reflexivity|]);
    match goal with Hb : _ = false |- _ => rewrite Hb end; done.
Qed.
