(* ===== verification/FileIO.v ===== *)
(** * File input and output: fileio/src/ *)

From S2P Require Import Prelude.
From S2P Require Import CLib.
From S2P Require Import Sys.
From S2P Require Import Sem.
From S2P Require Import FsSpec.

(** ** copy.c

    [buffer0] is the indeterminate content of the buffer when it is declared. *)
Module copy.
Definition BUFFER_SIZE : Z := 1024.

(** The transfer loop, from the [read] in the loop condition; the variables are
    [buffer] and the [numRead] the loop ends with. *)
Definition transfer `{CText} (inputFd outputFd : Z) (outputFilepath : string) (buffer : string)
    : prog (Z * string) :=
  ITree.iter (fun buffer =>
    '(numRead, data) <- sys (Read inputFd BUFFER_SIZE) ;;
    let buffer := overlay data buffer in
    if negb (0 <? numRead) then Ret (inr (numRead, buffer)) else
    r <- sys (Write outputFd (stake numRead buffer)) ;;
    when (r !=? numRead) (
      fprintf stderr "Failed to write whole buffer to %s\n" [Str outputFilepath] ;;
      exit EXIT_FAILURE) ;;
    Ret (inl buffer)) buffer.

Definition main `{CText} (buffer0 : string) (argv : list string) : prog Z :=
  when ((argc argv !=? 3) || streq argv.[1] "--help") (
    fprintf stderr "Usage: %s <inputFile> <outputFile>\n" [Str argv.[0]] ;;
    exit EXIT_FAILURE) ;;
  let inputFilepath := argv.[1] in
  inputFd <- sys (Open inputFilepath O_RDONLY 0) ;;
  when (inputFd ==? -1) (
    e <- errno ;;
    fprintf stderr "%s: Failed to open file %s\n" [Str (strerror e); Str inputFilepath] ;;
    exit EXIT_FAILURE) ;;
  let outputFilepath := argv.[2] in
  outputFd <- sys (Open outputFilepath (O_CREAT .| O_WRONLY .| O_TRUNC)
                (S_IRUSR .| S_IWUSR .| S_IRGRP .| S_IWGRP .| S_IROTH .| S_IWOTH)) ;;
  when (outputFd ==? -1) (
    e <- errno ;;
    fprintf stderr "%s: Failed to open file %s\n" [Str (strerror e); Str outputFilepath] ;;
    exit EXIT_FAILURE) ;;
  '(numRead, _) <- transfer inputFd outputFd outputFilepath buffer0 ;;
  when (numRead ==? -1) (
    fprintf stderr "Failed to read %s\n" [Str inputFilepath] ;;
    exit EXIT_FAILURE) ;;
  r <- sys (Close inputFd) ;;
  when (r ==? -1) (
    e <- errno ;;
    fprintf stderr "%s: Failed to close file %s\n" [Str (strerror e); Str inputFilepath] ;;
    exit EXIT_FAILURE) ;;
  r <- sys (Close outputFd) ;;
  when (r ==? -1) (
    e <- errno ;;
    fprintf stderr "%s: Failed to close file %s\n" [Str (strerror e); Str outputFilepath] ;;
    exit EXIT_FAILURE) ;;
  Ret 0.
End copy.

(** ** seek_io.c *)
Module seek_io.
Inductive DisplayType := TEXT | HEX.

Definition getUnsignedLong (str : string) : prog Z :=
  set_errno 0 ;;
  result <- strtoul str 10 ;;
  e <- errno ;;
  when ((e !=? 0) || negb (st_conv result)) (
    fprintf stderr "Failed to convert %s to unsigned long\n" [Str str] ;;
    exit EXIT_FAILURE) ;;
  Ret (st_val result).

Definition getLong (str : string) : prog Z :=
  set_errno 0 ;;
  result <- strtol str 10 ;;
  e <- errno ;;
  when ((e !=? 0) || negb (st_conv result)) (
    fprintf stderr "Failed to convert %s to long\n" [Str str] ;;
    exit EXIT_FAILURE) ;;
  Ret (st_val result).

(** [buffer] holds the bytes of the allocated block; [printf ("%lx ")] of a
    negative [char] converts its sign-extended value to [unsigned int]. *)
Definition readDisplayBytes `{CText} (fd length : Z) (displayType : DisplayType) : prog unit :=
  buf <- sys (Malloc length) ;;
  when (buf ==? 0) (
    fprintf stderr "Failed to malloc %ld bytes\n" [Int (i64 length)] ;;
    exit EXIT_FAILURE) ;;
  '(numBytesRead, buffer) <- sys (Read fd length) ;;
  (if numBytesRead ==? -1 then
     e <- errno ;;
     fprintf stderr "%s: Failed to read %ld bytes\n" [Str (strerror e); Int (i64 length)] ;;
     exit EXIT_FAILURE
   else if numBytesRead ==? 0 then printf "End-of-file\n" []
   else match displayType with
        | TEXT => for_ 0 numBytesRead (fun j =>
            printf "%c" [Int (if isprint (snth j buffer) then schar (snth j buffer) else ord "?")])
        | HEX => for_ 0 numBytesRead (fun j =>
            printf "%02x " [Int (u32 (schar (snth j buffer)))])
        end) ;;
  sys (Free buf).

Definition usage (argv : list string) : prog unit :=
  fprintf stderr "Usage: %s <file> {r<length>|R<length>|w<string>|s<offset> ...}\n" [Str argv.[0]] ;;
  exit EXIT_FAILURE.

(** One command of the command line: the [switch] of [main]. *)
Definition command `{CText} (fd : Z) (filepath arg : string) : prog unit :=
  let c := snth 0 arg in
  let rest := sdrop 1 arg in
  if c ==c "r" then
    length <- getUnsignedLong rest ;; readDisplayBytes fd length TEXT
  else if c ==c "R" then
    length <- getUnsignedLong rest ;; readDisplayBytes fd length HEX
  else if c ==c "w" then
    let str := rest in
    numBytesWritten <- sys (Write fd str) ;;
    when (numBytesWritten ==? -1) (
      e <- errno ;;
      fprintf stderr "%s: Failed to write to %s\n" [Str (strerror e); Str filepath] ;;
      exit EXIT_FAILURE) ;;
    printf "Wrote %lu bytes to %s\n" [Int (u64 numBytesWritten); Str filepath]
  else if c ==c "s" then
    offset <- getLong rest ;;
    offsetSeeked <- sys (Lseek fd offset SEEK_SET) ;;
    when (offsetSeeked !=? offset) (
      fprintf stderr "Failed to seek to offset %ld\n" [Int offset] ;;
      exit EXIT_FAILURE) ;;
    printf "Seeked to offset %ld\n" [Int offsetSeeked]
  else
    fprintf stderr "Command-line usage error - Argument must start with [rRws]: %s\n" [Str arg] ;;
    exit EXIT_FAILURE.

Definition main `{CText} (argv : list string) : prog Z :=
  when ((argc argv <? 3) || streq argv.[1] "--help") (usage argv) ;;
  let filepath := argv.[1] in
  fd <- sys (Open filepath (O_RDWR .| O_CREAT)
         (S_IRUSR .| S_IWUSR .| S_IRGRP .| S_IWGRP .| S_IROTH .| S_IWOTH)) ;;
  when (fd ==? -1) (
    e <- errno ;;
    fprintf stderr "%s: Failed to open %s\n" [Str (strerror e); Str filepath] ;;
    exit EXIT_FAILURE) ;;
  for_ 2 (argc argv) (fun i =>
    when (slen argv.[i] <? 2) (usage argv) ;;
    command fd filepath argv.[i]) ;;
  r <- sys (Close fd) ;;
  when (r ==? -1) (
    e <- errno ;;
    fprintf stderr "%s: Failed to close %s\n" [Str (strerror e); Str filepath] ;;
    exit EXIT_FAILURE) ;;
  Ret 0.
End seek_io.

(** ** t_readv.c

    The three buffers are a [struct stat], an [int] and 100 characters. *)
Module t_readv.
Definition STRING_LENGTH : Z := 100.
Definition NUM_BUFFERS : Z := 3.
Definition sizeof_stat : Z := 144.
Definition buffers : list Z := [sizeof_stat; sizeof_int; STRING_LENGTH].

Definition main `{CText} (argv : list string) : prog Z :=
  when ((argc argv !=? 2) || streq argv.[1] "--help") (
    fprintf stderr "Usage: %s <file>\n" [Str argv.[0]] ;;
    exit EXIT_FAILURE) ;;
  let filepath := argv.[1] in
  fd <- sys (Open filepath O_RDONLY 0) ;;
  when (fd ==? -1) (
    e <- errno ;;
    fprintf stderr "Failed to open %s - %s\n" [Str filepath; Str (strerror e)] ;;
    exit EXIT_FAILURE) ;;
  totalSize_bytes <- for_loop 0 NUM_BUFFERS (fun i total =>
    Ret (u64 (total + nth (Z.to_nat i) buffers 0))) 0 ;;
  '(bytesRead, _) <- sys (Readv fd buffers) ;;
  when (bytesRead ==? -1) (
    e <- errno ;;
    fprintf stderr "Failed to read %s - %s\n" [Str filepath; Str (strerror e)] ;;
    exit EXIT_FAILURE) ;;
  when (u64 bytesRead <? totalSize_bytes) (
    printf "Read fewer bytes than requested\n" []) ;;
  printf "Total bytes requested: %ld; bytes read: %ld\n" [Int totalSize_bytes; Int bytesRead] ;;
  r <- sys (Close fd) ;;
  when (r ==? -1) (
    e <- errno ;;
    fprintf stderr "Failed to close %s - %s\n" [Str filepath; Str (strerror e)] ;;
    exit EXIT_FAILURE) ;;
  Ret 0.
End t_readv.

(** ** copy: the transfer loop *)
Section CopyTransfer.
Context `{T : CText} `{FK : FileKernel}.
Variables (fdi fdo iin iout : Z) (c : string) (names : gmap string Z).
Hypothesis Hfd : fdi <> fdo.
Hypothesis Hino : iin <> iout.

(** [off] bytes have been transferred. *)
Definition copied (off : Z) (v : fs) : Prop :=
  0 <= off <= slen c /\ fd_at v fdi iin off c /\
  fd_at v fdo iout off (stake off c) /\ fs_names v = names.

Definition fd_off (fd : Z) (v : fs) : Z := from_option snd 0 (fs_fds v !! fd).

Lemma copied_off off v : copied off v -> fd_off fdi v = off.
Proof. intros (_ & [H _] & _). unfold fd_off. by rewrite H. Qed.

(** A read followed by the write of what was read keeps the files in step. *)
Lemma copied_step off n r d v v1 v2 :
  copied off v -> read_post fdi n r d v v1 -> 0 < r -> write_post fdo r d v1 v2 ->
  r = slen d /\ copied (off + r) v2.
Proof.
  intros (Ho & Hi & Hw & Hn) Hr Hpos Hwr.
  destruct Hr as [[-> _]|(ino & off' & c' & Hat & -> & Hle & Hd & _ & ->)]; [lia|].
  destruct (fd_at_det _ _ _ _ _ _ _ _ Hi Hat) as (<- & <- & <-).
  destruct Hwr as [[Hx _]|(ino & off' & c' & Hat' & Hrange & ->)]; [lia|].
  destruct (fd_at_det _ _ _ _ _ _ _ _ (fd_at_set_fd _ _ _ _ _ (iin, off + slen d) _ (not_eq_sym Hfd) Hw) Hat')
    as (<- & <- & <-).
  pose proof (f_equal slen Hd) as Hlen. rewrite slen_stake, slen_sdrop in Hlen by lia.
  assert (write_at off (stake (slen d) d) (stake off c) = stake (off + slen d) c) as Hwa.
  { rewrite stake_all by lia. assert (off = slen (stake off c)) as E by (rewrite slen_stake by lia; lia).
    rewrite E at 1. rewrite write_at_end. rewrite Hd at 1. apply stake_sdrop_app; lia. }
  split; [done|]. rewrite Hwa. split; [lia|]. split; [|split; [|done]].
  - apply fd_at_set_fd; [done|]. apply fd_at_set_data; [done|]. apply fd_at_set_fd_eq. apply Hi.
  - apply fd_at_set_fd_eq. cbn. by rewrite lookup_insert_eq.
Qed.

(** At the end of the input a read leaves everything in place. *)
Lemma copied_end off n r d v v1 :
  copied off v -> read_post fdi n r d v v1 -> r <= 0 -> 0 < n ->
  r = -1 \/ (r = 0 /\ copied (slen c) v1).
Proof.
  intros (Ho & Hi & Hw & Hn) Hr Hpos Hn0.
  destruct Hr as [[-> _]|(ino & off' & c' & Hat & -> & Hle & Hd & He & ->)]; [by left|right].
  destruct (fd_at_det _ _ _ _ _ _ _ _ Hi Hat) as (<- & <- & <-).
  pose proof (slen_nonneg d). assert (slen d = 0) as Hz by lia. rewrite Hz in *.
  assert (off = slen c) as -> by lia. split; [done|]. rewrite Z.add_0_r.
  split; [lia|]. split; [|split; [|done]].
  - apply fd_at_set_fd_eq. apply Hi.
  - by apply fd_at_set_fd.
Qed.

Lemma transfer_ok path buffer st :
  copied 0 (fsv st) ->
  wp (copy.transfer fdi fdo path buffer) (fun r st' =>
    match r with
    | Returned (n, _) => n = -1 \/ (n = 0 /\ copied (slen c) (fsv st'))
    | Stopped s => s = Exited EXIT_FAILURE
    end) st.
Proof.
  intros H0. unfold copy.transfer.
  apply (wp_iter_measure _ (fun _ st => exists off, copied off (fsv st))
           (fun _ st => Z.to_nat (slen c - fd_off fdi (fsv st)))); [|by exists 0].
  intros buf st0 [off Hc]. wp_head. wp_fs. destruct x as [r d].
  case_if; bool_props.
  - wp_head. eapply copied_end; [done|exact Hfs|lia|done].
  - wp_head. wp_fs. wp_go; [done|]. bool_props. subst x.
    assert (r = slen d) as Hrd by (destruct Hfs as [[? _]|(? & ? & ? & _ & ? & _)]; lia).
    rewrite Hrd, stake_overlay, <- Hrd in Hfs0.
    destruct (copied_step _ _ _ _ _ _ _ Hc Hfs ltac:(lia) Hfs0) as [_ Hc'].
    split; [by eexists|]. rewrite (copied_off _ _ Hc'), (copied_off _ _ Hc).
    destruct Hc' as [? _]. lia.
Qed.
End CopyTransfer.

(** C1: When the name of the output does not stand for the input file, [copy]
    terminates, and whenever it reports success the output file holds exactly the bytes
    of the input file, which is unchanged: whatever the lengths of the reads and
    whichever calls fail. On any other outcome it exits with status 1. (A copy of a
    file onto itself empties it: [copy_onto_itself_empties].) *)
Theorem copy_correct `{CText} `{FileKernel} buffer0 argv st iin c :
  argc argv = 3 -> argv.[1] <> "--help" ->
  fs_names (fsv st) !! argv.[1] = Some iin -> fs_data (fsv st) !! iin = Some c ->
  fs_names (fsv st) !! argv.[2] <> Some iin ->
  wp (copy.main buffer0 argv) (fun r st' =>
    if success r then exists iout, iout <> iin /\
      fs_names (fsv st') !! argv.[2] = Some iout /\
      fs_data (fsv st') !! iout = Some c /\ fs_data (fsv st') !! iin = Some c
    else r = Stopped (Exited EXIT_FAILURE)) st.
Proof.
  intros Hargc Hhelp Hin Hdata Hout. unfold copy.main.
  rewrite usage_guard by done. wp_fs_go; [done|done|]. bool_props.
  destruct (open_existing _ _ _ _ _ _ _ Hfs ltac:(done) eq_refl Hin Hdata) as (_ & Hi & Hn1).
  rewrite <- Hn1 in Hout.
  destruct (open_other _ _ _ _ _ _ _ Hfs0 ltac:(done) eq_refl Hout (proj2 Hi))
    as (Hfree & iout & Hne & Ho & Hn2 & Hd2 & Hframe).
  assert (x <> x0) as Hxx by (intros ->; destruct Hi as [Hi _]; congruence).
  eapply wp_mono; [apply (transfer_ok x x0 iin iout c (fs_names (fsv st1)) Hxx Hne)|].
  { split; [pose proof (slen_nonneg c); lia|]. split; [|done].
    split; [|done]. rewrite Hframe by done. apply Hi. }
  intros [[n buf]|s] st2; [|by intros ->].
  intros [-> | [-> (_ & [_ Hci] & [_ Hco] & Hnm)]]; [by wp_go|].
  wp_fs_go; [done|done|]. cbn. exists iout.
  destruct (close_data _ _ _ _ Hfs1) as [Hd3 Hn3], (close_data _ _ _ _ Hfs2) as [Hd4 Hn4].
  rewrite Hd4, Hn4, Hd3, Hn3.
  rewrite Hnm. rewrite stake_all in Hco by lia. done.
Qed.

(** Two files and a program name, for the witnesses. *)
Definition two_files : @St mem_kernel :=
  mkSt 0 [] (Fs {["a" := 1; "b" := 2]} {[1 := "some bytes"; 2 := "old"]} ∅).

Lemma copy_correct_witness :
  let _ := plain_text in
  @wp mem_kernel _ (copy.main "" ["copy"; "a"; "b"]) (fun r st' =>
    if success r then exists iout, iout <> 1 /\
      fs_names (fsv st') !! "b" = Some iout /\
      fs_data (fsv st') !! iout = Some "some bytes" /\ fs_data (fsv st') !! 1 = Some "some bytes"
    else r = Stopped (Exited EXIT_FAILURE)) two_files.
Proof. apply (copy_correct "" ["copy"; "a"; "b"] two_files 1 "some bytes"); done. Defined.

(** On an empty input the transfer writes nothing. *)
Lemma transfer_empty `{CText} `{FileKernel} fdi fdo ino path buffer st :
  fd_at (fsv st) fdi ino 0 "" ->
  wp (copy.transfer fdi fdo path buffer) (fun r st' =>
    match r with
    | Returned (n, _) => n = -1 \/ (n = 0 /\ fs_data (fsv st') = fs_data (fsv st))
    | Stopped s => s = Exited EXIT_FAILURE
    end) st.
Proof.
  intros Hat. apply wp_iter. wp_head. wp_fs. destruct x as [r d].
  destruct Hfs as [[-> Hv]|(ino' & off & c & Hat' & -> & Hle & Hd & _ & Hv)].
  - wp_go. by left.
  - destruct (fd_at_det _ _ _ _ _ _ _ _ Hat Hat') as (<- & <- & <-).
    assert (d = "") as -> by (rewrite Hd; unfold stake; by destruct (Z.to_nat _)).
    wp_go. right. by rewrite Hv.
Qed.

(** Copying a file onto itself succeeds and leaves the file empty: the output
    is opened with O_TRUNC before the first read, and nothing compares the two. *)
Theorem copy_onto_itself_empties `{CText} `{FileKernel} buffer0 argv st ino c :
  argc argv = 3 -> argv.[1] <> "--help" ->
  fs_names (fsv st) !! argv.[1] = Some ino -> fs_data (fsv st) !! ino = Some c ->
  fs_names (fsv st) !! argv.[2] = Some ino ->
  wp (copy.main buffer0 argv) (fun r st' =>
    success r = true -> fs_data (fsv st') !! ino = Some "") st.
Proof.
  intros Hargc Hhelp Hin Hdata Hout. unfold copy.main.
  rewrite usage_guard by done. wp_fs_go; [done|done|]. bool_props.
  destruct (open_existing _ _ _ _ _ _ _ Hfs ltac:(done) eq_refl Hin Hdata) as (_ & Hi & Hn1).
  rewrite <- Hn1 in Hout.
  destruct Hfs0 as [[-> _]|(_ & Hfree & ino' & c' & [[Hn' Hd']|[Hn' _]] & Hv)]; [done| |congruence].
  replace ino' with ino in * by congruence.
  assert (fs_data (fsv st1) !! ino = Some "") as Hempty by (rewrite Hv; cbn; by rewrite lookup_insert_eq).
  eapply wp_mono; [apply (transfer_empty x x0 ino)|].
  { split; [|done]. rewrite Hv. cbn. destruct Hi as [Hi _]. rewrite lookup_insert_ne; [done|congruence]. }
  intros [[n buf]|s] st2; [|by intros ->].
  intros [-> | [-> Hd2]]; [by wp_go|].
  wp_fs_go; intros Hs; try discriminate Hs.
  destruct (close_data _ _ _ _ Hfs0) as [Hd3 _], (close_data _ _ _ _ Hfs1) as [Hd4 _].
  congruence.
Qed.

Lemma copy_onto_itself_empties_witness :
  let _ := plain_text in
  @wp mem_kernel _ (copy.main "" ["copy"; "a"; "a"]) (fun r st' =>
    success r = true -> fs_data (fsv st') !! 1 = Some "") two_files.
Proof. apply (copy_onto_itself_empties "" ["copy"; "a"; "a"] two_files 1 "some bytes"); done. Defined.
