(* ===== verification/Files.v ===== *)
(** * File attributes, directories and links: files/src/ and dirs_links/src/ *)

From S2P Require Import Prelude.
From S2P Require Import CLib.
From S2P Require Import Sys.
From S2P Require Import Sem.
From S2P Require Import Lpi.

(** ** t_chown.c *)
Module t_chown.
Definition main `{CText} (argv : list string) : prog Z :=
  when ((argc argv <? 4) || streq argv.[1] "-h") (
    fprintf stderr "Usage: %s <owner> <group> <file>...\n" [Str argv.[0]] ;;
    exit EXIT_FAILURE) ;;
  let owner := argv.[1] in
  ownerId <- (if negb (streq owner "-") then
    ownerEntry <- sys (Getpwnam owner) ;;
    match ownerEntry with
    | None =>
        e <- errno ;;
        fprintf stderr "Failed to find UID for %s - %s\n" [Str owner; Str (strerror e)] ;;
        exit EXIT_FAILURE
    | Some entry => Ret (pw_uid entry)
    end
  else Ret (u32 (-1))) ;;
  let owningGroup := argv.[2] in
  owningGroupId <- (if negb (streq owningGroup "-") then
    owningGroupEntry <- sys (Getgrnam owningGroup) ;;
    match owningGroupEntry with
    | None =>
        e <- errno ;;
        fprintf stderr "Failed to find GID for %s - %s\n" [Str owningGroup; Str (strerror e)] ;;
        exit EXIT_FAILURE
    | Some entry => Ret (gr_gid entry)
    end
  else Ret (u32 (-1))) ;;
  for_ 3 (argc argv) (fun i =>
    let pathname := argv.[i] in
    r <- sys (Chown pathname ownerId owningGroupId) ;;
    if r ==? -1 then
      e <- errno ;;
      fprintf stderr "Failed to chown %s - %s\n" [Str pathname; Str (strerror e)] ;;
      exit EXIT_FAILURE
    else printf "Successfully chown'd %s\n" [Str pathname]) ;;
  Ret 0.
End t_chown.

(** ** t_stat.c *)
Module t_stat.
(** The macros of sys/sysmacros.h. *)
Definition major (dev : Z) : Z :=
  Z.lor (Z.land (Z.shiftr dev 8) 4095) (u32 (Z.land (Z.shiftr dev 32) (Z.lnot 4095))).
Definition minor (dev : Z) : Z :=
  Z.lor (Z.land dev 255) (u32 (Z.land (Z.shiftr dev 12) (Z.lnot 255))).

Definition printUsageMsg (program : string) : prog unit :=
  fprintf stderr "Usage: %s [-l] <file>\n" [Str program].

Definition printStat `{CText} (statBuffer : stat_t) : prog unit :=
  printf "File type: " [] ;;
  (let type := Z.land (st_mode statBuffer) S_IFMT in
   if type ==? S_IFREG then printf "regular file" []
   else if type ==? S_IFDIR then printf "directory" []
   else if type ==? S_IFCHR then printf "character device" []
   else if type ==? S_IFBLK then printf "block device" []
   else if type ==? S_IFIFO then printf "FIFO or pipe" []
   else if type ==? S_IFSOCK then printf "socket" []
   else if type ==? S_IFLNK then printf "symbolic link" []
   else printf "unrecognized file type" []) ;;
  printf "\nDevice containing i-node: major=%ld minor=%ld\n"
    [Int (major (st_rdev statBuffer)); Int (minor (st_rdev statBuffer))] ;;
  printf "I-node number: %ld\n" [Int (i64 (st_ino statBuffer))] ;;
  printf "Mode: %lo\n" [Int (st_mode statBuffer)] ;;
  printf "Number of (hard) links: %ld\n" [Int (i64 (st_nlink statBuffer))] ;;
  printf "Ownership: UID=%ld GID=%ld\n" [Int (st_uid statBuffer); Int (st_gid statBuffer)] ;;
  printf "File size: %ld bytes\n" [Int (st_size statBuffer)] ;;
  printf "Optimal I/O block size: %ld bytes\n" [Int (st_blksize statBuffer)] ;;
  printf "512B blocks allocated: %ld\n" [Int (st_blocks statBuffer)] ;;
  printf "Last file access: %s" [Str (ctime (st_atim statBuffer))] ;;
  printf "Last file modification: %s" [Str (ctime (st_mtim statBuffer))] ;;
  printf "Last status change: %s" [Str (ctime (st_ctim statBuffer))].

Definition main `{CText} (argv : list string) : prog Z :=
  statBuffer <- (if argc argv ==? 2 then
    let filepath := argv.[1] in
    '(r, statBuffer) <- sys (StatPath filepath) ;;
    when (r ==? -1) (
      e <- errno ;;
      fprintf stderr "Failed to call stat() on %s - %s\n" [Str filepath; Str (strerror e)] ;;
      exit EXIT_FAILURE) ;;
    Ret statBuffer
  else if argc argv ==? 3 then
    when (negb (streq argv.[1] "-l")) (printUsageMsg argv.[0] ;; exit EXIT_FAILURE) ;;
    let filepath := argv.[2] in
    '(r, statBuffer) <- sys (Lstat filepath) ;;
    when (r ==? -1) (
      e <- errno ;;
      fprintf stderr "Failed to call lstat() on %s - %s\n" [Str filepath; Str (strerror e)] ;;
      exit EXIT_FAILURE) ;;
    Ret statBuffer
  else
    printUsageMsg argv.[0] ;;
    exit EXIT_FAILURE) ;;
  printStat statBuffer ;;
  Ret 0.
End t_stat.

(** ** t_umask.c *)
Module t_umask.
Definition MY_FILE : string := "myfile".
Definition MY_DIR : string := "mydir".
Definition REQUESTED_FILE_PERMS : Z := S_IRUSR .| S_IWUSR .| S_IRGRP .| S_IWGRP.
Definition REQUESTED_DIR_PERMS : Z := S_IRWXU .| S_IRWXG .| S_IRWXO.
Definition PROCESS_UMASK : Z := S_IWGRP .| S_IXGRP .| S_IWOTH .| S_IXOTH.

Definition main `{CText} (argv : list string) : prog Z :=
  sys (Umask PROCESS_UMASK) ;;
  fd <- sys (Open MY_FILE (O_RDWR .| O_CREAT .| O_EXCL) REQUESTED_FILE_PERMS) ;;
  when (fd ==? -1) (
    e <- errno ;;
    fprintf stderr "Failed to open %s - %s\n" [Str MY_FILE; Str (strerror e)] ;;
    exit EXIT_FAILURE) ;;
  r <- sys (Mkdir MY_DIR REQUESTED_DIR_PERMS) ;;
  when (r ==? -1) (
    e <- errno ;;
    fprintf stderr "Failed to mkdir %s - %s\n" [Str MY_DIR; Str (strerror e)] ;;
    exit EXIT_FAILURE) ;;
  processUmask <- sys (Umask 0) ;;
  '(r, fileStat) <- sys (StatPath MY_FILE) ;;
  when (r ==? -1) (
    e <- errno ;;
    fprintf stderr "Failed to stat %s - %s\n" [Str MY_FILE; Str (strerror e)] ;;
    exit EXIT_FAILURE) ;;
  '(r, dirStat) <- sys (StatPath MY_DIR) ;;
  when (r ==? -1) (
    e <- errno ;;
    fprintf stderr "Failed to stat %s - %s\n" [Str MY_DIR; Str (strerror e)] ;;
    exit EXIT_FAILURE) ;;
  printf "Requested file perms: %s\n" [Str (FilePerms.filePermStr REQUESTED_FILE_PERMS)] ;;
  printf "Process umask: %s\n" [Str (FilePerms.filePermStr processUmask)] ;;
  printf "Actual file perms: %s\n\n" [Str (FilePerms.filePermStr (st_mode fileStat))] ;;
  printf "Requested dir perms: %s\n" [Str (FilePerms.filePermStr REQUESTED_DIR_PERMS)] ;;
  printf "Process umask: %s\n" [Str (FilePerms.filePermStr processUmask)] ;;
  printf "Actual dir perms: %s\n" [Str (FilePerms.filePermStr (st_mode dirStat))] ;;
  r <- sys (Unlink MY_FILE) ;;
  when (r ==? -1) (
    e <- errno ;;
    fprintf stderr "Failed to unlink %s - %s\n" [Str MY_FILE; Str (strerror e)] ;;
    exit EXIT_FAILURE) ;;
  r <- sys (Rmdir MY_DIR) ;;
  when (r ==? -1) (
    e <- errno ;;
    fprintf stderr "Failed to rmdir %s - %s\n" [Str MY_DIR; Str (strerror e)] ;;
    exit EXIT_FAILURE) ;;
  Ret 0.
End t_umask.

(** ** list_files.c *)
Module list_files.
(** The loop over the directory stream, from the first [readdir]. *)
Definition list_entries (dirpath : string) (dir : Z) : prog unit :=
  ITree.iter (fun _ : unit =>
    dirEntry <- sys (Readdir dir) ;;
    match dirEntry with
    | None => Ret (inr tt)
    | Some d_name =>
        if streq d_name "." || streq d_name ".." then Ret (inl tt) else
        when (negb (streq dirpath ".")) (printf "%s/" [Str dirpath]) ;;
        printf "%s\n" [Str d_name] ;;
        Ret (inl tt)
    end) tt.

Definition listFiles `{CText} (dirpath : string) : prog unit :=
  dir <- sys (Opendir dirpath) ;;
  when (dir ==? 0) (
    e <- errno ;;
    fprintf stderr "Failed to open dir %s - %s\n" [Str dirpath; Str (strerror e)] ;;
    exit EXIT_FAILURE) ;;
  set_errno 0 ;;
  list_entries dirpath dir ;;
  e <- errno ;;
  when (e !=? 0) (
    e <- errno ;;
    fprintf stderr "Failed to read dir entry in %s - %s\n" [Str dirpath; Str (strerror e)] ;;
    exit EXIT_FAILURE) ;;
  r <- sys (Closedir dir) ;;
  when (r ==? -1) (
    e <- errno ;;
    fprintf stderr "Failed to close dir %s - %s\n" [Str dirpath; Str (strerror e)] ;;
    exit EXIT_FAILURE).

Definition main `{CText} (argv : list string) : prog Z :=
  when ((1 <? argc argv) && streq argv.[1] "-h") (
    fprintf stderr "Usage: %s [<dir>]...\n" [Str argv.[0]] ;;
    exit EXIT_SUCCESS) ;;
  (if argc argv ==? 1 then listFiles "."
   else for_ 1 (argc argv) (fun i => listFiles argv.[i])) ;;
  Ret EXIT_SUCCESS.
End list_files.

(** ** nftw_dir_tree.c *)
Module nftw_dir_tree.
(** The enumeration of file types of ftw.h, and its flags. *)
Definition FTW_F : Z := 0.
Definition FTW_D : Z := 1.
Definition FTW_DNR : Z := 2.
Definition FTW_NS : Z := 3.
Definition FTW_SL : Z := 4.
Definition FTW_DP : Z := 5.
Definition FTW_SLN : Z := 6.
Definition FTW_PHYS : Z := 1.
Definition FTW_MOUNT : Z := 2.
Definition FTW_DEPTH : Z := 8.

Definition printUsageError (program : string) : prog unit :=
  fprintf stderr "Usage: %s [-d] [-m] [-p] [<file>]\n" [Str program].

Definition dirTree (v : ftw_visit) : prog Z :=
  let type := ftw_type v in
  let statBuffer := ftw_stat v in
  (if type ==? FTW_NS then printf "?" []
   else
     let m := Z.land (st_mode statBuffer) S_IFMT in
     if m ==? S_IFBLK then printf "b" []
     else if m ==? S_IFCHR then printf "c" []
     else if m ==? S_IFDIR then printf "d" []
     else if m ==? S_IFIFO then printf "p" []
     else if m ==? S_IFLNK then printf "l" []
     else if m ==? S_IFREG then printf "-" []
     else if m ==? S_IFSOCK then printf "s" []
     else printf "?" []) ;;
  printf " " [] ;;
  (if type ==? FTW_F then printf "F" []
   else if type ==? FTW_D then printf "D" []
   else if type ==? FTW_DNR then printf "DNR" []
   else if type ==? FTW_DP then printf "DP" []
   else if type ==? FTW_NS then printf "NS" []
   else if type ==? FTW_SL then printf "SL" []
   else if type ==? FTW_SLN then printf "SLN" []
   else printf "?" []) ;;
  printf "   " [] ;;
  (if type !=? FTW_NS then printf "%7ld " [Int (i64 (st_ino statBuffer))]
   else printf "%7s" [Str ""]) ;;
  printf " %*s" [Int (4 * ftw_level v); Str ""] ;;
  printf "%s\n" [Str (sdrop (ftw_base v) (ftw_path v))] ;;
  Ret 0.

(** [nftw] calls the function on every visit until it answers nonzero. *)
Fixpoint visit_all (vs : list ftw_visit) : prog Z :=
  match vs with
  | [] => Ret 0
  | v :: vs => r <- dirTree v ;; if r !=? 0 then Ret r else visit_all vs
  end.

Definition main (argv : list string) : prog Z :=
  '(flags, g) <- ITree.iter (fun '(flags, g) =>
    '(opt, _, g) <- getopt argv "dmp" g ;;
    match opt with
    | None => Ret (inr (flags, g))
    | Some c =>
        if c ==c "d" then Ret (inl (flags .| FTW_D, g))
        else if c ==c "m" then Ret (inl (flags .| FTW_MOUNT, g))
        else if c ==c "p" then Ret (inl (flags .| FTW_PHYS, g))
        else printUsageError argv.[0] ;; exit EXIT_FAILURE
    end) (0, getopt_init argv) ;;
  let argv := getopt_argv argv g in
  let optind := optind g in
  when (optind + 1 <? argc argv) (printUsageError argv.[0] ;; exit EXIT_FAILURE) ;;
  let pathname := if argc argv <? optind then argv.[optind] else "." in
  '(status, visits) <- sys (Nftw pathname 10 flags) ;;
  r <- visit_all visits ;;
  when ((status ==? -1) || (r ==? -1)) (
    fprintf stderr "nftw failed\n" [] ;;
    exit EXIT_FAILURE) ;;
  Ret EXIT_SUCCESS.
End nftw_dir_tree.

(** ** t_dirbasename.c *)
Module t_dirbasename.
Definition main `{CText} (argv : list string) : prog Z :=
  when ((argc argv ==? 1) || streq argv.[1] "-h") (
    fprintf stderr "Usage: %s <filepath>...\n" [Str argv.[0]] ;;
    exit EXIT_FAILURE) ;;
  for_ 1 (argc argv) (fun i =>
    for_ 0 2 (fun j =>
      dup <- sys (Strdup argv.[i]) ;;
      when (negb dup) (
        e <- errno ;;
        fprintf stderr "Failed to strdup %s - %s\n" [Str argv.[i]; Str (strerror e)] ;;
        exit EXIT_FAILURE)) ;;
    printf "%s ==> %s + %s\n" [Str argv.[i]; Str (dirname argv.[i]); Str (basename argv.[i])]) ;;
  Ret EXIT_SUCCESS.
End t_dirbasename.

(** ** t_unlink.c

    [buffer] is the indeterminate content of the buffer that is written. *)
Module t_unlink.
Definition BUFFER_SIZE : Z := 1024.
Definition CMD_SIZE : Z := 1024.

Definition getUnsignedLong `{CText} (s : string) : prog Z :=
  set_errno 0 ;;
  result <- strtoul s 0 ;;
  e <- errno ;;
  when ((e !=? 0) || negb (st_conv result)) (
    e <- errno ;;
    fprintf stderr "Failed to convert %s to unsigned long - %s\n" [Str s; Str (strerror e)] ;;
    exit EXIT_FAILURE) ;;
  Ret (st_val result).

Definition main `{CText} (buffer : string) (argv : list string) : prog Z :=
  when ((argc argv ==? 1) || (3 <? argc argv)) (
    fprintf stderr "Usage: %s <file> [num-1kB-blocks]\n" [Str argv.[0]] ;;
    exit EXIT_FAILURE) ;;
  let filepath := argv.[1] in
  numBlocks <- (if argc argv ==? 3 then getUnsignedLong argv.[2] else Ret 100000) ;;
  fd <- sys (Open filepath (O_WRONLY .| O_CREAT .| O_EXCL) (S_IRUSR .| S_IWUSR)) ;;
  when (fd ==? -1) (
    e <- errno ;;
    fprintf stderr "Failed to create file %s - %s\n" [Str filepath; Str (strerror e)] ;;
    exit EXIT_FAILURE) ;;
  r <- sys (Unlink filepath) ;;
  when (r ==? -1) (
    e <- errno ;;
    fprintf stderr "Failed to unlink file %s - %s\n" [Str filepath; Str (strerror e)] ;;
    exit EXIT_FAILURE) ;;
  for_ 0 numBlocks (fun i =>
    r <- sys (Write fd (stake BUFFER_SIZE buffer)) ;;
    when (r ==? -1) (
      e <- errno ;;
      fprintf stderr "Failed to write 1k block to file %s - %s\n" [Str filepath; Str (strerror e)] ;;
      exit EXIT_FAILURE)) ;;
  let cmd := snprintf CMD_SIZE "df -kT $(dirname %s)" [Str filepath] in
  sys (System cmd) ;;
  r <- sys (Close fd) ;;
  when (r ==? -1) (
    e <- errno ;;
    fprintf stderr "Failed to close file %s - %s\n" [Str filepath; Str (strerror e)] ;;
    exit EXIT_FAILURE) ;;
  sys (System cmd) ;;
  Ret EXIT_SUCCESS.
End t_unlink.

(** ** view_symlink.c *)
Module view_symlink.
Definition PATH_MAX : Z := 4096.
Definition S_ISLNK (mode : Z) : bool := Z.land mode S_IFMT ==? S_IFLNK.

Definition main `{CText} (buffer0 : string) (argv : list string) : prog Z :=
  if (argc argv !=? 2) || streq argv.[1] "-h" then
    fprintf stderr "Usage: %s <link>\n" [Str argv.[0]] ;;
    Ret EXIT_FAILURE
  else
  let filepath := argv.[1] in
  '(r, fileStat) <- sys (Lstat filepath) ;;
  if r ==? -1 then
    e <- errno ;;
    fprintf stderr "Failed to get lstat of %s - %s\n" [Str filepath; Str (strerror e)] ;;
    Ret EXIT_FAILURE
  else
  if negb (S_ISLNK (st_mode fileStat)) then
    fprintf stderr "%s is not a symbolic link\n" [Str filepath] ;;
    Ret EXIT_FAILURE
  else
  '(resolvedFilepathLength, data) <- sys (Readlink filepath (PATH_MAX - 1)) ;;
  if resolvedFilepathLength ==? -1 then
    e <- errno ;;
    fprintf stderr "Failed to readlink %s - %s\n" [Str filepath; Str (strerror e)] ;;
    Ret EXIT_FAILURE
  else
  let resolvedFilepath := stake resolvedFilepathLength (overlay data buffer0) in
  printf "readlink: %s --> %s\n" [Str filepath; Str resolvedFilepath] ;;
  real <- sys (Realpath filepath) ;;
  match real with
  | None =>
      e <- errno ;;
      fprintf stderr "Failed to get realpath of %s - %s\n" [Str filepath; Str (strerror e)] ;;
      Ret EXIT_FAILURE
  | Some resolvedFilepath =>
      printf "realpath: %s --> %s\n" [Str filepath; Str resolvedFilepath] ;;
      Ret EXIT_SUCCESS
  end.
End view_symlink.
