(* ===== verification/PosixIpc.v ===== *)
(** * POSIX semaphores and shared memory: psem/ and pshm/ *)

From S2P Require Import Prelude.
From S2P Require Import CLib.
From S2P Require Import Sys.
From S2P Require Import Sem.

Definition SEM_FAILED : Z := -1.
Definition MAP_FAILED : Z := -1.
Definition PROT_READ : Z := 1.
Definition PROT_WRITE : Z := 2.
Definition MAP_SHARED : Z := 1.
#[export] Hint Unfold SEM_FAILED MAP_FAILED : consts.

(** ** psem_create.c *)
Module psem_create.
Definition printUsage (program : string) : prog unit :=
  fprintf stderr "Usage: %s [-cx] <sem_name> [<octal-perms> [<value>]]\n" [Str program] ;;
  fprintf stderr "    -c - Create semaphore (O_CREAT)\n" [] ;;
  fprintf stderr "    -x - Create exclusively (O_EXCL)\n" [].

Definition getLong `{CText} (str : string) (base : Z) : prog Z :=
  set_errno 0 ;;
  result <- strtol str base ;;
  e <- errno ;;
  when ((e !=? 0) && negb (streq (st_end result) "")) (
    fprintf stderr "Failed to convert strtol() %s - %s\n" [Str str; Str (strerror e)] ;;
    exit EXIT_FAILURE) ;;
  Ret (st_val result).

Definition main `{CText} (argv : list string) : prog Z :=
  '(oflag, g) <- ITree.iter (fun '(oflag, g) =>
    '(opt, _, g) <- getopt argv "cx" g ;;
    match opt with
    | None => Ret (inr (oflag, g))
    | Some c =>
        if c ==c "c" then Ret (inl (oflag .| O_CREAT, g))
        else if c ==c "x" then Ret (inl (oflag .| O_EXCL, g))
        else printUsage argv.[0] ;; exit EXIT_FAILURE
    end) (0, getopt_init argv) ;;
  let argv := getopt_argv argv g in
  let optind := optind g in
  when (argc argv <=? optind) (printUsage argv.[0] ;; exit EXIT_FAILURE) ;;
  let semName := argv.[optind] in
  mode <- (if argc argv <=? optind + 1 then Ret (S_IRUSR .| S_IWUSR)
           else r <- getLong argv.[optind + 1] 8 ;; Ret (u32 r)) ;;
  value <- (if argc argv <=? optind + 2 then Ret 0
            else r <- getLong argv.[optind + 2] 0 ;; Ret (u32 r)) ;;
  sem <- sys (SemOpen semName oflag mode value) ;;
  when (sem ==? SEM_FAILED) (
    e <- errno ;;
    fprintf stderr "Failed to sem_open() %s - %s\n" [Str semName; Str (strerror e)] ;;
    exit EXIT_FAILURE) ;;
  Ret EXIT_SUCCESS.
End psem_create.

(** ** psem_getvalue.c *)
Module psem_getvalue.
Definition main `{CText} (argv : list string) : prog Z :=
  when ((argc argv !=? 2) || streq argv.[1] "-h") (
    fprintf stderr "Usage: %s <sem_name>\n" [Str argv.[0]] ;;
    exit EXIT_FAILURE) ;;
  let semName := argv.[1] in
  sem <- sys (SemOpen semName 0 0 0) ;;
  when (sem ==? SEM_FAILED) (
    e <- errno ;;
    fprintf stderr "Failed to sem_open() %s - %s\n" [Str semName; Str (strerror e)] ;;
    exit EXIT_FAILURE) ;;
  '(r, svalue) <- sys (SemGetvalue sem) ;;
  when (r ==? -1) (
    e <- errno ;;
    fprintf stderr "Failed to sem_getvalue() on %s- %s\n" [Str semName; Str (strerror e)] ;;
    exit EXIT_FAILURE) ;;
  printf "%d\n" [Int svalue] ;;
  Ret EXIT_SUCCESS.
End psem_getvalue.

(** ** psem_post.c *)
Module psem_post.
Definition main `{CText} (argv : list string) : prog Z :=
  when ((argc argv !=? 2) || streq argv.[1] "-h") (
    fprintf stderr "Usage: %s <sem_name>\n" [Str argv.[0]] ;;
    exit EXIT_FAILURE) ;;
  let semName := argv.[1] in
  sem <- sys (SemOpen semName 0 0 0) ;;
  when (sem ==? SEM_FAILED) (
    e <- errno ;;
    fprintf stderr "Failed to sem_open() %s - %s\n" [Str semName; Str (strerror e)] ;;
    exit EXIT_FAILURE) ;;
  r <- sys (SemPost sem) ;;
  when (r ==? -1) (
    e <- errno ;;
    fprintf stderr "Failed to sem_post() to %s - %s\n" [Str semName; Str (strerror e)] ;;
    exit EXIT_FAILURE) ;;
  Ret EXIT_SUCCESS.
End psem_post.

(** ** psem_unlink.c *)
Module psem_unlink.
Definition main `{CText} (argv : list string) : prog Z :=
  when ((argc argv !=? 2) || streq argv.[1] "-h") (
    fprintf stderr "Usage: %s <sem_name>\n" [Str argv.[0]] ;;
    exit EXIT_FAILURE) ;;
  r <- sys (SemUnlink argv.[1]) ;;
  when (r ==? -1) (
    e <- errno ;;
    fprintf stderr "Failed to sem_unlink %s - %s\n" [Str argv.[1]; Str (strerror e)] ;;
    exit EXIT_FAILURE) ;;
  Ret EXIT_SUCCESS.
End psem_unlink.

(** ** psem_wait.c

    [getpid_addr] is the address of the C function [getpid], which the program
    prints where the process id was meant. *)
Module psem_wait.
Definition main `{CText} (getpid_addr : Z) (argv : list string) : prog Z :=
  when ((argc argv !=? 2) || streq argv.[1] "-h") (
    fprintf stderr "Usage: %s <sem_name>\n" [Str argv.[0]] ;;
    exit EXIT_FAILURE) ;;
  let semName := argv.[1] in
  sem <- sys (SemOpen semName 0 0 0) ;;
  when (sem ==? SEM_FAILED) (
    e <- errno ;;
    fprintf stderr "Failed to sem_open() %s - %s\n" [Str semName; Str (strerror e)] ;;
    exit EXIT_FAILURE) ;;
  r <- sys (SemWait sem) ;;
  when (r ==? -1) (
    e <- errno ;;
    fprintf stderr "Failed to sem_wait() on %s - %s\n" [Str semName; Str (strerror e)] ;;
    exit EXIT_FAILURE) ;;
  printf "%ld sem_wait() on %s succeeeded\n" [Int getpid_addr; Str semName] ;;
  Ret EXIT_SUCCESS.
End psem_wait.

(** ** pshm_create.c *)
Module pshm_create.
Definition printUsage (program : string) : prog unit :=
  fprintf stderr "Usage: %s [-cx] <shm_name> [<size>] [<octal_perms>]\n" [Str program] ;;
  fprintf stderr "    -c - Create shared memory (O_CREAT)\n" [] ;;
  fprintf stderr "    -x - Create exclusively (O_EXCL)\n" [].

Definition getUnsignedLong `{CText} (str : string) (base : Z) : prog Z :=
  set_errno 0 ;;
  result <- strtoul str base ;;
  e <- errno ;;
  when ((e !=? 0) && negb (streq (st_end result) "")) (
    fprintf stderr "Failed to convert strtoul() %s - %s\n" [Str str; Str (strerror e)] ;;
    exit EXIT_FAILURE) ;;
  Ret (st_val result).

Definition main `{CText} (argv : list string) : prog Z :=
  '(oflag, g) <- ITree.iter (fun '(oflag, g) =>
    '(opt, _, g) <- getopt argv "cx" g ;;
    match opt with
    | None => Ret (inr (oflag, g))
    | Some c =>
        if c ==c "c" then Ret (inl (oflag .| O_CREAT, g))
        else if c ==c "x" then Ret (inl (oflag .| O_EXCL, g))
        else printUsage argv.[0] ;; exit EXIT_FAILURE
    end) (O_RDWR, getopt_init argv) ;;
  let argv := getopt_argv argv g in
  let optind := optind g in
  when (argc argv <=? optind) (printUsage argv.[0] ;; exit EXIT_FAILURE) ;;
  let shmName := argv.[optind] in
  mode <- (if argc argv <=? optind + 2 then Ret (S_IRUSR .| S_IWUSR)
           else r <- getUnsignedLong argv.[optind + 2] 8 ;; Ret (u32 r)) ;;
  shmFd <- sys (ShmOpen shmName oflag mode) ;;
  when (shmFd ==? -1) (
    e <- errno ;;
    fprintf stderr "Failed to shm_open() %s - %s\n" [Str shmName; Str (strerror e)] ;;
    exit EXIT_FAILURE) ;;
  size <- (if argc argv <=? optind + 1 then Ret 0 else getUnsignedLong argv.[optind + 1] 0) ;;
  r <- sys (Ftruncate shmFd (i64 size)) ;;
  when (r ==? -1) (
    e <- errno ;;
    fprintf stderr "Failed to ftruncate() %s to %lu bytes - %s\n"
      [Str shmName; Int size; Str (strerror e)] ;;
    exit EXIT_FAILURE) ;;
  Ret EXIT_SUCCESS.
End pshm_create.

(** ** pshm_read.c *)
Module pshm_read.
Definition main `{CText} (argv : list string) : prog Z :=
  when ((argc argv !=? 2) || streq argv.[1] "-h") (
    fprintf stderr "Usage: %s <shm_name>\n" [Str argv.[0]] ;;
    exit EXIT_FAILURE) ;;
  let shmName := argv.[1] in
  shmFd <- sys (ShmOpen shmName O_RDONLY 0) ;;
  when (shmFd ==? -1) (
    e <- errno ;;
    fprintf stderr "Failed to shm_open() %s - %s\n" [Str shmName; Str (strerror e)] ;;
    exit EXIT_FAILURE) ;;
  '(r, statbuf) <- sys (Fstat shmFd) ;;
  when (r ==? -1) (
    e <- errno ;;
    fprintf stderr "Failed to fstat() %s - %s\n" [Str shmName; Str (strerror e)] ;;
    exit EXIT_FAILURE) ;;
  addr <- sys (Mmap (st_size statbuf) PROT_READ MAP_SHARED shmFd 0) ;;
  when (addr ==? MAP_FAILED) (
    e <- errno ;;
    fprintf stderr "Failed to mmap() %s - %s\n" [Str shmName; Str (strerror e)] ;;
    exit EXIT_FAILURE) ;;
  r <- sys (Close shmFd) ;;
  when (r ==? -1) (
    e <- errno ;;
    fprintf stderr "Failed to close() %s - %s\n" [Str shmName; Str (strerror e)] ;;
    exit EXIT_FAILURE) ;;
  bytes <- sys (LoadBytes addr (st_size statbuf)) ;;
  r <- sys (Write STDOUT_FILENO bytes) ;;
  when (r !=? st_size statbuf) (
    e <- errno ;;
    fprintf stderr "Failed to write() %ld bytes - %s\n" [Int (st_size statbuf); Str (strerror e)] ;;
    exit EXIT_FAILURE) ;;
  sys (Write STDOUT_FILENO (format "\n" [])) ;;
  Ret EXIT_SUCCESS.
End pshm_read.

(** ** pshm_unlink.c *)
Module pshm_unlink.
Definition main `{CText} (argv : list string) : prog Z :=
  when ((argc argv !=? 2) || streq argv.[1] "-h") (
    fprintf stderr "Usage: %s <shm_name>\n" [Str argv.[0]] ;;
    exit EXIT_FAILURE) ;;
  let shmName := argv.[1] in
  r <- sys (ShmUnlink shmName) ;;
  when (r ==? -1) (
    fprintf stderr "Failed to shm_unlink() %s" [Str shmName] ;;
    exit EXIT_FAILURE) ;;
  Ret EXIT_SUCCESS.
End pshm_unlink.

(** ** pshm_write.c *)
Module pshm_write.
Definition main `{CText} (argv : list string) : prog Z :=
  when ((argc argv !=? 3) || streq argv.[1] "-h") (
    fprintf stderr "Usage: %s <shm_name> <msg>\n" [Str argv.[0]] ;;
    exit EXIT_FAILURE) ;;
  let shmName := argv.[1] in
  shmFd <- sys (ShmOpen shmName O_RDWR 0) ;;
  when (shmFd ==? -1) (
    e <- errno ;;
    fprintf stderr "Failed to shm_open() %s - %s" [Str shmName; Str (strerror e)] ;;
    exit EXIT_FAILURE) ;;
  let msg := argv.[2] in
  let msgLength := slen msg in
  r <- sys (Ftruncate shmFd msgLength) ;;
  when (r ==? -1) (
    e <- errno ;;
    fprintf stderr "Failed to ftruncate() %s to %ld bytes - %s"
      [Str shmName; Int msgLength; Str (strerror e)] ;;
    exit EXIT_FAILURE) ;;
  printf "Resized %s to %ld bytes\n" [Str shmName; Int msgLength] ;;
  addr <- sys (Mmap msgLength (PROT_READ .| PROT_WRITE) MAP_SHARED shmFd 0) ;;
  when (addr ==? MAP_FAILED) (
    e <- errno ;;
    fprintf stderr "Failed to mmap() %s - %s\n" [Str shmName; Str (strerror e)] ;;
    exit EXIT_FAILURE) ;;
  r <- sys (Close shmFd) ;;
  when (r ==? -1) (
    e <- errno ;;
    fprintf stderr "Failed to close() %s - %s" [Str shmName; Str (strerror e)] ;;
    exit EXIT_FAILURE) ;;
  printf "Copying %ld bytes\n" [Int msgLength] ;;
  sys (StoreBytes addr msg) ;;
  Ret EXIT_SUCCESS.
End pshm_write.
