(* ===== verification/Pipes.v ===== *)
(** * Pipes and FIFOs: pipes/ *)

From S2P Require Import Prelude.
From S2P Require Import CLib.
From S2P Require Import Sys.
From S2P Require Import Sem.
From S2P Require Import StreamSpec.
From S2P Require Import SeqSpec.

(** ** fifo_seqnum.h

    A request is two integers in memory order, a response one. *)
Module fifo_seqnum.
Definition SERVER_FIFO : string := "/tmp/seqnum_sv".
Definition CLIENT_FIFO_TEMPLATE : string := "/tmp/seqnum_cl.%ld".
Definition CLIENT_FIFO_NAME_LEN : Z := 1 + slen CLIENT_FIFO_TEMPLATE + 20.

Record Request := mkRequest { pid : Z; seqLen : Z }.
Definition sizeof_Request : Z := 8.
Definition Request_bytes (r : Request) : string := encode_int (pid r) +:+ encode_int (seqLen r).
Definition bytes_Request (s : string) : Request := mkRequest (decode_int s) (decode_int (sdrop 4 s)).

Record Response := mkResponse { seqNum : Z }.
Definition sizeof_Response : Z := 4.
Definition Response_bytes (r : Response) : string := encode_int (seqNum r).
Definition bytes_Response (s : string) : Response := mkResponse (decode_int s).
End fifo_seqnum.
Import fifo_seqnum.

(** ** fifo_seqnum_server.c *)
Module fifo_seqnum_server.
(** One iteration of the server's loop: the next value of [seqNum]. *)
Definition serve `{CText} (serverFd seqNum : Z) : prog (Z + unit) :=
  '(r, data) <- sys (Read serverFd sizeof_Request) ;;
  when (r !=? sizeof_Request) (
    e <- errno ;;
    fprintf stderr "Failed to read() from %s - %s\n" [Str SERVER_FIFO; Str (strerror e)] ;;
    exit EXIT_FAILURE) ;;
  let request := bytes_Request data in
  let clientFifo := snprintf CLIENT_FIFO_NAME_LEN CLIENT_FIFO_TEMPLATE [Int (pid request)] in
  clientFd <- sys (Open clientFifo O_WRONLY 0) ;;
  if clientFd ==? -1 then
    e <- errno ;;
    fprintf stderr "Failed to open() %s for writing - %s\n" [Str clientFifo; Str (strerror e)] ;;
    Ret (inl seqNum)
  else
  let response := mkResponse seqNum in
  r <- sys (Write clientFd (Response_bytes response)) ;;
  if r !=? sizeof_Response then
    e <- errno ;;
    fprintf stderr "Failed to write() response to %s - %s\n" [Str clientFifo; Str (strerror e)] ;;
    Ret (inl seqNum)
  else
  r <- sys (Close clientFd) ;;
  when (r ==? -1) (
    e <- errno ;;
    fprintf stderr "Failed to close() %s - %s\n" [Str clientFifo; Str (strerror e)]) ;;
  Ret (inl (i32 (seqNum + seqLen request))).

Definition main `{CText} (argv : list string) : prog Z :=
  sys (Umask 0) ;;
  r <- sys (Mkfifo SERVER_FIFO (S_IRUSR .| S_IWUSR .| S_IWGRP)) ;;
  when (r ==? -1) (
    e <- errno ;;
    when (e !=? EEXIST) (
      e <- errno ;;
      fprintf stderr "Failed to mkfifo() at %s - %s\n" [Str SERVER_FIFO; Str (strerror e)] ;;
      exit EXIT_FAILURE)) ;;
  serverFd <- sys (Open SERVER_FIFO O_RDONLY 0) ;;
  when (serverFd ==? -1) (
    e <- errno ;;
    fprintf stderr "Failed to open() %s for reading - %s\n" [Str SERVER_FIFO; Str (strerror e)] ;;
    exit EXIT_FAILURE) ;;
  r <- sys (Open SERVER_FIFO O_WRONLY 0) ;;
  when (r ==? -1) (
    e <- errno ;;
    fprintf stderr "Failed to open() %s for writing - %s\n" [Str SERVER_FIFO; Str (strerror e)] ;;
    exit EXIT_FAILURE) ;;
  r <- sys (Sigaction SIGPIPE SIG_IGN 0 0) ;;
  when (r ==? -1) (
    e <- errno ;;
    fprintf stderr "Failed to set sigaction() of SIGPIPE to SIG_IGN - %s\n" [Str (strerror e)] ;;
    exit EXIT_FAILURE) ;;
  ITree.iter (serve serverFd) 0 ;;
  Ret EXIT_SUCCESS.
End fifo_seqnum_server.

(** ** fifo_seqnum_client.c

    [clientFifo] is a variable of the file; the exit handler gets it as an
    argument. *)
Module fifo_seqnum_client.
Definition removeClientFifo `{CText} (clientFifo : string) : prog unit :=
  r <- sys (Unlink clientFifo) ;;
  when (r ==? -1) (
    e <- errno ;;
    fprintf stderr "Failed to unlink() %s - %s\n" [Str clientFifo; Str (strerror e)]).

Definition getInt `{CText} (str : string) : prog Z :=
  set_errno 0 ;;
  r <- strtol str 0 ;;
  let result := i32 (st_val r) in
  e <- errno ;;
  when ((e !=? 0) && negb (streq (st_end r) "")) (
    e <- errno ;;
    fprintf stderr "Failed to convert %s to int - %s\n" [Str str; Str (strerror e)] ;;
    exit EXIT_FAILURE) ;;
  Ret result.

Definition main `{CText} (argv : list string) : prog Z :=
  when ((2 <? argc argv) || ((argc argv ==? 2) && streq argv.[1] "-h")) (
    fprintf stderr "Usage: %s [<n>]\n" [Str argv.[0]] ;;
    exit EXIT_FAILURE) ;;
  sys (Umask 0) ;;
  p <- sys Getpid ;;
  let clientFifo := snprintf CLIENT_FIFO_NAME_LEN CLIENT_FIFO_TEMPLATE [Int p] in
  r <- sys (Mkfifo clientFifo (S_IRUSR .| S_IWUSR .| S_IWGRP)) ;;
  when (r ==? -1) (
    e <- errno ;;
    when (e !=? EEXIST) (
      e <- errno ;;
      fprintf stderr "Failed to mkfifo() %s - %s\n" [Str clientFifo; Str (strerror e)] ;;
      exit EXIT_FAILURE)) ;;
  r <- atexit "removeClientFifo" ;;
  when (r ==? -1) (
    fprintf stderr "Failed to register removeClientFifo() with atexit()\n" [] ;;
    exit EXIT_FAILURE) ;;
  p <- sys Getpid ;;
  n <- (if argc argv ==? 2 then getInt argv.[1] else Ret 1) ;;
  let request := mkRequest p n in
  serverFd <- sys (Open SERVER_FIFO O_WRONLY 0) ;;
  when (serverFd ==? -1) (
    e <- errno ;;
    fprintf stderr "Failed to open() %s for writing - %s\n" [Str SERVER_FIFO; Str (strerror e)] ;;
    exit EXIT_FAILURE) ;;
  r <- sys (Write serverFd (Request_bytes request)) ;;
  when (r !=? sizeof_Request) (
    e <- errno ;;
    fprintf stderr "Failed to write() request to %s - %s\n" [Str SERVER_FIFO; Str (strerror e)] ;;
    exit EXIT_FAILURE) ;;
  r <- sys (Close serverFd) ;;
  when (r ==? -1) (
    e <- errno ;;
    fprintf stderr "Failed to close() %s - %s\n" [Str SERVER_FIFO; Str (strerror e)] ;;
    exit EXIT_FAILURE) ;;
  clientFd <- sys (Open clientFifo O_RDONLY 0) ;;
  when (clientFd ==? -1) (
    e <- errno ;;
    fprintf stderr "Failed to open() %s for reading - %s\n" [Str clientFifo; Str (strerror e)] ;;
    exit EXIT_FAILURE) ;;
  '(r, data) <- sys (Read clientFd sizeof_Response) ;;
  when (r !=? sizeof_Response) (
    e <- errno ;;
    fprintf stderr "Failed to read() response from %s - %s\n" [Str clientFifo; Str (strerror e)] ;;
    exit EXIT_FAILURE) ;;
  printf "%d\n" [Int (seqNum (bytes_Response data))] ;;
  r <- sys (Close clientFd) ;;
  when (r ==? -1) (
    e <- errno ;;
    fprintf stderr "Failed to close() %s - %s\n" [Str clientFifo; Str (strerror e)] ;;
    exit EXIT_FAILURE) ;;
  Ret EXIT_SUCCESS.
End fifo_seqnum_client.

(** ** simple_pipe.c

    [buffer0] is the indeterminate content of the buffer when it is declared. *)
Module simple_pipe.
Definition BUFFER_SIZE : Z := 10.

(** The loop of the child, which ends with the [numRead] that is not positive. *)
Definition relay `{CText} (rfd : Z) (buffer : string) : prog Z :=
  ITree.iter (fun buffer =>
    '(numRead, data) <- sys (Read rfd BUFFER_SIZE) ;;
    let buffer := overlay data buffer in
    if negb (0 <? numRead) then Ret (inr numRead) else
    r <- sys (Write STDOUT_FILENO (stake numRead buffer)) ;;
    when (r !=? numRead) (
      e <- errno ;;
      fprintf stderr "CHILD: Failed to write() to pipe - %s\n" [Str (strerror e)] ;;
      exit EXIT_FAILURE) ;;
    Ret (inl buffer)) buffer.

Definition child `{CText} (fd0 fd1 : Z) (buffer0 : string) : prog Z :=
  r <- sys (Close fd1) ;;
  when (r ==? -1) (
    e <- errno ;;
    fprintf stderr "CHILD: Failed to close() pipe's write fd - %s\n" [Str (strerror e)] ;;
    exit EXIT_FAILURE) ;;
  numRead <- relay fd0 buffer0 ;;
  sys (Write STDOUT_FILENO (format "\n" [])) ;;
  when (numRead ==? -1) (
    e <- errno ;;
    fprintf stderr "CHILD: Failed to read() from pipe - %s\n" [Str (strerror e)] ;;
    exit EXIT_FAILURE) ;;
  r <- sys (Close fd0) ;;
  when (r ==? -1) (
    e <- errno ;;
    fprintf stderr "CHILD: Failed to close() pipe's read fd - %s\n" [Str (strerror e)] ;;
    exit EXIT_FAILURE) ;;
  _exit EXIT_SUCCESS.

Definition main `{CText} (buffer0 : string) (argv : list string) : prog Z :=
  when ((argc argv !=? 2) || streq argv.[1] "-h") (
    fprintf stderr "Usage: %s <str>\n" [Str argv.[0]] ;;
    exit EXIT_FAILURE) ;;
  '(r, (fd0, fd1)) <- sys Pipe ;;
  when (r ==? -1) (
    e <- errno ;;
    fprintf stderr "Failed to create pipe() - %s\n" [Str (strerror e)] ;;
    exit EXIT_FAILURE) ;;
  pid <- sys Fork ;;
  if pid ==? -1 then
    e <- errno ;;
    fprintf stderr "Failed to fork() child - %s\n" [Str (strerror e)] ;;
    exit EXIT_FAILURE
  else if pid ==? 0 then child fd0 fd1 buffer0
  else
    r <- sys (Close fd0) ;;
    when (r ==? -1) (
      e <- errno ;;
      fprintf stderr "PARENT: Failed to close() pipe's read fd - %s\n" [Str (strerror e)] ;;
      exit EXIT_FAILURE) ;;
    r <- sys (Write fd1 argv.[1]) ;;
    when (r !=? slen argv.[1]) (
      e <- errno ;;
      fprintf stderr "PARENT: Failed to write() to pipe - %s\n" [Str (strerror e)] ;;
      exit EXIT_FAILURE) ;;
    r <- sys (Close fd1) ;;
    when (r ==? -1) (
      e <- errno ;;
      fprintf stderr "PARENT: Failed to close() pipe's write fd - %s\n" [Str (strerror e)] ;;
      exit EXIT_FAILURE) ;;
    r <- sys Wait ;;
    when (r ==? -1) (
      e <- errno ;;
      fprintf stderr "PARENT: Failed to wait() on child - %s\n" [Str (strerror e)] ;;
      exit EXIT_FAILURE) ;;
    exit EXIT_SUCCESS.
End simple_pipe.

(** ** pipe_sync.c *)
Module pipe_sync.
Definition getUint `{CText} (str : string) : prog Z :=
  set_errno 0 ;;
  r <- strtoul str 0 ;;
  let result := u32 (st_val r) in
  e <- errno ;;
  when ((e !=? 0) && negb (streq (st_end r) "")) (
    e <- errno ;;
    fprintf stderr "Failed to convert %s to unsigned int - %s\n" [Str str; Str (strerror e)] ;;
    exit EXIT_FAILURE) ;;
  Ret result.

Definition child `{CText} (readFd writeFd : Z) (argv : list string) (i : Z) : prog unit :=
  r <- sys (Close readFd) ;;
  when (r ==? -1) (
    e <- errno ;;
    fprintf stderr "Child failed to close pipe read fd - %s\n" [Str (strerror e)] ;;
    exit EXIT_FAILURE) ;;
  secs <- getUint argv.[i] ;;
  sys (Sleep secs) ;;
  p <- sys Getpid ;;
  printf "Child %d (PID=%ld) closing pipe\n" [Int i; Int p] ;;
  r <- sys (Close writeFd) ;;
  when (r ==? -1) (
    e <- errno ;;
    fprintf stderr "Child failed to close pipe write fd - %s\n" [Str (strerror e)] ;;
    exit EXIT_FAILURE) ;;
  _exit EXIT_SUCCESS.

Definition main `{CText} (argv : list string) : prog Z :=
  when ((argc argv <=? 1) || streq argv.[1] "-h") (
    fprintf stderr "Usage: %s <sec>...\n" [Str argv.[0]] ;;
    exit EXIT_FAILURE) ;;
  setbuf stdout ;;
  printf "Parent started\n" [] ;;
  '(r, (readFd, writeFd)) <- sys Pipe ;;
  when (r ==? -1) (
    e <- errno ;;
    fprintf stderr "Failed to create pipe() - %s\n" [Str (strerror e)] ;;
    exit EXIT_FAILURE) ;;
  for_ 1 (argc argv) (fun i =>
    pid <- sys Fork ;;
    if pid ==? -1 then
      e <- errno ;;
      fprintf stderr "Failed to fork() child process - %s\n" [Str (strerror e)] ;;
      exit EXIT_FAILURE
    else when (pid ==? 0) (child readFd writeFd argv i)) ;;
  r <- sys (Close writeFd) ;;
  when (r ==? -1) (
    e <- errno ;;
    fprintf stderr "Parent failed to close pipe write fd - %s\n" [Str (strerror e)] ;;
    exit EXIT_FAILURE) ;;
  '(r, _) <- sys (Read readFd 1) ;;
  when (r !=? 0) (
    e <- errno ;;
    fprintf stderr "Parent didn't get EOF - %s\n" [Str (strerror e)] ;;
    exit EXIT_FAILURE) ;;
  r <- sys (Close readFd) ;;
  when (r ==? -1) (
    e <- errno ;;
    fprintf stderr "Parent failed to close pipe read fd - %s\n" [Str (strerror e)] ;;
    exit EXIT_FAILURE) ;;
  printf "Parent ready to go\n" [] ;;
  for_ 1 (argc argv) (fun i =>
    r <- sys Wait ;;
    when (r ==? -1) (
      e <- errno ;;
      fprintf stderr "Failed to wait() on child - %s\n" [Str (strerror e)] ;;
      exit EXIT_FAILURE)) ;;
  Ret EXIT_SUCCESS.
End pipe_sync.

(** ** pipe_ls_wc.c

    A successful [execlp] does not return: the program it starts is a call that
    ends the process, [_exit]; the code of the case, which has no [break], would
    go on with the next statement if [execlp] returned another value. *)
Module pipe_ls_wc.
(** The child that runs [cmd] with the pipe end [fd] as its descriptor [std];
    [other] is the end it does not use. *)
Definition child `{CText} (cmd : string) (args : list string) (fd std other : Z)
    (fdName stdName otherName : string) : prog unit :=
  r <- sys (Close other) ;;
  when (r ==? -1) (
    e <- errno ;;
    fprintf stderr "Child %s process failed to close() pipe %s fd - %s\n"
      [Str cmd; Str otherName; Str (strerror e)] ;;
    exit EXIT_FAILURE) ;;
  when (fd !=? std) (
    r <- sys (Dup2 fd std) ;;
    when (r ==? -1) (
      e <- errno ;;
      fprintf stderr "Child %s process failed to dup2() pipe %s fd to %s - %s\n"
        [Str cmd; Str fdName; Str stdName; Str (strerror e)] ;;
      exit EXIT_FAILURE) ;;
    r <- sys (Close fd) ;;
    when (r ==? -1) (
      e <- errno ;;
      fprintf stderr "Child %s process failed to close() pipe %s fd - %s\n"
        [Str cmd; Str fdName; Str (strerror e)] ;;
      exit EXIT_FAILURE)) ;;
  r <- sys (Execlp cmd args) ;;
  when (r ==? -1) (
    e <- errno ;;
    fprintf stderr "Failed to execlp() %s - %s\n" [Str cmd; Str (strerror e)] ;;
    exit EXIT_FAILURE).

Definition main `{CText} (argv : list string) : prog Z :=
  '(r, (readFd, writeFd)) <- sys Pipe ;;
  when (r ==? -1) (
    e <- errno ;;
    fprintf stderr "Failed to create pipe() - %s\n" [Str (strerror e)] ;;
    exit EXIT_FAILURE) ;;
  pid <- sys Fork ;;
  (if pid ==? -1 then
     e <- errno ;;
     fprintf stderr "Failed to fork() child ls process - %s\n" [Str (strerror e)] ;;
     exit EXIT_FAILURE
   else when (pid ==? 0)
     (child "ls" ["ls"] writeFd STDOUT_FILENO readFd "write" "stdout" "read")) ;;
  pid <- sys Fork ;;
  (if pid ==? -1 then
     e <- errno ;;
     fprintf stderr "Failed to fork() child wc process - %s\n" [Str (strerror e)] ;;
     exit EXIT_FAILURE
   else when (pid ==? 0)
     (child "wc" ["wc"; "-l"] readFd STDIN_FILENO writeFd "read" "stdin" "write")) ;;
  r <- sys (Close readFd) ;;
  when (r ==? -1) (
    e <- errno ;;
    fprintf stderr "Parent failed to close() pipe read fd - %s\n" [Str (strerror e)] ;;
    exit EXIT_FAILURE) ;;
  r <- sys (Close writeFd) ;;
  when (r ==? -1) (
    e <- errno ;;
    fprintf stderr "Parent failed to close() pipe write fd - %s\n" [Str (strerror e)] ;;
    exit EXIT_FAILURE) ;;
  for_ 0 2 (fun i =>
    r <- sys Wait ;;
    when (r ==? -1) (
      e <- errno ;;
      fprintf stderr "Parent failed to wait() on child - %s\n" [Str (strerror e)] ;;
      exit EXIT_FAILURE)) ;;
  Ret EXIT_SUCCESS.
End pipe_ls_wc.

(** ** simple_pipe: the child relays the pipe to standard output *)

Lemma relay_ok `{CText} `{StreamKernel} rfd buffer st :
  wp (simple_pipe.relay rfd buffer) (fun r st' =>
    match r with
    | Returned n => exists l done, pumped rfd STDOUT_FILENO st st' l done /\
        (n = -1 \/ n = 0 /\ done = strm st rfd)
    | Stopped s => s = Exited EXIT_FAILURE
    end) st.
Proof.
  apply (wp_iter_measure _ (fun _ st1 => exists l done, pumped rfd STDOUT_FILENO st st1 l done)
           (fun _ st1 => Z.to_nat (slen (strm st1 rfd)))); [|by exists [], ""; apply pumped_0].
  intros buf st1 (l & done & Hp). wp_head. wp_strm. destruct x as [r d].
  case_if; bool_props.
  - wp_run1. destruct (pumped_read rfd simple_pipe.BUFFER_SIZE STDOUT_FILENO ltac:(done) _ _ _ _ _ _ _ Hp Hst Hlog ltac:(lia))
      as [[-> Hp']|(-> & Hp' & Hd)]; do 2 eexists; eauto.
  - wp_run1. wp_strm. wp_go; [done|]. bool_props. subst x.
    rewrite (stream_read_len _ _ _ _ _ _ Hst), stake_overlay in Hlog0 by lia.
    rewrite <- (stream_read_len _ _ _ _ _ _ Hst) in Hlog0 by lia.
    destruct (pumped_step rfd simple_pipe.BUFFER_SIZE STDOUT_FILENO _ _ _ _ _ _ _ _ r
      Hp Hst Hlog ltac:(lia) Hst0 Hlog0 eq_refl) as [Hp' Hlt].
    split; [by do 2 eexists|]. pose proof (slen_nonneg (strm st2 rfd)). lia.
Qed.

(** [simple_pipe] (with its one argument) ends in one of three ways: the child
    ends with [_exit (EXIT_SUCCESS)] having written on standard output everything
    that came through the read end of the pipe, in order, whatever the lengths of
    the reads, and at most a newline after it; the parent exits with success having
    written its argument to the write end; or the process exits with failure. *)
Theorem simple_pipe_relays `{CText} `{StreamKernel} buffer0 argv st :
  argc argv = 2 -> argv.[1] <> "-h" ->
  wp (simple_pipe.main buffer0 argv) (fun r st' =>
    r = Stopped (Exited EXIT_FAILURE) \/
    exists l l' rd wr, s_log st' = s_log st ++ ECall Pipe (rd, wr) :: l ++ l' /\ rd <> -1 /\
      ((r = Stopped (ImmExited EXIT_SUCCESS) /\ written STDOUT_FILENO l = strm st wr.1 /\
        written STDOUT_FILENO l' ∈ [""; format "\n" []]) \/
       (r = Stopped (Exited EXIT_SUCCESS) /\ written wr.2 l = argv.[1] /\ l' = []))) st.
Proof.
  intros Hargc Hh. unfold simple_pipe.main. rewrite usage_guard by done.
  wp_head. wp_run1. wp_head. wp_strm. destruct x as [r [fd0 fd1]].
  wp_head. wp_branch; [wp_go; by left|]. bool_props. wp_head. wp_strm.
  wp_branch; [wp_go; by left|]. wp_branch.
  - unfold simple_pipe.child. wp_head. wp_strm. wp_head. wp_branch; [wp_go; by left|]. wp_head.
    eapply wp_mono; [apply relay_ok|]. intros [n|s] st4; [|intros ->; by left].
    intros (l & done & (Hl & Hw & Hs) & Hn). wp_head. wp_strm. wp_head.
    wp_branch; [wp_go; by left|]. bool_props. destruct Hn as [->|[-> Hd]]; [done|].
    wp_head. wp_strm. wp_head. wp_branch; [wp_go; by left|]. wp_head. right.
    exists ([ECall Fork x; ECall (Close fd1) x0] ++ l),
      [ECall (Write STDOUT_FILENO (format "\n" [])) x1; ECall (Close fd0) x2], r, (fd0, fd1).
    split; [by rewrite Hlog3, Hlog2, Hl, Hlog1, Hlog0, Hlog, <- !app_assoc|]. split; [done|]. left.
    split; [done|]. split.
    + rewrite written_app, Hw, Hd. cbn [written wrote]. rewrite !app_nil_l_s, Hst1, Hst0, Hst. done.
    + cbn [written wrote]. case_if; rewrite ?app_nil_r_s, ?app_nil_l_s; set_solver.
  - wp_head. wp_strm. wp_head. wp_branch; [wp_go; by left|]. wp_head. wp_strm.
    wp_head. wp_branch; [wp_go; by left|]. bool_props. wp_head. wp_strm.
    wp_head. wp_branch; [wp_go; by left|]. wp_head. wp_strm.
    wp_head. wp_branch; [wp_go; by left|]. wp_head. right.
    exists [ECall Fork x; ECall (Close fd0) x0; ECall (Write fd1 argv.[1]) x1; ECall (Close fd1) x2; ECall Wait x3],
      [], r, (fd0, fd1).
    split; [by rewrite Hlog4, Hlog3, Hlog2, Hlog1, Hlog0, Hlog, <- !app_assoc|]. split; [done|]. right.
    split; [done|]. split; [|done]. cbn [snd]. cbn [written].
    rewrite (wrote_full fd1) by done. cbn [wrote]. by rewrite ?app_nil_l_s, ?app_nil_r_s.
Qed.

Lemma simple_pipe_relays_witness :
  let _ := plain_text in
  let st : @St pipe_kernel := mkSt 0 [] {[3 := "sent through the pipe"]} in
  @wp pipe_kernel _ (simple_pipe.main "" ["simple_pipe"; "msg"]) (fun r st' =>
    r = Stopped (Exited EXIT_FAILURE) \/
    exists l l' rd wr, s_log st' = s_log st ++ ECall Pipe (rd, wr) :: l ++ l' /\ rd <> -1 /\
      ((r = Stopped (ImmExited EXIT_SUCCESS) /\ written STDOUT_FILENO l = strm st wr.1 /\
        written STDOUT_FILENO l' ∈ [""; format "\n" []]) \/
       (r = Stopped (Exited EXIT_SUCCESS) /\ written wr.2 l = "msg" /\ l' = []))) st.
Proof. by apply (simple_pipe_relays "" ["simple_pipe"; "msg"]). Defined.

(** ** fifo_seqnum: one exchange *)

(** The fields survive the transfer as bytes. *)
Lemma request_back p n :
  i32 p = p -> i32 n = n -> bytes_Request (Request_bytes (mkRequest p n)) = mkRequest p n.
Proof.
  intros Hp Hn. unfold bytes_Request, Request_bytes. cbn [pid seqLen]. change 4 with (slen (encode_int p)).
  by rewrite decode_encode_int_app, sdrop_app, !decode_encode_int, Hp, Hn.
Qed.
Lemma response_back s : i32 s = s -> bytes_Response (Response_bytes (mkResponse s)) = mkResponse s.
Proof. intros Hs. unfold bytes_Response, Response_bytes. cbn [seqNum]. by rewrite decode_encode_int, Hs. Qed.

(** The FIFOs a log makes, and opens, with the flags. *)
Definition fifos (l : list event) : list (string * option Z) :=
  omap (fun ev =>
    match ev with
    | ECall s x => match s in SysE X return X -> option (string * option Z) with
                   | Mkfifo path _ => fun _ => Some (path, None)
                   | Open path flags _ => fun _ => Some (path, Some flags)
                   | _ => fun _ => None
                   end x
    | _ => None
    end) l.
(** The data of its writes. *)
Definition sent (l : list event) : list string :=
  omap (fun ev =>
    match ev with
    | ECall s x => match s in SysE X return X -> option string with Write _ d => fun _ => Some d | _ => fun _ => None end x
    | _ => None
    end) l.
(** What its reads got. *)
Definition received (l : list event) : list string :=
  omap (fun ev =>
    match ev with
    | ECall s x => match s in SysE X return X -> option string with Read _ _ => fun '(_, d) => Some d | _ => fun _ => None end x
    | _ => None
    end) l.

Definition client_fifo (p : Z) : string := snprintf CLIENT_FIFO_NAME_LEN CLIENT_FIFO_TEMPLATE [Int p].
#[global] Arguments client_fifo : simpl never.

Section Exchange.
Context `{T : CText}.

Lemma show_int_no_flag n : LONG_MIN <= n <= LONG_MAX -> streq (show_int n) "-h" = false.
Proof.
  intros Hn. apply streq_neq. intros E. pose proof (strtol_show 0 n ltac:(by left) Hn) as H. by rewrite E in H.
Qed.

Lemma getInt_show `{K : Kernel} n (Q : res Z -> St -> Prop) st :
  i32 n = n -> (forall e, Q (Returned n) (mkSt e (s_log st) (s_kern st))) -> wp (fifo_seqnum_client.getInt (show_int n)) Q st.
Proof.
  intros Hn HQ. pose proof (swrap_range 32 n ltac:(done)) as Hr. rewrite Hn in Hr.
  unfold fifo_seqnum_client.getInt, strtol. rewrite strtol_show by (auto || unfold LONG_MIN, LONG_MAX; lia).
  wp_go; try discriminate. cbn [st_val]. rewrite Hn. apply HQ.
Qed.

(** The process does not change its identifier. *)
Definition pid_post {X} (p : Z) (s : SysE X) : X -> Prop :=
  match s in SysE X return X -> Prop with Getpid => fun x => x = p | _ => fun _ => True end.
Lemma pid_after `{K : Kernel} {X} p (s : SysE X) st : (forall k, (kcall Getpid k).1.1 = p) -> pid_post p s (answer s st).
Proof. intros Hp. destruct s; try exact I. apply Hp. Qed.
Ltac wp_pid Hp :=
  let H := fresh "Hpid" in wp_law H ltac:(fun s st => constr:(pid_after _ s st Hp)); cbn [pid_post] in H.

(** The client of process [p], which asks for [n] numbers: what it opens and sends,
    and what it prints when it succeeds. *)
Lemma client_run `{K : Kernel} prog n p st :
  (forall k, (kcall Getpid k).1.1 = p) -> i32 n = n ->
  wp (fifo_seqnum_client.main [prog; show_int n]) (fun r st' => exists l, s_log st' = s_log st ++ l /\
    fifos l `prefix_of` [(client_fifo p, None); (SERVER_FIFO, Some O_WRONLY); (client_fifo p, Some O_RDONLY)] /\
    sent l `prefix_of` [Request_bytes (mkRequest p n)] /\
    if success r then exists d, sent l = [Request_bytes (mkRequest p n)] /\ received l = [d] /\
      text_on stdout l = format "%d\n" [Int (seqNum (bytes_Response d))]
    else r = Stopped (Exited EXIT_FAILURE)) st.
Proof.
  intros Hp Hn. unfold fifo_seqnum_client.main. pose proof (swrap_range 32 n ltac:(done)) as Hr. rewrite Hn in Hr.
  change (argc _) with 2. change (nth_arg _ 1) with (show_int n).
  rewrite show_int_no_flag by (unfold LONG_MIN, LONG_MAX; lia). change ((2 <? 2) || ((2 ==? 2) && false)) with false.
  change (2 ==? 2) with true. cbv iota.
  repeat (cbv zeta; first
    [wp_pid Hp
    |lazymatch goal with |- wp (fifo_seqnum_client.getInt _) _ _ => apply getInt_show; [done|intros ?] end
    |wp_head|wp_branch]); subst.
  all: cbn [s_log] in *; log_chain; eexists; (split; [reflexivity|]); fold (client_fifo p); cbn [fifos sent received omap list_omap success app];
    (split; [repeat apply prefix_cons; apply prefix_nil|]); (split; [repeat apply prefix_cons; apply prefix_nil|]); try done.
  all: eexists; split; [reflexivity|]; split; [reflexivity|]; cbn [text_on]; by rewrite ?app_nil_r_s.
Qed.

(** A round of the server that reads the request. *)
Lemma server_run `{K : Kernel} sfd seq p n st :
  i32 p = p -> i32 n = n -> answer (Read sfd sizeof_Request) st = (sizeof_Request, Request_bytes (mkRequest p n)) ->
  wp (fifo_seqnum_server.serve sfd seq) (fun r st' => exists l, s_log st' = s_log st ++ l /\
    fifos l = [(client_fifo p, Some O_WRONLY)] /\
    (r = Returned (inl seq) \/ sent l = [Response_bytes (mkResponse seq)] /\ r = Returned (inl (i32 (seq + n))))) st.
Proof.
  intros Hp Hn Ha. unfold fifo_seqnum_server.serve. wp_steps. rewrite Ha, request_back by done. cbn [pid seqLen].
  fold (client_fifo p). wp_call_go; log_chain; autorewrite with st_log; rewrite <- ?app_assoc; (eexists; split; [reflexivity|]);
    (split; [reflexivity|]); auto.
Qed.
End Exchange.


(** The client of process 4242 asks for 3 numbers; a server at 7 gets its request. *)
Definition client_kernel : Kernel := {|
  kstate := unit;
  kcall X (s : SysE X) k :=
    (match s in SysE X return X with
     | Getpid => 4242
     | Mkfifo _ _ | Close _ => 0
     | Open _ _ _ => 3
     | Write _ d => slen d
     | Read _ _ => (4, Response_bytes (mkResponse 7))
     | s => refuse s
     end, None, k) |}.


(** ** fifo_seqnum_server: the ranges it hands out *)

(** The ranges of sequence numbers a log hands out: a response that was written
    whole, with the length the last request asked for. *)
Definition fifo_grant (len : Z) (ev : event) : Z * list (Z * Z) :=
  match ev with
  | ECall s x =>
      match s in SysE X return X -> Z * list (Z * Z) with
      | Read _ _ => fun '(_, d) => (seqLen (bytes_Request d), [])
      | Write _ d => fun r => (len, if r ==? sizeof_Response then [(seqNum (bytes_Response d), len)] else [])
      | _ => fun _ => (len, [])
      end x
  | _ => (len, [])
  end.
(** One round serves one request: it hands out one range, or none when the client
    cannot be reached, and it ends the server only when no whole request comes. *)
Lemma serve_ok `{CText} `{Kernel} sfd s st :
  i32 s = s ->
  wp (fifo_seqnum_server.serve sfd s) (fun r st' => exists l, s_log st' = s_log st ++ l /\
    match r with
    | Returned (inl s') => i32 s' = s' /\ exists g, (forall len, grants fifo_grant len l = g) /\ consecutive s g s'
    | Returned (inr _) => False
    | Stopped x => x = Exited EXIT_FAILURE /\
        exists n d l', l = ECall (Read sfd sizeof_Request) (n, d) :: l' /\ n <> sizeof_Request
    end) st.
Proof.
  intros Hs. unfold fifo_seqnum_server.serve.
  wp_go; eexists; log_events; (split; [reflexivity|]).
  1: { split; [done|]. bool_props. rewrite Heqp. by repeat eexists. }
  all: cbv beta iota; rewrite ?i32_idem; (split; [done|]); rewrite ?Heqp; cbn [grants fifo_grant app].
  1: { exists []. split; [done|constructor]. }
  1: { exists []. apply negb_true_iff in Hb1. rewrite Hb1. split; [done|constructor]. }
  all: apply negb_false_iff in Hb1; rewrite Hb1; eexists; (split; [reflexivity|]);
    cbn [bytes_Response seqNum app]; unfold Response_bytes; rewrite decode_encode_int; cbn [seqNum]; rewrite Hs; repeat constructor.
Qed.

#[export] Instance fifo_seq_server `{CText} `{Kernel} sfd :
  SeqServer (fifo_seqnum_server.serve sfd) fifo_grant id.
Proof.
  intros s st Hs. eapply wp_mono; [by apply serve_ok|].
  intros [[s'|[]]|x] st' (l & Hl & Hx); exists l; [|done|by destruct Hx as [-> _]].
  split; [done|]. destruct Hx as (Hs' & g & Hg & Hc). split; [done|]. exists g. by rewrite map_id.
Qed.

(** C15: however many requests the server has served, the ranges of sequence numbers
    it has handed out follow one another from 0 on, each beginning where the one before
    ends (modulo 2^32; a length may be negative), and [seqNum] is the first number after them: a request whose client cannot be
    opened or written to takes no numbers. The server only ends, with failure, when
    it does not get a whole request. *)
Theorem fifo_server_consecutive `{CText} `{Kernel} sfd n st seq st' :
  rounds (fifo_seqnum_server.serve sfd) n 0 st seq st' ->
  (exists l, s_log st' = s_log st ++ l /\ consecutive 0 (grants fifo_grant 0 l) seq) /\
  wp (fifo_seqnum_server.serve sfd seq) (fun r st2 =>
    (exists seq', r = Returned (inl seq')) \/
    (r = Stopped (Exited EXIT_FAILURE) /\
     exists m d l', s_log st2 = s_log st' ++ ECall (Read sfd sizeof_Request) (m, d) :: l' /\ m <> sizeof_Request)) st'.
Proof.
  intros Hr. destruct (rounds_consecutive 0 n 0 st seq st' eq_refl Hr) as (Hs & l0 & Hl0 & Hc). rewrite map_id in Hc.
  split; [by exists l0|]. eapply wp_mono; [by apply serve_ok|].
  intros [[s'|[]]|x] st2 (l' & Hl' & Hx); try done; [by left; eexists|right].
  destruct Hx as (-> & m & d & l2 & -> & Hm). split; [done|]. by exists m, d, l2.
Qed.

(** Two requests, of 2 and 3 numbers, wait in the server's FIFO. *)
Definition two_requests : @St pipe_kernel :=
  mkSt 0 [] {[3 := Request_bytes (mkRequest 10 2) +:+ Request_bytes (mkRequest 11 3)]}.

Lemma fifo_server_consecutive_witness :
  let _ := plain_text in
  exists st', (exists l, s_log st' = s_log two_requests ++ l /\ consecutive 0 (grants fifo_grant 0 l) 5) /\
    wp (fifo_seqnum_server.serve 3 5) (fun r st2 =>
      (exists seq', r = Returned (inl seq')) \/
      (r = Stopped (Exited EXIT_FAILURE) /\
       exists m d l', s_log st2 = s_log st' ++ ECall (Read 3 sizeof_Request) (m, d) :: l' /\ m <> sizeof_Request)) st'.
Proof.
  intros T.
  destruct (run_rounds_rounds 100 (fifo_seqnum_server.serve 3) 2 0 two_requests 5 ltac:(vm_compute; reflexivity))
    as [st' Hr].
  exists st'. exact (fifo_server_consecutive 3 2 two_requests 5 st' Hr).
Defined.
