(* ===== verification/Msg.v ===== *)
(** * System V message queues: svipc/ *)

From S2P Require Import Prelude.
From S2P Require Import CLib.
From S2P Require Import Sys.
From S2P Require Import Sem.
From S2P Require Import FsSpec.
From S2P Require Import QueueSpec.

Definition MSG_NOERROR : Z := 4096.
Definition MSG_EXCEPT : Z := 8192.

(** ** svmsg_file.h *)
Module svmsg_file.
Definition SERVER_KEY : Z := 447392417.
Definition PATH_MAX : Z := 4096.
Definition REQUEST_MSG_DATA_SIZE : Z := 4 + PATH_MAX.
Definition RESPONSE_MSG_DATA_SIZE : Z := 8192.
Definition RESPONSE_MSG_FAILURE : Z := 1.
Definition RESPONSE_MSG_DATA : Z := 2.
Definition RESPONSE_MSG_END : Z := 3.

(** The data of a request: [clientId] and the [PATH_MAX] bytes of [pathname]. *)
Record RequestMsg := mkRequestMsg { clientId : Z; pathname : string }.
Definition RequestMsg_bytes (r : RequestMsg) : string := encode_int (clientId r) +:+ pathname r.
Definition bytes_RequestMsg (s : string) : RequestMsg := mkRequestMsg (decode_int s) (sdrop 4 s).
End svmsg_file.
Import svmsg_file.

(** ** svmsg_file_server.c

    [request0] and [data0] are the indeterminate contents of the request, which is
    declared in each iteration, and of the data of the response, in each child. *)
Module svmsg_file_server.
Definition childCleanupHandler (sig : Z) : prog unit :=
  savedErrno <- errno ;;
  ITree.iter (fun _ : unit =>
    r <- sys (Waitpid (-1) WNOHANG) ;;
    if 0 <? r then Ret (inl tt) else Ret (inr tt)) tt ;;
  set_errno savedErrno.

(** The loop that sends the file, with the [bytesRead] it ends with. *)
Definition send_data `{CText} (fd client : Z) (data : string) : prog Z :=
  ITree.iter (fun data =>
    '(bytesRead, d) <- sys (Read fd RESPONSE_MSG_DATA_SIZE) ;;
    let data := overlay d data in
    if negb (0 <? bytesRead) then Ret (inr bytesRead) else
    r <- sys (Msgsnd client RESPONSE_MSG_DATA (stake bytesRead data) 0) ;;
    if r ==? -1 then
      e <- errno ;;
      fprintf stderr "Failed to msgsnd() RESPONSE_MSG_DATA to %d - %s\n" [Int client; Str (strerror e)] ;;
      Ret (inr bytesRead)
    else Ret (inl data)) data.

Definition serveRequest `{CText} (data0 : string) (request : RequestMsg) : prog unit :=
  fd <- sys (Open (cstr (pathname request)) O_RDONLY 0) ;;
  when (fd ==? -1) (
    e <- errno ;;
    let data := snprintf RESPONSE_MSG_DATA_SIZE "Failed to open %s for reading - %s\n"
                  [Str (pathname request); Str (strerror e)] in
    r <- sys (Msgsnd (clientId request) RESPONSE_MSG_FAILURE (data +:+ String nul "") 0) ;;
    when (r ==? -1) (
      e <- errno ;;
      fprintf stderr "Failed to msgsnd() RESPONSE_MSG_FAILURE to %d - %s\n"
        [Int (clientId request); Str (strerror e)]) ;;
    exit EXIT_FAILURE) ;;
  bytesRead <- send_data fd (clientId request) data0 ;;
  when (bytesRead ==? -1) (
    e <- errno ;;
    fprintf stderr "Failed to read() %s - %s\n" [Str (pathname request); Str (strerror e)]) ;;
  r <- sys (Msgsnd (clientId request) RESPONSE_MSG_END "" 0) ;;
  when (r ==? -1) (
    e <- errno ;;
    fprintf stderr "Failed to msgsnd() RESPONSE_MSG_END to %d - %s\n"
      [Int (clientId request); Str (strerror e)]) ;;
  r <- sys (Close fd) ;;
  when (r ==? -1) (
    e <- errno ;;
    fprintf stderr "Failed to close %s - %s\n" [Str (pathname request); Str (strerror e)] ;;
    exit EXIT_FAILURE).

(** One iteration of the server's loop; [inr] is its [break]. *)
Definition serve `{CText} (msqid : Z) : prog (unit + unit) :=
  request0 <- sys (Indeterminate (4 + PATH_MAX)) ;;
  '(bytesReceived, _, data) <- sys (Msgrcv msqid REQUEST_MSG_DATA_SIZE 0 0) ;;
  if bytesReceived ==? -1 then
    e <- errno ;;
    if e ==? EINTR then Ret (inl tt) else
    e <- errno ;;
    fprintf stderr "msgrcv() failed on msqid %d - %s\n" [Int msqid; Str (strerror e)] ;;
    Ret (inr tt)
  else
  let request := bytes_RequestMsg (overlay data request0) in
  pid <- sys Fork ;;
  if pid ==? -1 then
    e <- errno ;;
    fprintf stderr "Failed to fork() - %s\n" [Str (strerror e)] ;;
    Ret (inr tt)
  else
  when (pid ==? 0) (
    data0 <- sys (Indeterminate RESPONSE_MSG_DATA_SIZE) ;;
    serveRequest data0 request ;;
    _exit EXIT_SUCCESS) ;;
  Ret (inl tt).

(** The body of the [while] around the first [msgget] always leaves it. *)
Definition main `{CText} (argv : list string) : prog Z :=
  let msqPerms := S_IRUSR .| S_IWUSR .| S_IWGRP in
  msqid <- sys (Msgget SERVER_KEY (IPC_CREAT .| IPC_EXCL .| msqPerms)) ;;
  msqid <- (if msqid ==? -1 then
    e <- errno ;;
    if e ==? EEXIST then
      msqid <- sys (Msgget SERVER_KEY msqPerms) ;;
      when (msqid ==? -1) (
        e <- errno ;;
        fprintf stderr "Failed to msgget() server id from key 0x%x - %s\n" [Int SERVER_KEY; Str (strerror e)] ;;
        exit EXIT_FAILURE) ;;
      Ret msqid
    else
      e <- errno ;;
      fprintf stderr "Failed to msgget() server id from key 0x%x - %s\n" [Int SERVER_KEY; Str (strerror e)] ;;
      exit EXIT_FAILURE
    else Ret msqid) ;;
  r <- sys (Sigaction SIGCHLD (SigFun "childCleanupHandler") 0 SA_RESTART) ;;
  when (r ==? -1) (
    e <- errno ;;
    fprintf stderr "Failed to set sigaction() for SIGCHLD - %s\n" [Str (strerror e)] ;;
    exit EXIT_FAILURE) ;;
  ITree.iter (fun _ => serve msqid) tt ;;
  r <- sys (MsgctlRmid msqid) ;;
  when (r ==? -1) (
    e <- errno ;;
    fprintf stderr "Failed to remove msqid %d - %s\n" [Int msqid; Str (strerror e)] ;;
    exit EXIT_FAILURE) ;;
  Ret EXIT_SUCCESS.
End svmsg_file_server.

(** ** svmsg_file_client.c

    [pathname0] and [data0] are the indeterminate contents of the pathname of the
    request and of the data of the response. *)
Module svmsg_file_client.
Definition removeClientMsq `{CText} (clientMsqid : Z) : prog unit :=
  r <- sys (MsgctlRmid clientMsqid) ;;
  when (r !=? 0) (
    e <- errno ;;
    fprintf stderr "Failed to remove client msqid %d - %s\n" [Int clientMsqid; Str (strerror e)]).

(** The loop over the responses after the first one: the totals. *)
Definition collect `{CText} (clientMsqid type totalBytes numMsgs : Z) : prog (Z * Z) :=
  ITree.iter (fun '(type, totalBytes, numMsgs) =>
    if negb (type !=? RESPONSE_MSG_END) then Ret (inr (totalBytes, numMsgs)) else
    '(bytesReceived, type, _) <- sys (Msgrcv clientMsqid RESPONSE_MSG_DATA_SIZE 0 0) ;;
    when (bytesReceived ==? -1) (
      e <- errno ;;
      fprintf stderr "Failed to msgrcv() response from server - %s\n" [Str (strerror e)] ;;
      exit EXIT_FAILURE) ;;
    Ret (inl (type, i64 (totalBytes + bytesReceived), i32 (numMsgs + 1)))) (type, totalBytes, numMsgs).

Definition main `{CText} (pathname0 data0 : string) (argv : list string) : prog Z :=
  when ((argc argv !=? 2) || streq argv.[1] "-h") (
    fprintf stderr "Usage: %s <pathname>\n" [Str argv.[0]] ;;
    exit EXIT_FAILURE) ;;
  when (PATH_MAX - 1 <? slen argv.[1]) (
    fprintf stderr "Pathname is too long (max: %ld bytes)\n" [Int (PATH_MAX - 1)] ;;
    exit EXIT_FAILURE) ;;
  serverMsqid <- sys (Msgget SERVER_KEY S_IWUSR) ;;
  when (serverMsqid ==? -1) (
    e <- errno ;;
    fprintf stderr "Failed to msgget() server msqid - %s\n" [Str (strerror e)] ;;
    exit EXIT_FAILURE) ;;
  clientMsqid <- sys (Msgget IPC_PRIVATE (S_IRUSR .| S_IWUSR .| S_IWGRP)) ;;
  when (clientMsqid ==? -1) (
    e <- errno ;;
    fprintf stderr "Failed to msgget() client msqid - %s\n" [Str (strerror e)] ;;
    exit EXIT_FAILURE) ;;
  r <- atexit "removeClientMsq" ;;
  when (r ==? -1) (
    e <- errno ;;
    fprintf stderr "Failed to register removeClientMsq() with atexit() - %s\n" [Str (strerror e)] ;;
    exit EXIT_FAILURE) ;;
  let path := supd (PATH_MAX - 1) nul (strncpy argv.[1] (PATH_MAX - 1) pathname0) in
  let request := mkRequestMsg clientMsqid path in
  r <- sys (Msgsnd serverMsqid 1 (RequestMsg_bytes request) 0) ;;
  when (r ==? -1) (
    e <- errno ;;
    fprintf stderr "Failed to msgsnd() request to server - %s\n" [Str (strerror e)] ;;
    exit EXIT_FAILURE) ;;
  '(bytesReceived, type, data) <- sys (Msgrcv clientMsqid RESPONSE_MSG_DATA_SIZE 0 0) ;;
  when (bytesReceived ==? -1) (
    e <- errno ;;
    fprintf stderr "Failed to msgrcv() response from server - %s\n" [Str (strerror e)] ;;
    exit EXIT_FAILURE) ;;
  when (type ==? RESPONSE_MSG_FAILURE) (
    printf "%s\n" [Str (overlay data data0)] ;;
    exit EXIT_FAILURE) ;;
  '(totalBytes, numMsgs) <- collect clientMsqid type bytesReceived 1 ;;
  printf "Received %ld bytes (%d messages)\n" [Int totalBytes; Int numMsgs] ;;
  Ret EXIT_SUCCESS.
End svmsg_file_client.

(** ** svmsg_demo_server.c *)
Module svmsg_demo_server.
Definition KEY_PATH : string := "/etc/passwd".
Definition MQ_PERM : Z := S_IRUSR .| S_IWUSR .| S_IWGRP.

(** The loop that ends with the identifier of a queue it created. *)
Definition create `{CText} (key : Z) : prog Z :=
  ITree.iter (fun _ : unit =>
    id <- sys (Msgget key (IPC_CREAT .| IPC_EXCL .| MQ_PERM)) ;;
    if negb (id ==? -1) then Ret (inr id) else
    e <- errno ;;
    if e ==? EEXIST then
      id <- sys (Msgget key 0) ;;
      when (id ==? -1) (
        e <- errno ;;
        fprintf stderr "Failed to msgget() old id - %s\n" [Str (strerror e)] ;;
        exit EXIT_FAILURE) ;;
      r <- sys (MsgctlRmid id) ;;
      when (r ==? -1) (
        e <- errno ;;
        fprintf stderr "Failed to removed old id %d - %s\n" [Int id; Str (strerror e)] ;;
        exit EXIT_FAILURE) ;;
      fprintf stderr "Removed old id %d\n" [Int id] ;;
      Ret (inl tt)
    else
      e <- errno ;;
      fprintf stderr "Failed to msgget() id - %s\n" [Str (strerror e)] ;;
      exit EXIT_FAILURE) tt.

Definition main `{CText} (argv : list string) : prog Z :=
  key <- sys (Ftok KEY_PATH 1) ;;
  when (key ==? -1) (
    e <- errno ;;
    fprintf stderr "Failed to generate ipc key from %s - %s\n" [Str KEY_PATH; Str (strerror e)] ;;
    exit EXIT_FAILURE) ;;
  id <- create key ;;
  printf "Created new id %d\n" [Int id] ;;
  Ret EXIT_SUCCESS.
End svmsg_demo_server.

(** ** svmsg_create.c

    [key0] is the indeterminate value of [key], which -k leaves as it is. *)
Module svmsg_create.
Definition getInt `{CText} (str : string) : prog Z :=
  set_errno 0 ;;
  r <- strtol str 8 ;;
  let result := i32 (st_val r) in
  e <- errno ;;
  when ((e !=? 0) && negb (streq (st_end r) "")) (
    e <- errno ;;
    fprintf stderr "Failed to strtol() %s - %s\n" [Str str; Str (strerror e)] ;;
    exit EXIT_FAILURE) ;;
  Ret result.

Definition printUsage (programName : string) : prog unit :=
  fprintf stderr "Usage: %s [-cx] {-f <pathname> | -k <key> | -p} [<octal perm>]\n" [Str programName] ;;
  fprintf stderr "    -c            - Use IPC_CREAT flag\n" [] ;;
  fprintf stderr "    -x            - Use IPC_EXCL flag\n" [] ;;
  fprintf stderr "    -f <pathname> - Generate key using ftok()\n" [] ;;
  fprintf stderr "    -k <key>      - Use key\n" [] ;;
  fprintf stderr "    -p            - Use IPC_PRIVATE key\n" [].

Definition main `{CText} (key0 : Z) (argv : list string) : prog Z :=
  '(msgFlags, numKeyFlags, key, g) <- ITree.iter (fun '(msgFlags, numKeyFlags, key, g) =>
    '(opt, optarg, g) <- getopt argv "hcxf:k:p" g ;;
    match opt with
    | None => Ret (inr (msgFlags, numKeyFlags, key, g))
    | Some c =>
        if c ==c "c" then Ret (inl (msgFlags .| IPC_CREAT, numKeyFlags, key, g))
        else if c ==c "x" then Ret (inl (msgFlags .| IPC_EXCL, numKeyFlags, key, g))
        else if c ==c "f" then
          key <- sys (Ftok optarg 1) ;;
          when (key ==? -1) (
            e <- errno ;;
            fprintf stderr "Failed to ftok() key from file %s - %s\n" [Str optarg; Str (strerror e)] ;;
            exit EXIT_FAILURE) ;;
          Ret (inl (msgFlags, numKeyFlags + 1, key, g))
        else if c ==c "k" then
          when (sscanf_ret optarg !=? 1) (
            fprintf stderr "-k <key> requires a numeric argument\n" [] ;;
            exit EXIT_FAILURE) ;;
          Ret (inl (msgFlags, numKeyFlags + 1, key, g))
        else if c ==c "p" then Ret (inl (msgFlags, numKeyFlags + 1, IPC_PRIVATE, g))
        else printUsage argv.[0] ;; exit EXIT_FAILURE
    end) (0, 0, key0, getopt_init argv) ;;
  let argv := getopt_argv argv g in
  let optind := optind g in
  when (numKeyFlags !=? 1) (
    fprintf stderr "Exactly one of the options -f, -k, or -p must be supplied\n" [] ;;
    exit EXIT_FAILURE) ;;
  perms <- (if optind ==? argc argv then Ret (S_IRUSR .| S_IWUSR) else getInt argv.[optind]) ;;
  id <- sys (Msgget key (msgFlags .| perms)) ;;
  if id ==? -1 then
    e <- errno ;;
    fprintf stderr "Failed to msgget() msg queue - %s\n" [Str (strerror e)] ;;
    Ret EXIT_FAILURE
  else
  printf "%d\n" [Int id] ;;
  Ret EXIT_SUCCESS.
End svmsg_create.

(** ** svmsg_receive.c

    [text0] is the indeterminate content of the text of the message; the text is
    printed as a C string, so up to the first NUL. *)
Module svmsg_receive.
Definition MAX_MSG_TEXT_LENGTH : Z := 1024.

Definition getLong `{CText} (str : string) : prog Z :=
  set_errno 0 ;;
  result <- strtol str 0 ;;
  e <- errno ;;
  when ((e !=? 0) && negb (streq (st_end result) "")) (
    e <- errno ;;
    fprintf stderr "Failed to strtol() %s - %s\n" [Str str; Str (strerror e)] ;;
    exit EXIT_FAILURE) ;;
  Ret (st_val result).

Definition printUsage (program : string) : prog unit :=
  fprintf stderr "Usage: %s [<options>] <msqid> [<max-bytes>]\n" [Str program] ;;
  fprintf stderr "Permitted options are:\n" [] ;;
  fprintf stderr "    -e        - Use MSG_NOERROR flag\n" [] ;;
  fprintf stderr "    -t <type> - Select msg of given type\n" [] ;;
  fprintf stderr "    -n        - Use IPC_NOWAIT flag\n" [] ;;
  fprintf stderr "    -x        - Use MSG_EXCEPT flag\n" [].

Definition main `{CText} (text0 : string) (argv : list string) : prog Z :=
  '(flags, type, g) <- ITree.iter (fun '(flags, type, g) =>
    '(opt, optarg, g) <- getopt argv "het:nx" g ;;
    match opt with
    | None => Ret (inr (flags, type, g))
    | Some c =>
        if c ==c "e" then Ret (inl (flags .| MSG_NOERROR, type, g))
        else if c ==c "t" then type <- getLong optarg ;; Ret (inl (flags, type, g))
        else if c ==c "n" then Ret (inl (flags .| IPC_NOWAIT, type, g))
        else if c ==c "x" then Ret (inl (flags .| MSG_EXCEPT, type, g))
        else printUsage argv.[0] ;; exit EXIT_FAILURE
    end) (0, 0, getopt_init argv) ;;
  let argv := getopt_argv argv g in
  let optind := optind g in
  when ((argc argv <? optind + 1) || (optind + 2 <? argc argv)) (
    fprintf stderr "Wrong number of arguments\n" [] ;;
    printUsage argv.[0] ;;
    exit EXIT_FAILURE) ;;
  r <- getLong argv.[optind] ;;
  let msqid := i32 r in
  maxBytes <- (if optind + 1 <? argc argv then r <- getLong argv.[optind + 1] ;; Ret (u64 r)
               else Ret MAX_MSG_TEXT_LENGTH) ;;
  '(bytesReceived, mtype, data) <- sys (Msgrcv msqid maxBytes type flags) ;;
  when (bytesReceived ==? -1) (
    e <- errno ;;
    fprintf stderr "msgrcv() failed - %s\n" [Str (strerror e)] ;;
    exit EXIT_FAILURE) ;;
  printf "Received: type=%ld; length=%ld" [Int mtype; Int bytesReceived] ;;
  when (0 <? bytesReceived) (printf "; body=%s" [Str (overlay data text0)]) ;;
  printf "\n" [] ;;
  Ret EXIT_SUCCESS.
End svmsg_receive.

(** ** svmsg_rm.c

    [msqid0] is the indeterminate value of [msqid], which [sscanf] leaves in
    place when its input is empty. *)
Module svmsg_rm.
Definition main `{CText} (msqid0 : Z) (argv : list string) : prog Z :=
  when ((argc argv ==? 1) || ((1 <? argc argv) && streq argv.[1] "-h")) (
    fprintf stderr "Usage: %s <msqid>...\n" [Str argv.[0]] ;;
    exit EXIT_FAILURE) ;;
  for_ 1 (argc argv) (fun i =>
    when (sscanf_ret argv.[i] ==? 0) (
      fprintf stderr "msqid must be an integer\n" [] ;;
      exit EXIT_FAILURE) ;;
    let msqid := default msqid0 (sscanf_int argv.[i]) in
    r <- sys (MsgctlRmid msqid) ;;
    when (r ==? -1) (
      e <- errno ;;
      fprintf stderr "Failed to remove msqid %d - %s\n" [Int msqid; Str (strerror e)] ;;
      exit EXIT_FAILURE)) ;;
  Ret EXIT_SUCCESS.
End svmsg_rm.

(** ** svmsg_send.c *)
Module svmsg_send.
Definition MAX_MSG_TEXT_LENGTH : Z := 1024.

Definition getLong `{CText} (str : string) : prog Z :=
  set_errno 0 ;;
  result <- strtol str 0 ;;
  e <- errno ;;
  when ((e !=? 0) && negb (streq (st_end result) "")) (
    e <- errno ;;
    fprintf stderr "Failed to strtol() %s - %s\n" [Str str; Str (strerror e)] ;;
    exit EXIT_FAILURE) ;;
  Ret (st_val result).

(** The message text is what [memcpy] put in the first [textLength] bytes. *)
Definition main `{CText} (argv : list string) : prog Z :=
  '(flags, g) <- ITree.iter (fun '(flags, g) =>
    '(opt, _, g) <- getopt argv "nh" g ;;
    match opt with
    | None => Ret (inr (flags, g))
    | Some c =>
        if c ==c "n" then Ret (inl (flags .| IPC_NOWAIT, g))
        else
          fprintf stderr "Usage: %s [-n] msqid msg-type [msg-text]\n" [Str argv.[0]] ;;
          fprintf stderr "    -n - Use IPC_NOWAIT flag\n" [] ;;
          exit EXIT_FAILURE
    end) (0, getopt_init argv) ;;
  let argv := getopt_argv argv g in
  let optind := optind g in
  when ((argc argv <? optind + 2) || (optind + 3 <? argc argv)) (
    fprintf stderr "Wrong number of arguments\n" [] ;;
    exit EXIT_FAILURE) ;;
  r <- getLong argv.[optind] ;;
  let msqid := i32 r in
  type <- getLong argv.[optind + 1] ;;
  text <- (if optind + 2 <? argc argv then
    let text := argv.[optind + 2] in
    let textLength := slen text + 1 in
    when (MAX_MSG_TEXT_LENGTH <? textLength) (
      fprintf stderr "msg-text too long (max: %d chars)\n" [Int MAX_MSG_TEXT_LENGTH] ;;
      exit EXIT_FAILURE) ;;
    Ret (text +:+ String nul "")
  else Ret "") ;;
  r <- sys (Msgsnd msqid type text flags) ;;
  when (r ==? -1) (
    e <- errno ;;
    fprintf stderr "msgsnd() failed - %s\n" [Str (strerror e)] ;;
    exit EXIT_FAILURE) ;;
  Ret EXIT_SUCCESS.
End svmsg_send.

(** ** svmsg_file_server: what a request is answered with *)
Section ServeRequest.
Context `{T : CText} `{FK : FileKernel}.
Variables (fd ino client : Z) (c : string).

Definition chunk_ok (s : string) : Prop := 1 <= slen s <= RESPONSE_MSG_DATA_SIZE.

(** After the events [l]: the chunks sent, the first [off] bytes of the file. *)
Definition sending (st0 st : St) (l : list event) (chunks : list string) (off : Z) : Prop :=
  s_log st = s_log st0 ++ l /\ sent client l = map (pair RESPONSE_MSG_DATA) chunks /\
  Forall chunk_ok chunks /\ sconcat chunks = stake off c /\
  0 <= off <= slen c /\ fd_at (fsv st) fd ino off c.

Lemma sending_0 st : fd_at (fsv st) fd ino 0 c -> sending st st [] [] 0.
Proof.
  intros H. pose proof (slen_nonneg c). unfold sending. rewrite app_nil_r. by split_and!.
Qed.

(** The end of the loop: [n] is the last [bytesRead]. *)
Definition sent_all (st0 st : St) (n : Z) : Prop :=
  exists l chunks, s_log st = s_log st0 ++ l /\ sent client l = map (pair RESPONSE_MSG_DATA) chunks /\
    Forall chunk_ok chunks /\ (exists rest, c = sconcat chunks +:+ rest) /\
    (no_failure l = true -> n = 0 /\ sconcat chunks = c).

Lemma sending_prefix st0 st l chunks off :
  sending st0 st l chunks off -> exists rest, c = sconcat chunks +:+ rest.
Proof. intros (_ & _ & _ & -> & _). exists (sdrop off c). by rewrite stake_sdrop. Qed.

Lemma no_failure_app l l' : no_failure (l ++ l') = no_failure l && no_failure l'.
Proof. unfold no_failure. apply forallb_app. Qed.

Lemma send_data_ok data st :
  fd_at (fsv st) fd ino 0 c ->
  wp (svmsg_file_server.send_data fd client data)
    (fun r st' => exists n, r = Returned n /\ sent_all st st' n) st.
Proof.
  intros Hat.
  apply (wp_iter_measure _ (fun _ st1 => exists l chunks off, sending st st1 l chunks off)
    (fun _ st1 => Z.to_nat (slen c - from_option snd 0 (fs_fds (fsv st1) !! fd))));
    [|by exists [], [], 0; apply sending_0].
  intros buf st1 (l & chunks & off & Hs). pose proof (sending_prefix _ _ _ _ _ Hs) as Hpre.
  destruct Hs as (Hl & Hsent & Hch & Hcat & Hoff & Hfd).
  wp_head. wp_fs. destruct x as [r d]. pose proof (proj1 Hfd) as Hfd1.
  destruct Hfs as [[-> Hv]|(ino' & off' & c' & Hat' & -> & Hle & Hd & Hz & Hv)].
  { case_if; [|done]. wp_run1. eexists. split; [done|]. exists (l ++ [ECall (Read fd svmsg_file.RESPONSE_MSG_DATA_SIZE) (-1, d)]), chunks.
    split; [by rewrite Hlog, Hl, app_assoc|]. rewrite sent_app, Hsent, app_nil_r.
    split_and!; try done. rewrite no_failure_app. cbn. by rewrite andb_false_r. }
  destruct (fd_at_det _ _ _ _ _ _ _ _ Hfd Hat') as (<- & <- & <-).
  pose proof (f_equal slen Hd) as Hlen. rewrite slen_stake, slen_sdrop in Hlen by (pose proof (slen_nonneg d); lia).
  case_if; bool_props.
  - wp_run1. eexists. split; [done|].
    assert (slen d = 0) as Hz0 by (pose proof (slen_nonneg d); lia). rewrite Hz0 in *.
    exists (l ++ [ECall (Read fd svmsg_file.RESPONSE_MSG_DATA_SIZE) (0, d)]), chunks.
    split; [by rewrite Hlog, Hl, app_assoc|]. rewrite sent_app, Hsent, app_nil_r. split_and!; try done.
    intros _. split; [done|]. rewrite Hcat. apply stake_all. apply Hz; [done|]. done.
  - wp_run1. wp_fs. rewrite stake_overlay in Hlog0.
    assert (fd_at (fsv st2) fd ino (off + slen d) c) as Hfd2.
    { rewrite Hfs, Hv. apply fd_at_set_fd_eq. apply Hfd. }
    wp_go.
    + eexists. split; [done|]. eexists. exists chunks. split.
      { log_events. rewrite Hlog0, Hlog, Hl, <- !app_assoc. reflexivity. }
      rewrite sent_app, Hsent. cbn [sent mbind list_bind sent_ev app]. bool_props. rewrite Hb.
      cbn. rewrite andb_false_r, app_nil_r. split_and!; try done.
      rewrite no_failure_app. cbn. by rewrite !andb_false_r.
    + bool_props. split.
      * eexists _, (chunks ++ [d]), (off + slen d). unfold sending. split_and!; [ | | | | lia | lia | exact Hfd2].
        -- rewrite Hlog0, Hlog, Hl, <- !app_assoc. reflexivity.
        -- rewrite sent_app, Hsent, map_app. f_equal. unfold sent. cbn [mbind list_bind app].
           rewrite sent_ok by done. done.
        -- apply Forall_app. split; [done|]. constructor; [|done]. split; lia.
        -- rewrite sconcat_app, Hcat. cbn [sconcat]. rewrite app_nil_r_s, Hd at 1.
           apply stake_sdrop_app; lia.
      * rewrite (proj1 Hfd2), Hfd1. cbn. lia.
Qed.
End ServeRequest.

(** What a request for an existing file may be answered with: all of it when every
    call succeeds, and otherwise a prefix in chunks with or without an end, or one
    failure message. *)
Definition answered (client : Z) (c : string) (r : res unit) (l : list event) : Prop :=
  (no_failure l = true -> r = Returned tt /\ exists chunks,
    sent client l = map (pair RESPONSE_MSG_DATA) chunks ++ [(RESPONSE_MSG_END, "")] /\
    Forall chunk_ok chunks /\ sconcat chunks = c) /\
  exists chunks rest tl, c = sconcat chunks +:+ rest /\ Forall chunk_ok chunks /\
    sent client l = map (pair RESPONSE_MSG_DATA) chunks ++ tl /\
    (tl = [] \/ tl = [(RESPONSE_MSG_END, "")] \/ chunks = [] /\ exists text, tl = [(RESPONSE_MSG_FAILURE, text)]).

(** The events around the loop decide the end. *)
Lemma answered_around client c chunks rest pre l post r :
  sent client l = map (pair RESPONSE_MSG_DATA) chunks -> Forall chunk_ok chunks ->
  c = sconcat chunks +:+ rest -> sent client pre = [] ->
  (sent client post = [] \/ sent client post = [(RESPONSE_MSG_END, "")]) ->
  (no_failure (pre ++ l ++ post) = true ->
   r = Returned tt /\ sconcat chunks = c /\ sent client post = [(RESPONSE_MSG_END, "")]) ->
  answered client c r (pre ++ l ++ post).
Proof.
  intros Hl Hch Hc Hpre Hpost Hok. split.
  - intros H. destruct (Hok H) as (-> & Hcat & He). split; [done|]. exists chunks.
    by rewrite !sent_app, Hpre, Hl, He.
  - exists chunks, rest, (sent client post). rewrite !sent_app, Hpre, Hl.
    split_and!; [done|done|done|]. destruct Hpost; auto.
Qed.



(** ** svmsg_file_client: the request it sends *)

Lemma strncpy_fits s n dst :
  slen s <= n -> strncpy s n dst = s +:+ srepeat (Z.to_nat (n - slen s)) nul +:+ sdrop n dst.
Proof.
  intros H. unfold strncpy. rewrite stake_all by done. unfold overlay.
  rewrite slen_app, slen_srepeat, <- app_assoc_s.
  by replace (slen s + Z.of_nat (Z.to_nat (n - slen s))) with n by lia.
Qed.

Lemma sdrop_last n s : slen s = n + 1 -> 0 <= n -> exists c, sdrop n s = String c "".
Proof.
  intros H Hn. pose proof (slen_sdrop n s Hn) as Hl. rewrite H in Hl.
  destruct (sdrop n s) as [|c [|d t]]; [change (slen "") with 0 in Hl; lia|by exists c|].
  unfold slen in Hl at 1. cbn [String.length] in Hl. lia.
Qed.

(** The server reads from a client's request the identifier of the client's
    queue and the pathname of the command line, for every pathname that passes the
    client's length check, whatever the memory of the request held before; the
    request has the size both programs agree on. *)
Theorem svmsg_request_roundtrip cid path pathname0 :
  i32 cid = cid -> cstr path = path -> slen path <= PATH_MAX - 1 -> slen pathname0 = PATH_MAX ->
  let request := mkRequestMsg cid (supd (PATH_MAX - 1) nul (strncpy path (PATH_MAX - 1) pathname0)) in
  let received := bytes_RequestMsg (RequestMsg_bytes request) in
  clientId received = cid /\ cstr (pathname received) = path /\
  slen (RequestMsg_bytes request) = REQUEST_MSG_DATA_SIZE.
Proof.
  intros Hcid Hpath Hle H0. cbv zeta. unfold bytes_RequestMsg, RequestMsg_bytes. cbn [clientId pathname].
  rewrite decode_encode_int_app. change 4 with (slen (encode_int cid)) at 1. rewrite sdrop_app.
  rewrite slen_app, slen_encode_int. split; [done|].
  rewrite strncpy_fits by done. destruct (sdrop_last (PATH_MAX - 1) pathname0) as [c ->]; [lia|done|].
  set (pad := srepeat _ nul).
  assert (slen (path +:+ pad) = PATH_MAX - 1) as Hlen.
  { unfold pad. rewrite slen_app, slen_srepeat. lia. }
  rewrite app_assoc_s, <- Hlen, supd_app. split.
  - rewrite <- app_assoc_s. unfold pad. destruct (Z.to_nat _); cbn [srepeat]; rewrite ?app_nil_l_s, ?app_cons_s.
    all: by apply cstr_app_nul.
  - rewrite slen_app, Hlen. done.
Qed.

Lemma svmsg_request_roundtrip_witness :
  let request := mkRequestMsg 12 (supd (PATH_MAX - 1) nul (strncpy "/etc/hosts" (PATH_MAX - 1) (srepeat 4096 "x"))) in
  let received := bytes_RequestMsg (RequestMsg_bytes request) in
  clientId received = 12 /\ cstr (pathname received) = "/etc/hosts" /\
  slen (RequestMsg_bytes request) = REQUEST_MSG_DATA_SIZE.
Proof.
  apply (svmsg_request_roundtrip 12 "/etc/hosts" (srepeat 4096 "x")); [done|done|done|vm_compute; reflexivity].
Defined.

(** ** svmsg_file_client: the totals it reports *)
Section Collect.
Context `{T : CText} `{QK : QueueKernel}.
Variables (cid total num : Z).

(** What is still to be received adds up to the totals. *)
Definition owed (v : Z * Z * Z) (st : St) : Prop :=
  let '(type, bytes, n) := v in
  if type ==? RESPONSE_MSG_END then bytes = total /\ n = num
  else exists chunks, inb st cid = map (pair RESPONSE_MSG_DATA) chunks ++ [(RESPONSE_MSG_END, "")] /\
    i64 (bytes + slen (sconcat chunks)) = total /\ i32 (n + Z.of_nat (length chunks) + 1) = num.

Definition remaining (v : Z * Z * Z) (st : St) : nat :=
  if v.1.1 ==? RESPONSE_MSG_END then 0%nat else S (length (inb st cid)).

(** Receiving the next message keeps the totals. *)
Lemma owed_receive bytes n chunks st st1 r t d :
  inb st cid = map (pair RESPONSE_MSG_DATA) chunks ++ [(RESPONSE_MSG_END, "")] ->
  i64 (bytes + slen (sconcat chunks)) = total -> i32 (n + Z.of_nat (length chunks) + 1) = num ->
  rcv_post cid RESPONSE_MSG_DATA_SIZE 0 r t d (inb st) (inb st1) -> r <> -1 ->
  owed (t, i64 (bytes + r), i32 (n + 1)) st1 /\ (remaining (t, i64 (bytes + r), i32 (n + 1))%Z st1 < S (length (inb st cid)))%nat /\
  (t = RESPONSE_MSG_DATA \/ t = RESPONSE_MSG_END) /\ 0 <= r <= RESPONSE_MSG_DATA_SIZE.
Proof.
  intros Hin Hb Hn Hr Hne. destruct Hr as [[? _]|Hr]; [done|].
  destruct (Hr eq_refl) as (rest & Hst & -> & Hle & Hst1 & _). rewrite Hin in Hst |- *.
  pose proof (slen_nonneg d).
  destruct chunks as [|c chunks]; injection Hst as <- <- Hrest; unfold owed, remaining; cbn -[swrap].
  - rewrite <- Hb, <- Hn. split_and!; try done; try lia. cbn [length Z.of_nat]. by rewrite Z.add_0_r.
  - cbn [sconcat] in Hb. rewrite slen_app in Hb. cbn -[swrap] in Hn. split; [|split; [|split; [by left|lia]]].
    + exists chunks. rewrite Hst1, <- Hrest, <- Hb, <- Hn. rewrite !Z.add_assoc, <- (Z.add_assoc (i32 _)), !swrap_add_l by lia.
      split_and!; [done..|f_equal; lia].
    + rewrite Hst1, <- Hrest. lia.
Qed.

Lemma collect_ok type bytes n st :
  owed (type, bytes, n) st ->
  wp (svmsg_file_client.collect cid type bytes n) (fun r st' =>
    exists l, s_log st' = s_log st ++ l /\
    (r = Stopped (Exited EXIT_FAILURE) \/ r = Returned (total, num) /\ text_on stdout l = "")) st.
Proof.
  intros H0.
  apply (wp_iter_measure _ (fun v st1 => owed v st1 /\ exists l, s_log st1 = s_log st ++ l /\ text_on stdout l = "")
    remaining); [|split; [done|]; exists []; by rewrite app_nil_r].
  intros [[t b] m] st1 (Ho & l & Hl & Ht). unfold owed in Ho.
  destruct (t ==? RESPONSE_MSG_END) eqn:Et; cbn [negb].
  - wp_run1. exists l. destruct Ho as [-> ->]. auto.
  - destruct Ho as (chunks & Hin & Hb & Hn). wp_head. wp_queue. destruct x as [[r t'] d].
    wp_go; bool_props.
    + eexists. split; [|by left]. log_events. by rewrite Hlog, Hl, <- !app_assoc.
    + destruct (owed_receive _ _ _ _ _ _ _ _ Hin Hb Hn Hq Hb0) as (Ho & Hlt & _).
      split; [split; [exact Ho|]|].
      * eexists. split; [by rewrite Hlog, Hl, <- app_assoc|]. by rewrite text_on_app, Ht.
      * unfold remaining at 2. cbn [fst]. by rewrite (proj2 (Z.eqb_neq _ _) Et).
Qed.
End Collect.


