(* ===== verification/SemShm.v ===== *)
(** * System V semaphores and shared memory: svsem/ and svshm/ *)

From S2P Require Import Prelude.
From S2P Require Import CLib.
From S2P Require Import Sys.
From S2P Require Import Sem.

Definition SEM_UNDO : Z := 4096.
Definition SHM_RDONLY : Z := 4096.
Definition GETPID : Z := 11.
Definition GETNCNT : Z := 14.
Definition GETZCNT : Z := 15.

(** ** svsem_demo.c *)
Module svsem_demo.
Definition getInt `{CText} (str : string) : prog Z :=
  set_errno 0 ;;
  r <- strtol str 0 ;;
  let result := i32 (st_val r) in
  e <- errno ;;
  when ((e ==? 0) && negb (streq (st_end r) "")) (
    e <- errno ;;
    fprintf stderr "Failed to convert strtol() %s - %s\n" [Str str; Str (strerror e)] ;;
    exit EXIT_FAILURE) ;;
  Ret result.

Definition main `{CText} (argv : list string) : prog Z :=
  when ((argc argv <? 2) || (3 <? argc argv) || streq argv.[1] "-h") (
    fprintf stderr "Usage: %s <init value>\n" [Str argv.[0]] ;;
    fprintf stderr "       %s <semid> <op>\n" [Str argv.[0]] ;;
    exit EXIT_FAILURE) ;;
  (if argc argv ==? 2 then
    semid <- sys (Semget IPC_PRIVATE 1 (S_IRUSR .| S_IWUSR)) ;;
    when (semid ==? -1) (
      e <- errno ;;
      fprintf stderr "semget() failed - %s\n" [Str (strerror e)] ;;
      exit EXIT_FAILURE) ;;
    val <- getInt argv.[1] ;;
    r <- sys (SemctlSetval semid 0 val) ;;
    when (r ==? -1) (
      e <- errno ;;
      fprintf stderr "Failed to initialize semaphore %d - %s\n" [Int semid; Str (strerror e)] ;;
      exit EXIT_FAILURE) ;;
    printf "Sempahore ID = %d\n" [Int semid]
  else
    semid <- getInt argv.[1] ;;
    op <- getInt argv.[2] ;;
    let sop := Sembuf 0 (i16 op) 0 in
    t <- sys Time ;;
    p <- sys Getpid ;;
    printf "%ld: about to semop at %s" [Int p; Str (ctime t)] ;;
    r <- sys (Semop semid [sop]) ;;
    when (r ==? -1) (
      e <- errno ;;
      fprintf stderr "Failed to semop() on semaphore %d with op %d - %s\n"
        [Int semid; Int (sem_op sop); Str (strerror e)]) ;;
    p <- sys Getpid ;;
    printf "%ld: semop completed at %s" [Int p; Str (ctime t)]) ;;
  Ret EXIT_SUCCESS.
End svsem_demo.

(** ** svsem_mon.c

    The three counts of a line are arguments of one [printf]; C leaves the order
    of their evaluation open, the model takes them from left to right. *)
Module svsem_mon.
Definition getInt `{CText} (str : string) : prog Z :=
  set_errno 0 ;;
  r <- strtol str 0 ;;
  let result := i32 (st_val r) in
  e <- errno ;;
  when ((e !=? 0) && negb (streq (st_end r) "")) (
    e <- errno ;;
    fprintf stderr "Failed to strtol() %s - %s\n" [Str str; Str (strerror e)] ;;
    exit EXIT_FAILURE) ;;
  Ret result.

Definition main `{CText} (argv : list string) : prog Z :=
  when ((argc argv !=? 2) || streq argv.[1] "-h") (
    fprintf stderr "%s <semid>\n" [Str argv.[0]] ;;
    exit EXIT_FAILURE) ;;
  semid <- getInt argv.[1] ;;
  '(r, ds) <- sys (SemctlStat semid) ;;
  when (r ==? -1) (
    e <- errno ;;
    fprintf stderr "Failed to semctl() IPC_STAT semid %d - %s\n" [Int semid; Str (strerror e)] ;;
    exit EXIT_FAILURE) ;;
  printf "Semaphore changed: %s" [Str (ctime (sem_ctime ds))] ;;
  printf "Last semop():      %s" [Str (ctime (sem_otime ds))] ;;
  array <- sys (Malloc (u64 (sem_nsems ds * 2))) ;;
  when (array ==? 0) (
    e <- errno ;;
    fprintf stderr "Failed to calloc() %lu unsigned shorts for sem array values - %s\n"
      [Int (sem_nsems ds); Str (strerror e)] ;;
    exit EXIT_FAILURE) ;;
  '(r, vals) <- sys (SemctlGetall semid) ;;
  when (r ==? -1) (
    sys (Free array) ;;
    e <- errno ;;
    fprintf stderr "Failed to semctl() GETALL semid %d - %s\n" [Int semid; Str (strerror e)] ;;
    exit EXIT_FAILURE) ;;
  printf "Sem #  Value  SEMPID  SEMNCNT  SEMZCNT\n" [] ;;
  for_ 0 (sem_nsems ds) (fun i =>
    pid <- sys (SemctlGet semid i GETPID) ;;
    ncnt <- sys (SemctlGet semid i GETNCNT) ;;
    zcnt <- sys (SemctlGet semid i GETZCNT) ;;
    printf "%3lu   %5d   %5d   %5d    %5d\n"
      [Int i; Int (nth (Z.to_nat i) vals 0); Int pid; Int ncnt; Int zcnt]) ;;
  sys (Free array) ;;
  Ret EXIT_SUCCESS.
End svsem_mon.

(** ** svsem_setall.c *)
Module svsem_setall.
Definition getLong `{CText} (str : string) : prog Z :=
  set_errno 0 ;;
  result <- strtol str 0 ;;
  e <- errno ;;
  when ((e !=? 0) && negb (streq (st_end result) "")) (
    e <- errno ;;
    fprintf stderr "Failed to convert strtol() %s - %s\n" [Str str; Str (strerror e)] ;;
    exit EXIT_FAILURE) ;;
  Ret (st_val result).

(** The loop that fills the array; every value goes to its first element. *)
Definition fill `{CText} (argv : list string) (nsems : Z) (array : list Z) : prog (list Z) :=
  for_loop 0 nsems (fun i array =>
    v <- getLong argv.[i + 2] ;;
    Ret (<[0%nat := u16 v]> array)) array.

Definition main `{CText} (argv : list string) : prog Z :=
  when ((argc argv <? 3) || streq argv.[1] "-h") (
    fprintf stderr "Usage: %s <semid> <val>...\n" [Str argv.[0]] ;;
    exit EXIT_FAILURE) ;;
  r <- getLong argv.[1] ;;
  let semid := i32 r in
  '(r, ds) <- sys (SemctlStat semid) ;;
  when (r ==? -1) (
    e <- errno ;;
    fprintf stderr "Failed to semctl() IPC_STAT semid %d - %s\n" [Int semid; Str (strerror e)] ;;
    exit EXIT_FAILURE) ;;
  when (argc argv - 2 !=? sem_nsems ds) (
    fprintf stderr "Set %d contains %lu semaphores but %d values were supplied.\n"
      [Int semid; Int (sem_nsems ds); Int (argc argv - 2)] ;;
    exit EXIT_FAILURE) ;;
  a <- sys (Malloc (u64 (sem_nsems ds * 2))) ;;
  when (a ==? 0) (
    e <- errno ;;
    fprintf stderr "Failed to calloc() %lu unsigned shorts - %s\n" [Int (sem_nsems ds); Str (strerror e)] ;;
    exit EXIT_FAILURE) ;;
  array <- fill argv (sem_nsems ds) (repeat 0 (Z.to_nat (sem_nsems ds))) ;;
  r <- sys (SemctlSetall semid array) ;;
  when (r ==? -1) (
    e <- errno ;;
    fprintf stderr "Failed to semctl() SET_ALL semid %d - %sn" [Int semid; Str (strerror e)] ;;
    exit EXIT_FAILURE) ;;
  p <- sys Getpid ;;
  printf "Semaphore values changed (PID=%ld)\n" [Int p] ;;
  Ret EXIT_SUCCESS.
End svsem_setall.

(** ** binary_sems.c

    The two options are variables of the file that the programs leave at their
    initial values. *)
Module binary_sems.
Definition bsUseSemUndo : bool := false.
Definition bsRetryOnEintr : bool := true.

Definition initSemAvailable (semId semNum : Z) : prog Z := sys (SemctlSetval semId semNum 1).
Definition initSemInUse (semId semNum : Z) : prog Z := sys (SemctlSetval semId semNum 0).

Definition reserveSem (useUndo retry : bool) (semId semNum : Z) : prog Z :=
  let sop := Sembuf semNum (-1) (if useUndo then SEM_UNDO else 0) in
  ITree.iter (fun _ : unit =>
    r <- sys (Semop semId [sop]) ;;
    if negb (r ==? -1) then Ret (inr 0) else
    e <- errno ;;
    if (e !=? EINTR) || negb retry then Ret (inr (-1)) else Ret (inl tt)) tt.

Definition releaseSem (useUndo : bool) (semId semNum : Z) : prog Z :=
  sys (Semop semId [Sembuf semNum 1 (if useUndo then SEM_UNDO else 0)]).
End binary_sems.

(** ** svshm_xfr.h

    The segment is an integer, at its address, and a buffer after it. *)
Module svshm_xfr.
Definition SHM_KEY : Z := 4660.
Definition SEM_KEY : Z := 22136.
Definition OBJ_PERMS : Z := S_IRUSR .| S_IWUSR .| S_IRGRP .| S_IWGRP.
Definition WRITE_SEM : Z := 0.
Definition READ_SEM : Z := 1.
Definition BUF_SIZE : Z := 1024.
Definition sizeof_shmseg : Z := sizeof_int + BUF_SIZE.
Definition bufferSize (shmp : Z) : Z := shmp.
Definition buffer (shmp : Z) : Z := shmp + sizeof_int.
End svshm_xfr.
Import svshm_xfr.

Definition reserve : Z -> Z -> prog Z :=
  binary_sems.reserveSem binary_sems.bsUseSemUndo binary_sems.bsRetryOnEintr.
Definition release : Z -> Z -> prog Z := binary_sems.releaseSem binary_sems.bsUseSemUndo.

(** ** svshm_xfr_writer.c *)
Module svshm_xfr_writer.
(** The transfer loop, after the initialisation of the size; the variables are
    [xfrs] and [bytes]. *)
Definition transfer `{CText} (semid shmp : Z) : prog (Z * Z) :=
  ITree.iter (fun '(xfrs, bytes) =>
    n <- sys (LoadInt (bufferSize shmp)) ;;
    if negb (n !=? 0) then Ret (inr (xfrs, bytes)) else
    r <- reserve semid WRITE_SEM ;;
    when (r ==? -1) (
      e <- errno ;;
      fprintf stderr "Failed to reserve WRITE_SEM %d - %s\n" [Int WRITE_SEM; Str (strerror e)] ;;
      exit EXIT_FAILURE) ;;
    '(n, data) <- sys (Read STDIN_FILENO BUF_SIZE) ;;
    sys (StoreBytes (buffer shmp) data) ;;
    sys (StoreInt (bufferSize shmp) n) ;;
    n <- sys (LoadInt (bufferSize shmp)) ;;
    when (n ==? -1) (
      e <- errno ;;
      fprintf stderr "Failed to read from stdin - %s\n" [Str (strerror e)] ;;
      exit EXIT_FAILURE) ;;
    r <- release semid READ_SEM ;;
    when (r ==? -1) (
      e <- errno ;;
      fprintf stderr "Failed to release READ_SEM %d - %s\n" [Int READ_SEM; Str (strerror e)] ;;
      exit EXIT_FAILURE) ;;
    n <- sys (LoadInt (bufferSize shmp)) ;;
    Ret (inl (i32 (xfrs + 1), i32 (bytes + n)))) (0, 0).

Definition main `{CText} (argv : list string) : prog Z :=
  semid <- sys (Semget SEM_KEY 2 (IPC_CREAT .| OBJ_PERMS)) ;;
  when (semid ==? -1) (
    e <- errno ;;
    fprintf stderr "Failed to semget() SEM_KEY %x - %s\n" [Int SEM_KEY; Str (strerror e)] ;;
    exit EXIT_FAILURE) ;;
  r <- binary_sems.initSemAvailable semid WRITE_SEM ;;
  when (r ==? -1) (
    e <- errno ;;
    fprintf stderr "Failed to initialize WRITE_SEM - %s\n" [Str (strerror e)] ;;
    exit EXIT_FAILURE) ;;
  r <- binary_sems.initSemInUse semid READ_SEM ;;
  when (r ==? -1) (
    e <- errno ;;
    fprintf stderr "Failed to initialize READ_SEM - %s\n" [Str (strerror e)] ;;
    exit EXIT_FAILURE) ;;
  shmid <- sys (Shmget SHM_KEY sizeof_shmseg (IPC_CREAT .| OBJ_PERMS)) ;;
  when (shmid ==? -1) (
    e <- errno ;;
    fprintf stderr "Failed to shmget() SHM_KEY %x - %s\n" [Int SHM_KEY; Str (strerror e)] ;;
    exit EXIT_FAILURE) ;;
  shmp <- sys (Shmat shmid 0) ;;
  when (shmp ==? -1) (
    e <- errno ;;
    fprintf stderr "Failed to shmat() shmid %d - %s\n" [Int shmid; Str (strerror e)] ;;
    exit EXIT_FAILURE) ;;
  sys (StoreInt (bufferSize shmp) BUF_SIZE) ;;
  '(xfrs, bytes) <- transfer semid shmp ;;
  r <- reserve semid WRITE_SEM ;;
  when (r ==? -1) (
    e <- errno ;;
    fprintf stderr "Failed to reserve WRITE_SEM %d - %s\n" [Int WRITE_SEM; Str (strerror e)] ;;
    exit EXIT_FAILURE) ;;
  r <- sys (Shmdt shmp) ;;
  when (r ==? -1) (
    e <- errno ;;
    fprintf stderr "Failed to shmdt() - %s\n" [Str (strerror e)] ;;
    exit EXIT_FAILURE) ;;
  r <- sys (ShmctlRmid shmid) ;;
  when (r ==? -1) (
    e <- errno ;;
    fprintf stderr "Failed to shmctl() IPC_RMID semid %d - %s\n" [Int shmid; Str (strerror e)] ;;
    exit EXIT_FAILURE) ;;
  r <- sys (SemctlRmid semid) ;;
  when (r !=? 0) (
    e <- errno ;;
    fprintf stderr "Failed to semctl() IPC_RMID semid %d - %s\n" [Int semid; Str (strerror e)] ;;
    exit EXIT_FAILURE) ;;
  printf "Sent %d bytes (%d xfrs)\n" [Int bytes; Int xfrs] ;;
  Ret EXIT_SUCCESS.
End svshm_xfr_writer.

(** ** svshm_xfr_reader.c *)
Module svshm_xfr_reader.
(** The transfer loop. The increment reads the size after WRITE_SEM has been
    released. *)
Definition transfer `{CText} (semid shmp : Z) : prog (Z * Z) :=
  ITree.iter (fun '(xfrs, bytes) =>
    r <- reserve semid READ_SEM ;;
    when (r ==? -1) (
      e <- errno ;;
      fprintf stderr "Failed to reserve READ_SEM - %s\n" [Str (strerror e)] ;;
      exit EXIT_FAILURE) ;;
    n <- sys (LoadInt (bufferSize shmp)) ;;
    if n ==? 0 then Ret (inr (xfrs, bytes)) else
    n <- sys (LoadInt (bufferSize shmp)) ;;
    data <- sys (LoadBytes (buffer shmp) n) ;;
    r <- sys (Write STDOUT_FILENO data) ;;
    n <- sys (LoadInt (bufferSize shmp)) ;;
    when (r !=? n) (
      e <- errno ;;
      fprintf stderr "Failed to write() - %s\n" [Str (strerror e)] ;;
      exit EXIT_FAILURE) ;;
    r <- release semid WRITE_SEM ;;
    when (r ==? -1) (
      e <- errno ;;
      fprintf stderr "Failed to release WRITE_SEM - %s\n" [Str (strerror e)] ;;
      exit EXIT_FAILURE) ;;
    n <- sys (LoadInt (bufferSize shmp)) ;;
    Ret (inl (i32 (xfrs + 1), i32 (bytes + n)))) (0, 0).

Definition main `{CText} (argv : list string) : prog Z :=
  semid <- sys (Semget SEM_KEY 0 0) ;;
  when (semid ==? -1) (
    e <- errno ;;
    fprintf stderr "Failed to semget() SEM_KEY %x - %s\n" [Int SEM_KEY; Str (strerror e)] ;;
    exit EXIT_FAILURE) ;;
  shmid <- sys (Shmget SHM_KEY 0 0) ;;
  when (shmid ==? -1) (
    e <- errno ;;
    fprintf stderr "Failed to shmget() SHM_KEY %x - %s\n" [Int SHM_KEY; Str (strerror e)] ;;
    exit EXIT_FAILURE) ;;
  shmp <- sys (Shmat shmid SHM_RDONLY) ;;
  when (shmp ==? -1) (
    e <- errno ;;
    fprintf stderr "Failed to shmat() shmid %d - %s\n" [Int shmid; Str (strerror e)] ;;
    exit EXIT_FAILURE) ;;
  '(xfrs, bytes) <- transfer semid shmp ;;
  r <- sys (Shmdt shmp) ;;
  when (r ==? -1) (
    e <- errno ;;
    fprintf stderr "Failed to shmdt() shmid %d - %s\n" [Int shmid; Str (strerror e)] ;;
    exit EXIT_FAILURE) ;;
  r <- release semid WRITE_SEM ;;
  when (r ==? -1) (
    e <- errno ;;
    fprintf stderr "Failed to release WRITE_SEM - %s\n" [Str (strerror e)] ;;
    exit EXIT_FAILURE) ;;
  printf "Received %d bytes (%d xfrs)\n" [Int bytes; Int xfrs] ;;
  Ret EXIT_SUCCESS.
End svshm_xfr_reader.
