(* ===== verification/Mq.v ===== *)
(** * POSIX message queues: pmsg/ *)

From S2P Require Import Prelude.
From S2P Require Import CLib.
From S2P Require Import Sys.
From S2P Require Import Sem.
From S2P Require Import Lpi.

(** ** pmsg_create.c

    A null [attrp] is [None]. *)
Module pmsg_create.
Definition printUsage (program : string) : prog unit :=
  fprintf stderr "Usage: %s [-cx] [-m <max_msgs>] [-s <max_msg_size>] <mq_name> [<octal_perms>]\n" [Str program] ;;
  fprintf stderr "    -c                - Create queue (O_CREAT)\n" [] ;;
  fprintf stderr "    -x                - Create exclusively (O_EXCL)\n" [] ;;
  fprintf stderr "    -m <max_msgs>     - Set max # of msgs\n" [] ;;
  fprintf stderr "    -s <max_msg_size> - Set max msg size\n" [].

Definition getLong `{CText} (str : string) (base : Z) : prog Z :=
  set_errno 0 ;;
  result <- strtol str base ;;
  e <- errno ;;
  when ((e !=? 0) && negb (streq (st_end result) "")) (
    e <- errno ;;
    fprintf stderr "Failed to convert %s to long - %s\n" [Str str; Str (strerror e)] ;;
    exit EXIT_FAILURE) ;;
  Ret (st_val result).

Definition set_maxmsg (attr : mq_attr) (v : Z) : mq_attr :=
  MqAttr (mq_flags attr) v (mq_msgsize attr) (mq_curmsgs attr).

(** [attr0] is the indeterminate content of [attr] in the fields that the program
    does not set. *)
Definition main `{CText} (attr0 : mq_attr) (argv : list string) : prog Z :=
  let attr := MqAttr (mq_flags attr0) 10 2048 (mq_curmsgs attr0) in
  '(oflag, attrp, attr, g) <- ITree.iter (fun '(oflag, attrp, attr, g) =>
    '(opt, optarg, g) <- getopt argv "cxm:s:" g ;;
    match opt with
    | None => Ret (inr (oflag, attrp, attr, g))
    | Some c =>
        if c ==c "c" then Ret (inl (oflag .| O_CREAT, attrp, attr, g))
        else if c ==c "x" then Ret (inl (oflag .| O_EXCL, attrp, attr, g))
        else if c ==c "m" then
          v <- getLong optarg 0 ;; Ret (inl (oflag, true, set_maxmsg attr v, g))
        else if c ==c "s" then
          v <- getLong optarg 0 ;; Ret (inl (oflag, true, set_maxmsg attr v, g))
        else printUsage argv.[0] ;; exit EXIT_FAILURE
    end) (O_RDWR, false, attr, getopt_init argv) ;;
  let argv := getopt_argv argv g in
  let optind := optind g in
  when (argc argv <=? optind) (printUsage argv.[0] ;; exit EXIT_FAILURE) ;;
  let mq_name := argv.[optind] in
  mode <- (if argc argv <=? optind + 1 then Ret (S_IRUSR .| S_IWUSR)
           else r <- getLong argv.[optind + 1] 8 ;; Ret (u32 r)) ;;
  r <- sys (MqOpen mq_name oflag mode (if attrp : bool then Some attr else None)) ;;
  when (r ==? -1) (
    e <- errno ;;
    fprintf stderr "Failed to mq_open() %s - %s\n" [Str mq_name; Str (strerror e)] ;;
    exit EXIT_FAILURE) ;;
  Ret EXIT_SUCCESS.
End pmsg_create.

(** ** pmsg_getattr.c

    The usage message prints [argv[1]], the null pointer without arguments. *)
Module pmsg_getattr.
Definition main `{CText} (argv : list string) : prog Z :=
  when ((argc argv !=? 2) || streq argv.[1] "-h") (
    fprintf stderr "Usage: %s <mq_name>\n" [Str (if argc argv <=? 1 then "(null)" else argv.[1])] ;;
    exit EXIT_FAILURE) ;;
  let mqName := argv.[1] in
  mqd <- sys (MqOpen mqName O_RDONLY 0 None) ;;
  when (mqd ==? -1) (
    e <- errno ;;
    fprintf stderr "Failed to mq_open() %s - %s\n" [Str mqName; Str (strerror e)] ;;
    exit EXIT_FAILURE) ;;
  '(r, attr) <- sys (MqGetattr mqd) ;;
  when (r ==? -1) (
    e <- errno ;;
    fprintf stderr "Failed to mq_getattr() %s - %s\n" [Str mqName; Str (strerror e)] ;;
    exit EXIT_FAILURE) ;;
  printf "Max # of msgs on queue: %ld\n" [Int (mq_maxmsg attr)] ;;
  printf "Max msg size:           %ld\n" [Int (mq_msgsize attr)] ;;
  printf "# of msgs on queue:     %ld\n" [Int (mq_curmsgs attr)] ;;
  r <- sys (MqClose mqd) ;;
  when (r ==? -1) (
    e <- errno ;;
    fprintf stderr "Failed to mq_close() %s - %s\n" [Str mqName; Str (strerror e)] ;;
    exit EXIT_FAILURE) ;;
  Ret EXIT_SUCCESS.
End pmsg_getattr.

(** ** pmsg_receive.c

    The option loop tests the result of [getopt] but never stores it: [opt0] is
    the indeterminate value of [opt] the [switch] looks at. *)
Module pmsg_receive.
Definition printUsage (program : string) : prog unit :=
  fprintf stderr "Usage: %s [-n] <mq_name>\n" [Str program] ;;
  fprintf stderr "    -n - Use O_NONBLOCK flag\n" [].

Definition main `{CText} (opt0 : Z) (argv : list string) : prog Z :=
  '(oflag, g) <- ITree.iter (fun '(oflag, g) =>
    '(opt, _, g) <- getopt argv "n" g ;;
    match opt with
    | None => Ret (inr (oflag, g))
    | Some _ =>
        if opt0 ==? ord "n" then Ret (inl (oflag .| O_NONBLOCK, g))
        else printUsage argv.[0] ;; exit EXIT_FAILURE
    end) (O_RDONLY, getopt_init argv) ;;
  let argv := getopt_argv argv g in
  let optind := optind g in
  when (argc argv <=? optind) (printUsage argv.[0] ;; exit EXIT_FAILURE) ;;
  let mqName := argv.[optind] in
  mqd <- sys (MqOpen mqName oflag 0 None) ;;
  when (mqd ==? -1) (
    e <- errno ;;
    fprintf stderr "Failed to mq_open() %s - %s\n" [Str mqName; Str (strerror e)] ;;
    exit EXIT_FAILURE) ;;
  '(r, attr) <- sys (MqGetattr mqd) ;;
  when (r ==? -1) (
    e <- errno ;;
    fprintf stderr "Failed to mq_getattr() %s - %s\n" [Str mqName; Str (strerror e)] ;;
    exit EXIT_FAILURE) ;;
  buffer <- sys (Malloc (u64 (mq_msgsize attr))) ;;
  when (buffer ==? 0) (
    e <- errno ;;
    fprintf stderr "Failed to malloc() %ld bytes for msg buffer - %s\n"
      [Int (mq_msgsize attr); Str (strerror e)] ;;
    exit EXIT_FAILURE) ;;
  '(bytesReceived, data, priority) <- sys (MqReceive mqd (u64 (mq_msgsize attr))) ;;
  when (bytesReceived ==? -1) (
    e <- errno ;;
    fprintf stderr "Failed to mq_receive() from %s - %s\n" [Str mqName; Str (strerror e)] ;;
    exit EXIT_FAILURE) ;;
  printf "Read %ld bytes; priority = %u\n" [Int bytesReceived; Int priority] ;;
  r <- sys (Write STDOUT_FILENO (stake bytesReceived data)) ;;
  when (r ==? -1) (
    e <- errno ;;
    fprintf stderr "Failed to write() %ld bytes - %s\n" [Int bytesReceived; Str (strerror e)] ;;
    exit EXIT_FAILURE) ;;
  sys (Write STDOUT_FILENO (format "\n" [])) ;;
  sys (Free buffer) ;;
  r <- sys (MqClose mqd) ;;
  when (r ==? -1) (
    e <- errno ;;
    fprintf stderr "Failed to mq_close() %s - %s\n" [Str mqName; Str (strerror e)] ;;
    exit EXIT_FAILURE) ;;
  Ret EXIT_SUCCESS.
End pmsg_receive.

(** ** pmsg_send.c *)
Module pmsg_send.
Definition printUsage (program : string) : prog unit :=
  fprintf stderr "Usage: %s [-n] <mq_name> <msg> [<priority>]\n" [Str program] ;;
  fprintf stderr "    -n - Use O_NONBLOCK flag\n" [].

Definition getUnsignedLong `{CText} (str : string) : prog Z :=
  set_errno 0 ;;
  result <- strtoul str 0 ;;
  e <- errno ;;
  when ((e !=? 0) && negb (streq (st_end result) "")) (
    e <- errno ;;
    fprintf stderr "Failed to convert strtoul() %s - %s\n" [Str str; Str (strerror e)] ;;
    exit EXIT_FAILURE) ;;
  Ret (st_val result).

Definition main `{CText} (argv : list string) : prog Z :=
  '(oflag, g) <- ITree.iter (fun '(oflag, g) =>
    '(opt, _, g) <- getopt argv "n" g ;;
    match opt with
    | None => Ret (inr (oflag, g))
    | Some c =>
        if c ==c "n" then Ret (inl (oflag .| O_NONBLOCK, g))
        else printUsage argv.[0] ;; exit EXIT_FAILURE
    end) (O_WRONLY, getopt_init argv) ;;
  let argv := getopt_argv argv g in
  let optind := optind g in
  when (argc argv <=? optind + 1) (printUsage argv.[0] ;; exit EXIT_FAILURE) ;;
  let mqName := argv.[optind] in
  mqd <- sys (MqOpen mqName oflag 0 None) ;;
  when (mqd ==? -1) (
    e <- errno ;;
    fprintf stderr "Failed to mq_open() %s - %s\n" [Str mqName; Str (strerror e)] ;;
    exit EXIT_FAILURE) ;;
  let msg := argv.[optind + 1] in
  priority <- (if optind + 2 <? argc argv then r <- getUnsignedLong argv.[optind + 2] ;; Ret (u32 r)
               else Ret 0) ;;
  r <- sys (MqSend mqd msg priority) ;;
  when (r ==? -1) (
    e <- errno ;;
    fprintf stderr "Failed to mq_send() %s - %s\n" [Str msg; Str (strerror e)] ;;
    exit EXIT_FAILURE) ;;
  Ret EXIT_SUCCESS.
End pmsg_send.

(** ** pmsg_unlink.c *)
Module pmsg_unlink.
Definition main `{CText} (argv : list string) : prog Z :=
  if (argc argv !=? 2) || streq argv.[1] "-h" then
    fprintf stderr "Usage: %s <mq_name>\n" [Str argv.[0]] ;;
    Ret EXIT_FAILURE
  else
  let name := argv.[1] in
  r <- sys (MqUnlink name) ;;
  if r ==? -1 then
    e <- errno ;;
    fprintf stderr "Failed to mq_unlink() %s - %s\n" [Str name; Str (strerror e)] ;;
    Ret EXIT_FAILURE
  else Ret EXIT_SUCCESS.
End pmsg_unlink.

(** ** mq_notify_sig.c *)
Module mq_notify_sig.
Definition NOTIFY_SIG : Z := SIGUSR1.

(** The inner loop, which empties the queue. *)
Definition drain `{CText} (mqd msgsize : Z) : prog unit :=
  ITree.iter (fun _ : unit =>
    '(bytesReceived, data, _) <- sys (MqReceive mqd msgsize) ;;
    if negb (bytesReceived !=? -1) then Ret (inr tt) else
    r <- sys (Write STDOUT_FILENO (stake bytesReceived data)) ;;
    when (r !=? bytesReceived) (
      e <- errno ;;
      fprintf stderr "Failed to write %ld bytes - %s\n" [Int bytesReceived; Str (strerror e)] ;;
      exit EXIT_FAILURE) ;;
    sys (Write STDOUT_FILENO (format "\n" [])) ;;
    Ret (inl tt)) tt.

(** One iteration of the outer loop. *)
Definition serve `{CText} (mqd msgsize emptyMask : Z) : prog (unit + unit) :=
  r <- sys (Sigsuspend emptyMask) ;;
  when (r ==? -1) (
    e <- errno ;;
    when (e !=? EINTR) (
      e <- errno ;;
      fprintf stderr "sigsuspend() failed - %s\n" [Str (strerror e)] ;;
      exit EXIT_FAILURE)) ;;
  r <- sys (MqNotify mqd (SigevSignal NOTIFY_SIG)) ;;
  when (r ==? -1) (
    e <- errno ;;
    fprintf stderr "mq_notify() failed - %s\n" [Str (strerror e)] ;;
    exit EXIT_FAILURE) ;;
  drain mqd msgsize ;;
  e <- errno ;;
  when (e !=? EAGAIN) (
    e <- errno ;;
    fprintf stderr "mq_receive() failed - %s\n" [Str (strerror e)] ;;
    exit EXIT_FAILURE) ;;
  Ret (inl tt).

Definition main `{CText} (argv : list string) : prog Z :=
  when ((argc argv !=? 2) || streq argv.[1] "-h") (
    fprintf stderr "Usage: %s <mq_name>\n" [Str argv.[0]] ;;
    exit EXIT_FAILURE) ;;
  let mqName := argv.[1] in
  mqd <- sys (MqOpen mqName (O_RDONLY .| O_NONBLOCK) 0 None) ;;
  when (mqd ==? -1) (
    e <- errno ;;
    fprintf stderr "Failed to mq_open() %s - %s\n" [Str mqName; Str (strerror e)] ;;
    exit EXIT_FAILURE) ;;
  '(r, attr) <- sys (MqGetattr mqd) ;;
  when (r ==? -1) (
    e <- errno ;;
    fprintf stderr "Failed to mq_getattr() %s - %s\n" [Str mqName; Str (strerror e)] ;;
    exit EXIT_FAILURE) ;;
  buffer <- sys (Malloc (u64 (mq_msgsize attr))) ;;
  when (buffer ==? 0) (
    e <- errno ;;
    fprintf stderr "Failed to malloc() %ld bytes for msg buffer - %s\n"
      [Int (mq_msgsize attr); Str (strerror e)] ;;
    exit EXIT_FAILURE) ;;
  let '(r, blockMask) := sigemptyset in
  when (r ==? -1) (
    e <- errno ;;
    fprintf stderr "Failed to sigemptyset() block mask - %s\n" [Str (strerror e)] ;;
    exit EXIT_FAILURE) ;;
  let '(r, blockMask) := sigaddset blockMask NOTIFY_SIG in
  when (r ==? -1) (
    e <- errno ;;
    fprintf stderr "Failed to sigaddset() block mask - %s\n" [Str (strerror e)] ;;
    exit EXIT_FAILURE) ;;
  '(r, _) <- sys (Sigprocmask SIG_BLOCK (Some blockMask)) ;;
  when (r ==? -1) (
    e <- errno ;;
    fprintf stderr "Failed to sigprocmask() block mask - %s\n" [Str (strerror e)] ;;
    exit EXIT_FAILURE) ;;
  let '(r, sa_mask) := sigemptyset in
  when (r ==? -1) (
    e <- errno ;;
    fprintf stderr "Failed to sigemptyset() notification handler mask - %s\n" [Str (strerror e)] ;;
    exit EXIT_FAILURE) ;;
  r <- sys (Sigaction NOTIFY_SIG (SigFun "handler") sa_mask 0) ;;
  when (r ==? -1) (
    e <- errno ;;
    fprintf stderr "Failed to set sigaction() for notification signal - %s\n" [Str (strerror e)] ;;
    exit EXIT_FAILURE) ;;
  r <- sys (MqNotify mqd (SigevSignal NOTIFY_SIG)) ;;
  when (r ==? -1) (
    e <- errno ;;
    fprintf stderr "mq_notify() failed - %s\n" [Str (strerror e)] ;;
    exit EXIT_FAILURE) ;;
  let '(r, emptyMask) := sigemptyset in
  when (r ==? -1) (
    e <- errno ;;
    fprintf stderr "Failed to sigemptyset() suspend mask - %s\n" [Str (strerror e)] ;;
    exit EXIT_FAILURE) ;;
  ITree.iter (fun _ => serve mqd (u64 (mq_msgsize attr)) emptyMask) tt ;;
  Ret EXIT_SUCCESS.
End mq_notify_sig.

(** ** mq_notify_thread.c

    [threadFunc] runs in a thread of its own; it gets the descriptor through the
    pointer of the notification. *)
Module mq_notify_thread.
Definition notifySetup `{CText} (mqdp : Z) : prog unit :=
  r <- sys (MqNotify mqdp (SigevThread "threadFunc")) ;;
  when (r ==? -1) (
    e <- errno ;;
    fprintf stderr "mq_notify() failed - %s\n" [Str (strerror e)] ;;
    exit EXIT_FAILURE).

Definition drain `{CText} (mqdp msgsize : Z) : prog unit :=
  ITree.iter (fun _ : unit =>
    '(bytesReceived, data, _) <- sys (MqReceive mqdp msgsize) ;;
    if negb (bytesReceived !=? -1) then Ret (inr tt) else
    r <- sys (Write STDOUT_FILENO (stake bytesReceived data)) ;;
    when (r !=? bytesReceived) (
      e <- errno ;;
      fprintf stderr "Failed to write() %ld bytes - %s\n" [Int bytesReceived; Str (strerror e)] ;;
      exit EXIT_FAILURE) ;;
    sys (Write STDOUT_FILENO (format "\n" [])) ;;
    Ret (inl tt)) tt.

Definition threadFunc `{CText} (mqdp : Z) : prog unit :=
  '(r, attr) <- sys (MqGetattr mqdp) ;;
  when (r ==? -1) (
    e <- errno ;;
    fprintf stderr "mq_getattr() failed - %s\n" [Str (strerror e)] ;;
    exit EXIT_FAILURE) ;;
  buffer <- sys (Malloc (u64 (mq_msgsize attr))) ;;
  when (buffer ==? 0) (
    e <- errno ;;
    fprintf stderr "Failed to malloc() %ld bytes - %s\n" [Int (mq_msgsize attr); Str (strerror e)] ;;
    exit EXIT_FAILURE) ;;
  notifySetup mqdp ;;
  drain mqdp (u64 (mq_msgsize attr)) ;;
  e <- errno ;;
  when (e !=? EAGAIN) (
    e <- errno ;;
    fprintf stderr "mq_receive() failed - %s\n" [Str (strerror e)] ;;
    exit EXIT_FAILURE) ;;
  sys (Free buffer).

Definition main `{CText} (argv : list string) : prog Z :=
  when ((argc argv !=? 2) || streq argv.[1] "-h") (
    fprintf stderr "Usage %s <mq_name>\n" [Str argv.[0]] ;;
    exit EXIT_FAILURE) ;;
  let mqName := argv.[1] in
  mqd <- sys (MqOpen mqName (O_RDONLY .| O_NONBLOCK) 0 None) ;;
  when (mqd ==? -1) (
    e <- errno ;;
    fprintf stderr "Failed to mq_open() %s - %s\n" [Str mqName; Str (strerror e)] ;;
    exit EXIT_FAILURE) ;;
  notifySetup mqd ;;
  sys Pause ;;
  Ret EXIT_SUCCESS.
End mq_notify_thread.
