(* ===== verification/MqSpec.v ===== *)
(** * Notifications of POSIX message queues: pmsg/mq_notify_sig.c, mq_notify_thread.c

    A process is notified once, when a message arrives in an empty queue it has
    registered for. Both programs therefore register again before they empty the
    queue. [MqKernel] is what they rely on: between the calls, messages may arrive
    at any time and other processes may take some, of which there are finitely
    many. The theorems say that a round leaves no message waiting without a
    notification under way, and prints what it took in order. *)

From S2P Require Import Prelude.
From S2P Require Import CLib.
From S2P Require Import Sys.
From S2P Require Import Sem.
From S2P Require Import Mq.

(** A queue with its messages in the order they will be received, whether the
    process is registered, whether a notification is under way, the messages the
    process has received, and how many messages are still to come. *)
Record mqv := Mqv {
  q_msgs : list string; q_reg : bool; q_pending : bool; q_taken : list string; q_to_come : nat }.

(** What others do: a message arrives, and its priority decides its place; or
    another process takes a message. *)
Inductive others : mqv -> mqv -> Prop :=
| others_none v : others v v
| others_send a m b reg p t n v :
    others (if reg && (match a ++ b with [] => true | _ => false end)
            then Mqv (a ++ m :: b) false true t n else Mqv (a ++ m :: b) reg p t n) v ->
    others (Mqv (a ++ b) reg p t (S n)) v
| others_take m b reg p t n v :
    others (Mqv b reg p t n) v -> others (Mqv (m :: b) reg p t n) v.

(** The effect of a call in a moment between these, with its answer and the error
    it sets. *)
Definition mq_effect (mqd : Z) {X} (s : SysE X) : X -> option Z -> mqv -> mqv -> Prop :=
  match s in SysE X return X -> option Z -> mqv -> mqv -> Prop with
  | MqReceive d size => fun '(r, data, _) e v v' => d = mqd ->
      (r = -1 /\ v' = v /\ e <> None /\ (e = Some EAGAIN -> q_msgs v = [])) \/
      (exists rest, q_msgs v = data :: rest /\ r = slen data /\
         v' = Mqv rest (q_reg v) (q_pending v) (q_taken v ++ [data]) (q_to_come v))
  | MqNotify d _ => fun r _ v v' => d = mqd ->
      (r = -1 /\ v' = v) \/
      (r <> -1 /\ v' = Mqv (q_msgs v) true (q_pending v) (q_taken v) (q_to_come v))
  | Sigsuspend _ => fun _ _ v v' =>
      v' = v \/ v' = Mqv (q_msgs v) (q_reg v) false (q_taken v) (q_to_come v)
  | Write _ _ | MqGetattr _ | Malloc _ | Free _ => fun _ _ v v' => v' = v
  | _ => fun _ _ _ _ => True
  end.

Class MqKernel `{K : Kernel} (mqd : Z) := {
  mq_view : kstate -> mqv;
  mq_law : forall X (s : SysE X) k, exists v1 v2,
    others (mq_view k) v1 /\
    mq_effect mqd s (kcall s k).1.1 (kcall s k).1.2 v1 v2 /\
    others v2 (mq_view (kcall s k).2) }.

(** A notification will come, or is under way. *)
Definition armed (v : mqv) : Prop := q_reg v = true \/ q_pending v = true.

(** No message waits without a notification under way. *)
Definition watched (v : mqv) : Prop := armed v /\ (q_msgs v <> [] -> q_pending v = true).

(** Messages that are there or still to come. *)
Definition outstanding (v : mqv) : nat := length (q_msgs v) + q_to_come v.

(** The texts a log hands to the standard output by [write], and the messages as
    the programs print them. *)
Definition out_of (ev : event) : list string :=
  match ev with
  | ECall (Write fd data) _ => if fd ==? STDOUT_FILENO then [data] else []
  | _ => []
  end.
Definition outputs (l : list event) : list string := flat_map out_of l.
Definition lines (ms : list string) : list string := flat_map (fun m => [m; format "\n" []]) ms.

(** ** What the others keep *)
Lemma others_armed v v' : others v v' -> armed v -> armed v'.
Proof.
  induction 1 as [v|a m b reg p t n v H IH|m b reg p t n v H IH]; [done| |]; intros Ha; apply IH;
    unfold armed in *; cbn in *; [|done].
  destruct reg, (a ++ b); cbn; auto.
Qed.

Lemma others_watched v v' : others v v' -> watched v -> watched v'.
Proof.
  induction 1 as [v|a m b reg p t n v H IH|m b reg p t n v H IH]; [done| |]; intros [Ha Hw]; apply IH;
    unfold watched, armed in *; cbn in *.
  - destruct (a ++ b) eqn:E; cbn in *.
    + rewrite andb_true_r. destruct reg; cbn; [by auto|].
      destruct Ha as [|Ha]; [done|]. by rewrite Ha; auto.
    + rewrite andb_false_r. cbn. split; [done|]. intros _. by apply Hw.
  - split; [done|]. intros _. by apply Hw.
Qed.

Lemma others_taken v v' : others v v' -> q_taken v' = q_taken v.
Proof.
  induction 1 as [v|a m b reg p t n v H IH|m b reg p t n v H IH]; [done| |]; rewrite IH; [|done].
  by destruct (reg && _).
Qed.

Lemma others_outstanding v v' : others v v' -> (outstanding v' <= outstanding v)%nat.
Proof.
  induction 1 as [v|a m b reg p t n v H IH|m b reg p t n v H IH]; [done| |]; unfold outstanding in *;
    (etrans; [exact IH|]); [|cbn; lia].
  destruct (reg && _); cbn; rewrite !length_app; cbn; lia.
Qed.

Lemma outputs_app l l' : outputs (l ++ l') = outputs l ++ outputs l'.
Proof. apply flat_map_app. Qed.

Lemma lines_app l l' : lines (l ++ l') = lines l ++ lines l'.
Proof. apply flat_map_app. Qed.

(** ** The programs *)
Section Rounds.
Context `{T : CText} `{MK : MqKernel}.

Definition mqs (st : St) : mqv := mq_view (s_kern st).

Lemma mq_sys {X} (s : SysE X) (Q : res X -> St -> Prop) st :
  (forall x e v1 v2 st', others (mqs st) v1 -> mq_effect mqd s x e v1 v2 -> others v2 (mqs st') ->
     s_log st' = s_log st ++ [ECall s x] -> s_errno st' = default (s_errno st) e ->
     Q (Returned x) st') ->
  wp (sys s) Q st.
Proof.
  intros HQ. apply wp_sys. destruct (mq_law X s (s_kern st)) as (v1 & v2 & H1 & He & H2).
  eapply HQ; [exact H1|exact He| |apply s_log_after|apply s_errno_after].
  unfold mqs. by rewrite s_kern_after.
Qed.

(** Since the state [st0], the messages received are those printed, in order. *)
Definition printed_taken (st0 st : St) : Prop :=
  exists ms l, s_log st = s_log st0 ++ l /\ q_taken (mqs st) = q_taken (mqs st0) ++ ms /\
    outputs l = lines ms.

Lemma printed_taken_refl st : printed_taken st st.
Proof. exists [], []. by rewrite !app_nil_r. Qed.

(** The others do not print in the name of the process. *)
Lemma printed_taken_quiet st0 st ms l evs st' :
  s_log st = s_log st0 ++ l -> q_taken (mqs st) = q_taken (mqs st0) ++ ms -> outputs l = lines ms ->
  s_log st' = s_log st ++ evs -> outputs evs = [] -> q_taken (mqs st') = q_taken (mqs st) ->
  printed_taken st0 st'.
Proof.
  intros Hl Ht Ho Hl' Ho' Ht'. exists ms, (l ++ evs).
  by rewrite Hl', Hl, Ht', Ht, outputs_app, Ho, Ho', app_assoc, app_nil_r.
Qed.

(** The loop that empties the queue, with the text of its error message. *)
Definition drain_with (fmt : string) (size : Z) : prog unit :=
  ITree.iter (fun _ : unit =>
    '(bytesReceived, data, _) <- sys (MqReceive mqd size) ;;
    if negb (bytesReceived !=? -1) then Ret (inr tt) else
    r <- sys (Write STDOUT_FILENO (stake bytesReceived data)) ;;
    when (r !=? bytesReceived) (
      e <- errno ;;
      fprintf stderr fmt [Int bytesReceived; Str (strerror e)] ;;
      exit EXIT_FAILURE) ;;
    sys (Write STDOUT_FILENO (format "\n" [])) ;;
    Ret (inl tt)) tt.

(** It ends; when nothing is left to receive, the queue is watched. *)
Lemma drain_run fmt size st0 st :
  armed (mqs st) -> printed_taken st0 st ->
  wp (drain_with fmt size) (fun r st' => match r with
    | Returned _ => (s_errno st' = EAGAIN -> watched (mqs st')) /\ printed_taken st0 st'
    | Stopped s => s = Exited EXIT_FAILURE
    end) st.
Proof.
  intros Ha Hp. unfold drain_with.
  apply (wp_iter_measure _ (fun _ st' => armed (mqs st') /\ printed_taken st0 st')
    (fun _ st' => outstanding (mqs st'))); [|done].
  clear st Ha Hp. intros [] st (Ha & ms & l & Hl & Ht & Ho).
  wp_run1. apply mq_sys. intros [[r data] pr] e v1 v2 st1 Hv1 Heff Hv2 Hl1 He1. cbn in Heff.
  apply (others_armed _ _ Hv1) in Ha. pose proof (others_outstanding _ _ Hv1) as Hout.
  apply others_taken in Hv1. pose proof (others_taken _ _ Hv2) as Ht1.
  destruct (Heff eq_refl) as [(-> & -> & Hne & Hempty)|(rest & Hq & -> & ->)]; clear Heff.
  - apply wp_ret. split.
    + intros Herr. apply (others_watched _ _ Hv2). split; [done|]. intros Hm. destruct Hm. apply Hempty.
      destruct e; [|done]. by rewrite He1 in Herr; cbn in Herr; subst.
    + eapply printed_taken_quiet; [exact Hl|exact Ht|exact Ho|exact Hl1|done|congruence].
  - pose proof (slen_nonneg data). destruct (Z.eqb_spec (slen data) (-1)); [lia|]. cbn [negb].
    rewrite stake_all by lia.
    wp_run1. apply mq_sys. intros r e' w1 w2 st2 Hw1 -> Hw2 Hl2 _.
    apply wp_bind, wp_when; intros _; [by wp_steps|].
    wp_run1. apply mq_sys. intros r' e'' u1 u2 st3 Hu1 -> Hu2 Hl3 _. apply wp_ret.
    pose proof (others_outstanding _ _ Hv2). pose proof (others_outstanding _ _ Hw1).
    pose proof (others_outstanding _ _ Hw2). pose proof (others_outstanding _ _ Hu1).
    pose proof (others_outstanding _ _ Hu2).
    split; [split|].
    + do 5 (eapply others_armed; [eassumption|]). exact Ha.
    + exists (ms ++ [data]), (l ++ [ECall (MqReceive mqd size) (slen data, data, pr);
        ECall (Write STDOUT_FILENO data) r; ECall (Write STDOUT_FILENO (format "\n" [])) r']).
      split; [rewrite Hl3, Hl2, Hl1, Hl, <- !app_assoc; reflexivity|].
      rewrite outputs_app, lines_app, Ho. split; [|reflexivity].
      rewrite (others_taken _ _ Hu2), (others_taken _ _ Hu1), (others_taken _ _ Hw2),
        (others_taken _ _ Hw1), Ht1. cbn. by rewrite Hv1, Ht, <- app_assoc.
    + unfold outstanding in *. rewrite Hq in Hout. cbn in *. lia.
Qed.

(** Once a registration has succeeded the queue is armed. *)
Lemma notify_run sev st0 st (Q : res Z -> St -> Prop) :
  printed_taken st0 st ->
  (forall r st', (r <> -1 -> armed (mqs st')) -> printed_taken st0 st' -> Q (Returned r) st') ->
  wp (sys (MqNotify mqd sev)) Q st.
Proof.
  intros (ms & l & Hl & Ht & Ho) HQ. apply mq_sys. intros r e v1 v2 st1 Hv1 Heff Hv2 Hl1 _.
  specialize (Heff eq_refl). apply HQ.
  - intros Hr. apply (others_armed _ _ Hv2). destruct Heff as [[? _]|[_ ->]]; [done|]. by left.
  - eapply printed_taken_quiet; [exact Hl|exact Ht|exact Ho|exact Hl1|done|].
    rewrite (others_taken _ _ Hv2), <- (others_taken _ _ Hv1). by destruct Heff as [[_ ->]|[_ ->]].
Qed.

(** The other calls of the programs neither take nor print. *)
Lemma quiet_run {X} (s : SysE X) st0 st (Q : res X -> St -> Prop) :
  (forall x e v v', mq_effect mqd s x e v v' -> q_taken v' = q_taken v /\ out_of (ECall s x) = []) ->
  printed_taken st0 st ->
  (forall x st', printed_taken st0 st' -> Q (Returned x) st') ->
  wp (sys s) Q st.
Proof.
  intros Hs (ms & l & Hl & Ht & Ho) HQ. apply mq_sys. intros x e v1 v2 st1 Hv1 Heff Hv2 Hl1 _.
  destruct (Hs _ _ _ _ Heff) as [Htk Hq]. apply HQ.
  eapply printed_taken_quiet; [exact Hl|exact Ht|exact Ho|exact Hl1| |].
  - unfold outputs. cbn [flat_map]. by rewrite Hq.
  - by rewrite (others_taken _ _ Hv2), Htk, (others_taken _ _ Hv1).
Qed.
(** The end of a round: the queue is emptied, and only then is its error tested. *)
Lemma drain_checked {R} fmt msg size (k : prog R) st0 st (Q : res R -> St -> Prop) :
  armed (mqs st) -> printed_taken st0 st -> (forall s st', s = Exited EXIT_FAILURE -> Q (Stopped s) st') ->
  (forall st', watched (mqs st') -> printed_taken st0 st' -> wp k Q st') ->
  wp (drain_with fmt size ;;
      e <- errno ;;
      when (e !=? EAGAIN) (
        e <- errno ;;
        fprintf stderr msg [Str (strerror e)] ;;
        exit EXIT_FAILURE) ;;
      k) Q st.
Proof.
  intros Ha Hp Hs Hk. wp_run1. eapply wp_mono; [by apply drain_run|].
  intros [[]|s] st1; [|by apply Hs]. intros [Hw Hp1]. do 3 wp_run1. apply wp_when; intros Hb.
  - wp_steps. by apply Hs.
  - bool_props. apply Hk; auto.
Qed.

Lemma serve_run size emptyMask st0 st :
  printed_taken st0 st ->
  wp (mq_notify_sig.serve mqd size emptyMask) (fun r st' =>
    match r with
    | Returned (inl _) => watched (mqs st') /\ printed_taken st0 st'
    | Returned (inr _) => False
    | Stopped s => s = Exited EXIT_FAILURE
    end) st.
Proof.
  intros Hp. unfold mq_notify_sig.serve.
  wp_run1. apply (quiet_run _ st0); [|done|].
  { intros x e v v' [->| ->]; done. }
  intros x st1 Hp1. cbv beta iota. wp_run1.
  match goal with |- wp ?t ?Q _ => apply (wp_mono t (fun r st' => match r with
      | Returned _ => printed_taken st0 st' | Stopped s => s = Exited EXIT_FAILURE end)) end.
  { wp_go; done. }
  clear x st1 Hp1. intros [[]|s] st1; [|done]. intros Hp1. cbv beta iota.
  wp_run1. apply (notify_run _ st0); [done|]. intros r st2 Ha Hp2. cbv beta iota.
  wp_run1. apply wp_when; intros Hr; [by wp_steps|]. bool_props.
  change (mq_notify_sig.drain mqd size) with
    (drain_with "Failed to write %ld bytes - %s\n" size).
  apply (drain_checked _ _ _ _ st0); [by apply Ha|done|by intros ? ? ->|].
  intros st3 Hw Hp3. by wp_steps.
Qed.

Lemma threadFunc_run st0 st :
  printed_taken st0 st ->
  wp (mq_notify_thread.threadFunc mqd) (fun r st' =>
    match r with
    | Returned _ => watched (mqs st') /\ printed_taken st0 st'
    | Stopped s => s = Exited EXIT_FAILURE
    end) st.
Proof.
  intros Hp. unfold mq_notify_thread.threadFunc, mq_notify_thread.notifySetup.
  wp_run1. apply (quiet_run _ st0); [by intros ? ? ? ? ->|done|]. intros [r attr] st1 Hp1. cbv beta iota.
  wp_run1. apply wp_when; intros _; [by wp_steps|].
  wp_run1. apply (quiet_run _ st0); [by intros ? ? ? ? ->|done|]. intros buffer st2 Hp2. cbv beta iota.
  wp_run1. apply wp_when; intros _; [by wp_steps|].
  do 2 wp_run1. apply (notify_run _ st0); [done|]. intros r' st3 Ha Hp3. cbv beta iota.
  apply wp_when; intros Hr; [by wp_steps|]. bool_props.
  change (mq_notify_thread.drain mqd ?n) with (drain_with "Failed to write() %ld bytes - %s\n" n).
  apply (drain_checked _ _ _ _ st0); [by apply Ha|done|by intros ? ? ->|].
  intros st4 Hw Hp4. apply mq_sys. intros x e v1 v2 st5 Hv1 -> Hv2 Hl _. split.
  - by apply (others_watched _ _ Hv2), (others_watched _ _ Hv1).
  - destruct Hp4 as (ms & l & Hl4 & Ht4 & Ho4).
    eapply printed_taken_quiet; [exact Hl4|exact Ht4|exact Ho4|exact Hl|done|].
    by rewrite (others_taken _ _ Hv2), (others_taken _ _ Hv1).
Qed.
End Rounds.

(** C8: The process that is told by a signal. After any number of rounds of its
    loop what it has printed are the messages it has received, in order and each
    on a line. After at least one round, when it goes back to wait, the queue is
    watched: a message that has arrived in the meantime, even after the queue was found
    empty, has a notification under way. (Before the first round it need not be: the
    queue is not emptied after the first registration.) Every round ends, and goes back
    to wait or stops with status 1. *)
Theorem mq_notify_sig_watches `{CText} `{MqKernel} size emptyMask n st st1 :
  let body (_ : unit) := mq_notify_sig.serve mqd size emptyMask in
  rounds body n tt st tt st1 ->
  printed_taken st st1 /\ (n <> 0%nat -> watched (mqs st1)) /\
  wp (body tt) (fun r st' => match r with
    | Returned (inl _) => watched (mqs st')
    | Returned (inr _) => False
    | Stopped s => s = Exited EXIT_FAILURE
    end) st1.
Proof.
  intros body Hr.
  assert (printed_taken st st1 /\ (n <> 0%nat -> watched (mqs st1))) as [Hp Hw].
  { refine (rounds_inv body (fun j _ st2 => printed_taken st st2 /\ (j <> 0%nat -> watched (mqs st2)))
      _ n 0%nat tt st tt st1 _ Hr); [|split; [apply printed_taken_refl|done]].
    intros j [] st2 [Hp _]. eapply wp_mono; [by apply serve_run|].
    intros [[[]|[]]|s] st3; [|done|done]. by intros [? ?]. }
  split; [done|]. split; [done|]. eapply wp_mono; [by apply serve_run|].
  intros [[[]|[]]|s] st3; [|done|done]. by intros [? ?].
Qed.

(** C21: The thread that is started for a notification registers for the next one,
    prints the messages it receives, in order and each on a line, and ends with
    the queue watched, or stops with status 1. *)
Theorem mq_notify_thread_watches `{CText} `{MqKernel} st :
  wp (mq_notify_thread.threadFunc mqd) (fun r st' =>
    match r with
    | Returned _ => watched (mqs st') /\ printed_taken st st'
    | Stopped s => s = Exited EXIT_FAILURE
    end) st.
Proof. apply threadFunc_run, printed_taken_refl. Qed.

(** ** A kernel

    The queue is descriptor 5. The next of the messages to come arrives when the
    process waits, and once more right after it has found the queue empty. *)
Definition send1 (v : mqv) : mqv :=
  match q_to_come v with
  | O => v
  | S n =>
      if q_reg v && (match q_msgs v ++ [] with [] => true | _ => false end)
      then Mqv (q_msgs v ++ ["news"]) false true (q_taken v) n
      else Mqv (q_msgs v ++ ["news"]) (q_reg v) (q_pending v) (q_taken v) n
  end.

Definition queue_kernel : Kernel := {|
  kstate := mqv;
  kcall X (s : SysE X) v :=
    match s in SysE X return X * option Z * mqv with
    | MqReceive mqd _ =>
        if mqd !=? 5 then (-1, "", 0, Some EPERM, v) else
        match q_msgs v with
        | [] => (-1, "", 0, Some EAGAIN, send1 v)
        | m :: rest => (slen m, m, 0, None, Mqv rest (q_reg v) (q_pending v) (q_taken v ++ [m]) (q_to_come v))
        end
    | MqNotify mqd _ =>
        if mqd !=? 5 then (-1, Some EPERM, v) else
        (0, None, Mqv (q_msgs v) true (q_pending v) (q_taken v) (q_to_come v))
    | MqGetattr _ => (0, MqAttr 0 10 8192 (Z.of_nat (length (q_msgs v))), None, v)
    | Malloc _ => (4096, None, v)
    | Sigsuspend _ =>
        let v := send1 v in
        (-1, Some EINTR, Mqv (q_msgs v) (q_reg v) false (q_taken v) (q_to_come v))
    | Write _ data => (slen data, None, v)
    | s => (refuse s, None, v)
    end |}.

Lemma others_send1 v : others v (send1 v).
Proof.
  destruct v as [q reg p t [|n]]; [constructor|]. unfold send1. cbn [q_msgs q_reg q_pending q_taken q_to_come].
  rewrite <- (app_nil_r q) at 1. apply (others_send q "news" []). destruct (reg && _); constructor.
Qed.

Lemma queue_kernel_law X (s : SysE X) (v : mqv) : exists v1 v2,
  others v v1 /\
  mq_effect 5 s (@kcall queue_kernel X s v).1.1 (@kcall queue_kernel X s v).1.2 v1 v2 /\
  others v2 (@kcall queue_kernel X s v).2.
Proof.
  destruct s; try (exists v, v; split; [constructor|]; split; [done|]; cbn; constructor).
  - eexists (send1 v), _. split; [apply others_send1|]. split; [right; reflexivity|constructor].
  - destruct (Z.eqb_spec mqd 5) as [->|Hne]; cbn.
    + destruct (q_msgs v) as [|m rest] eqn:E; eexists v, _; (split; [constructor|]).
      * split; [intros _; left; by rewrite E|apply others_send1].
      * split; [intros _; right; by exists rest|constructor].
    + exists v, v. rewrite (proj2 (Z.eqb_neq _ _) Hne). cbn. split; [constructor|]. by split; [|constructor].
  - destruct (Z.eqb_spec mqd 5) as [->|Hne]; cbn; eexists v, _; (split; [constructor|]).
    + split; [by right|constructor].
    + rewrite (proj2 (Z.eqb_neq _ _) Hne). cbn. by split; [|constructor].
Qed.

Definition queue_five : MqKernel (K := queue_kernel) 5 :=
  {| mq_view := fun v : @kstate queue_kernel => v; mq_law := queue_kernel_law |}.

(** Registered for an empty queue; two messages will come. *)
Definition two_to_come : @St queue_kernel := @mkSt queue_kernel 0 [] (Mqv [] true false [] 2).

Lemma mq_notify_sig_watches_witness :
  let _ := plain_text in let _ := queue_five in
  exists st1 : @St queue_kernel,
    printed_taken two_to_come st1 /\ (2%nat <> 0%nat -> watched (mqs st1)) /\
    wp (mq_notify_sig.serve 5 8192 0) (fun r st' => match r with
      | Returned (inl _) => watched (mqs st')
      | Returned (inr _) => False
      | Stopped s => s = Exited EXIT_FAILURE
      end) st1.
Proof.
  intros T MK.
  destruct (run_rounds_rounds 100 (fun _ : unit => mq_notify_sig.serve 5 8192 0) 2 tt two_to_come tt
              ltac:(vm_compute; reflexivity)) as [st1 Hr].
  exists st1. exact (@mq_notify_sig_watches plain_text queue_kernel 5 queue_five 8192 0 2 two_to_come st1 Hr).
Defined.

(** The run is the one meant: both messages have been received. *)
Example two_rounds_take :
  let _ := plain_text in
  let _ := queue_five in
  option_map (fun '(_, st) => (q_taken (mqs st), outputs (s_log st)))
    (run_rounds 100 (fun _ : unit => mq_notify_sig.serve 5 8192 0) 2 tt two_to_come) =
  Some (["news"; "news"], lines ["news"; "news"]).
Proof. vm_compute. reflexivity. Qed.

Lemma mq_notify_thread_watches_witness :
  let _ := plain_text in let _ := queue_five in
  wp (mq_notify_thread.threadFunc 5) (fun r st' =>
    match r with
    | Returned _ => watched (mqs st') /\ printed_taken two_to_come st'
    | Stopped s => s = Exited EXIT_FAILURE
    end) two_to_come.
Proof. exact (@mq_notify_thread_watches plain_text queue_kernel 5 queue_five two_to_come). Defined.
