(* ===== verification/Locks.v ===== *)
(** * File locks: filelock/ *)

From S2P Require Import Prelude.
From S2P Require Import CLib.
From S2P Require Import Sys.
From S2P Require Import Sem.

(** ** t_flock.c *)
Module t_flock.
Definition LOCK_SH : Z := 1.
Definition LOCK_EX : Z := 2.
Definition LOCK_NB : Z := 4.
Definition LOCK_UN : Z := 8.

Definition printUsage (program : string) : prog unit :=
  fprintf stderr "Usage: %s <file> <lock> [<secs>]\n" [Str program] ;;
  fprintf stderr "    <lock> - 's' (shared) or 'x' (exclusive)\n" [] ;;
  fprintf stderr "             optionally followed by 'n' (nonblocking)\n" [] ;;
  fprintf stderr "    <secs> - seconds to hold the lock\n" [].

Definition getLong `{CText} (str : string) : prog Z :=
  set_errno 0 ;;
  result <- strtol str 0 ;;
  e <- errno ;;
  when ((e !=? 0) && negb (streq (st_end result) "")) (
    e <- errno ;;
    fprintf stderr "Failed to convert strtol() %s - %s\n" [Str str; Str (strerror e)] ;;
    exit EXIT_FAILURE) ;;
  Ret (st_val result).

Definition main `{CText} (argv : list string) : prog Z :=
  when ((argc argv <? 3) || streq argv.[1] "-h") (printUsage argv.[0] ;; exit EXIT_FAILURE) ;;
  let pathname := argv.[1] in
  op <- (let c := snth 0 argv.[2] in
         if c ==c "s" then Ret LOCK_SH
         else if c ==c "x" then Ret LOCK_EX
         else printUsage argv.[0] ;; exit EXIT_FAILURE) ;;
  let opArgLength := slen argv.[2] in
  op <- (if opArgLength ==? 2 then
           if snth 1 argv.[2] ==c "n" then Ret (op .| LOCK_NB)
           else printUsage argv.[0] ;; exit EXIT_FAILURE
         else if 2 <? opArgLength then printUsage argv.[0] ;; exit EXIT_FAILURE
         else Ret op) ;;
  fd <- sys (Open pathname O_RDONLY 0) ;;
  when (fd ==? -1) (
    e <- errno ;;
    fprintf stderr "Failed to open() %s - %s\n" [Str pathname; Str (strerror e)] ;;
    exit EXIT_FAILURE) ;;
  let lockName := if has_bit op LOCK_SH then "LOCK_SH" else "LOCK_EX" in
  p <- sys Getpid ;;
  printf "PID %ld: requesting %s at %s\n" [Int p; Str lockName; Str pathname] ;;
  r <- sys (FlockFd fd op) ;;
  when (r ==? -1) (
    e <- errno ;;
    (if e ==? EWOULDBLOCK then
       p <- sys Getpid ;;
       fprintf stderr "PID %ld: already locked - bye!\n" [Int p]
     else
       e <- errno ;;
       fprintf stderr "Failed to flock() %s at %s - %s\n" [Str lockName; Str pathname; Str (strerror e)]) ;;
    exit EXIT_FAILURE) ;;
  p <- sys Getpid ;;
  printf "PID %ld: granted %s at %s\n" [Int p; Str lockName; Str pathname] ;;
  secs <- (if 3 <? argc argv then getLong argv.[3] else Ret 10) ;;
  sys (Sleep (u32 secs)) ;;
  p <- sys Getpid ;;
  printf "PID %ld: releasing %s at %s\n" [Int p; Str lockName; Str pathname] ;;
  r <- sys (FlockFd fd LOCK_UN) ;;
  when (r ==? -1) (
    e <- errno ;;
    fprintf stderr "Failed to unlock flock() at %s - %s\n" [Str pathname; Str (strerror e)] ;;
    exit EXIT_FAILURE) ;;
  Ret EXIT_SUCCESS.
End t_flock.

(** ** i_fcntl_locking.c

    [l_pid0] is the indeterminate value of the field the program leaves unset. *)
Module i_fcntl_locking.
Definition MAX_LINE : Z := 100.
Definition F_GETLK : Z := 5.
Definition F_SETLK : Z := 6.
Definition F_SETLKW : Z := 7.
Definition F_RDLCK : Z := 0.
Definition F_WRLCK : Z := 1.
Definition F_UNLCK : Z := 2.

Definition printCmdFormat : prog unit :=
  printf "\n    Format: <cmd> <lock> <start> <length> [<whence>]\n" [] ;;
  printf "    <cmd>    - g (GETLK) | s (SETLK) | w (SETLKW)\n" [] ;;
  printf "    <lock>   - r (READ) | w (WRITE) | u (UNLOCK)\n" [] ;;
  printf "    <whence> - s (SEEK_SET, default) | c (SEEK_CUR) | e (SEEK_END)\n\n" [].

(** [sscanf (line, "%c %c %lld %lld %c", ..)]: the converted values when there are
    at least four; the fifth keeps its initial value ['s'] when it is missing. *)
Definition scan_command (line : string) : option (ascii * ascii * Z * Z * ascii) :=
  match line with
  | EmptyString => None
  | String cmdCh rest =>
      match skip_space rest with
      | EmptyString => None
      | String lock rest =>
          let start := strtol_ rest 10 in
          let length := strtol_ (st_end start) 10 in
          if st_conv start && st_conv length then
            Some (cmdCh, lock, st_val start, st_val length,
                  match skip_space (st_end length) with String w _ => w | EmptyString => "s"%char end)
          else None
      end
  end.

(** The command a line stands for: the arguments of [fcntl]. *)
Definition parse_command (l_pid0 : Z) (line : string) : option (Z * flock_t) :=
  match scan_command line with
  | None => None
  | Some (cmdCh, lock, start, length, whence) =>
      if negb (strchr "gsw" cmdCh) || negb (strchr "rwu" lock) || negb (strchr "sce" whence) then None
      else
        let cmd := if cmdCh ==c "g" then F_GETLK else if cmdCh ==c "s" then F_SETLK else F_SETLKW in
        let type := if lock ==c "r" then F_RDLCK else if lock ==c "w" then F_WRLCK else F_UNLCK in
        let whence := if whence ==c "s" then SEEK_SET else if whence ==c "c" then SEEK_CUR else SEEK_END in
        Some (cmd, Flock type whence start length l_pid0)
  end.

(** What the program does with a command. *)
Definition execute `{CText} (fd cmd : Z) (fl : flock_t) : prog unit :=
  '(status, fl) <- sys (FcntlLock fd cmd fl) ;;
  if cmd ==? F_GETLK then
    when (status ==? -1) (
      e <- errno ;;
      fprintf stderr "Failed to fcntl() F_GETLK - %s\n" [Str (strerror e)] ;;
      exit EXIT_FAILURE) ;;
    if l_type fl ==? F_UNLCK then
      p <- sys Getpid ;;
      printf "[PID=%ld] Lock can be placed\n" [Int p]
    else
      p <- sys Getpid ;;
      printf "[PID=%ld] Denied by %s lock on %lld:%lld (held by PID %ld)\n"
        [Int p; Str (if l_type fl ==? F_RDLCK then "READ" else "WRITE");
         Int (l_start fl); Int (l_len fl); Int (l_pid fl)]
  else if status ==? 0 then
    p <- sys Getpid ;;
    printf "[PID=%ld] %s\n" [Int p; Str (if l_type fl ==? F_UNLCK then "unlocked" else "got lock")]
  else
    e <- errno ;;
    if (e ==? EAGAIN) || (e ==? EACCES) then
      p <- sys Getpid ;;
      printf "[PID=%ld] failed (incompatible lock)\n" [Int p]
    else if e ==? EDEADLK then
      p <- sys Getpid ;;
      printf "[PID=%ld] failed (deadlock)\n" [Int p]
    else
      e <- errno ;;
      fprintf stderr "Failed to fcntl() F_SETLK(W) - %s\n" [Str (strerror e)] ;;
      exit EXIT_FAILURE.

(** One iteration of the loop; [inr] is its [break]. *)
Definition prompt `{CText} (l_pid0 fd : Z) : prog (unit + unit) :=
  p <- sys Getpid ;;
  printf "PID=%ld> " [Int p] ;;
  fflush stdout ;;
  input <- sys (Fgets MAX_LINE) ;;
  match input with
  | None => Ret (inr tt)
  | Some input =>
      let line := stake (slen (cstr input) - 1) (cstr input) in
      if streq line "" then Ret (inl tt)
      else if snth 0 line ==c "?" then printCmdFormat ;; Ret (inl tt)
      else match parse_command l_pid0 line with
           | None => printf "Invalid command!\n" [] ;; Ret (inl tt)
           | Some (cmd, fl) => execute fd cmd fl ;; Ret (inl tt)
           end
  end.

Definition main `{CText} (l_pid0 : Z) (argv : list string) : prog Z :=
  when ((argc argv !=? 2) || streq argv.[1] "-h") (
    fprintf stderr "Usage: %s <pathname>\n" [Str argv.[0]] ;;
    exit EXIT_FAILURE) ;;
  let pathname := argv.[1] in
  fd <- sys (Open pathname O_RDWR 0) ;;
  when (fd ==? -1) (
    e <- errno ;;
    fprintf stderr "Failed to open() %s - %s\n" [Str pathname; Str (strerror e)] ;;
    exit EXIT_FAILURE) ;;
  printf "Enter ? for help\n" [] ;;
  ITree.iter (fun _ => prompt l_pid0 fd) tt ;;
  Ret EXIT_SUCCESS.
End i_fcntl_locking.
