(* ===== verification/Sockets.v ===== *)
(** * Sockets: sockets/ *)

From S2P Require Import Prelude.
From S2P Require Import CLib.
From S2P Require Import Sys.
From S2P Require Import Sem.
From S2P Require Import StreamSpec.
From S2P Require Import SeqSpec.

Definition AF_UNSPEC : Z := 0.
Definition AF_UNIX : Z := 1.
Definition AF_INET6 : Z := 10.
Definition SOCK_STREAM : Z := 1.
Definition SOCK_DGRAM : Z := 2.
Definition SOL_SOCKET : Z := 1.
Definition SO_REUSEADDR : Z := 2.
Definition AI_PASSIVE : Z := 1.
Definition AI_NUMERICSERV : Z := 1024.
Definition EAI_SYSTEM : Z := -11.
Definition NI_MAXHOST : Z := 1025.
Definition NI_MAXSERV : Z := 32.

(** ** Socket addresses

    The bytes of a [struct sockaddr_un]: the family and 108 bytes of path. *)
Definition sizeof_sun_path : Z := 108.
Definition family_bytes (family : Z) : string := String (chr family) (String (chr (Z.shiftr family 8)) "").
Definition sockaddr_un (sun_path : string) : string := family_bytes AF_UNIX +:+ sun_path.
Definition sun_path0 : string := srepeat 108 nul.
Definition sun_path (addr : string) : string := sdrop 2 addr.

(** The bytes of a [struct sockaddr_in6]: family, port in network order, flow
    information, the 16 bytes of the address, scope. *)
Definition sockaddr_in6 (port : Z) (sin6_addr : string) : string :=
  family_bytes AF_INET6 +:+ String (chr (Z.shiftr port 8)) (String (chr port) "") +:+
  srepeat 4 nul +:+ sin6_addr +:+ srepeat 4 nul.
Definition sin6_port (addr : string) : Z := ord (snth 2 addr) * 256 + ord (snth 3 addr).
Definition sin6_addr (addr : string) : string := stake 16 (sdrop 8 addr).
Definition in6addr_any : string := srepeat 16 nul.

(** [for (i = 0; i < numBytes; ++i) buffer[i] = toupper (buffer[i]);] *)
Definition upcase (numBytes : Z) (buffer : string) : string :=
  fold_left (fun buffer i => supd (Z.of_nat i) (toupper (snth (Z.of_nat i) buffer)) buffer)
    (seq 0 (Z.to_nat numBytes)) buffer.

(** ** i6d_ucase_sv.c *)
Module i6d_ucase_sv.
Definition SERVER_PORT : Z := 50002.
Definition BUFFER_SIZE : Z := 10.

(** One iteration of the server's loop; the variable is [buffer]. *)
Definition serve `{CText} (socketFd : Z) (buffer : string) : prog (string + unit) :=
  '(numBytes, data, clientAddr) <- sys (Recvfrom socketFd BUFFER_SIZE) ;;
  when (numBytes ==? -1) (
    e <- errno ;;
    fprintf stderr "Failed to recvfrom() socket port %d - %s\n" [Int SERVER_PORT; Str (strerror e)] ;;
    exit EXIT_FAILURE) ;;
  let buffer := overlay data buffer in
  clientAddrStr <- sys (InetNtop AF_INET6 (sin6_addr clientAddr)) ;;
  match clientAddrStr with
  | None =>
      e <- errno ;;
      printf "Failed to convert client address to string - %s\n" [Str (strerror e)]
  | Some clientAddrStr =>
      printf "Server received %ld bytes from (%s, %u)\n"
        [Int numBytes; Str clientAddrStr; Int (sin6_port clientAddr)]
  end ;;
  let buffer := upcase numBytes buffer in
  r <- sys (Sendto socketFd (stake numBytes buffer) clientAddr) ;;
  when (r !=? numBytes) (
    e <- errno ;;
    fprintf stderr "Failed to sendto() client %ld bytes - %s\n" [Int numBytes; Str (strerror e)] ;;
    exit EXIT_FAILURE) ;;
  Ret (inl buffer).

Definition main `{CText} (buffer0 : string) (argv : list string) : prog Z :=
  socketFd <- sys (Socket AF_INET6 SOCK_DGRAM) ;;
  when (socketFd ==? -1) (
    e <- errno ;;
    fprintf stderr "Failed to create AF_INET6 SOCK_DGRAM socket() - %s\n" [Str (strerror e)] ;;
    exit EXIT_FAILURE) ;;
  r <- sys (Bind socketFd (sockaddr_in6 SERVER_PORT in6addr_any)) ;;
  when (r ==? -1) (
    e <- errno ;;
    fprintf stderr "Failed to bind() socket to port %d - %s\n" [Int SERVER_PORT; Str (strerror e)] ;;
    exit EXIT_FAILURE) ;;
  ITree.iter (serve socketFd) buffer0 ;;
  Ret EXIT_SUCCESS.
End i6d_ucase_sv.

(** ** i6d_ucase_cl.c *)
Module i6d_ucase_cl.
Definition SERVER_PORT : Z := 50002.
Definition BUFFER_SIZE : Z := 10.

Definition main `{CText} (buffer0 : string) (argv : list string) : prog Z :=
  when ((argc argv <? 3) || streq argv.[1] "-h") (
    fprintf stderr "Usage: %s <host_address> <msg>...\n" [Str argv.[0]] ;;
    exit EXIT_FAILURE) ;;
  socketFd <- sys (Socket AF_INET6 SOCK_DGRAM) ;;
  when (socketFd ==? -1) (
    e <- errno ;;
    fprintf stderr "Failed to create AF_INET6 SOCK_DGRAM socket() - %s\n" [Str (strerror e)] ;;
    exit EXIT_FAILURE) ;;
  let addrStr := argv.[1] in
  '(r, sin6_addr) <- sys (InetPton AF_INET6 addrStr) ;;
  when (r !=? 1) (
    e <- errno ;;
    fprintf stderr "inet_pton() failed for address %s - %s\n" [Str addrStr; Str (strerror e)] ;;
    exit EXIT_FAILURE) ;;
  let addr := sockaddr_in6 SERVER_PORT sin6_addr in
  for_loop 2 (argc argv) (fun i buffer =>
    let msgLength := slen argv.[i] in
    r <- sys (Sendto socketFd argv.[i] addr) ;;
    when (r !=? msgLength) (
      e <- errno ;;
      fprintf stderr "Failed to sendto() (%s, %u) %ld bytes - %s\n"
        [Str addrStr; Int SERVER_PORT; Int msgLength; Str (strerror e)] ;;
      exit EXIT_FAILURE) ;;
    '(numBytes, data, _) <- sys (Recvfrom socketFd BUFFER_SIZE) ;;
    when (numBytes ==? -1) (
      e <- errno ;;
      fprintf stderr "Failed to recvfrom() server - %s\n" [Str (strerror e)] ;;
      exit EXIT_FAILURE) ;;
    let buffer := overlay data buffer in
    printf "Response %d: %.*s\n" [Int (i - 1); Int numBytes; Str buffer] ;;
    Ret buffer) buffer0 ;;
  r <- sys (Close socketFd) ;;
  when (r ==? -1) (
    e <- errno ;;
    fprintf stderr "Failed to close() socket - %s\n" [Str (strerror e)] ;;
    exit EXIT_FAILURE) ;;
  Ret EXIT_SUCCESS.
End i6d_ucase_cl.

(** ** ud_case_sv.c

    [sun_path_addr] is the address of the array the program prints where its size
    was meant. *)
Module ud_case_sv.
Definition SERVER_SOCKET_PATH : string := "/tmp/ud_ucase".
Definition BUFFER_SIZE : Z := 10.

Definition serve `{CText} (socketFd : Z) (buffer : string) : prog (string + unit) :=
  '(numBytes, data, clientAddr) <- sys (Recvfrom socketFd BUFFER_SIZE) ;;
  when (numBytes ==? -1) (
    e <- errno ;;
    fprintf stderr "Failed to recvfrom() socket - %s\n" [Str (strerror e)] ;;
    exit EXIT_FAILURE) ;;
  let buffer := overlay data buffer in
  printf "Server received %ld bytes from %s\n" [Int numBytes; Str (sun_path clientAddr)] ;;
  let buffer := upcase numBytes buffer in
  r <- sys (Sendto socketFd (stake numBytes buffer) clientAddr) ;;
  when (r !=? numBytes) (
    e <- errno ;;
    fprintf stderr "Failed to sendto() %ld bytes - %s\n" [Int numBytes; Str (strerror e)] ;;
    exit EXIT_FAILURE) ;;
  Ret (inl buffer).

Definition main `{CText} (sun_path_addr : Z) (buffer0 : string) (argv : list string) : prog Z :=
  socketFd <- sys (Socket AF_UNIX SOCK_DGRAM) ;;
  when (socketFd ==? -1) (
    e <- errno ;;
    fprintf stderr "Failed to create AF_UNIX SOCK_DGRAM socket() - %s\n" [Str (strerror e)] ;;
    exit EXIT_FAILURE) ;;
  when (sizeof_sun_path - 1 <? slen SERVER_SOCKET_PATH) (
    fprintf stderr "Server socket path %s is too long (max: %ld)\n"
      [Str SERVER_SOCKET_PATH; Int sun_path_addr] ;;
    exit EXIT_FAILURE) ;;
  let serverAddr := sockaddr_un (strncpy SERVER_SOCKET_PATH (sizeof_sun_path - 1) sun_path0) in
  r <- sys (Remove SERVER_SOCKET_PATH) ;;
  when (r ==? -1) (
    e <- errno ;;
    when (e !=? ENOENT) (
      e <- errno ;;
      fprintf stderr "Failed to remove() socket %s - %s\n" [Str SERVER_SOCKET_PATH; Str (strerror e)] ;;
      exit EXIT_FAILURE)) ;;
  r <- sys (Bind socketFd serverAddr) ;;
  when (r ==? -1) (
    e <- errno ;;
    fprintf stderr "Failed to bind() socket to %s - %s\n" [Str SERVER_SOCKET_PATH; Str (strerror e)] ;;
    exit EXIT_FAILURE) ;;
  ITree.iter (serve socketFd) buffer0 ;;
  Ret EXIT_SUCCESS.
End ud_case_sv.

(** ** ud_case_cl.c *)
Module ud_case_cl.
Definition SERVER_SOCKET_PATH : string := "/tmp/ud_ucase".
Definition BUFFER_SIZE : Z := 10.

Definition main `{CText} (buffer0 : string) (argv : list string) : prog Z :=
  when ((argc argv <? 2) || streq argv.[1] "-h") (
    fprintf stderr "Usage %s <msg>...\n" [Str argv.[0]] ;;
    exit EXIT_FAILURE) ;;
  socketFd <- sys (Socket AF_UNIX SOCK_DGRAM) ;;
  when (socketFd ==? -1) (
    e <- errno ;;
    fprintf stderr "Failed to create AF_UNIX SOCK_DGRAM socket() - %s\n" [Str (strerror e)] ;;
    exit EXIT_FAILURE) ;;
  p <- sys Getpid ;;
  let path := snprintf sizeof_sun_path "/tmp/ud_ucase_cl.%ld" [Int p] in
  r <- sys (Bind socketFd (sockaddr_un (overlay path sun_path0))) ;;
  when (r !=? 0) (
    e <- errno ;;
    fprintf stderr "Failed to bind() to socket %s - %s\n" [Str path; Str (strerror e)] ;;
    exit EXIT_FAILURE) ;;
  let serverAddr := sockaddr_un (strncpy SERVER_SOCKET_PATH (sizeof_sun_path - 1) sun_path0) in
  for_loop 1 (argc argv) (fun i buffer =>
    let msgLength := slen argv.[i] in
    bytesSent <- sys (Sendto socketFd argv.[i] serverAddr) ;;
    when (bytesSent ==? -1) (
      e <- errno ;;
      fprintf stderr "Failed to send() %ld bytes to socket %s - %s\n"
        [Int msgLength; Str SERVER_SOCKET_PATH; Str (strerror e)] ;;
      exit EXIT_FAILURE) ;;
    '(bytesReceived, data, _) <- sys (Recvfrom socketFd BUFFER_SIZE) ;;
    when (bytesReceived ==? -1) (
      e <- errno ;;
      fprintf stderr "Failed to recvfrom() socket %s - %s\n" [Str SERVER_SOCKET_PATH; Str (strerror e)] ;;
      exit EXIT_FAILURE) ;;
    let buffer := overlay data buffer in
    printf "Response: %d: %.*s\n" [Int i; Int bytesReceived; Str buffer] ;;
    Ret buffer) buffer0 ;;
  r <- sys (Remove path) ;;
  when (r ==? -1) (
    e <- errno ;;
    fprintf stderr "Failed to remove() socket %s - %s\n" [Str path; Str (strerror e)] ;;
    exit EXIT_FAILURE) ;;
  r <- sys (Close socketFd) ;;
  when (r ==? -1) (
    e <- errno ;;
    fprintf stderr "Failed to close() socket - %s\n" [Str (strerror e)] ;;
    exit EXIT_FAILURE) ;;
  Ret EXIT_SUCCESS.
End ud_case_cl.

(** ** us_xfr_sv.c *)
Module us_xfr_sv.
Definition SV_SOCK_PATH : string := "/tmp/us_xfr".
Definition BACKLOG : Z := 5.
Definition BUFFER_SIZE : Z := 100.

(** The inner loop: what a connection sends goes to standard output. *)
Definition drain `{CText} (connectedSocketFd : Z) (buffer : string) : prog (Z * string) :=
  ITree.iter (fun buffer =>
    '(numBytesRead, data) <- sys (Read connectedSocketFd BUFFER_SIZE) ;;
    let buffer := overlay data buffer in
    if negb (0 <? numBytesRead) then Ret (inr (numBytesRead, buffer)) else
    r <- sys (Write STDOUT_FILENO (stake numBytesRead buffer)) ;;
    when (r !=? numBytesRead) (
      e <- errno ;;
      fprintf stderr "Failed to write() %ld bytes - %s\n" [Int numBytesRead; Str (strerror e)] ;;
      exit EXIT_FAILURE) ;;
    Ret (inl buffer)) buffer.

(** One iteration of the server's loop. *)
Definition serve `{CText} (listeningSocketFd : Z) (buffer : string) : prog (string + unit) :=
  '(connectedSocketFd, _) <- sys (Accept listeningSocketFd) ;;
  when (connectedSocketFd ==? -1) (
    e <- errno ;;
    fprintf stderr "Failed to accept() socket connection at %s - %s\n" [Str SV_SOCK_PATH; Str (strerror e)] ;;
    exit EXIT_FAILURE) ;;
  '(numBytesRead, buffer) <- drain connectedSocketFd buffer ;;
  when (numBytesRead ==? -1) (
    e <- errno ;;
    fprintf stderr "Failed to read() from socket %s - %s\n" [Str SV_SOCK_PATH; Str (strerror e)] ;;
    exit EXIT_FAILURE) ;;
  r <- sys (Close connectedSocketFd) ;;
  when (r ==? -1) (
    e <- errno ;;
    fprintf stderr "Failed to close() connected socket %s - %s\n" [Str SV_SOCK_PATH; Str (strerror e)] ;;
    exit EXIT_FAILURE) ;;
  Ret (inl buffer).

Definition main `{CText} (buffer0 : string) (argv : list string) : prog Z :=
  listeningSocketFd <- sys (Socket AF_UNIX SOCK_STREAM) ;;
  when (listeningSocketFd ==? -1) (
    e <- errno ;;
    fprintf stderr "Failed to create UNIX stream socket() - %s\n" [Str (strerror e)] ;;
    exit EXIT_FAILURE) ;;
  when (sizeof_sun_path - 1 <? slen SV_SOCK_PATH) (
    fprintf stderr "Socket addr %s is too long (max: %ld)\n" [Str SV_SOCK_PATH; Int sizeof_sun_path] ;;
    exit EXIT_FAILURE) ;;
  let addr := sockaddr_un (strncpy SV_SOCK_PATH (sizeof_sun_path - 1) sun_path0) in
  r <- sys (Remove SV_SOCK_PATH) ;;
  when (r ==? -1) (
    e <- errno ;;
    when (e !=? ENOENT) (
      e <- errno ;;
      fprintf stderr "Failed to remove() %s - %s\n" [Str SV_SOCK_PATH; Str (strerror e)] ;;
      exit EXIT_FAILURE)) ;;
  r <- sys (Bind listeningSocketFd addr) ;;
  when (r ==? -1) (
    e <- errno ;;
    fprintf stderr "Failed to bind() socket to %s - %s\n" [Str SV_SOCK_PATH; Str (strerror e)] ;;
    exit EXIT_FAILURE) ;;
  r <- sys (Listen listeningSocketFd BACKLOG) ;;
  when (r ==? -1) (
    e <- errno ;;
    fprintf stderr "Failed to listen() at %s - %s\n" [Str SV_SOCK_PATH; Str (strerror e)] ;;
    exit EXIT_FAILURE) ;;
  ITree.iter (serve listeningSocketFd) buffer0 ;;
  Ret EXIT_SUCCESS.
End us_xfr_sv.

(** ** us_xfr_cl.c *)
Module us_xfr_cl.
Definition SV_SOCK_PATH : string := "/tmp/us_xfr".
Definition BUFFER_SIZE : Z := 100.

(** The transfer loop: it writes the whole buffer, whatever was read. *)
Definition transfer `{CText} (socketFd : Z) (buffer : string) : prog Z :=
  ITree.iter (fun buffer =>
    '(numBytes, data) <- sys (Read STDIN_FILENO BUFFER_SIZE) ;;
    let buffer := overlay data buffer in
    if negb (0 <? numBytes) then Ret (inr numBytes) else
    r <- sys (Write socketFd (stake BUFFER_SIZE buffer)) ;;
    when (r !=? numBytes) (
      e <- errno ;;
      fprintf stderr "Failed to write() %ld bytes - %s\n" [Int numBytes; Str (strerror e)] ;;
      exit EXIT_FAILURE) ;;
    Ret (inl buffer)) buffer.

Definition main `{CText} (buffer0 : string) (argv : list string) : prog Z :=
  socketFd <- sys (Socket AF_UNIX SOCK_STREAM) ;;
  when (socketFd ==? -1) (
    e <- errno ;;
    fprintf stderr "Failed to create socket() - %s\n" [Str (strerror e)] ;;
    exit EXIT_FAILURE) ;;
  when (sizeof_sun_path - 1 <? slen SV_SOCK_PATH) (
    fprintf stderr "Socket path %s is too long (max: %ld)\n" [Str SV_SOCK_PATH; Int (sizeof_sun_path - 1)] ;;
    exit EXIT_FAILURE) ;;
  let addr := sockaddr_un (strncpy SV_SOCK_PATH (sizeof_sun_path - 1) sun_path0) in
  r <- sys (Connect socketFd addr) ;;
  when (r ==? -1) (
    e <- errno ;;
    fprintf stderr "Failed to connect() to socket %s - %s\n" [Str SV_SOCK_PATH; Str (strerror e)] ;;
    exit EXIT_FAILURE) ;;
  numBytes <- transfer socketFd buffer0 ;;
  when (numBytes ==? -1) (
    e <- errno ;;
    fprintf stderr "Failed to read() from stdin - %s\n" [Str (strerror e)] ;;
    exit EXIT_FAILURE) ;;
  r <- sys (Close socketFd) ;;
  when (r ==? -1) (
    e <- errno ;;
    fprintf stderr "Failed to close() to socket %s - %s\n" [Str SV_SOCK_PATH; Str (strerror e)] ;;
    exit EXIT_FAILURE) ;;
  Ret EXIT_SUCCESS.
End us_xfr_cl.

(** ** is_seqnum_sv.c

    [request] is declared in each iteration: of its indeterminate content a short
    read replaces only the first bytes. *)
Module is_seqnum_sv.
Definition SERVER_PORT : string := "50000".
Definition BACKLOG : Z := 50.
Definition ADDR_STR_LEN : Z := NI_MAXHOST + NI_MAXSERV + 10.

Definition getLong `{CText} (str : string) : prog Z :=
  set_errno 0 ;;
  result <- strtol str 0 ;;
  e <- errno ;;
  when ((e !=? 0) && negb (streq (st_end result) "")) (
    e <- errno ;;
    fprintf stderr "Failed to convert strtol() %s - %s\n" [Str str; Str (strerror e)] ;;
    exit EXIT_FAILURE) ;;
  Ret (st_val result).

(** The loop over the addresses, with the listening socket of the [break]. *)
Fixpoint bind_first `{CText} (addrs : list addrinfo) : prog (option Z) :=
  match addrs with
  | [] => Ret None
  | addrp :: addrs =>
      listenSocketFd <- sys (Socket (ai_family addrp) (ai_socktype addrp)) ;;
      if listenSocketFd ==? -1 then bind_first addrs else
      r <- sys (Setsockopt listenSocketFd SOL_SOCKET SO_REUSEADDR 1) ;;
      when (r ==? -1) (
        e <- errno ;;
        fprintf stderr "Failed to setsockopt() - %s\n" [Str (strerror e)] ;;
        exit EXIT_FAILURE) ;;
      r <- sys (Bind listenSocketFd (ai_addr addrp)) ;;
      if r ==? 0 then Ret (Some listenSocketFd) else
      r <- sys (Close listenSocketFd) ;;
      when (r ==? -1) (
        e <- errno ;;
        fprintf stderr "Failed to close() server listening socket - %s\n" [Str (strerror e)] ;;
        exit EXIT_FAILURE) ;;
      bind_first addrs
  end.

(** One iteration of the server's loop: the next value of [seqNum]. *)
Definition serve `{CText} (listenSocketFd seqNum : Z) : prog (Z + unit) :=
  '(connectedSocketFd, clientAddr) <- sys (Accept listenSocketFd) ;;
  if connectedSocketFd ==? -1 then
    e <- errno ;;
    fprintf stderr "Failed to accept() socket connection - %s\n" [Str (strerror e)] ;;
    Ret (inl seqNum)
  else
  '(status, (clientHostname, clientSvc)) <- sys (Getnameinfo clientAddr) ;;
  let clientAddrStr :=
    if status ==? 0 then snprintf ADDR_STR_LEN "(%s, %s)" [Str clientHostname; Str clientSvc]
    else snprintf ADDR_STR_LEN "(?UNKNOWN?)" [] in
  printf "Connection from %s\n" [Str clientAddrStr] ;;
  request0 <- sys (Indeterminate sizeof_int) ;;
  '(r, data) <- sys (Read connectedSocketFd sizeof_int) ;;
  if r ==? -1 then
    e <- errno ;;
    fprintf stderr "Failed to read() %ld bytes from socket connection with %s - %s\n"
      [Int sizeof_int; Str clientAddrStr; Str (strerror e)] ;;
    r <- sys (Close connectedSocketFd) ;;
    when (r ==? -1) (
      e <- errno ;;
      fprintf stderr "Failed to close() socket connection with %s - %s\n" [Str clientAddrStr; Str (strerror e)] ;;
      exit EXIT_FAILURE) ;;
    Ret (inl seqNum)
  else
  let request := decode_int (overlay data request0) in
  r <- sys (Write connectedSocketFd (encode_int seqNum)) ;;
  when (r !=? sizeof_int) (
    e <- errno ;;
    fprintf stderr "Failed to write() %ld bytes to socket connection with %s - %s\n"
      [Int sizeof_int; Str clientAddrStr; Str (strerror e)]) ;;
  let seqNum := i32 (seqNum + request) in
  r <- sys (Close connectedSocketFd) ;;
  when (r ==? -1) (
    e <- errno ;;
    fprintf stderr "Failed to close() socket connection with %s - %s\n" [Str clientAddrStr; Str (strerror e)] ;;
    exit EXIT_FAILURE) ;;
  Ret (inl seqNum).

Definition main `{CText} (argv : list string) : prog Z :=
  when ((1 <? argc argv) && streq argv.[1] "-h") (
    fprintf stderr "Usage: %s <initial_seq_num\n" [Str argv.[0]] ;;
    exit EXIT_FAILURE) ;;
  seqNum <- (if 1 <? argc argv then r <- getLong argv.[1] ;; Ret (i32 r) else Ret 0) ;;
  r <- sys (Signal SIGPIPE SIG_IGN) ;;
  when (r ==? -1) (
    e <- errno ;;
    fprintf stderr "Failed to establish signal() handler for SIGPIPE - %s\n" [Str (strerror e)] ;;
    exit EXIT_FAILURE) ;;
  '(status, serverAddrs) <- sys (Getaddrinfo None SERVER_PORT (AI_PASSIVE .| AI_NUMERICSERV) AF_UNSPEC SOCK_STREAM) ;;
  when (status !=? 0) (
    e <- errno ;;
    fprintf stderr "getaddrinfo() failed - %s\n"
      [Str (if status ==? EAI_SYSTEM then strerror e else gai_strerror status)] ;;
    exit EXIT_FAILURE) ;;
  addrp <- bind_first serverAddrs ;;
  match addrp with
  | None =>
      fprintf stderr "Failed to bind socket to any address\n" [] ;;
      exit EXIT_FAILURE
  | Some listenSocketFd =>
      r <- sys (Listen listenSocketFd BACKLOG) ;;
      when (r ==? -1) (
        e <- errno ;;
        fprintf stderr "Failed to listen() on socket - %s\n" [Str (strerror e)] ;;
        exit EXIT_FAILURE) ;;
      ITree.iter (serve listenSocketFd) seqNum ;;
      Ret EXIT_SUCCESS
  end.
End is_seqnum_sv.

(** ** is_seqnum_cl.c

    [response0] is the indeterminate content of [response]. *)
Module is_seqnum_cl.
Definition SERVER_PORT : string := "50000".

Definition getLong `{CText} (str : string) : prog Z :=
  set_errno 0 ;;
  result <- strtol str 0 ;;
  e <- errno ;;
  when ((e !=? 0) && negb (streq (st_end result) "")) (
    e <- errno ;;
    fprintf stderr "Failed to convert strtol() %s - %s\n" [Str str; Str (strerror e)] ;;
    exit EXIT_FAILURE) ;;
  Ret (st_val result).

(** The loop over the addresses, with the connected socket of the [break]. *)
Fixpoint connect_first `{CText} (addrs : list addrinfo) : prog (option Z) :=
  match addrs with
  | [] => Ret None
  | addrp :: addrs =>
      socketFd <- sys (Socket (ai_family addrp) (ai_socktype addrp)) ;;
      if socketFd ==? -1 then
        e <- errno ;;
        fprintf stderr "Failed to create socket() - %s\n" [Str (strerror e)] ;;
        connect_first addrs
      else
      r <- sys (Connect socketFd (ai_addr addrp)) ;;
      if r !=? -1 then Ret (Some socketFd) else
      e <- errno ;;
      fprintf stderr "Failed to connect() - %s\n" [Str (strerror e)] ;;
      r <- sys (Close socketFd) ;;
      when (r ==? -1) (
        e <- errno ;;
        fprintf stderr "Failed to close() socket - %s\n" [Str (strerror e)] ;;
        exit EXIT_FAILURE) ;;
      connect_first addrs
  end.

Definition main `{CText} (response0 : string) (argv : list string) : prog Z :=
  when ((argc argv <? 2) || streq argv.[1] "-h") (
    fprintf stderr "Usage %s <server> [<seq_length>]\n" [Str argv.[0]] ;;
    exit EXIT_FAILURE) ;;
  let hostname := argv.[1] in
  '(status, serverAddrs) <- sys (Getaddrinfo (Some hostname) SERVER_PORT AI_NUMERICSERV AF_UNSPEC SOCK_STREAM) ;;
  when (status !=? 0) (
    e <- errno ;;
    fprintf stderr "Failed to getaddrinfo() for (%s, %s) - %s\n" [Str hostname; Str SERVER_PORT;
      Str (if status ==? EAI_SYSTEM then strerror e else gai_strerror status)] ;;
    exit EXIT_FAILURE) ;;
  addrp <- connect_first serverAddrs ;;
  match addrp with
  | None =>
      fprintf stderr "Failed to locate addr (%s, %s)\n" [Str hostname; Str SERVER_PORT] ;;
      exit EXIT_FAILURE
  | Some socketFd =>
      request <- (if 2 <? argc argv then r <- getLong argv.[2] ;; Ret (i32 r) else Ret 1) ;;
      r <- sys (Write socketFd (encode_int request)) ;;
      when (r !=? sizeof_int) (
        e <- errno ;;
        fprintf stderr "Failed to write() to socket - %s\n" [Str (strerror e)] ;;
        exit EXIT_FAILURE) ;;
      '(r, data) <- sys (Read socketFd sizeof_int) ;;
      when (r ==? -1) (
        e <- errno ;;
        fprintf stderr "Failed to read() from socket - %s\n" [Str (strerror e)] ;;
        exit EXIT_FAILURE) ;;
      let response := decode_int (overlay data response0) in
      printf "Sequence number: %d\n" [Int response] ;;
      r <- sys (Close socketFd) ;;
      when (r ==? -1) (
        e <- errno ;;
        fprintf stderr "Failed to close() socket - %s\n" [Str (strerror e)] ;;
        exit EXIT_FAILURE) ;;
      Ret EXIT_SUCCESS
  end.
End is_seqnum_cl.

(** ** is_seqnum_sv: the ranges it hands out *)

(** A response: its number, the length the request asked for, and whether it was
    written whole. *)
Record attempt := Attempt { first : Z; len : Z; sent : bool }.
Definition range (a : attempt) : Z * Z := (first a, len a).

(** The responses of a log. What is known of the request is its bytes: those that
    were read, over those of the variable. *)
Definition is_attempt (request : string) (ev : event) : string * list attempt :=
  match ev with
  | ECall s x =>
      match s in SysE X return X -> string * list attempt with
      | Indeterminate _ => fun d => (d, [])
      | Read _ _ => fun '(_, d) => (overlay d request, [])
      | Write _ d => fun r => (request, [Attempt (decode_int d) (decode_int request) (r ==? sizeof_int)])
      | _ => fun _ => (request, [])
      end x
  | _ => (request, [])
  end.
Definition attempts (l : list event) : list attempt := grants is_attempt "" l.

(** The numbers the responses that were written, or were not, stand for. *)
Definition numbers (written : bool) (a : list attempt) : Z :=
  foldr (fun a n => (if Bool.eqb (sent a) written then len a else 0) + n) 0 a.

Lemma consecutive_numbers s a s' :
  consecutive s (map range a) s' -> i32 s = s -> s' = i32 (s + numbers true a + numbers false a).
Proof.
  revert s. induction a as [|[f n w] a IH]; intros s Hc Hs; inversion Hc; subst.
  - cbn. by rewrite !Z.add_0_r.
  - rewrite (IH _ ltac:(eassumption)) by apply i32_idem. unfold range. cbn [first len] in *.
    assert (forall v, numbers v (Attempt f n w :: a) = (if Bool.eqb w v then n else 0) + numbers v a) as E by done.
    rewrite !E, <- Z.add_assoc, swrap_add_l by lia. f_equal. destruct w; cbn [Bool.eqb]; lia.
Qed.

#[export] Instance is_seq_server `{CText} `{Kernel} lfd : SeqServer (is_seqnum_sv.serve lfd) is_attempt range.
Proof.
  intros s st Hs. unfold is_seqnum_sv.serve.
  wp_go; eexists; log_events; (split; [reflexivity|]); try done.
  all: cbv beta iota; rewrite ?i32_idem; (split; [done|]); use_answers; cbn [grants is_attempt app].
  1-2: exists []; split; [reflexivity|apply consecutive_nil].
  all: eexists; split; [reflexivity|]; unfold range; cbn [map first len]; rewrite decode_encode_int, Hs; auto with lpi.
Qed.

(** C19: however many connections the server has served, the first response carries
    the initial number and each other response the number after the range of the one
    before, be that written or not. So the numbers it has used are those of the
    responses that were written and of those that were not: a response that could not
    be written leaves a gap of the length of its request. That length is the bytes of
    the request that were read, and, when it was not read whole, for the rest what the
    variable held. A round only ends the server, with failure, when the connection
    cannot be closed. *)
Theorem is_server_consecutive `{CText} `{Kernel} lfd n s st seq st' :
  i32 s = s -> rounds (is_seqnum_sv.serve lfd) n s st seq st' ->
  (exists l, s_log st' = s_log st ++ l /\ consecutive s (map range (attempts l)) seq /\
     seq = i32 (s + numbers true (attempts l) + numbers false (attempts l))) /\
  wp (is_seqnum_sv.serve lfd seq) (fun r st2 =>
    (exists seq', r = Returned (inl seq')) \/
    (r = Stopped (Exited EXIT_FAILURE) /\
     exists l fd, s_log st2 = s_log st' ++ l /\ ECall (Close fd) (-1) ∈ l)) st'.
Proof.
  intros Hs Hr. destruct (rounds_consecutive "" n s st seq st' Hs Hr) as (_ & l & Hl & Hc). split.
  { exists l. split; [done|]. split; [done|]. by apply consecutive_numbers. }
  unfold is_seqnum_sv.serve. wp_go; try (left; by eexists).
  all: right; (split; [done|]); bool_props.
  all: match goal with H : answer (Close ?f) _ = _ |- _ =>
    eexists _, f; log_events; split; [reflexivity|]; rewrite H end.
  all: rewrite !elem_of_cons; auto 10.
Qed.

(** A kernel whose connections bring the requests of a list, each with the result of
    the write that answers it. *)
Definition connections : Kernel := {|
  kstate := list (string * Z);
  kcall X (s : SysE X) k :=
    match s in SysE X return X * option Z * list (string * Z) with
    | Accept _ => ((5, ""), None, k)
    | Indeterminate n => (srepeat (Z.to_nat n) "!", None, k)
    | Read _ _ => match k with (d, _) :: _ => ((slen d, d), None, k) | [] => ((0, ""), None, k) end
    | Write _ _ => match k with (_, r) :: k => (r, None, k) | [] => (-1, None, k) end
    | Close _ => (0, None, k)
    | s => (refuse s, None, k)
    end |}.

(** The second response is not written, and the third request is not whole. *)
Definition three_requests : @St connections := @mkSt connections 0 [] [(encode_int 4, 4); (encode_int 6, -1); ("a", 4)].

Lemma is_server_consecutive_witness :
  let _ := plain_text in let _ := connections in let seq := 100 + 4 + 6 + decode_int "a!!!" in
  exists st', (exists l, s_log st' = s_log three_requests ++ l /\ consecutive 100 (map range (attempts l)) seq /\
      seq = i32 (100 + numbers true (attempts l) + numbers false (attempts l))) /\
    wp (is_seqnum_sv.serve 3 seq) (fun r st2 =>
      (exists seq', r = Returned (inl seq')) \/
      (r = Stopped (Exited EXIT_FAILURE) /\
       exists l fd, s_log st2 = s_log st' ++ l /\ ECall (Close fd) (-1) ∈ l)) st'.
Proof.
  intros T K seq.
  destruct (run_rounds_rounds 100 (is_seqnum_sv.serve 3) 3 100 three_requests seq ltac:(vm_compute; reflexivity))
    as [st' Hr].
  exists st'. exact (is_server_consecutive 3 3 100 three_requests seq st' eq_refl Hr).
Defined.

(** ** The upper-case servers *)

(** The loop capitalizes the first [slen s] characters of the buffer. *)
Lemma upcase_app s t : upcase (slen s) (s +:+ t) = smap toupper s +:+ t.
Proof.
  unfold upcase, slen. rewrite Nat2Z.id.
  assert (forall s' u, fold_left (fun buffer i => supd (Z.of_nat i) (toupper (snth (Z.of_nat i) buffer)) buffer)
    (seq (String.length u) (String.length s')) (u +:+ s' +:+ t) = u +:+ smap toupper s' +:+ t) as H;
    [|apply (H s "")].
  induction s' as [|c s' IH]; intros u; [done|]. cbn [String.length seq fold_left smap].
  rewrite !app_cons_s. fold (slen u). rewrite snth_app, supd_app.
  replace (S (String.length u)) with (String.length (u +:+ String (toupper c) ""))
    by (apply Nat2Z.inj; fold (slen (u +:+ String (toupper c) "")); rewrite slen_app; cbn; fold (slen u);
        unfold slen; cbn; lia).
  pose proof (IH (u +:+ String (toupper c) "")) as H. rewrite <- !app_assoc_s, !app_cons_s, !app_nil_l_s in H.
  exact H.
Qed.

Lemma upcase_overlay d buf : upcase (slen d) (overlay d buf) = overlay (smap toupper d) buf.
Proof. unfold overlay. by rewrite upcase_app, slen_smap. Qed.

(** The datagrams of a log, with the address, and what each [sendto] answered. *)
Fixpoint sends (l : list event) : list (Z * string * string * Z) :=
  match l with
  | [] => []
  | ECall s x :: l =>
      match s in SysE X return X -> list (Z * string * string * Z) with
      | Sendto fd d addr => fun r => [(fd, d, addr, r)]
      | _ => fun _ => []
      end x ++ sends l
  | _ :: l => sends l
  end.

(** C25: both upper-case servers answer what they receive of a datagram, its first
    BUFFER_SIZE = 10 bytes, with the same bytes in upper case, all of them and nothing
    else, to the address it came from, whatever the buffer held before; the rest of a
    longer datagram is lost; they go on exactly when the whole answer was sent, and stop with
    failure when nothing could be received. *)
Theorem ucase_servers_reply `{CText} `{Kernel} fd buffer n d addr st :
  answer (Recvfrom fd 10) st = (n, d, addr) -> n = -1 \/ n = slen d ->
  let replies (serve : prog (string + unit)) :=
    wp serve (fun r st' => exists l, s_log st' = s_log st ++ l /\
      if n ==? -1 then r = Stopped (Exited EXIT_FAILURE) /\ sends l = [] else
      exists m, sends l = [(fd, smap toupper d, addr, m)] /\
        (if m ==? n then exists buffer', r = Returned (inl buffer') /\ slen d <= slen buffer'
         else r = Stopped (Exited EXIT_FAILURE))) st in
  replies (i6d_ucase_sv.serve fd buffer) /\ replies (ud_case_sv.serve fd buffer).
Proof.
  intros Ha Hn. cbv zeta.
  assert (n <> -1 -> stake n (upcase n (overlay d buffer)) = smap toupper d) as Hup.
  { intros Hne. destruct Hn as [-> | ->]; [done|]. rewrite upcase_overlay.
    rewrite <- (slen_smap toupper d). apply stake_overlay. }
  assert (n <> -1 -> slen d <= slen (upcase n (overlay d buffer))) as Hlen.
  { intros Hne. destruct Hn as [-> | ->]; [done|]. rewrite upcase_overlay. unfold overlay.
    rewrite slen_app, slen_smap. pose proof (slen_nonneg (sdrop (slen d) buffer)). lia. }
  split; unfold i6d_ucase_sv.serve, ud_case_sv.serve; wp_head; wp_head.
  all: change i6d_ucase_sv.BUFFER_SIZE with 10; change ud_case_sv.BUFFER_SIZE with 10.
  all: rewrite Ha; cbv beta iota; destruct (n ==? -1) eqn:Hn1;
    [wp_go; eexists; log_events; (split; [reflexivity|]); done|].
  all: wp_go; bool_props; rewrite ?(Hup Hn1) in *; eexists; log_events; (split; [reflexivity|]).
  all: rewrite ?Ha; eexists; (split; [reflexivity|]).
  all: case_if; bool_props; try done; eauto.
Qed.

Lemma ucase_servers_reply_witness :
  let _ := plain_text in
  let st : @St pipe_kernel := mkSt 0 [] {[3 := "hello"]} in
  let replies (serve : prog (string + unit)) :=
    @wp pipe_kernel _ serve (fun r st' => exists l, s_log st' = s_log st ++ l /\
      if 5 ==? -1 then r = Stopped (Exited EXIT_FAILURE) /\ sends l = [] else
      exists m, sends l = [(3, smap toupper "hello", "client", m)] /\
        (if m ==? 5 then exists buffer', r = Returned (inl buffer') /\ slen "hello" <= slen buffer'
         else r = Stopped (Exited EXIT_FAILURE))) st in
  replies (i6d_ucase_sv.serve 3 "0123456789") /\ replies (ud_case_sv.serve 3 "0123456789").
Proof.
  intros T st. apply (ucase_servers_reply 3 "0123456789" 5 "hello" "client" st); [reflexivity|by right].
Defined.

(** ** us_xfr: a file over a stream socket *)

Lemma drain_ok `{CText} `{StreamKernel} cfd buffer st :
  wp (us_xfr_sv.drain cfd buffer) (fun r st' =>
    match r with
    | Returned (n, _) => exists l done, pumped cfd STDOUT_FILENO st st' l done /\
        (n = -1 \/ n = 0 /\ done = strm st cfd)
    | Stopped s => s = Exited EXIT_FAILURE
    end) st.
Proof.
  apply (wp_iter_measure _ (fun _ st1 => exists l done, pumped cfd STDOUT_FILENO st st1 l done)
           (fun _ st1 => Z.to_nat (slen (strm st1 cfd)))); [|by exists [], ""; apply pumped_0].
  intros buf st1 (l & done & Hp). wp_head. wp_strm. destruct x as [r d].
  case_if; bool_props.
  - wp_run1. destruct (pumped_read cfd us_xfr_sv.BUFFER_SIZE STDOUT_FILENO ltac:(done) _ _ _ _ _ _ _ Hp Hst Hlog ltac:(lia))
      as [[-> Hp']|(-> & Hp' & Hd)]; do 2 eexists; eauto.
  - wp_run1. wp_strm. wp_go; [done|]. bool_props. subst x.
    rewrite (stream_read_len _ _ _ _ _ _ Hst), stake_overlay in Hlog0 by lia.
    rewrite <- (stream_read_len _ _ _ _ _ _ Hst) in Hlog0 by lia.
    destruct (pumped_step cfd us_xfr_sv.BUFFER_SIZE STDOUT_FILENO _ _ _ _ _ _ _ _ r
      Hp Hst Hlog ltac:(lia) Hst0 Hlog0 eq_refl) as [Hp' Hlt].
    split; [by do 2 eexists|]. pose proof (slen_nonneg (strm st2 cfd)). lia.
Qed.

(** C24: in each round of its loop [us_xfr_sv] accepts a connection and copies to
    standard output exactly what the connection sends until its end, in order,
    whatever the lengths of the reads; the round terminates, and any failure ends
    the server with status 1. *)
Theorem us_xfr_sv_copies `{CText} `{StreamKernel} lfd buffer st :
  wp (us_xfr_sv.serve lfd buffer) (fun r st' =>
    r = Stopped (Exited EXIT_FAILURE) \/
    exists buffer' l c addr x, r = Returned (inl buffer') /\ x <> -1 /\
      answer (Accept lfd) st = (c, addr) /\
      s_log st' = s_log st ++ ECall (Accept lfd) (c, addr) :: l ++ [ECall (Close c) x] /\
      written STDOUT_FILENO l = strm (after (Accept lfd) st) c) st.
Proof.
  unfold us_xfr_sv.serve. wp_head. wp_head. destruct (answer (Accept lfd) st) as [c addr] eqn:Ha.
  wp_head. wp_branch; [wp_go; by left|]. wp_head.
  eapply wp_mono; [apply drain_ok|]. intros [[n b]|s] st1; [|intros ->; by left].
  intros (l & done & (Hl & Hw & Hs) & Hn). wp_head. wp_branch; [wp_go; by left|]. bool_props.
  destruct Hn as [-> | [-> Hd]]; [done|].
  wp_head. wp_head. wp_head. wp_branch; [wp_go; by left|]. bool_props. wp_head. right.
  eexists b, l, c, addr, (answer (Close c) st1). split; [done|]. split; [done|]. split; [done|]. split; [|by rewrite Hw].
  by rewrite s_log_after, Hl, s_log_after, Ha, <- !app_assoc.
Qed.

Lemma us_xfr_sv_copies_witness :
  let _ := plain_text in
  let st : @St pipe_kernel := mkSt 0 [] {[5 := "sent over the socket"]} in
  @wp pipe_kernel _ (us_xfr_sv.serve 3 "") (fun r st' =>
    r = Stopped (Exited EXIT_FAILURE) \/
    exists buffer' l c addr x, r = Returned (inl buffer') /\ x <> -1 /\
      answer (Accept 3) st = (c, addr) /\
      s_log st' = s_log st ++ ECall (Accept 3) (c, addr) :: l ++ [ECall (Close c) x] /\
      written STDOUT_FILENO l = strm (after (Accept 3) st) c) st.
Proof. apply us_xfr_sv_copies. Defined.

(** The transfer loop of [us_xfr_cl] writes its whole buffer for every read. So,
    when the socket takes a write entirely or not at all, it only comes to the end
    of its input when the length of the input is a multiple of 100 bytes: any other
    file is not transferred, and the client exits with failure. *)
Theorem us_xfr_cl_only_multiples `{CText} `{StreamKernel} fd buffer st :
  slen buffer = us_xfr_cl.BUFFER_SIZE ->
  (forall d k, (kcall (Write fd d) k).1.1 = -1 \/ (kcall (Write fd d) k).1.1 = slen d) ->
  wp (us_xfr_cl.transfer fd buffer) (fun r st' =>
    match r with
    | Returned n => n = -1 \/ n = 0 /\ exists m, slen (strm st STDIN_FILENO) = us_xfr_cl.BUFFER_SIZE * m
    | Stopped s => s = Exited EXIT_FAILURE
    end) st.
Proof.
  intros Hb Hwr.
  apply (wp_iter_measure _ (fun buf st1 => slen buf = us_xfr_cl.BUFFER_SIZE /\ exists m,
      slen (strm st STDIN_FILENO) = us_xfr_cl.BUFFER_SIZE * m + slen (strm st1 STDIN_FILENO))
    (fun _ st1 => Z.to_nat (slen (strm st1 STDIN_FILENO)))); [|split; [done|exists 0; lia]].
  intros buf st1 (Hbuf & m & Hm). wp_head. wp_strm. destruct x as [r d].
  unfold us_xfr_cl.BUFFER_SIZE in *.
  destruct Hst as [[-> Hv]|(Hr & Hd & Hlen & Hz & Hv & _)]; [case_if; [|done]; wp_go; by left|].
  case_if; bool_props.
  - wp_run1. right. assert (r = 0) as -> by lia. split; [done|]. exists m. rewrite (Hz eq_refl) in Hm by lia.
    change (slen "") with 0 in Hm. lia.
  - wp_run1. assert (slen (overlay d buf) = 100) as Hov by (rewrite slen_overlay; lia).
    rewrite (stake_all 100) by lia. wp_head.
    pose proof (stream_after (Write fd (overlay d buf)) st0) as Hv2. cbn in Hv2.
    wp_head. wp_go; [done|]. bool_props.
    destruct (Hwr (overlay d buf) (s_kern st0)) as [Hw|Hw]; fold (answer (Write fd (overlay d buf)) st0) in Hw; [lia|].
    rewrite Hv2, Hv, slen_sdrop by lia. pose proof (f_equal slen Hd) as He. rewrite slen_stake in He by lia.
    split; [split; [done|exists (m + 1); lia]|lia].
Qed.

Lemma us_xfr_cl_only_multiples_witness :
  let _ := plain_text in
  let st : @St pipe_kernel := mkSt 0 [] {[STDIN_FILENO := "short"]} in
  @wp pipe_kernel _ (us_xfr_cl.transfer 4 (stake 100 sun_path0)) (fun r st' =>
    match r with
    | Returned n => n = -1 \/ n = 0 /\ exists m, slen (strm st STDIN_FILENO) = us_xfr_cl.BUFFER_SIZE * m
    | Stopped s => s = Exited EXIT_FAILURE
    end) st.
Proof.
  intros T st. apply (us_xfr_cl_only_multiples 4 (stake 100 sun_path0) st); [reflexivity|]. intros d k. by right.
Defined.
