(* ===== verification/Signals.v ===== *)
(** * Signals: signals/src/

    A signal handler is a function of the signal and of the variables of the file
    it changes. Where a program waits for signals, [deliveries] lists the signals
    that are delivered while it waits, in order; a program that has handled all
    of them goes on waiting, which is a loop without an end. *)

From S2P Require Import Prelude.
From S2P Require Import CLib.
From S2P Require Import Sys.
From S2P Require Import Sem.
From S2P Require Import Lpi.

Definition SIGTSTP : Z := 20.
Definition SI_USER : Z := 0.
Definition SI_QUEUE : Z := -1.

(** ** t_kill.c *)
Module t_kill.
Definition getInt `{CText} (str : string) : prog Z :=
  set_errno 0 ;;
  result <- strtol str 0 ;;
  e <- errno ;;
  when ((e !=? 0) || negb (st_conv result)) (
    fprintf stderr "Failed to convert %s to long" [Str str] ;;
    exit EXIT_FAILURE) ;;
  Ret (i32 (st_val result)).

Definition main `{CText} (argv : list string) : prog Z :=
  if (argc argv !=? 3) || streq argv.[1] "-h" then
    fprintf stderr "Usage: %s <pid> <sig-num>\n" [Str argv.[0]] ;;
    Ret EXIT_FAILURE
  else
  pid <- getInt argv.[1] ;;
  sig <- getInt argv.[2] ;;
  result <- sys (Kill pid sig) ;;
  (if sig ==? 0 then
     if result ==? 0 then printf "Process exists and we can send it a signal\n" []
     else
       e <- errno ;;
       if e ==? EPERM then
         printf "Process %d exists, but we don't have permission to send signal %d\n" [Int pid; Int sig]
       else if e ==? ESRCH then printf "Process %d does not exist\n" [Int pid]
       else
         fprintf stderr "Failed to kill() %d with signal %d\n" [Int pid; Int sig] ;;
         exit EXIT_FAILURE
   else when (result ==? -1) (
     fprintf stderr "Failed to kill() %d with signal %d\n" [Int pid; Int sig] ;;
     exit EXIT_FAILURE)) ;;
  Ret EXIT_SUCCESS.
End t_kill.

(** ** sig_sender.c *)
Module sig_sender.
Definition getLong `{CText} (str : string) : prog Z :=
  set_errno 0 ;;
  result <- strtol str 0 ;;
  e <- errno ;;
  when ((e !=? 0) || negb (st_conv result)) (
    fprintf stderr "Failed to convert strtol() %s\n" [Str str] ;;
    exit EXIT_FAILURE) ;;
  Ret (st_val result).

(** The loop that sends [numSigs] signals. *)
Definition send_all `{CText} (pid sig numSigs : Z) : prog unit :=
  for_ 0 numSigs (fun i =>
    r <- sys (Kill pid sig) ;;
    when (r ==? -1) (
      e <- errno ;;
      fprintf stderr "Failed to send signal %d to process %ld - %s\n" [Int sig; Int pid; Str (strerror e)] ;;
      exit EXIT_FAILURE)).

Definition main `{CText} (argv : list string) : prog Z :=
  let program := argv.[0] in
  when ((argc argv <? 4) || streq argv.[1] "-h") (
    fprintf stderr "Usage: %s <pid> <num sigs> <sig1> [<sig2>]\n" [Str program] ;;
    exit EXIT_FAILURE) ;;
  r <- getLong argv.[1] ;;
  let pid := i32 r in
  numSigs <- getLong argv.[2] ;;
  r <- getLong argv.[3] ;;
  let sig := i32 r in
  printf "%s: sending signal %d to process %ld %ld times\n" [Str program; Int sig; Int pid; Int numSigs] ;;
  send_all pid sig numSigs ;;
  when (4 <? argc argv) (
    r <- getLong argv.[4] ;;
    let sig := i32 r in
    r <- sys (Kill pid sig) ;;
    when (r ==? -1) (
      e <- errno ;;
      fprintf stderr "Failed to send signal %d to process %ld - %s\n" [Int sig; Int pid; Str (strerror e)] ;;
      exit EXIT_FAILURE)) ;;
  printf "%s: exiting\n" [Str program] ;;
  Ret EXIT_SUCCESS.
End sig_sender.

(** ** t_sigqueue.c *)
Module t_sigqueue.
Definition getLong `{CText} (str : string) : prog Z :=
  set_errno 0 ;;
  result <- strtol str 0 ;;
  e <- errno ;;
  when ((e !=? 0) || negb (streq (st_end result) "")) (
    e <- errno ;;
    fprintf stderr "Failed to convert %s to long - %s\n" [Str str; Str (strerror e)] ;;
    exit EXIT_FAILURE) ;;
  Ret (st_val result).

(** The loop that queues the signals with consecutive values. *)
Definition queue_all `{CText} (pid sig data numSigs : Z) : prog unit :=
  for_ 0 numSigs (fun i =>
    r <- sys (Sigqueue pid sig (i32 (data + i))) ;;
    when (r ==? -1) (
      e <- errno ;;
      fprintf stderr "Failed to sigqueue() - %s\n" [Str (strerror e)] ;;
      exit EXIT_FAILURE)).

Definition main `{CText} (argv : list string) : prog Z :=
  if (argc argv <? 4) || streq argv.[1] "-h" then
    fprintf stderr "Usage: %s <pid> <sig> <data> [<num sigs>]\n" [Str argv.[0]] ;;
    Ret EXIT_FAILURE
  else
  p <- sys Getpid ;;
  u <- sys Getuid ;;
  printf "%s: PID is %ld, UID is %ld\n" [Str argv.[0]; Int p; Int u] ;;
  pid <- getLong argv.[1] ;;
  sig <- getLong argv.[2] ;;
  data <- getLong argv.[3] ;;
  numSigs <- (if 4 <? argc argv then getLong argv.[4] else Ret 1) ;;
  queue_all (i32 pid) (i32 sig) (i32 data) (i32 numSigs) ;;
  Ret EXIT_SUCCESS.
End t_sigqueue.

(** ** sig_receiver.c *)
Module sig_receiver.
Record globals := Globals { sigCount : gmap Z Z; gotSigInt : bool }.
Definition globals0 : globals := Globals ∅ false.
Definition count (g : globals) (sig : Z) : Z := default 0 (sigCount g !! sig).

Definition sigHandler (sig : Z) (g : globals) : globals :=
  if sig ==? SIGINT then Globals (sigCount g) true
  else Globals (<[sig := i64 (count g sig + 1)]> (sigCount g)) (gotSigInt g).

Definition getUnsignedInt `{CText} (str : string) : prog Z :=
  set_errno 0 ;;
  r <- strtoul str 0 ;;
  let result := u32 (st_val r) in
  e <- errno ;;
  when ((e !=? 0) || negb (streq (st_end r) "")) (
    e <- errno ;;
    fprintf stderr "Failed to convert %s to unsigned long - %s\n" [Str str; Str (strerror e)] ;;
    exit EXIT_FAILURE) ;;
  Ret result.

(** [while (!gotSigInt);] with the signals delivered meanwhile. *)
Fixpoint await (deliveries : list Z) (g : globals) : prog globals :=
  if gotSigInt g then Ret g else
  match deliveries with
  | [] => ITree.spin
  | sig :: deliveries => await deliveries (sigHandler sig g)
  end.

(** The report at the end. *)
Definition report `{CText} (program : string) (g : globals) : prog unit :=
  for_ 1 NSIG (fun i =>
    when (count g i !=? 0) (
      printf "%s: signal %d caught %ld time%s\n"
        [Str program; Int i; Int (count g i); Str (if count g i ==? 1 then "" else "s")])).

Definition main `{CText} (deliveries : list Z) (argv : list string) : prog Z :=
  p <- sys Getpid ;;
  printf "%s: PID is %ld\n" [Str argv.[0]; Int p] ;;
  for_ 1 NSIG (fun i => sys (Signal i (SigFun "sigHandler")) ;; Ret tt) ;;
  when (1 <? argc argv) (
    sec <- getUnsignedInt argv.[1] ;;
    let '(r, sigSet) := sigfillset in
    when (r ==? -1) (
      e <- errno ;;
      fprintf stderr "Failed to sigfillset() - %s\n" [Str (strerror e)] ;;
      exit EXIT_FAILURE) ;;
    '(r, _) <- sys (Sigprocmask SIG_BLOCK (Some sigSet)) ;;
    when (r ==? -1) (
      e <- errno ;;
      fprintf stderr "Failed to block signals - %s\n" [Str (strerror e)] ;;
      exit EXIT_FAILURE) ;;
    printf "%s: Sleeping for %u secs\n" [Str argv.[0]; Int sec] ;;
    sys (Sleep sec) ;;
    '(r, sigSet) <- sys Sigpending ;;
    when (r ==? -1) (
      e <- errno ;;
      fprintf stderr "Failed to get pending signals - %s\n" [Str (strerror e)] ;;
      exit EXIT_FAILURE) ;;
    printf "%s: pending signals are: \n" [Str argv.[0]] ;;
    SignalFunctions.printSigSet stdout (format "\t\t" []) sigSet ;;
    let '(r, sigSet) := sigemptyset in
    when (r ==? -1) (
      e <- errno ;;
      fprintf stderr "Failed to sigemptyset() - %s\n" [Str (strerror e)] ;;
      exit EXIT_FAILURE) ;;
    '(r, _) <- sys (Sigprocmask SIG_SETMASK (Some sigSet)) ;;
    when (r ==? -1) (
      e <- errno ;;
      fprintf stderr "Failed to set signal mask - %s\n" [Str (strerror e)] ;;
      exit EXIT_FAILURE)) ;;
  g <- await deliveries globals0 ;;
  report argv.[0] g ;;
  Ret EXIT_SUCCESS.
End sig_receiver.

(** ** catch_rtsigs.c

    A delivery carries the information of the signal. *)
Module catch_rtsigs.
Record siginfo := Siginfo { si_signo : Z; si_code : Z; si_value : Z; si_pid : Z; si_uid : Z }.
Record globals := Globals { handlerSleepTime : Z; numSigsCaught : Z; isDone : bool }.

Definition getUnsignedLong `{CText} (str : string) : prog Z :=
  set_errno 0 ;;
  result <- strtoul str 0 ;;
  e <- errno ;;
  when ((e !=? 0) || negb (streq (st_end result) "")) (
    e <- errno ;;
    fprintf stderr "Failed convert %s to unsigned long - %s\n" [Str str; Str (strerror e)] ;;
    exit EXIT_FAILURE) ;;
  Ret (st_val result).

Definition sigHandler (signal : Z) (sigInfo : siginfo) (g : globals) : prog globals :=
  if (signal ==? SIGINT) || (signal ==? SIGTERM) then
    Ret (Globals (handlerSleepTime g) (numSigsCaught g) true)
  else
  printf "Caught signal %d\n" [Int signal] ;;
  printf "\tsi_signo=%d, si_code=%d (%s), si_value=%d\n"
    [Int (si_signo sigInfo); Int (si_code sigInfo);
     Str (if si_code sigInfo ==? SI_USER then "SI_USER"
          else if si_code sigInfo ==? SI_QUEUE then "SI_QUEUE" else "other");
     Int (si_value sigInfo)] ;;
  printf "\tsi_pid=%ld, si_uid=%ld\n\n" [Int (si_pid sigInfo); Int (si_uid sigInfo)] ;;
  sys (Sleep (u32 (handlerSleepTime g))) ;;
  Ret (Globals (handlerSleepTime g) (u64 (numSigsCaught g + 1)) (isDone g)).

(** [while (!isDone) pause ();] with a delivery for each [pause] that returns. *)
Fixpoint await (deliveries : list siginfo) (g : globals) : prog globals :=
  if isDone g then Ret g else
  sys Pause ;;
  match deliveries with
  | [] => ITree.spin
  | info :: deliveries => g <- sigHandler (si_signo info) info g ;; await deliveries g
  end.

Definition main `{CText} (deliveries : list siginfo) (argv : list string) : prog Z :=
  when ((1 <? argc argv) && streq argv.[1] "-h") (
    fprintf stderr "Usage: %s [<block time> [<handler sleep time>]]\n" [Str argv.[0]] ;;
    exit EXIT_FAILURE) ;;
  p <- sys Getpid ;;
  printf "%s: PID is %ld\n" [Str argv.[0]; Int p] ;;
  handlerSleepTime <- (if 2 <? argc argv then getUnsignedLong argv.[2] else Ret 1) ;;
  let '(r, sa_mask) := sigemptyset in
  when (r ==? -1) (
    e <- errno ;;
    fprintf stderr "Failed to set empty signal handler mask - %s\n" [Str (strerror e)] ;;
    exit EXIT_FAILURE) ;;
  for_ 1 NSIG (fun i =>
    when ((i !=? SIGTSTP) && (i !=? SIGQUIT)) (
      sys (Sigaction i (SigFun "sigHandler") sa_mask SA_SIGINFO) ;; Ret tt)) ;;
  when (1 <? argc argv) (
    let '(r, mask) := sigfillset in
    when (r ==? -1) (
      e <- errno ;;
      fprintf stderr "Failed to sigfillset() process mask - %s\n" [Str (strerror e)] ;;
      exit EXIT_FAILURE) ;;
    let allowedSignals := [SIGINT; SIGQUIT] in
    mask <- for_loop 0 2 (fun i mask =>
      let sig := nth (Z.to_nat i) allowedSignals 0 in
      let '(r, mask) := sigdelset mask sig in
      when (r ==? -1) (
        e <- errno ;;
        fprintf stderr "Failed to sigdelset() %s from process mask - %s"
          [Str (strsignal sig); Str (strerror e)] ;;
        exit EXIT_FAILURE) ;;
      Ret mask) mask ;;
    '(r, prevMask) <- sys (Sigprocmask SIG_SETMASK (Some mask)) ;;
    when (r ==? -1) (
      e <- errno ;;
      fprintf stderr "Failed to set sigprocmask() - %s\n" [Str (strerror e)] ;;
      exit EXIT_FAILURE) ;;
    blockTime <- getUnsignedLong argv.[1] ;;
    printf "%s: signals blocked - sleeping %lu seconds\n" [Str argv.[0]; Int blockTime] ;;
    sys (Sleep (u32 blockTime)) ;;
    printf "%s: sleep complete\n" [Str argv.[0]] ;;
    '(r, _) <- sys (Sigprocmask SIG_SETMASK (Some prevMask)) ;;
    when (r ==? -1) (
      e <- errno ;;
      fprintf stderr "Failed to restore sigprocmask() - %s\n" [Str (strerror e)] ;;
      exit EXIT_FAILURE)) ;;
  g <- await deliveries (Globals handlerSleepTime 0 false) ;;
  printf "Caught %lu signals\n" [Int (numSigsCaught g)] ;;
  Ret EXIT_SUCCESS.
End catch_rtsigs.

(** ** intquit.c

    [count] is the static variable of the handler. *)
Module intquit.
Definition sigHandler (sig count : Z) : prog Z :=
  if sig ==? SIGINT then
    let count := i32 (count + 1) in
    printf "Caught SIGINT - (%d)\n" [Int count] ;;
    Ret count
  else if sig ==? SIGQUIT then
    printf "Caught SIGQUIT - that's all folks!\n" [] ;;
    exit EXIT_SUCCESS
  else
    fprintf stderr "Caught unhandled signal %d\n" [Int sig] ;;
    exit EXIT_FAILURE.

(** [for (;;) pause ();] *)
Fixpoint await (deliveries : list Z) (count : Z) : prog unit :=
  sys Pause ;;
  match deliveries with
  | [] => ITree.spin
  | sig :: deliveries => count <- sigHandler sig count ;; await deliveries count
  end.

Definition main `{CText} (deliveries : list Z) (argv : list string) : prog Z :=
  r <- sys (Signal SIGINT (SigFun "sigHandler")) ;;
  when (r ==? -1) (
    e <- errno ;;
    fprintf stderr "Failed to set signal handler for SIGINT - %s\n" [Str (strerror e)] ;;
    exit EXIT_FAILURE) ;;
  r <- sys (Signal SIGQUIT (SigFun "sigHandler")) ;;
  when (r ==? -1) (
    e <- errno ;;
    fprintf stderr "Failed to set signal handler for SIGQUIT - %s\n" [Str (strerror e)] ;;
    exit EXIT_FAILURE) ;;
  await deliveries 0 ;;
  Ret EXIT_SUCCESS.
End intquit.

(** ** ouch.c *)
Module ouch.
Definition sigHandler (sig : Z) : prog unit := printf "Ouch\n" [].

Definition main `{CText} (argv : list string) : prog Z :=
  r <- sys (Signal SIGINT (SigFun "sigHandler")) ;;
  when (r ==? -1) (
    e <- errno ;;
    fprintf stderr "Failed to set SIGINT handler - %s\n" [Str (strerror e)] ;;
    exit EXIT_FAILURE) ;;
  ITree.iter (fun i => printf "%d\n" [Int i] ;; sys (Sleep 3) ;; Ret (inl (i32 (i + 1)))) 0.
End ouch.

(** ** sigmask_longjmp.c

    The handler returns whether it jumps; the jump goes on at [setjmp] with the
    answer 1, and the signals delivered later wait in the same loop. *)
Module sigmask_longjmp.
Definition handler `{CText} (sig : Z) (canJump : bool) : prog bool :=
  printf "Received signal %d (%s), signal mask is:\n" [Int sig; Str (strsignal sig)] ;;
  SignalFunctions.printSigMask stdout None ;;
  if negb canJump then
    printf "'env' buffer not yet set, doing a simple return\n" [] ;;
    Ret false
  else Ret true.

(** From the point of [setjmp], which answers [setjmp]. *)
Fixpoint resume `{CText} (deliveries : list Z) (canJump : bool) (setjmp : Z) : prog Z :=
  canJump <- (if setjmp ==? 0 then Ret true
              else SignalFunctions.printSigMask stdout (Some (format "After jump from handler, signal mask is:\n" [])) ;;
                   Ret canJump) ;;
  (fix await (deliveries : list Z) : prog Z :=
     sys Pause ;;
     match deliveries with
     | [] => ITree.spin
     | sig :: deliveries =>
         jumps <- handler sig canJump ;;
         if jumps : bool then resume deliveries canJump 1 else await deliveries
     end) deliveries.

Definition main `{CText} (deliveries : list Z) (argv : list string) : prog Z :=
  let '(r, sa_mask) := sigemptyset in
  when (r ==? -1) (
    e <- errno ;;
    fprintf stderr "Failed to set mask to sigemptyset() - %s\n" [Str (strerror e)] ;;
    exit EXIT_FAILURE) ;;
  r <- sys (Sigaction SIGINT (SigFun "handler") sa_mask 0) ;;
  when (r ==? -1) (
    e <- errno ;;
    fprintf stderr "Failed to set sigaction() for SIGINT - %s\n" [Str (strerror e)] ;;
    exit EXIT_FAILURE) ;;
  printf "Calling setjmp()\n" [] ;;
  resume deliveries false 0.
End sigmask_longjmp.

(** ** t_sigaltstack.c

    The recursion without an end is a loop; the address of a local variable is
    asked of the system. *)
Module t_sigaltstack.
Definition SIGSTKSZ : Z := 8192.

Definition handler `{CText} (sig : Z) : prog unit :=
  printf "Caught signal %d (%s)\n" [Int sig; Str (strsignal sig)] ;;
  j <- sys StackAddr ;;
  printf "Top of handler stack is near %10p\n" [Int j] ;;
  fflush stdout ;;
  _exit EXIT_FAILURE.

Definition overflowStack (i : Z) : prog unit :=
  ITree.iter (fun i =>
    tmp <- sys StackAddr ;;
    printf "Call %4d - top of stack near %10p\n" [Int i; Int tmp] ;;
    Ret (inl (i32 (i + 1)))) i.

(** The flags and, but for the call that clears it, the mask of the action are
    not set in the source. *)
Definition main `{CText} (sa_flags : Z) : prog Z :=
  j <- sys StackAddr ;;
  printf "Top of std stack is near %10p\n" [Int j] ;;
  ss_sp <- sys (Malloc SIGSTKSZ) ;;
  when (ss_sp ==? 0) (
    e <- errno ;;
    fprintf stderr "Failed to malloc() %ld bytes for sigaltstack - %s\n" [Int SIGSTKSZ; Str (strerror e)] ;;
    exit EXIT_FAILURE) ;;
  r <- sys (Sigaltstack SIGSTKSZ) ;;
  when (r ==? -1) (
    e <- errno ;;
    fprintf stderr "Failed to set sigaltstack() - %s\n" [Str (strerror e)] ;;
    exit EXIT_FAILURE) ;;
  b <- sys (Sbrk 0) ;;
  printf "Alternate stack is at    %10p-%p\n" [Int ss_sp; Int (b - 1)] ;;
  let '(r, sa_mask) := sigemptyset in
  when (r ==? -1) (
    e <- errno ;;
    fprintf stderr "Failed to set sigaction mask to emptysigset() - %s\n" [Str (strerror e)] ;;
    exit EXIT_FAILURE) ;;
  r <- sys (Sigaction SIGSEGV (SigFun "handler") sa_mask sa_flags) ;;
  when (r ==? -1) (
    e <- errno ;;
    fprintf stderr "Failed to set sigaction() for SIGSEGV - %s\n" [Str (strerror e)] ;;
    exit EXIT_FAILURE) ;;
  overflowStack 1 ;;
  Ret EXIT_SUCCESS.
End t_sigaltstack.

(** ** nonreentrant.c

    [deliveries] says for each round of the loop how many signals are handled
    before its call of [crypt]. *)
Module nonreentrant.
Definition sigHandler (str2 : string) (handled : Z) : prog Z :=
  sys (Crypt str2 "xx") ;;
  Ret (i64 (handled + 1)).

Fixpoint handle (n : nat) (str2 : string) (handled : Z) : prog Z :=
  match n with
  | O => Ret handled
  | S n => handled <- sigHandler str2 handled ;; handle n str2 handled
  end.

(** The endless loop; the variables are [i], [numMismatch] and [handled]. *)
Definition compare (deliveries : list nat) (str1 str2 expectedHash : string) : prog Z :=
  ITree.iter (fun '(i, numMismatch, handled) =>
    handled <- handle (nth (Z.to_nat i) deliveries O) str2 handled ;;
    hash <- sys (Crypt str1 "xx") ;;
    match hash with
    | None => crash
    | Some hash =>
        if negb (streq hash expectedHash) then
          printf "Mismatch on call %ld (mismatch=%ld handled=%ld)\n"
            [Int i; Int (i64 (numMismatch + 1)); Int handled] ;;
          Ret (inl (i64 (i + 1), i64 (numMismatch + 1), handled))
        else Ret (inl (i64 (i + 1), numMismatch, handled))
    end) (0, 0, 0).

Definition main `{CText} (deliveries : list nat) (argv : list string) : prog Z :=
  when ((argc argv !=? 3) || streq argv.[1] "-h") (
    fprintf stderr "Usage: %s <str1> <str2>\n" [Str argv.[0]] ;;
    exit EXIT_FAILURE) ;;
  let str1 := argv.[1] in
  let str2 := argv.[2] in
  hash <- sys (Crypt str1 "xx") ;;
  match hash with
  | None => crash
  | Some hash =>
  ok <- sys (Strdup hash) ;;
  when (negb ok) (
    e <- errno ;;
    fprintf stderr "Failed to strdup() %s - %s\n" [Str str1; Str (strerror e)] ;;
    exit EXIT_FAILURE) ;;
  let '(r, sa_mask) := sigemptyset in
  when (r ==? -1) (
    e <- errno ;;
    fprintf stderr "Failed to sigemtpyset() signal mask - %s\n" [Str (strerror e)] ;;
    exit EXIT_FAILURE) ;;
  r <- sys (Sigaction SIGINT (SigFun "sigHandler") sa_mask 0) ;;
  when (r ==? -1) (
    e <- errno ;;
    fprintf stderr "Failed to set sigaction() for INTQUIT - %s\n" [Str (strerror e)] ;;
    exit EXIT_FAILURE) ;;
  compare deliveries str1 str2 hash
  end.
End nonreentrant.
