(* ===== verification/Procs.v ===== *)
(** * Processes: procexec/, mmap/, proc/, proccred/, memalloc/, users_groups/

    A program that forks is given from the side of each process: the answer of
    [Fork] is 0 in the child. *)

From S2P Require Import Prelude.
From S2P Require Import CLib.
From S2P Require Import Sys.
From S2P Require Import Sem.

Definition F_GETFD : Z := 1.
Definition F_SETFD : Z := 2.
Definition MAP_SHARED : Z := 1.
Definition MAP_PRIVATE : Z := 2.
Definition MAP_ANONYMOUS : Z := 32.
Definition PROT_READ : Z := 1.
Definition PROT_WRITE : Z := 2.
Definition MS_SYNC : Z := 4.
Definition NGROUPS_MAX : Z := 65536.
Definition _SC_LOGIN_NAME_MAX : Z := 71.

(** ** fork_file_sharing.c *)
Module fork_file_sharing.
(** What the child does to the shared open file. *)
Definition child `{CText} (fd : Z) (filepath : string) : prog unit :=
  r <- sys (Lseek fd 1000 SEEK_SET) ;;
  when (r ==? -1) (
    e <- errno ;;
    fprintf stderr "Failed to lseek() %s - %s\n" [Str filepath; Str (strerror e)] ;;
    exit EXIT_FAILURE) ;;
  flags <- sys (Fcntl fd F_GETFD 0) ;;
  when (flags ==? -1) (
    e <- errno ;;
    fprintf stderr "Failed to get file flags from %s - %s\n" [Str filepath; Str (strerror e)] ;;
    exit EXIT_FAILURE) ;;
  r <- sys (Fcntl fd F_SETFD (flags .| O_APPEND)) ;;
  when (r ==? -1) (
    e <- errno ;;
    fprintf stderr "Failed to set O_APPEND flag on fd via fcntl() - %s\n" [Str (strerror e)] ;;
    exit EXIT_FAILURE).

Definition parent `{CText} (fd : Z) (filepath : string) : prog unit :=
  r <- sys Wait ;;
  when (r ==? -1) (
    e <- errno ;;
    fprintf stderr "Failed to wait() on child process - %s\n" [Str (strerror e)] ;;
    exit EXIT_FAILURE) ;;
  printf "Child process has exited\n" [] ;;
  offset <- sys (Lseek fd 0 SEEK_CUR) ;;
  when (offset ==? -1) (
    e <- errno ;;
    fprintf stderr "Failed to lseek() %s - %s\n" [Str filepath; Str (strerror e)] ;;
    exit EXIT_FAILURE) ;;
  printf "File offset in parent: %lld\n" [Int offset] ;;
  flags <- sys (Fcntl fd F_GETFD 0) ;;
  when (flags ==? -1) (
    e <- errno ;;
    fprintf stderr "Failed to get file flags from %s - %s\n" [Str filepath; Str (strerror e)] ;;
    exit EXIT_FAILURE) ;;
  printf "O_APPEND flag in parent is: %s\n" [Str (if has_bit flags O_APPEND then "on" else "off")] ;;
  r <- sys (Unlink filepath) ;;
  when (r ==? -1) (
    e <- errno ;;
    fprintf stderr "Failed to unlink() %s - %s\n" [Str filepath; Str (strerror e)]).

Definition main `{CText} : prog Z :=
  setbuf stdout ;;
  '(fd, filepath) <- sys (Mkstemp "test_XXXXXX") ;;
  when (fd ==? -1) (
    e <- errno ;;
    fprintf stderr "Failed to mkstemp() - %s\n" [Str (strerror e)] ;;
    exit EXIT_FAILURE) ;;
  offset <- sys (Lseek fd 0 SEEK_CUR) ;;
  printf "File offset before fork(): %lld\n" [Int offset] ;;
  flags <- sys (Fcntl fd F_GETFD 0) ;;
  when (flags ==? -1) (
    e <- errno ;;
    fprintf stderr "Failed to get file flags from %s - %s\n" [Str filepath; Str (strerror e)] ;;
    exit EXIT_FAILURE) ;;
  printf "O_APPEND flag before fork() is: %s\n" [Str (if has_bit flags O_APPEND then "on" else "off")] ;;
  pid <- sys Fork ;;
  (if pid ==? -1 then
     e <- errno ;;
     fprintf stderr "Failed to fork() child process - %s\n" [Str (strerror e)]
   else if pid ==? 0 then child fd filepath
   else parent fd filepath) ;;
  Ret EXIT_SUCCESS.
End fork_file_sharing.

(** ** multi_wait.c *)
Module multi_wait.
Definition TIME_STR_BUFFER_SIZE : Z := 500.

Definition getUint `{CText} (str : string) : prog Z :=
  set_errno 0 ;;
  result <- strtoul str 0 ;;
  e <- errno ;;
  when ((e !=? 0) || negb (streq (st_end result) "")) (
    e <- errno ;;
    fprintf stderr "Failed to convert %s strtoul() - %s\n" [Str str; Str (strerror e)] ;;
    exit EXIT_FAILURE) ;;
  Ret (u32 (st_val result)).

(** The result and the buffer. *)
Definition getCurrTimeStr (bufferSize : Z) : prog (Z * string) :=
  currTime <- sys Time ;;
  currLocalTime <- sys (Localtime currTime) ;;
  match currLocalTime with
  | None => Ret (-1, "")
  | Some t =>
      '(n, buffer) <- sys (Strftime bufferSize "%T" t) ;;
      if n ==? 0 then Ret (-1, "") else Ret (0, buffer)
  end.

Definition child `{CText} (argv : list string) (i : Z) : prog unit :=
  '(r, timeStr) <- getCurrTimeStr TIME_STR_BUFFER_SIZE ;;
  when (r ==? -1) (
    e <- errno ;;
    fprintf stderr "Failed to get current time - %s" [Str (strerror e)] ;;
    _exit EXIT_FAILURE) ;;
  p <- sys Getpid ;;
  printf "[%s] child %d started with PID %ld, sleeping %s seconds\n"
    [Str timeStr; Int i; Int p; Str argv.[i]] ;;
  secs <- getUint argv.[i] ;;
  sys (Sleep secs) ;;
  _exit EXIT_SUCCESS.

(** The loop that makes the children, in the parent. *)
Definition fork_all `{CText} (argv : list string) : prog unit :=
  for_ 1 (argc argv) (fun i =>
    pid <- sys Fork ;;
    if pid ==? -1 then
      e <- errno ;;
      fprintf stderr "Failed to fork() child process - %s\n" [Str (strerror e)] ;;
      exit EXIT_FAILURE
    else when (pid ==? 0) (child argv i)).

(** The loop that waits for them, with the number of the next one. *)
Definition wait_all `{CText} : prog unit :=
  ITree.iter (fun i =>
    childPid <- sys Wait ;;
    if childPid ==? -1 then Ret (inr tt) else
    '(r, timeStr) <- getCurrTimeStr TIME_STR_BUFFER_SIZE ;;
    when (r ==? -1) (
      e <- errno ;;
      fprintf stderr "Failed to get current time - %s" [Str (strerror e)] ;;
      _exit EXIT_FAILURE) ;;
    printf "[%s] wait() returned child PID %ld (numDead=%d)\n" [Str timeStr; Int childPid; Int i] ;;
    Ret (inl (i + 1))) 1.

Definition main `{CText} (argv : list string) : prog Z :=
  when ((argc argv <? 2) || streq argv.[1] "-h") (
    fprintf stderr "Usage: %s <sleep-time>...\n" [Str argv.[0]] ;;
    exit EXIT_FAILURE) ;;
  setbuf stdout ;;
  fork_all argv ;;
  wait_all ;;
  e <- errno ;;
  when (e !=? ECHILD) (
    e <- errno ;;
    fprintf stderr "Failed to wait() for child process - %s\n" [Str (strerror e)] ;;
    exit EXIT_FAILURE) ;;
  Ret EXIT_SUCCESS.
End multi_wait.

(** ** t_acct_on.c *)
Module t_acct_on.
Definition main `{CText} (argv : list string) : prog Z :=
  when ((2 <? argc argv) || ((1 <? argc argv) && streq argv.[1] "-h")) (
    fprintf stderr "Usage: %s [<file>]\n" [Str argv.[0]] ;;
    exit EXIT_FAILURE) ;;
  let file := if 1 <? argc argv then Some argv.[1] else None in
  let text := match file with None => "off" | Some _ => "on" end in
  r <- sys (Acct file) ;;
  when (r ==? -1) (
    e <- errno ;;
    fprintf stderr "Failed to turn accounting %s - %s\n" [Str text; Str (strerror e)] ;;
    exit EXIT_FAILURE) ;;
  printf "Turned accounting %s\n" [Str text] ;;
  Ret EXIT_SUCCESS.
End t_acct_on.

(** ** t_fork.c *)
Module t_fork.
Definition main `{CText} : prog Z :=
  let iData := 111 in
  let iStack := 222 in
  pid <- sys Fork ;;
  '(iData, iStack) <- (
    if pid ==? -1 then
      e <- errno ;;
      fprintf stderr "Failed to fork() child process - %s\n" [Str (strerror e)] ;;
      Ret (iData, iStack)
    else if pid ==? 0 then Ret (iData * 3, iStack * 3)
    else sys (Sleep 3) ;; Ret (iData, iStack)) ;;
  p <- sys Getpid ;;
  printf "PID=%ld (%s) iData=%d iStack=%d\n"
    [Int p; Str (if pid ==? 0 then "child" else "parent"); Int iData; Int iStack] ;;
  Ret EXIT_SUCCESS.
End t_fork.

(** ** anon_mmap.c

    The mapping is accessed as [char]s. *)
Module anon_mmap.
Definition load_char (addr : Z) : prog Z :=
  s <- sys (LoadBytes addr 1) ;; Ret (schar (snth 0 s)).
Definition store_char (addr v : Z) : prog unit := sys (StoreBytes addr (String (chr v) "")).

Definition child `{CText} (addr : Z) : prog Z :=
  v <- load_char addr ;;
  printf "Child started, value = %d\n" [Int v] ;;
  v <- load_char addr ;;
  store_char addr (v + 1) ;;
  r <- sys (Munmap addr sizeof_int) ;;
  when (r ==? -1) (
    e <- errno ;;
    fprintf stderr "Failed to munmap() - %s\n" [Str (strerror e)] ;;
    _exit EXIT_FAILURE) ;;
  _exit EXIT_SUCCESS.

Definition parent `{CText} (addr : Z) : prog Z :=
  r <- sys Wait ;;
  when (r ==? -1) (
    e <- errno ;;
    fprintf stderr "Failed to wait() on child process - %s\n" [Str (strerror e)] ;;
    exit EXIT_FAILURE) ;;
  v <- load_char addr ;;
  printf "In parent, value = %d\n" [Int v] ;;
  r <- sys (Munmap addr sizeof_int) ;;
  when (r ==? -1) (
    e <- errno ;;
    fprintf stderr "Failed to munmap() - %s\n" [Str (strerror e)] ;;
    _exit EXIT_FAILURE) ;;
  Ret EXIT_SUCCESS.

Definition main `{CText} : prog Z :=
  addr <- sys (Mmap sizeof_int (PROT_READ .| PROT_WRITE) (MAP_SHARED .| MAP_ANONYMOUS) (-1) 0) ;;
  when (addr ==? -1) (
    e <- errno ;;
    fprintf stderr "Anonymous mmap() failed - %s\n" [Str (strerror e)] ;;
    exit EXIT_FAILURE) ;;
  store_char addr 1 ;;
  pid <- sys Fork ;;
  if pid ==? -1 then
    e <- errno ;;
    fprintf stderr "Failed to fork() child process - %s\n" [Str (strerror e)] ;;
    exit EXIT_FAILURE
  else if pid ==? 0 then child addr
  else parent addr.
End anon_mmap.

(** ** mmcat.c *)
Module mmcat.
Definition main `{CText} (argv : list string) : prog Z :=
  when ((argc argv !=? 2) || streq argv.[1] "-h") (
    fprintf stderr "Usage: %s <pathname>\n" [Str argv.[0]] ;;
    exit EXIT_FAILURE) ;;
  let pathname := argv.[1] in
  fd <- sys (Open pathname O_RDONLY 0) ;;
  when (fd ==? -1) (
    e <- errno ;;
    fprintf stderr "Failed to open() %s - %s\n" [Str pathname; Str (strerror e)] ;;
    exit EXIT_FAILURE) ;;
  '(r, statbuf) <- sys (Fstat fd) ;;
  when (r ==? -1) (
    e <- errno ;;
    fprintf stderr "Failed to fstat() %s - %s\n" [Str pathname; Str (strerror e)] ;;
    exit EXIT_FAILURE) ;;
  addr <- sys (Mmap (st_size statbuf) PROT_READ MAP_PRIVATE fd 0) ;;
  when (addr ==? -1) (
    e <- errno ;;
    fprintf stderr "Failed to mmap() %s - %s\n" [Str pathname; Str (strerror e)] ;;
    exit EXIT_FAILURE) ;;
  r <- sys (Close fd) ;;
  when (r ==? -1) (
    e <- errno ;;
    fprintf stderr "Failed to close() %s - %s\n" [Str pathname; Str (strerror e)] ;;
    exit EXIT_FAILURE) ;;
  data <- sys (LoadBytes addr (st_size statbuf)) ;;
  r <- sys (Write STDOUT_FILENO data) ;;
  when (r !=? st_size statbuf) (
    e <- errno ;;
    fprintf stderr "Failed to write() - %s\n" [Str (strerror e)] ;;
    exit EXIT_FAILURE) ;;
  r <- sys (Munmap addr (st_size statbuf)) ;;
  when (r ==? -1) (
    e <- errno ;;
    fprintf stderr "Failed to munmap() %s - %s\n" [Str pathname; Str (strerror e)] ;;
    exit EXIT_FAILURE) ;;
  Ret EXIT_SUCCESS.
End mmcat.

(** ** t_mmap.c *)
Module t_mmap.
(** [memset], then [strncpy] with a length of type [size_t]; each writes the bytes
    given here. *)
Definition update `{CText} (argv : list string) (addr size : Z) : prog unit :=
  sys (StoreBytes addr (srepeat (Z.to_nat size) nul)) ;;
  sys (StoreBytes addr (strncpy argv.[2] (u64 (size - 1)) "")) ;;
  r <- sys (Msync addr size MS_SYNC) ;;
  when (r ==? -1) (
    e <- errno ;;
    fprintf stderr "Failed to msync() %s - %s\n" [Str argv.[1]; Str (strerror e)] ;;
    exit EXIT_FAILURE) ;;
  printf "Copied \042%s\042 to shared memory\n" [Str argv.[2]].

Definition main `{CText} (argv : list string) : prog Z :=
  when ((argc argv <? 2) || streq argv.[1] "-h") (
    fprintf stderr "Usage: %s <pathname> [<new-value>]\n" [Str argv.[0]] ;;
    exit EXIT_FAILURE) ;;
  let pathname := argv.[1] in
  fd <- sys (Open pathname O_RDWR 0) ;;
  when (fd ==? -1) (
    e <- errno ;;
    fprintf stderr "Failed to open() %s - %s\n" [Str pathname; Str (strerror e)] ;;
    exit EXIT_FAILURE) ;;
  '(r, statbuf) <- sys (Fstat fd) ;;
  when (r ==? -1) (
    e <- errno ;;
    fprintf stderr "Failed to fstat() %s - %s\n" [Str pathname; Str (strerror e)] ;;
    exit EXIT_FAILURE) ;;
  addr <- sys (Mmap (st_size statbuf) (PROT_READ .| PROT_WRITE) MAP_SHARED fd 0) ;;
  when (addr ==? -1) (
    e <- errno ;;
    fprintf stderr "Failed to mmap() %s - %s\n" [Str pathname; Str (strerror e)] ;;
    exit EXIT_FAILURE) ;;
  r <- sys (Close fd) ;;
  when (r ==? -1) (
    e <- errno ;;
    fprintf stderr "Failed to close() %s - %s\n" [Str pathname; Str (strerror e)] ;;
    exit EXIT_FAILURE) ;;
  let n := i32 (st_size statbuf) in
  data <- (if n <? 0 then sys (LoadString addr) else sys (LoadBytes addr n)) ;;
  printf "Current string=%.*s\n" [Int n; Str data] ;;
  when (2 <? argc argv) (update argv addr (st_size statbuf)) ;;
  r <- sys (Munmap addr (st_size statbuf)) ;;
  when (r ==? -1) (
    e <- errno ;;
    fprintf stderr "Failed to munmap() %s - %s\n" [Str pathname; Str (strerror e)] ;;
    exit EXIT_FAILURE) ;;
  Ret EXIT_SUCCESS.
End t_mmap.

(** ** display_env.c *)
Module display_env.
(** [puts] of each string of the environment. *)
Fixpoint put_all (strings : list string) : prog unit :=
  match strings with
  | [] => Ret tt
  | p :: strings => printf "%s\n" [Str p] ;; put_all strings
  end.

Definition main : prog Z :=
  environ <- sys Environ ;;
  put_all environ ;;
  Ret 0.
End display_env.

(** ** modify_env.c *)
Module modify_env.
Definition put_args `{CText} (argv : list string) : prog unit :=
  for_ 1 (argc argv) (fun i =>
    r <- sys (Putenv argv.[i]) ;;
    when (r !=? 0) (
      e <- errno ;;
      fprintf stderr "Failed to put env %s - %s\n" [Str argv.[i]; Str (strerror e)] ;;
      exit EXIT_FAILURE)).

Definition main `{CText} (argv : list string) : prog Z :=
  r <- sys Clearenv ;;
  when (r !=? 0) (
    e <- errno ;;
    fprintf stderr "Failed to clear env - %s\n" [Str (strerror e)] ;;
    exit EXIT_FAILURE) ;;
  put_args argv ;;
  r <- sys (Setenv "GREET" "Hello World" 0) ;;
  when (r ==? -1) (
    e <- errno ;;
    fprintf stderr "Failed to put env %s - %s\n" [Str "GREET"; Str (strerror e)] ;;
    exit EXIT_FAILURE) ;;
  r <- sys (Unsetenv "BYE") ;;
  when (r ==? -1) (
    e <- errno ;;
    fprintf stderr "Failed to unset env %s - %s\n" [Str "BYE"; Str (strerror e)] ;;
    exit EXIT_FAILURE) ;;
  environ <- sys Environ ;;
  display_env.put_all environ ;;
  Ret 0.
End modify_env.

(** ** longjmp.c

    A function returns, or jumps to the point where [setjmp] was called with a
    value; [main] goes on from there with the value as the answer of [setjmp]. *)
Module longjmp.
Inductive jump (A : Type) := Return (a : A) | Longjmp (val : Z).
Arguments Return {A} a.
Arguments Longjmp {A} val.

Definition f2 : prog (jump unit) := Ret (Longjmp 2).
Definition f1 (argc : Z) : prog (jump unit) :=
  if argc ==? 1 then Ret (Longjmp 1) else f2.

Definition main (argv : list string) : prog Z :=
  ITree.iter (fun setjmp =>
    if setjmp ==? 0 then
      j <- f1 (argc argv) ;;
      match j with
      | Longjmp val => Ret (inl (if val ==? 0 then 1 else val))
      | Return _ => Ret (inr tt)
      end
    else if setjmp ==? 1 then printf "Jumped from f1\n" [] ;; Ret (inr tt)
    else if setjmp ==? 2 then printf "Jumped from f2\n" [] ;; Ret (inr tt)
    else Ret (inr tt)) 0 ;;
  Ret 0.
End longjmp.

(** ** idshow.c

    The names of a line are arguments of one [printf], taken here from left to
    right. *)
Module idshow.
Definition getUsernameFromUID `{CText} (uid : Z) : prog string :=
  entry <- sys (Getpwuid uid) ;;
  match entry with
  | None =>
      e <- errno ;;
      fprintf stderr "Failed to get user from UID %ld - %s\n" [Int uid; Str (strerror e)] ;;
      exit EXIT_FAILURE
  | Some p => Ret (pw_name p)
  end.

Definition getGroupnameFromGID `{CText} (gid : Z) : prog string :=
  entry <- sys (Getgrgid gid) ;;
  match entry with
  | None =>
      e <- errno ;;
      fprintf stderr "Failed to get group from GID %ld - %s\n" [Int gid; Str (strerror e)] ;;
      exit EXIT_FAILURE
  | Some g => Ret (gr_name g)
  end.

Definition show_groups `{CText} (groups : list Z) (numGroups : Z) : prog unit :=
  for_ 0 numGroups (fun i =>
    let gid := nth (Z.to_nat i) groups 0 in
    name <- getGroupnameFromGID gid ;;
    printf "%s(%ld)\n" [Str name; Int gid]).

Definition main `{CText} : prog Z :=
  '(r, (ruid, euid, suid)) <- sys Getresuid ;;
  when (r ==? -1) (
    e <- errno ;;
    fprintf stderr "Failed to get uids - %s\n" [Str (strerror e)] ;;
    exit EXIT_FAILURE) ;;
  '(r, (rgid, egid, sgid)) <- sys Getresgid ;;
  when (r ==? -1) (
    e <- errno ;;
    fprintf stderr "Failed to get gids - %s\n" [Str (strerror e)] ;;
    exit EXIT_FAILURE) ;;
  r <- sys (Setfsuid 0) ;;
  let fsuid := u32 r in
  r <- sys (Setfsgid 0) ;;
  let fsgid := u32 r in
  rname <- getUsernameFromUID ruid ;;
  ename <- getUsernameFromUID euid ;;
  sname <- getUsernameFromUID suid ;;
  fsname <- getUsernameFromUID fsuid ;;
  printf "RUID=%s (%ld); EUID=%s (%ld); SUID=%s (%ld); FSUID=%s (%ld)\n"
    [Str rname; Int ruid; Str ename; Int euid; Str sname; Int suid; Str fsname; Int fsuid] ;;
  rname <- getGroupnameFromGID rgid ;;
  ename <- getGroupnameFromGID egid ;;
  sname <- getGroupnameFromGID sgid ;;
  fsname <- getGroupnameFromGID fsgid ;;
  printf "RGID=%s (%ld); EGID=%s (%ld); SGID=%s (%ld); FSGID=%s (%ld)\n"
    [Str rname; Int rgid; Str ename; Int egid; Str sname; Int sgid; Str fsname; Int fsgid] ;;
  '(numGroups, groups) <- sys (Getgroups (NGROUPS_MAX + 1)) ;;
  when (numGroups ==? -1) (
    e <- errno ;;
    fprintf stderr "Failed to get supplementary groups - %s\n" [Str (strerror e)] ;;
    exit EXIT_FAILURE) ;;
  printf "Supplementary groups (%d):\n" [Int numGroups] ;;
  show_groups groups numGroups ;;
  printf "\n" [] ;;
  Ret 0.
End idshow.

(** ** free_and_sbrk.c *)
Module free_and_sbrk.
Definition MAX_ALLOCS : Z := 1000000.

(** The result of [strtoul] is kept in a [long] and returned as an unsigned
    one. *)
Definition getUnsignedLong (str : string) : prog Z :=
  set_errno 0 ;;
  r <- strtoul str 0 ;;
  let n := i64 (st_val r) in
  e <- errno ;;
  when ((e !=? 0) || negb (st_conv r)) (
    fprintf stderr "Failed to convert %s to unsigned long\n" [Str str] ;;
    exit EXIT_FAILURE) ;;
  Ret (u64 n).

(** The blocks, in order. *)
Definition allocate `{CText} (numAllocs blockSize : Z) : prog (list Z) :=
  for_loop 0 numAllocs (fun i memBlocks =>
    p <- sys (Malloc blockSize) ;;
    when (p ==? 0) (
      e <- errno ;;
      fprintf stderr "Failed to allocate %lu bytes - %s\n" [Int blockSize; Str (strerror e)] ;;
      exit EXIT_FAILURE) ;;
    Ret (memBlocks ++ [p])) [].

(** The loop that frees them: [i] wraps around. *)
Definition release (memBlocks : list Z) (freeMin freeMax freeStep : Z) : prog unit :=
  ITree.iter (fun i =>
    if i <? freeMax then
      sys (Free (nth (Z.to_nat i) memBlocks 0)) ;;
      Ret (inl (u64 (i + freeStep)))
    else Ret (inr tt)) (u64 (freeMin - 1)).

Definition main `{CText} (argv : list string) : prog Z :=
  when ((argc argv <? 3) || streq argv.[1] "-h") (
    fprintf stderr "Usage: %s <num-allocs> <block-size> [<step> [<min> [<max>]]]\n" [Str argv.[0]] ;;
    exit EXIT_FAILURE) ;;
  numAllocs <- getUnsignedLong argv.[1] ;;
  when (MAX_ALLOCS <? numAllocs) (
    fprintf stderr "ERROR: Num allocs > MAX_ALLOCS (%d)\n" [Int MAX_ALLOCS] ;;
    exit EXIT_FAILURE) ;;
  blockSize <- getUnsignedLong argv.[2] ;;
  freeStep <- (if 3 <? argc argv then getUnsignedLong argv.[3] else Ret 1) ;;
  freeMin <- (if 4 <? argc argv then getUnsignedLong argv.[4] else Ret 1) ;;
  freeMax <- (if 5 <? argc argv then getUnsignedLong argv.[5] else Ret numAllocs) ;;
  when (numAllocs <? freeMax) (
    fprintf stderr "ERROR: freeMax (%lu) > numAllocs (%lu)\n" [Int freeMax; Int numAllocs] ;;
    exit EXIT_FAILURE) ;;
  b <- sys (Sbrk 0) ;;
  printf "Initial program break: %p\n\n" [Int b] ;;
  printf "Allocating %lu * %lu bytes\n" [Int numAllocs; Int blockSize] ;;
  memBlocks <- allocate numAllocs blockSize ;;
  b <- sys (Sbrk 0) ;;
  printf "Program break is now: %p\n\n" [Int b] ;;
  printf "Freeing blocks from %lu to %lu in steps of %lu\n" [Int freeMin; Int freeMax; Int freeStep] ;;
  release memBlocks freeMin freeMax freeStep ;;
  b <- sys (Sbrk 0) ;;
  printf "Program break is now: %p\n\n" [Int b] ;;
  Ret 0.
End free_and_sbrk.

(** ** check_passwd.c *)
Module check_passwd.
(** The line read, without the newline at its end. A line is not empty. *)
Definition strip_newline (s : string) : string :=
  if Ascii.eqb (snth (slen s - 1) s) "010" then stake (slen s - 1) s else s.

(** The loop that overwrites the plain text. *)
Definition erase (password : string) : string := smap (fun _ => nul) password.

Definition main `{CText} : prog Z :=
  printf "Username: " [] ;;
  fflush stdout ;;
  m <- sys (Sysconf _SC_LOGIN_NAME_MAX) ;;
  maxUsernameLength <- (if 0 <=? m then sys (Sysconf _SC_LOGIN_NAME_MAX) else Ret 256) ;;
  username <- sys (Malloc maxUsernameLength) ;;
  when (username ==? 0) (
    e <- errno ;;
    fprintf stderr "Failed to allocate %ld bytes for username - %s\n"
      [Int maxUsernameLength; Str (strerror e)] ;;
    exit EXIT_FAILURE) ;;
  line <- sys (Fgets maxUsernameLength) ;;
  match line with
  | None =>
      fprintf stderr "Failed to get username\n" [] ;;
      exit EXIT_FAILURE
  | Some line =>
  let name := strip_newline (cstr line) in
  set_errno 0 ;;
  passwdEntry <- sys (Getpwnam name) ;;
  match passwdEntry with
  | None =>
      e <- errno ;;
      (if e ==? 0 then fprintf stderr "Username %s not found\n" [Str name]
       else fprintf stderr "Failed to get passwd entry for %s - %s\n" [Str name; Str (strerror e)]) ;;
      exit EXIT_FAILURE
  | Some passwdEntry =>
  set_errno 0 ;;
  shadowEntry <- sys (Getspnam name) ;;
  e <- errno ;;
  when (match shadowEntry with None => e ==? EACCES | Some _ => false end) (
    fprintf stderr "No permissions to read shadow file - %s\n" [Str (strerror e)] ;;
    exit EXIT_FAILURE) ;;
  let encryptedPasswordEntry := default (pw_passwd passwdEntry) shadowEntry in
  password <- sys (Getpass "Password: ") ;;
  match password with
  | None =>
      e <- errno ;;
      fprintf stderr "Failed to get passwd - %s\n" [Str (strerror e)] ;;
      exit EXIT_FAILURE
  | Some password =>
  encryptedPassword <- sys (Crypt password encryptedPasswordEntry) ;;
  let password := erase password in
  match encryptedPassword with
  | None =>
      e <- errno ;;
      fprintf stderr "Failed to encrypt passwd - %s\n" [Str (strerror e)] ;;
      exit EXIT_FAILURE
  | Some encryptedPassword =>
  when (negb (streq encryptedPassword encryptedPasswordEntry)) (
    printf "Incorrect passwd\n" [] ;;
    exit EXIT_FAILURE) ;;
  printf "Successfully authenticated: UID=%ld\n" [Int (pw_uid passwdEntry)] ;;
  sys (Free username) ;;
  Ret 0
  end end end end.
End check_passwd.
