(* ===== verification/ProcSpec.v ===== *)
(** * Children of a process: procexec/multi_wait.c

    [ChildKernel] is what the program relies on: a fork adds a child with a new
    identifier, a wait takes one child away, and fails with ECHILD only when
    there is none. The theorem says that multi_wait makes one child per argument,
    reports each of them once when it ends, and ends when there are no more. *)

From S2P Require Import Prelude.
From S2P Require Import CLib.
From S2P Require Import Sys.
From S2P Require Import Sem.
From S2P Require Import Procs.

(** What a call does to the children of the process that goes on after it. *)
Definition child_post {X} (s : SysE X) : X -> option Z -> list Z -> list Z -> Prop :=
  match s in SysE X return X -> option Z -> list Z -> list Z -> Prop with
  | Fork => fun r _ c c' =>
      (r = -1 /\ c' = c) \/ (r = 0 /\ c' = []) \/ (0 < r /\ (r ∉ c) /\ c' = c ++ [r])
  | Wait => fun r e c c' =>
      (r = -1 /\ c' = c /\ e <> None /\ (e = Some ECHILD -> c = [])) \/
      (0 < r /\ (exists a b, c = a ++ r :: b /\ c' = a ++ b))
  | Time | Localtime _ | Strftime _ _ _ | Getpid | Sleep _ => fun _ _ c c' => c' = c
  | _ => fun _ _ _ _ => True
  end.

Class ChildKernel `{K : Kernel} := {
  children_of : kstate -> list Z;
  child_law : forall X (s : SysE X) k,
    child_post s (kcall s k).1.1 (kcall s k).1.2 (children_of k) (children_of (kcall s k).2) }.

(** The children a log makes, and those it waits for. *)
Definition forked_of (ev : event) : list Z :=
  match ev with ECall Fork r => if 0 <? r then [r] else [] | _ => [] end.
Definition reaped_of (ev : event) : list Z :=
  match ev with ECall Wait r => if 0 <? r then [r] else [] | _ => [] end.
Definition forked (l : list event) : list Z := flat_map forked_of l.
Definition reaped (l : list event) : list Z := flat_map reaped_of l.

(** The report of the children that have ended, with the times it gives. *)
Fixpoint wait_report (i : Z) (ended : list (string * Z)) : string :=
  match ended with
  | [] => ""
  | (t, pid) :: ended =>
      format "[%s] wait() returned child PID %ld (numDead=%d)\n" [Str t; Int pid; Int i] +:+
      wait_report (i + 1) ended
  end.

Lemma wait_report_app i l l' :
  wait_report i (l ++ l') = wait_report i l +:+ wait_report (i + Z.of_nat (length l)) l'.
Proof.
  revert i. induction l as [|[t pid] l IH]; intros i; cbn [app wait_report length].
  - by rewrite Z.add_0_r.
  - rewrite IH, <- app_assoc_s. do 3 f_equal. lia.
Qed.

Lemma forked_app l l' : forked (l ++ l') = forked l ++ forked l'.
Proof. apply flat_map_app. Qed.

Lemma reaped_app l l' : reaped (l ++ l') = reaped l ++ reaped l'.
Proof. apply flat_map_app. Qed.

Lemma NoDup_snoc (l : list Z) x : NoDup l -> x ∉ l -> NoDup (l ++ [x]).
Proof.
  intros Hl Hx. apply NoDup_app. split; [done|]. split; [|apply NoDup_singleton].
  intros y Hy ->%list_elem_of_singleton. done.
Qed.

Section MultiWait.
Import multi_wait.
Context `{T : CText} `{CK : ChildKernel}.

Definition kids (st : St) : list Z := children_of (s_kern st).

Lemma child_after {X} (s : SysE X) st :
  exists e, child_post s (answer s st) e (kids st) (kids (after s st)) /\
    s_errno (after s st) = default (s_errno st) e.
Proof.
  exists (kcall s (s_kern st)).1.2. split; [|apply s_errno_after].
  unfold kids, answer. rewrite s_kern_after. apply child_law.
Qed.

Lemma kids_add ev st : kids (add_ev ev st) = kids st.
Proof. done. Qed.
End MultiWait.

Ltac wp_kids :=
  let H := fresh "Hk" in wp_law H ltac:(fun s st => constr:(child_after s st));
  let e := fresh "e" in let E := fresh "He" in
  destruct H as (e & H & E); cbn [child_post] in H; rewrite ?kids_add in *.
Ltac wp_kids_go := repeat (cbv zeta; first [wp_kids | wp_head | wp_branch]).

Section Reaping.
Import multi_wait.
Context `{T : CText} `{CK : ChildKernel}.

(** Asking for the time makes no children, waits for none and prints nothing. *)
Lemma getCurrTimeStr_run n (Q : res (Z * string) -> St -> Prop) st :
  (forall r t l st', s_log st' = s_log st ++ l -> kids st' = kids st ->
     forked l = [] -> reaped l = [] -> text_on stdout l = "" -> Q (Returned (r, t)) st') ->
  wp (getCurrTimeStr n) Q st.
Proof.
  intros HQ. unfold getCurrTimeStr. wp_kids_go.
  all: eapply HQ; [log_chain; reflexivity|congruence|reflexivity|reflexivity|reflexivity].
Qed.

(** A child never returns. *)
Lemma child_run argv i (Q : res unit -> St -> Prop) st :
  (forall s st', (s = Exited EXIT_FAILURE \/ s = ImmExited EXIT_FAILURE \/ s = ImmExited EXIT_SUCCESS) ->
     Q (Stopped s) st') ->
  wp (child argv i) Q st.
Proof.
  intros HQ. unfold child. wp_run1. apply getCurrTimeStr_run. intros r t l st1 _ _ _ _ _.
  cbv beta iota. wp_run1. apply wp_when; intros _; [wp_steps; by apply HQ; auto|].
  unfold getUint, strtoul. wp_go; apply HQ; auto.
Qed.

(** Only a child, or a process a call has failed in, stops. *)
Definition stopped (s : stop) : Prop :=
  s = Exited EXIT_FAILURE \/ s = ImmExited EXIT_FAILURE \/ s = ImmExited EXIT_SUCCESS.

(** The events since [st0], without those for the time: the children made and those
    waited for, and the text printed. *)
Definition did (st0 st : St) (f r : list Z) (text : string) : Prop :=
  exists l, s_log st = s_log st0 ++ l /\ forked l = f /\ reaped l = r /\ text_on stdout l = text.

Lemma did_refl st : did st st [] [] "".
Proof. exists []. by rewrite app_nil_r. Qed.

Lemma did_trans st0 st1 st2 f r t f' r' t' :
  did st0 st1 f r t -> did st1 st2 f' r' t' -> did st0 st2 (f ++ f') (r ++ r') (t +:+ t').
Proof.
  intros (l & Hl & <- & <- & <-) (l' & Hl' & <- & <- & <-). exists (l ++ l').
  by rewrite Hl', Hl, app_assoc, forked_app, reaped_app, text_on_app.
Qed.

Lemma did_event st st' ev :
  s_log st' = s_log st ++ [ev] ->
  did st st' (forked_of ev) (reaped_of ev) (text_on stdout [ev]).
Proof. intros Hl. exists [ev]. split; [done|]. unfold forked, reaped. cbn [flat_map]. by rewrite !app_nil_r. Qed.

Lemma did_quiet st0 st st' l f r t :
  did st0 st f r t -> s_log st' = s_log st ++ l ->
  forked l = [] -> reaped l = [] -> text_on stdout l = "" -> did st0 st' f r t.
Proof.
  intros Hd Hl Hf Hr Ht. assert (did st st' [] [] "") as Hd' by (by exists l).
  pose proof (did_trans _ _ _ _ _ _ _ _ _ Hd Hd') as H. by rewrite !app_nil_r, app_nil_r_s in H.
Qed.

Lemma did_print st0 st f r t s :
  did st0 st f r t -> did st0 (add_ev (EPrint stdout s) st) f r (t +:+ s).
Proof.
  intros Hd. pose proof (did_trans _ _ _ _ _ _ _ _ _ Hd (did_event st (add_ev (EPrint stdout s) st) _ eq_refl)) as H.
  cbn in H. by rewrite !app_nil_r, app_nil_r_s in H.
Qed.

(** One child for every argument. *)
Lemma fork_all_run argv st :
  kids st = [] ->
  wp (fork_all argv) (fun r st' => match r with
    | Returned _ => did st st' (kids st') [] "" /\ NoDup (kids st') /\
        Z.of_nat (length (kids st')) = Z.max 0 (argc argv - 1)
    | Stopped s => stopped s
    end) st.
Proof.
  intros Hk. unfold fork_all, for_.
  apply (wp_for_loop _ _ _ (fun i _ st' => did st st' (kids st') [] "" /\ NoDup (kids st') /\
    1 <= i <= Z.max 1 (argc argv) /\ Z.of_nat (length (kids st')) = i - 1)).
  - rewrite Hk. split; [apply did_refl|]. split; [constructor|]. cbn. lia.
  - intros i [] st1 Hi (Hd & Hnd & Hi1 & Hlen). wp_run1. wp_kids. wp_branch; bool_props.
    { wp_steps. by left. }
    apply wp_when; intros Hb0; bool_props.
    { subst. apply child_run. done. }
    destruct Hk0 as [[-> _]|[[-> _]|(Hpos & Hni & ->)]]; [done|done|].
    split; [|split; [by apply NoDup_snoc|]].
    + pose proof (did_trans _ _ _ _ _ _ _ _ _ Hd (did_event _ _ _ Hlog)) as H.
      cbn in H. by rewrite (proj2 (Z.ltb_lt _ _) Hpos) in H.
    + rewrite length_app. cbn. lia.
  - intros i [] st1 Hi Hi' (Hd & Hnd & Hi1 & Hlen). split; [done|]. split; [done|]. lia.
Qed.

(** Every child is waited for and reported once. *)
Lemma wait_all_run st :
  wp wait_all (fun r st' => match r with
    | Returned _ => exists ended, did st st' [] (map snd ended) (wait_report 1 ended) /\
        kids st ≡ₚ map snd ended ++ kids st' /\ (s_errno st' = ECHILD -> kids st' = [])
    | Stopped s => stopped s
    end) st.
Proof.
  unfold wait_all.
  apply (wp_iter_measure _ (fun i st' => exists ended,
    did st st' [] (map snd ended) (wait_report 1 ended) /\
    kids st ≡ₚ map snd ended ++ kids st' /\ i = 1 + Z.of_nat (length ended))
    (fun _ st' => length (kids st'))); [|exists []; by split; [apply did_refl|]].
  intros i st1 (ended & Hd & Hp & ->). wp_run1. wp_kids.
  pose proof (did_trans _ _ _ _ _ _ _ _ _ Hd (did_event _ _ _ Hlog)) as Hd1. cbn in Hd1.
  rewrite app_nil_r_s in Hd1.
  destruct Hk as [(-> & Hk & Hne & Hend)|(Hpos & a & b & Hk & Hk')].
  - rewrite Z.eqb_refl. wp_run1. exists ended. cbn in Hd1. rewrite app_nil_r in Hd1. rewrite Hk. split; [done|]. split; [done|].
    intros Herr. apply Hend. destruct e; [|done]. by rewrite He in Herr; cbn in Herr; subst.
  - rewrite (proj2 (Z.ltb_lt _ _) Hpos) in Hd1. rewrite (proj2 (Z.eqb_neq _ _)) by lia.
    wp_run1. apply getCurrTimeStr_run. intros r t l st3 Hl Hk3 Hf Hr Ht. cbv beta iota.
    wp_run1. apply wp_when; intros _; [wp_steps; right; by left|]. wp_steps.
    rewrite kids_add, Hk3, Hk'. split; [|rewrite Hk, !length_app; cbn; lia].
    exists (ended ++ [(t, x)]). rewrite map_app, wait_report_app, length_app. cbn [map snd length wait_report].
    split; [|split; [rewrite Hp, Hk; solve_Permutation|lia]].
    rewrite app_nil_r_s. apply did_print. eapply did_quiet; [exact Hd1|exact Hl|done..].
Qed.
End Reaping.

(** C12: multi_wait ends on every command line. When it returns it reports success,
    it has made one child for each argument, all different, it has waited for each
    of them exactly once and printed one numbered report for each in that order,
    and it has no children left. Otherwise a call has failed or the process is one
    of the children. *)
Theorem multi_wait_reaps `{CText} `{ChildKernel} argv st :
  kids st = [] ->
  wp (multi_wait.main argv) (fun r st' => match r with
    | Returned c => c = EXIT_SUCCESS /\ kids st' = [] /\ exists pids ended,
        did st st' pids (map snd ended) (wait_report 1 ended) /\
        NoDup pids /\ Z.of_nat (length pids) = argc argv - 1 /\ map snd ended ≡ₚ pids
    | Stopped s => stopped s
    end) st.
Proof.
  intros Hk. unfold multi_wait.main. wp_run1. apply wp_when; intros Harg; [wp_steps; by left|].
  apply orb_false_iff in Harg as [Harg _]. apply Z.ltb_ge in Harg.
  do 3 wp_run1. eapply wp_mono; [by apply fork_all_run|].
  intros [[]|s] st1; [|done]. intros (Hd & Hnd & Hlen). wp_run1. eapply wp_mono; [apply wait_all_run|].
  intros [[]|s] st2; [|done]. intros (ended & Hd' & Hp & Hend). do 3 wp_run1.
  apply wp_when; intros Herr; [wp_steps; by left|]. bool_props. wp_steps.
  split; [done|]. specialize (Hend Herr). split; [done|]. exists (kids st1), ended.
  rewrite Hend, app_nil_r in Hp.
  assert (did st (add_ev (ESetbuf stdout) st) [] [] "") as Hd0.
  { by apply (did_event st (add_ev (ESetbuf stdout) st) (ESetbuf stdout)). }
  pose proof (did_trans _ _ _ _ _ _ _ _ _ (did_trans _ _ _ _ _ _ _ _ _ Hd0 Hd) Hd') as H2.
  rewrite !app_nil_r in H2. split; [exact H2|]. split; [done|]. split; [lia|]. by symmetry.
Qed.

(** Children are numbered from 100 on; the one made last ends first. *)
Definition family_kernel : Kernel := {|
  kstate := list Z;
  kcall X (s : SysE X) c :=
    match s in SysE X return X * option Z * list Z with
    | Fork => let pid := 100 + foldr Z.max 0 c in (pid, None, c ++ [pid])
    | Wait =>
        match rev c with
        | [] => (-1, Some ECHILD, c)
        | pid :: _ => if 0 <? pid then (pid, None, removelast c) else (-1, Some EINTR, c)
        end
    | Localtime _ => (Some (Tm 30 20 10 1 0 100 6 0 0), None, c)
    | Strftime _ _ _ => (8, "10:20:30", None, c)
    | s => (refuse s, None, c)
    end |}.

Lemma family_fresh (c : list Z) : 0 <= foldr Z.max 0 c /\ 100 + foldr Z.max 0 c ∉ c.
Proof.
  assert (0 <= foldr Z.max 0 c /\ forall x, x ∈ c -> x <= foldr Z.max 0 c) as [H0 H].
  { induction c as [|y c [IH0 IH]]; cbn; [split; [done|]; by intros ? ?%elem_of_nil|].
    split; [lia|]. intros x [->|Hx]%elem_of_cons; [lia|]. specialize (IH x Hx). lia. }
  split; [done|]. intros Hin%H. lia.
Qed.

Lemma family_law X (s : SysE X) (c : list Z) :
  child_post s (@kcall family_kernel X s c).1.1 (@kcall family_kernel X s c).1.2 c
    (@kcall family_kernel X s c).2.
Proof.
  destruct s; try done; cbn.
  - right. right. destruct (family_fresh c). split; [lia|]. by split.
  - destruct (rev c) as [|pid t] eqn:E; cbn.
    + left. repeat split; [done|]. intros _. by rewrite <- (rev_involutive c), E.
    + destruct (Z.ltb_spec 0 pid); cbn; [|by left].
      right. split; [done|]. exists (rev t), []. rewrite app_nil_r.
      assert (c = rev t ++ [pid]) as -> by (by rewrite <- (rev_involutive c), E).
      split; [done|]. apply removelast_last.
Qed.

Definition family_children : ChildKernel (K := family_kernel) :=
  {| children_of := fun c : @kstate family_kernel => c; child_law := family_law |}.

Lemma multi_wait_reaps_witness :
  let _ := plain_text in let _ := family_children in
  let st := @mkSt family_kernel 0 [] [] in
  wp (multi_wait.main ["multi_wait"; "3"; "1"]) (fun r st' => match r with
    | Returned c => c = EXIT_SUCCESS /\ kids st' = [] /\ exists pids ended,
        did st st' pids (map snd ended) (wait_report 1 ended) /\
        NoDup pids /\ Z.of_nat (length pids) = 2 /\ map snd ended ≡ₚ pids
    | Stopped s => stopped s
    end) st.
Proof.
  exact (@multi_wait_reaps plain_text family_kernel family_children ["multi_wait"; "3"; "1"]
           (@mkSt family_kernel 0 [] []) eq_refl).
Defined.

(** The run is the one meant: the parent waits for both children. *)
Example two_children_reaped :
  let _ := plain_text in
  option_map (fun '(r, st) => (r, forked (s_log st), reaped (s_log st)))
    (run 200 (multi_wait.main ["multi_wait"; "3"; "1"]) (@mkSt family_kernel 0 [] [])) =
  Some (Returned 0, [100; 200], [200; 100]).
Proof. vm_compute. reflexivity. Qed.
