(* ===== verification/Misc.v ===== *)
(** * Mounting, options, file events, attributes, system information and time

    The programs of filesys/, getopt/, inotify/, xattr/, sysinfo/, syslim/ and
    time/. *)

From S2P Require Import Prelude.
From S2P Require Import CLib.
From S2P Require Import Sys.
From S2P Require Import Sem.

Definition NAME_MAX : Z := 255.

(** ** t_mount.c *)
Module t_mount.
Definition MS_RDONLY : Z := 1.
Definition MS_NOSUID : Z := 2.
Definition MS_NODEV : Z := 4.
Definition MS_NOEXEC : Z := 8.
Definition MS_SYNCHRONOUS : Z := 16.
Definition MS_REMOUNT : Z := 32.
Definition MS_MANDLOCK : Z := 64.
Definition MS_DIRSYNC : Z := 128.
Definition MS_NOATIME : Z := 1024.
Definition MS_NODIRATIME : Z := 2048.
Definition MS_BIND : Z := 4096.
Definition MS_MOVE : Z := 8192.
Definition MS_REC : Z := 16384.

Definition flag_of (c : ascii) : option Z :=
  if c ==c "b" then Some MS_BIND
  else if c ==c "d" then Some MS_DIRSYNC
  else if c ==c "l" then Some MS_MANDLOCK
  else if c ==c "m" then Some MS_MOVE
  else if c ==c "A" then Some MS_NOATIME
  else if c ==c "V" then Some MS_NODEV
  else if c ==c "D" then Some MS_NODIRATIME
  else if c ==c "E" then Some MS_NOEXEC
  else if c ==c "S" then Some MS_NOSUID
  else if c ==c "r" then Some MS_RDONLY
  else if c ==c "c" then Some MS_REC
  else if c ==c "R" then Some MS_REMOUNT
  else if c ==c "s" then Some MS_SYNCHRONOUS
  else None.

(** The loop over the letters of -f. *)
Fixpoint parse_flags (optarg : string) (flags : Z) : prog Z :=
  match optarg with
  | EmptyString => Ret flags
  | String c optarg =>
      match flag_of c with
      | Some f => parse_flags optarg (flags .| f)
      | None =>
          fprintf stderr "Unrecognized flag: %c\n" [Int (ord c)] ;;
          exit EXIT_FAILURE
      end
  end.

Record opts := Opts { fsType : option string; options : option string; flags : Z }.

Definition main `{CText} (argv : list string) : prog Z :=
  '(o, g) <- ITree.iter (fun '(o, g) =>
    '(opt, optarg, g) <- getopt argv "t:o:f:" g ;;
    match opt with
    | None => Ret (inr (o, g))
    | Some c =>
        if c ==c "t" then Ret (inl (Opts (Some optarg) (options o) (flags o), g))
        else if c ==c "o" then Ret (inl (Opts (fsType o) (Some optarg) (flags o), g))
        else if c ==c "f" then
          f <- parse_flags optarg (flags o) ;;
          Ret (inl (Opts (fsType o) (options o) f, g))
        else exit EXIT_FAILURE
    end) (Opts None None 0, getopt_init argv) ;;
  let argv := getopt_argv argv g in
  let optind := optind g in
  when (argc argv !=? optind + 2) (
    fprintf stderr "Wrong number of arguments provided.\n" [] ;;
    exit EXIT_FAILURE) ;;
  let source := argv.[optind] in
  let target := argv.[optind + 1] in
  r <- sys (Mount source target (fsType o) (flags o) (options o)) ;;
  when (r ==? -1) (
    e <- errno ;;
    fprintf stderr "Failed to mount %s on %s - %s\n" [Str source; Str target; Str (strerror e)] ;;
    exit EXIT_FAILURE) ;;
  Ret 0.
End t_mount.

(** ** t_getopt.c *)
Module t_getopt.
Definition main (argv : list string) : prog Z :=
  g <- ITree.iter (fun g =>
    '(opt, optarg, g) <- getopt argv "xp:" g ;;
    match opt with
    | None => Ret (inr g)
    | Some c =>
        if c ==c "p" then printf "-p was specified with argument: %s\n" [Str optarg] ;; Ret (inl g)
        else if c ==c "x" then printf "-x was specified\n" [] ;; Ret (inl g)
        else exit EXIT_FAILURE
    end) (getopt_init argv) ;;
  let argv := getopt_argv argv g in
  when (optind g <? argc argv) (printf "Non-option arg: %s\n" [Str argv.[optind g]]) ;;
  Ret 0.
End t_getopt.

(** ** demo_inotify.c

    An event is a structure of four integers, followed by [len] bytes of name. *)
Module demo_inotify.
Definition IN_ACCESS : Z := 1.
Definition IN_MODIFY : Z := 2.
Definition IN_ATTRIB : Z := 4.
Definition IN_CLOSE_WRITE : Z := 8.
Definition IN_CLOSE_NOWRITE : Z := 16.
Definition IN_OPEN : Z := 32.
Definition IN_MOVED_FROM : Z := 64.
Definition IN_MOVED_TO : Z := 128.
Definition IN_CREATE : Z := 256.
Definition IN_DELETE : Z := 512.
Definition IN_DELETE_SELF : Z := 1024.
Definition IN_MOVE_SELF : Z := 2048.
Definition IN_UNMOUNT : Z := 8192.
Definition IN_Q_OVERFLOW : Z := 16384.
Definition IN_IGNORED : Z := 32768.
Definition IN_ISDIR : Z := 1073741824.
Definition IN_ALL_EVENTS : Z := 4095.

Record inotify_event := Event { wd : Z; mask : Z; cookie : Z; name : string }.
Definition sizeof_event : Z := 16.
Definition BUFFER_LENGTH : Z := 10 * (sizeof_event + NAME_MAX + 1).

(** The structure at an address; [name] has the [len] bytes after it. *)
Definition event_len (p : string) : Z := u32 (decode_int (sdrop 12 p)).
Definition read_event (p : string) : inotify_event :=
  Event (decode_int p) (u32 (decode_int (sdrop 4 p))) (u32 (decode_int (sdrop 8 p)))
    (stake (event_len p) (sdrop sizeof_event p)).

Definition print_flag (event : inotify_event) (bit : Z) (text : string) : prog unit :=
  when (has_bit (mask event) bit) (printf text []).

Definition printInotifyEvent (event : inotify_event) : prog unit :=
  printf "    wd = %d; " [Int (wd event)] ;;
  when (0 <? slen (name event)) (printf "name = %s; " [Str (name event)]) ;;
  when (0 <? cookie event) (printf "cookie = %d; " [Int (i32 (cookie event))]) ;;
  print_flag event IN_ACCESS "IN_ACCESS " ;;
  print_flag event IN_ATTRIB "IN_ATTRIB " ;;
  print_flag event IN_CLOSE_NOWRITE "IN_CLOSE_NOWRITE " ;;
  print_flag event IN_CLOSE_WRITE "IN_CLOSE_WRITE " ;;
  print_flag event IN_CREATE "IN_CREATE " ;;
  print_flag event IN_DELETE "IN_DELETE " ;;
  print_flag event IN_DELETE_SELF "IN_DELETE_SELF " ;;
  print_flag event IN_IGNORED "IN_IGNORED " ;;
  print_flag event IN_ISDIR "IN_ISDIR " ;;
  print_flag event IN_MODIFY "IN_MODIFY " ;;
  print_flag event IN_MOVE_SELF "IN_MOVE_SELF " ;;
  print_flag event IN_MOVED_FROM "IN_MOVED_FROM " ;;
  print_flag event IN_MOVED_TO "IN_MOVED_TO " ;;
  print_flag event IN_OPEN "IN_OPEN " ;;
  print_flag event IN_Q_OVERFLOW "IN_Q_OVERFLOW " ;;
  print_flag event IN_UNMOUNT "IN_UNMOUNT " ;;
  printf "\n" [].

(** The walk over the events of one read. *)
Definition print_events (buffer : string) : prog unit :=
  ITree.iter (fun p =>
    if p <? slen buffer then
      printInotifyEvent (read_event (sdrop p buffer)) ;;
      Ret (inl (p + (sizeof_event + event_len (sdrop p buffer))))
    else Ret (inr tt)) 0.

(** One round of the endless loop. *)
Definition serve `{CText} (inotifyFd : Z) (_ : unit) : prog (unit + Z) :=
  '(numBytesRead, buffer) <- sys (Read inotifyFd BUFFER_LENGTH) ;;
  when (numBytesRead <=? 0) (
    e <- errno ;;
    fprintf stderr "Failed to read() inotify fd %d - %s\n" [Int inotifyFd; Str (strerror e)] ;;
    exit EXIT_FAILURE) ;;
  printf "Read %ld bytes from inotify fd\n" [Int numBytesRead] ;;
  print_events (stake numBytesRead buffer) ;;
  Ret (inl tt).

Definition watch_all `{CText} (argv : list string) (inotifyFd : Z) : prog unit :=
  for_ 1 (argc argv) (fun i =>
    let filepath := argv.[i] in
    wd <- sys (InotifyAddWatch inotifyFd filepath IN_ALL_EVENTS) ;;
    when (wd ==? -1) (
      e <- errno ;;
      fprintf stderr "Failed to add inotify watch to file %s - %s\n" [Str filepath; Str (strerror e)] ;;
      exit EXIT_FAILURE) ;;
    printf "Watching %s using wd %d\n" [Str filepath; Int wd]).

Definition main `{CText} (argv : list string) : prog Z :=
  when ((argc argv <? 2) || streq argv.[1] "-h") (
    fprintf stderr "Usage: %s <file>...\n" [Str argv.[0]] ;;
    exit EXIT_FAILURE) ;;
  inotifyFd <- sys InotifyInit ;;
  when (inotifyFd ==? -1) (
    e <- errno ;;
    fprintf stderr "Failed to initialize inotify instance - %s\n" [Str (strerror e)] ;;
    exit EXIT_FAILURE) ;;
  watch_all argv inotifyFd ;;
  ITree.iter (serve inotifyFd) tt.
End demo_inotify.

(** ** xattr_view.c

    The list of names is a sequence of strings, each with its NUL. *)
Module xattr_view.
Definition XATTR_SIZE : Z := 10000.

Definition printUsageMsg (program : string) : prog unit :=
  fprintf stderr "Usage: %s [-x] <file>...\n" [Str program].

Definition printValueStr (length : Z) (value : string) : prog unit :=
  printf "%.*s\n" [Int (i32 length); Str value].

Definition printValueHex (length : Z) (value : string) : prog unit :=
  for_ 0 length (fun i => printf "%02x " [Int (ord (snth i value))]) ;;
  printf "\n" [].

(** The names of one file, with their values. *)
Definition print_names `{CText} (hex : bool) (filepath names : string) (size : Z) : prog unit :=
  ITree.iter (fun p =>
    if p <? size then
      let xattrName := cstr (sdrop p names) in
      '(xattrValueSize, xattrValue) <- sys (Getxattr filepath xattrName XATTR_SIZE) ;;
      (if xattrValueSize ==? -1 then
         e <- errno ;;
         fprintf stderr "Failed to get xattr value for: %s - %s\n" [Str xattrName; Str (strerror e)]
       else
         printf "\tname=%s; value=" [Str xattrName] ;;
         (if hex then printValueHex else printValueStr) xattrValueSize xattrValue) ;;
      Ret (inl (p + (slen xattrName + 1)))
    else Ret (inr tt)) 0.

Definition main `{CText} (argv : list string) : prog Z :=
  '(hex, g) <- ITree.iter (fun '(hex, g) =>
    '(opt, _, g) <- getopt argv "x" g ;;
    match opt with
    | None => Ret (inr (hex, g))
    | Some c =>
        if c ==c "x" then Ret (inl (true, g))
        else printUsageMsg argv.[0] ;; exit EXIT_FAILURE
    end) (false, getopt_init argv) ;;
  let argv := getopt_argv argv g in
  for_ (optind g) (argc argv) (fun i =>
    let filepath := argv.[i] in
    '(size, names) <- sys (Listxattr filepath XATTR_SIZE) ;;
    when (size ==? -1) (
      e <- errno ;;
      fprintf stderr "Failed to get xattr name list of %s - %s\n" [Str filepath; Str (strerror e)] ;;
      exit EXIT_FAILURE) ;;
    printf "%s:\n" [Str filepath] ;;
    print_names hex filepath names size) ;;
  Ret EXIT_SUCCESS.
End xattr_view.

(** ** procfs_pidmax.c

    [junk] is what the buffer on the stack holds before the read. *)
Module procfs_pidmax.
Definition BUFFER_LENGTH : Z := 100.
Definition main `{CText} (junk : string) : prog Z :=
  fd <- sys (Open "/proc/sys/kernel/pid_max" O_RDONLY 0) ;;
  when (fd ==? -1) (
    e <- errno ;;
    fprintf stderr "Failed to open file - %s\n" [Str (strerror e)] ;;
    exit EXIT_FAILURE) ;;
  '(bytesRead, data) <- sys (Read fd BUFFER_LENGTH) ;;
  when (bytesRead ==? -1) (
    e <- errno ;;
    fprintf stderr "Failed to read file - %s\n" [Str (strerror e)] ;;
    exit EXIT_FAILURE) ;;
  printf "Value: %s\n" [Str (overlay data junk)] ;;
  r <- sys (Close fd) ;;
  when (r ==? -1) (
    e <- errno ;;
    fprintf stderr "Failed to close file - %s\n" [Str (strerror e)] ;;
    exit EXIT_FAILURE) ;;
  Ret 0.
End procfs_pidmax.

(** ** t_uname.c *)
Module t_uname.
Definition main `{CText} : prog Z :=
  '(r, kernelInfo) <- sys Uname ;;
  when (r ==? -1) (
    e <- errno ;;
    fprintf stderr "Failed to get uname() - %s\n" [Str (strerror e)] ;;
    exit EXIT_FAILURE) ;;
  let field i := Str (nth i kernelInfo "") in
  printf "OS name: %s\n" [field 0%nat] ;;
  printf "Hostname: %s\n" [field 1%nat] ;;
  printf "OS release: %s\n" [field 2%nat] ;;
  printf "OS version: %s\n" [field 3%nat] ;;
  printf "Hardware: %s\n" [field 4%nat] ;;
  Ret 0.
End t_uname.

(** ** t_fpathconf.c *)
Module t_fpathconf.
Definition _PC_NAME_MAX : Z := 3.
Definition _PC_PATH_MAX : Z := 4.
Definition _PC_PIPE_BUF : Z := 5.

Definition printFpathconf `{CText} (msg : string) (fd name : Z) : prog unit :=
  set_errno 0 ;;
  limit <- sys (Fpathconf fd name) ;;
  if limit ==? -1 then
    e <- errno ;;
    if e ==? 0 then fprintf stderr "%s: indeterminate\n" [Str msg]
    else
      fprintf stderr "Failed to get limit for %s - %s\n" [Str msg; Str (strerror e)] ;;
      exit EXIT_FAILURE
  else printf "%s: %ld\n" [Str msg; Int limit].

Definition main `{CText} : prog Z :=
  printFpathconf "_PC_NAME_MAX" STDIN_FILENO _PC_NAME_MAX ;;
  printFpathconf "_PC_PATH_MAX" STDIN_FILENO _PC_PATH_MAX ;;
  printFpathconf "_PC_PIPE_BUF" STDIN_FILENO _PC_PIPE_BUF ;;
  Ret 0.
End t_fpathconf.

(** ** t_sysconf.c *)
Module t_sysconf.
Definition _SC_ARG_MAX : Z := 0.
Definition _SC_LOGIN_NAME_MAX : Z := 71.
Definition _SC_OPEN_MAX : Z := 4.
Definition _SC_NGROUPS_MAX : Z := 3.
Definition _SC_PAGESIZE : Z := 30.
Definition _SC_RTSIG_MAX : Z := 31.

Definition printSysconf `{CText} (msg : string) (name : Z) : prog unit :=
  set_errno 0 ;;
  limit <- sys (Sysconf name) ;;
  if limit ==? -1 then
    e <- errno ;;
    if e ==? 0 then printf "%s: indeterminate\n" [Str msg]
    else
      fprintf stderr "Failed to get limit for %s - %s\n" [Str msg; Str (strerror e)] ;;
      exit EXIT_FAILURE
  else printf "%s: %ld\n" [Str msg; Int limit].

Definition main `{CText} : prog Z :=
  printSysconf "_SC_ARG_MAX" _SC_ARG_MAX ;;
  printSysconf "_SC_LOGIN_NAME_MAX" _SC_LOGIN_NAME_MAX ;;
  printSysconf "_SC_OPEN_MAX" _SC_OPEN_MAX ;;
  printSysconf "_SC_NGROUPS_MAX" _SC_NGROUPS_MAX ;;
  printSysconf "_SC_PAGESIZE" _SC_PAGESIZE ;;
  printSysconf "_SC_RTSIG_MAX" _SC_RTSIG_MAX ;;
  Ret 0.
End t_sysconf.

(** ** calendar_time.c *)
Module calendar_time.
Definition fields (t : tm) : list farg :=
  [Int (tm_year t); Int (tm_mon t); Int (tm_mday t); Int (tm_hour t); Int (tm_min t);
   Int (tm_sec t); Int (tm_wday t); Int (tm_yday t); Int (tm_isdst t)].

(** [printf] prints a null string as (null). *)
Definition str_or_null (s : option string) : farg := Str (default "(null)" s).

Definition print_mktime (t : tm) (what : string) : prog unit :=
  time_sec <- sys (Mktime t) ;;
  when (time_sec ==? -1) (
    fprintf stderr "Failed to mktime\n" [] ;;
    exit EXIT_FAILURE) ;;
  printf "mktime() of %s value: %ld secs\n" [Str what; Int time_sec].

Definition main `{CText} : prog Z :=
  time_sec <- sys Time ;;
  printf "Seconds since the Epoch (1 Jan 1970): %ld\n" [Int time_sec] ;;
  '(r, (tv_sec, tv_usec)) <- sys Gettimeofday ;;
  when (r ==? -1) (
    e <- errno ;;
    fprintf stderr "Failed to get time of day - %s\n" [Str (strerror e)] ;;
    exit EXIT_FAILURE) ;;
  printf "  gettimeofday() returned %ld secs, %ld microsecs\n" [Int tv_sec; Int tv_usec] ;;
  gmtmp <- sys (Gmtime time_sec) ;;
  match gmtmp with
  | None =>
      fprintf stderr "Failed to convert %ld sec using gmtime()\n" [Int time_sec] ;;
      exit EXIT_FAILURE
  | Some gmtm =>
  printf "Broken down by gmtime():\n" [] ;;
  printf "  year=%d mon=%d mday=%d hour=%d min=%d sec=%d wday=%d yday=%d isdst=%d\n" (fields gmtm) ;;
  localtmp <- sys (Localtime time_sec) ;;
  match localtmp with
  | None =>
      fprintf stderr "Failed to convert %ld sec using localtime()\n" [Int time_sec] ;;
      exit EXIT_FAILURE
  | Some localtm =>
  printf "Broken down by localtime():\n" [] ;;
  printf "  year=%d mon=%d mday=%d hour=%d min=%d sec=%d wday=%d yday=%d isdst=%d\n\n" (fields localtm) ;;
  a <- sys (Asctime gmtm) ;;
  printf "asctime() formats the gmtime() value as: %s" [str_or_null a] ;;
  c <- sys (Ctime time_sec) ;;
  printf "ctime() formats the time() value as: %s" [str_or_null c] ;;
  print_mktime gmtm "gmtime()" ;;
  print_mktime localtm "localtime()" ;;
  Ret 0
  end end.
End calendar_time.

(** ** process_time.c *)
Module process_time.
Definition CLOCKS_PER_SEC : Z := 1000000.
Definition _SC_CLK_TCK : Z := 2.

Definition displayProcessTimes `{CText} (msg : string) : prog unit :=
  processTime_tick <- sys Clock ;;
  when (processTime_tick ==? -1) (
    e <- errno ;;
    fprintf stderr "Failed to get clock() - %s\n" [Str (strerror e)] ;;
    exit EXIT_FAILURE) ;;
  '(r, (tms_utime, tms_stime)) <- sys Times ;;
  when (r ==? -1) (
    e <- errno ;;
    fprintf stderr "Failed to get times() - %s\n" [Str (strerror e)] ;;
    exit EXIT_FAILURE) ;;
  ticksPerSec <- sys (Sysconf _SC_CLK_TCK) ;;
  when (ticksPerSec ==? -1) (
    fputs stderr "Failed to get sysconf(_SC_CLK_TCK)" ;;
    exit EXIT_FAILURE) ;;
  printf "%s\n" [Str msg] ;;
  printf "\tclock() returns: %ld clocks-per-sec (%s secs)\n"
    [Int processTime_tick; Str (ratio2 processTime_tick CLOCKS_PER_SEC)] ;;
  printf "\ttimes() yields: user CPU=%s; system CPU: %s\n"
    [Str (ratio2 tms_utime ticksPerSec); Str (ratio2 tms_stime ticksPerSec)].

Definition getUnsignedLong (str : string) : prog Z :=
  set_errno 0 ;;
  result <- strtoul str 0 ;;
  e <- errno ;;
  when ((e !=? 0) || negb (st_conv result)) (
    fprintf stderr "Failed to convert %s to unsigned long\n" [Str str] ;;
    exit EXIT_FAILURE) ;;
  Ret (st_val result).

(** The loop converts its argument again for every test. *)
Definition spend (argv : list string) : prog unit :=
  ITree.iter (fun i =>
    n <- (if 1 <? argc argv then getUnsignedLong argv.[1] else Ret 10000000) ;;
    if i <? n then sys Getppid ;; Ret (inl (i + 1)) else Ret (inr tt)) 0.

Definition main `{CText} (argv : list string) : prog Z :=
  ticksPerSec <- sys (Sysconf _SC_CLK_TCK) ;;
  when (ticksPerSec ==? -1) (
    fputs stderr "Failed to get sysconf(_SC_CLK_TCK)" ;;
    exit EXIT_FAILURE) ;;
  printf "CLOCKS_PER_SEC=%ld  sysconf(_SC_CLK_TCK)=%ld\n" [Int CLOCKS_PER_SEC; Int ticksPerSec] ;;
  displayProcessTimes "At program start:" ;;
  spend argv ;;
  displayProcessTimes "After getppid() loop:" ;;
  Ret 0.
End process_time.

(** ** show_time.c *)
Module show_time.
Definition BUFFER_SIZE : Z := 256.
Definition main `{CText} : prog Z :=
  time_sec <- sys Time ;;
  timeStr <- sys (Ctime time_sec) ;;
  match timeStr with
  | None =>
      e <- errno ;;
      fprintf stderr "Failed to get ctime() - %s\n" [Str (strerror e)] ;;
      exit EXIT_FAILURE
  | Some timeStr =>
  printf "ctime() of time() value is: %s" [Str timeStr] ;;
  tm_local <- sys (Localtime time_sec) ;;
  match tm_local with
  | None =>
      e <- errno ;;
      fprintf stderr "Failed to get localtime() from time() - %s\n" [Str (strerror e)] ;;
      exit EXIT_FAILURE
  | Some tm_local =>
  timeStr <- sys (Asctime tm_local) ;;
  match timeStr with
  | None =>
      e <- errno ;;
      fprintf stderr "Failed to get asctime() of local time - %s\n" [Str (strerror e)] ;;
      exit EXIT_FAILURE
  | Some timeStr =>
  printf "asctime() of local time is: %s" [Str timeStr] ;;
  '(n, buffer) <- sys (Strftime BUFFER_SIZE "%A, %d %B %Y, %H:%M:%S %Z" tm_local) ;;
  when (n ==? 0) (
    e <- errno ;;
    fprintf stderr "Failed to get strftime() of local time - %s\n" [Str (strerror e)] ;;
    exit EXIT_FAILURE) ;;
  printf "strftime() of localtime is %s\n" [Str buffer] ;;
  Ret 0
  end end end.
End show_time.
