(* ===== verification/OptSpec.v ===== *)
(** * What the programs with options promise

    [getopts os g l g'] is a whole scan of a command line by [getopt]: the
    answers [l] before the end, and the state at the end. A scan exists for
    every command line ([getopts_total]) and permutes it ([getopts_perm]); the
    scan of a command line that was written from options and operands gives
    them back ([getopts_render]). The theorems on filesys/ and getopt/ follow. *)

From S2P Require Import Prelude.
From S2P Require Import CLib.
From S2P Require Import Sys.
From S2P Require Import Sem.
From S2P Require Import FsSpec.
From S2P Require Import Misc.

Inductive getopts (os : string) : gopt -> list gopt_ans -> gopt -> Prop :=
| getopts_end g g' : getopt_step os g = (GEnd, g') -> getopts os g [] g'
| getopts_cons g a g1 l g' :
    getopt_step os g = (a, g1) -> a <> GEnd -> getopts os g1 l g' ->
    getopts os g (a :: l) g'.

(** ** Every scan ends *)

(** What is left to scan: a letter counts one, an element one more. *)
Definition gsize (g : gopt) : nat :=
  String.length (g_cur g) + sum_list_with (fun a => S (String.length a)) (g_rest g).

Lemma is_option_inv a : is_option a = true -> exists c cur, a = String "-" (String c cur).
Proof. destruct a as [|[[] [] [] [] [] [] [] []] [|c cur]]; cbn; try done. eauto. Qed.

Lemma gopt_advance_inv used non rest g' g'' :
  gopt_advance used non rest = (Some g', g'') ->
  exists pre c cur rest', rest = pre ++ String "-" (String c cur) :: rest' /\
    g' = GOpt (used ++ [String "-" (String c cur)]) (non ++ pre) rest' (String c cur).
Proof.
  revert non. induction rest as [|a rest IH]; intros non; cbn; [done|].
  case_if; [done|]. destruct (is_option a) eqn:Ho.
  - intros [= <- _]. destruct (is_option_inv _ Ho) as (c & cur & ->).
    exists [], c, cur, rest. by rewrite app_nil_r.
  - intros H. destruct (IH _ H) as (pre & c & cur & rest' & -> & ->).
    exists (a :: pre), c, cur, rest'. by rewrite <- app_assoc.
Qed.

Lemma gopt_char_size os c g a g' :
  gopt_char os c g = (a, g') -> a <> GEnd /\ (gsize g' <= gsize g)%nat.
Proof.
  unfold gopt_char, gsize. destruct (opt_lookup os c) as [[]|].
  - destruct (g_cur g) eqn:Hc; [destruct (g_rest g) eqn:Hr|]; intros [= <- <-]; cbn; rewrite ?Hc, ?Hr; cbn; (split; [done|lia]).
  - intros [= <- <-]. split; [done|lia].
  - intros [= <- <-]. split; [done|lia].
Qed.

Lemma getopt_step_size os g a g' :
  getopt_step os g = (a, g') -> a <> GEnd -> (gsize g' < gsize g)%nat.
Proof.
  unfold getopt_step. destruct g as [used non rest cur]. cbn.
  destruct cur as [|c cur].
  - destruct (gopt_advance used non rest) as [[g1|] g2] eqn:E.
    + destruct (gopt_advance_inv _ _ _ _ _ E) as (pre & c & cur & rest' & -> & ->). cbn.
      intros [_ Hl]%gopt_char_size _. unfold gsize in *. cbn in *.
      rewrite sum_list_with_app. cbn. lia.
    + intros [= <- <-]. done.
  - intros [_ Hl]%gopt_char_size _. unfold gsize in *. cbn in *. lia.
Qed.

Lemma getopts_total os g : exists l g', getopts os g l g'.
Proof.
  remember (gsize g) as n eqn:Hn. revert g Hn. induction (lt_wf n) as [n _ IH]. intros g ->.
  destruct (getopt_step os g) as [a g1] eqn:E.
  assert (a = GEnd \/ a <> GEnd) as [->|Ha] by (destruct a; auto).
  - exists [], g1. by constructor.
  - destruct (IH (gsize g1) ltac:(by eapply getopt_step_size) g1 eq_refl) as (l & g' & H).
    exists (a :: l), g'. by eapply getopts_cons.
Qed.

(** ** A scan permutes the command line *)
Definition elements_of (g : gopt) : list string := g_used g ++ g_non g ++ g_rest g.

Lemma gopt_advance_perm used non rest o g' :
  gopt_advance used non rest = (o, g') ->
  elements_of g' ≡ₚ used ++ non ++ rest /\ (forall g1, o = Some g1 -> g1 = g').
Proof.
  revert non. induction rest as [|a rest IH]; intros non; cbn.
  - intros [= <- <-]. done.
  - case_if.
    + intros [= <- <-]. split; [|done]. unfold elements_of. cbn. solve_Permutation.
    + destruct (is_option a).
      * intros [= <- <-]. split; [|naive_solver]. unfold elements_of. cbn. solve_Permutation.
      * intros H. destruct (IH _ H) as [Hp ?]. split; [|done].
        rewrite Hp. solve_Permutation.
Qed.

Lemma gopt_char_perm os c g a g' :
  gopt_char os c g = (a, g') -> elements_of g' ≡ₚ elements_of g.
Proof.
  unfold gopt_char, elements_of. destruct (opt_lookup os c) as [[]|]; [|by intros [= _ <-]..].
  destruct (g_cur g); [destruct (g_rest g) as [|x rest] eqn:Hr|]; intros [= _ <-]; cbn;
    rewrite ?Hr; solve_Permutation.
Qed.

Lemma getopt_step_perm os g a g' :
  getopt_step os g = (a, g') -> elements_of g' ≡ₚ elements_of g.
Proof.
  unfold getopt_step. destruct (g_cur g) as [|c cur].
  - destruct (gopt_advance _ _ _) as [[g1|] g2] eqn:E;
      destruct (gopt_advance_perm _ _ _ _ _ E) as [Hp Hg].
    + rewrite (Hg g1 eq_refl). destruct (g_cur g2).
      * by intros [= _ <-].
      * intros H%gopt_char_perm. rewrite H. unfold elements_of in *. cbn. by rewrite Hp.
    + by intros [= _ <-].
  - intros H%gopt_char_perm. by rewrite H.
Qed.

Lemma getopts_perm os g l g' : getopts os g l g' -> elements_of g' ≡ₚ elements_of g.
Proof.
  induction 1 as [g g' H|g a g1 l g' H Ha _ IH]; [by eapply getopt_step_perm|].
  rewrite IH. by eapply getopt_step_perm.
Qed.

(** The operands keep their order behind the options. *)
Lemma getopt_argv_perm argv os l g' :
  getopts os (getopt_init argv) l g' -> getopt_argv argv g' ≡ₚ argv.
Proof.
  intros H%getopts_perm. unfold getopt_argv. fold (elements_of g'). rewrite H.
  by destruct argv.
Qed.

(** ** A command line written from options and operands

    A word is a group of letters, of which the last may take an argument: the
    rest of the element, or the element after it. *)
Inductive argument := NoArg | Glued (c : ascii) (a : string) | Next (c : ascii) (a : string).
Inductive word := Word (flags : string) (arg : argument) | Operand (s : string).

Definition render (w : word) : list string :=
  match w with
  | Word fl NoArg => [String "-" fl]
  | Word fl (Glued c a) => [String "-" (fl +:+ String c a)]
  | Word fl (Next c a) => [String "-" (fl +:+ String c ""); a]
  | Operand s => [s]
  end.

Definition takes_arg (os : string) (c : ascii) (b : bool) : bool :=
  match opt_lookup os c with Some b' => Bool.eqb b b' | None => false end.

Definition word_ok (os : string) (w : word) : bool :=
  match w with
  | Word fl arg =>
      sforallb (fun c => takes_arg os c false) fl &&
      match arg with
      | NoArg => negb (streq fl "")
      | Glued c a => takes_arg os c true && negb (streq a "")
      | Next c a => takes_arg os c true
      end
  | Operand s => negb (is_option s)
  end.

Fixpoint flags_found (fl : string) : list gopt_ans :=
  match fl with EmptyString => [] | String c fl => GFound c "" :: flags_found fl end.

(** The options a command line gives, in order, and its operands. *)
Definition word_opts (w : word) : list gopt_ans :=
  match w with
  | Word fl arg =>
      flags_found fl ++ match arg with NoArg => [] | Glued c a | Next c a => [GFound c a] end
  | Operand _ => []
  end.
Definition word_operand (w : word) : list string :=
  match w with Word _ _ => [] | Operand s => [s] end.
Definition word_used (w : word) : list string :=
  match w with Word _ _ => render w | Operand s => [] end.

(** Words, and possibly ["--"] with operands of any form after it. *)
Definition render_line (ws : list word) (tail : option (list string)) : list string :=
  concat (map render ws) ++ match tail with Some l => "--" :: l | None => [] end.
Definition line_operands (ws : list word) (tail : option (list string)) : list string :=
  concat (map word_operand ws) ++ default [] tail.
Definition line_used (ws : list word) (tail : option (list string)) : list string :=
  concat (map word_used ws) ++ match tail with Some _ => ["--"] | None => [] end.

Section Render.
Variable os : string.

Lemma opt_lookup_dash c b : takes_arg os c b = true -> strchr os "-" = false -> c <> "-"%char.
Proof.
  unfold takes_arg. intros H Hd ->. destruct (opt_lookup os "-") eqn:E; [clear H|done].
  revert Hd b0 E. induction os as [|d s IH]; cbn; [done|].
  intros [Hd Hs]%orb_false_elim b0. rewrite Hd. cbn. apply IH. exact Hs.
Qed.

Lemma getopts_operand used non s rest l g' :
  is_option s = false -> getopts os (GOpt used (non ++ [s]) rest "") l g' ->
  getopts os (GOpt used non (s :: rest) "") l g'.
Proof.
  intros Hs H.
  assert (getopt_step os (GOpt used non (s :: rest) "") =
          getopt_step os (GOpt used (non ++ [s]) rest "")) as E.
  { unfold getopt_step. cbn. rewrite Hs.
    destruct (streq s "--") eqn:E; [|done]. apply streq_spec in E. by subst s. }
  inversion H; subst; [constructor; by rewrite E|].
  eapply getopts_cons; [by rewrite E|done|done].
Qed.

Lemma getopts_element used non cur rest l g' :
  (exists c r, cur = String c r /\ c <> "-"%char) ->
  getopts os (GOpt (used ++ [String "-" cur]) non rest cur) l g' ->
  getopts os (GOpt used non (String "-" cur :: rest) "") l g'.
Proof.
  intros (c & r & -> & Hc) H.
  assert (getopt_step os (GOpt used non (String "-" (String c r) :: rest) "") =
          getopt_step os (GOpt (used ++ [String "-" (String c r)]) non rest (String c r))) as E.
  { unfold getopt_step. cbn [g_cur g_used g_non g_rest gopt_advance].
    assert (streq (String "-" (String c r)) "--" = false) as ->.
    { apply streq_neq. congruence. }
    done. }
  inversion H; subst; [constructor; by rewrite E|].
  eapply getopts_cons; [by rewrite E|done|done].
Qed.

Lemma getopts_flags used non rest fl cur l g' :
  sforallb (fun c => takes_arg os c false) fl = true ->
  getopts os (GOpt used non rest cur) l g' ->
  getopts os (GOpt used non rest (fl +:+ cur)) (flags_found fl ++ l) g'.
Proof.
  induction fl as [|c fl IH]; [done|]. cbn [sforallb]. intros [Hc Hfl]%andb_prop H.
  rewrite app_cons_s. cbn [flags_found app]. eapply getopts_cons; [|done|by apply IH].
  unfold getopt_step. cbn. unfold gopt_char, takes_arg in *.
  destruct (opt_lookup os c) as [[]|]; done.
Qed.

Lemma getopts_arg_glued used non rest c a l g' :
  takes_arg os c true = true -> a <> "" ->
  getopts os (GOpt used non rest "") l g' ->
  getopts os (GOpt used non rest (String c a)) (GFound c a :: l) g'.
Proof.
  intros Hc Ha H. eapply getopts_cons; [|done|exact H].
  unfold getopt_step. cbn. unfold gopt_char, takes_arg in *.
  destruct (opt_lookup os c) as [[]|]; try done. by destruct a.
Qed.

Lemma getopts_arg_next used non rest c a l g' :
  takes_arg os c true = true ->
  getopts os (GOpt (used ++ [a]) non rest "") l g' ->
  getopts os (GOpt used non (a :: rest) (String c "")) (GFound c a :: l) g'.
Proof.
  intros Hc H. eapply getopts_cons; [|done|exact H].
  unfold getopt_step. cbn. unfold gopt_char, takes_arg in *.
  by destruct (opt_lookup os c) as [[]|].
Qed.

Lemma getopts_word used non w rest l g' :
  strchr os "-" = false -> word_ok os w = true ->
  getopts os (GOpt (used ++ word_used w) (non ++ word_operand w) rest "") l g' ->
  getopts os (GOpt used non (render w ++ rest) "") (word_opts w ++ l) g'.
Proof.
  intros Hd Hok H. destruct w as [fl arg|s]; cbn in *.
  - rewrite app_nil_r in H. apply andb_prop in Hok as [Hfl Harg].
    assert (forall c cur, (fl <> "" \/ takes_arg os c true = true) ->
              exists d r, fl +:+ String c cur = String d r /\ d <> "-"%char) as Hhead.
    { intros c cur Hor. destruct fl as [|d fl].
      - exists c, cur. split; [done|]. eapply opt_lookup_dash; [|done]. by destruct Hor.
      - exists d, (fl +:+ String c cur). split; [done|]. cbn in Hfl.
        apply andb_prop in Hfl as [Hx _]. by eapply opt_lookup_dash. }
    destruct arg as [|c a|c a]; cbn in *; bool_props; rewrite <- ?app_assoc; cbn [app].
    + apply getopts_element.
      * destruct fl as [|d fl]; [done|]. exists d, fl. split; [done|].
        cbn in Hfl. apply andb_prop in Hfl as [Hx _]. by eapply opt_lookup_dash.
      * pose proof (getopts_flags _ _ _ _ "" _ _ Hfl H) as Hg. by rewrite app_nil_r_s in Hg.
    + apply getopts_element; [by apply Hhead; right|].
      apply getopts_flags; [done|]. by apply getopts_arg_glued.
    + apply getopts_element; [by apply Hhead; right|].
      apply getopts_flags; [done|]. apply getopts_arg_next; [done|]. by rewrite <- app_assoc.
  - apply negb_true_iff in Hok. rewrite app_nil_r in H. by apply getopts_operand.
Qed.

Lemma getopts_line ws tail used non :
  strchr os "-" = false -> forallb (word_ok os) ws = true ->
  getopts os (GOpt used non (render_line ws tail) "") (concat (map word_opts ws))
    (GOpt (used ++ line_used ws tail) (non ++ line_operands ws tail) [] "").
Proof.
  intros Hd. unfold render_line, line_used, line_operands. revert used non.
  induction ws as [|w ws IH]; intros used non; cbn.
  - intros _. constructor. destruct tail as [ops|]; cbn; [done|]. by rewrite !app_nil_r.
  - intros [Hw Hws]%andb_prop. rewrite <- !app_assoc. apply getopts_word; [done|done|].
    pose proof (IH (used ++ word_used w) (non ++ word_operand w) Hws) as H.
    rewrite <- !app_assoc in H. exact H.
Qed.

(** The permuted vector of such a line, and [optind]. *)
Lemma render_argv prog ws tail :
  let g := GOpt (line_used ws tail) (line_operands ws tail) [] "" in
  getopt_argv (prog :: render_line ws tail) g = prog :: line_used ws tail ++ line_operands ws tail /\
  optind g = (1 + Z.of_nat (length (line_used ws tail)))%Z.
Proof. cbn. unfold getopt_argv. cbn. by rewrite app_nil_r. Qed.
End Render.

(** ** Loops over [getopt]

    A loop whose variables hold a scan goes through the answers of the scan; [I]
    relates the answers still to come with its variables and the state. *)
Lemma wp_getopts `{Kernel} {V B} (body : V -> prog (V + B)) os (scan : V -> gopt) gend
    (I : list gopt_ans -> V -> St -> Prop) (Q : res B -> St -> Prop) :
  (forall v st, getopt_step os (scan v) = (GEnd, gend) -> I [] v st ->
    wp (body v) (fun r st' => match r with
                              | Returned (inl _) => False
                              | Returned (inr b) => Q (Returned b) st'
                              | Stopped s => Q (Stopped s) st'
                              end) st) ->
  (forall a l v st g1, getopt_step os (scan v) = (a, g1) -> a <> GEnd -> I (a :: l) v st ->
    wp (body v) (fun r st' => match r with
                              | Returned (inl v') => scan v' = g1 /\ I l v' st'
                              | Returned (inr b) => Q (Returned b) st'
                              | Stopped s => Q (Stopped s) st'
                              end) st) ->
  forall l v st, getopts os (scan v) l gend -> I l v st -> wp (ITree.iter body v) Q st.
Proof.
  intros Hend Hcons l v st Hg. remember (scan v) as g eqn:Hv. revert v st Hv.
  induction Hg as [g g' Hs|g a g1 l g' Hs Ha Hg IH]; intros v st -> HI; apply wp_iter.
  - eapply wp_mono; [by apply Hend|]. by intros [[v'|b]|s] st'.
  - eapply wp_mono; [by eapply Hcons|]. intros [[v'|b]|s] st'; [|done|done].
    intros [E HI']. by apply IH.
Qed.

(** ** t_getopt.c *)
Section TGetopt.
Context `{K : Kernel}.

(** The line each option of the program is reported with. *)
Definition option_line (a : gopt_ans) : string :=
  match a with
  | GFound c arg =>
      if Ascii.eqb c "p" then format "-p was specified with argument: %s\n" [Str arg]
      else format "-x was specified\n" []
  | _ => ""
  end.
Definition operand_lines (ops : list string) : list string :=
  match ops with [] => [] | s :: _ => [format "Non-option arg: %s\n" [Str s]] end.

Lemma opt_lookup_xp c b : opt_lookup "xp:" c = Some b -> c = "x"%char \/ c = "p"%char.
Proof.
  destruct c as [[] [] [] [] [] [] [] []]; cbn; intros [= <-]; auto.
Qed.

(** What [getopt] finds is an option it was asked for. *)
Lemma getopt_step_found os g c arg g' :
  getopt_step os g = (GFound c arg, g') -> is_Some (opt_lookup os c).
Proof.
  assert (forall d g1, gopt_char os d g1 = (GFound c arg, g') -> is_Some (opt_lookup os c)) as H.
  { intros d g1. unfold gopt_char. destruct (opt_lookup os d) as [[]|] eqn:E; [| |done].
    - destruct (g_cur g1); [destruct (g_rest g1)|]; intros [= <- _ _]; by eexists.
    - intros [= <- _ _]. by eexists. }
  unfold getopt_step. destruct (g_cur g); [|apply H].
  destruct (gopt_advance _ _ _) as [[g1|] g2]; [|done]. destruct (g_cur g1); [done|apply H].
Qed.

Lemma t_getopt_run argv l gend st :
  getopts "xp:" (getopt_init argv) l gend ->
  wp (t_getopt.main argv) (fun r st' =>
    if existsb (fun a => match a with GError _ => true | _ => false end) l
    then r = Stopped (Exited EXIT_FAILURE) /\ exists evs, s_log st' = s_log st ++ evs /\ reports evs = true
    else r = Returned 0 /\
      s_log st' = s_log st ++ map (EPrint stdout)
        (map option_line l ++
         operand_lines (drop (Z.to_nat (optind gend)) (getopt_argv argv gend)))) st.
Proof.
  intros Hg. unfold t_getopt.main. apply wp_bind.
  set (bad := fun a => match a with GError _ => true | _ => false end).
  apply (wp_getopts _ "xp:" (fun g => g) gend (fun l' _ st' => exists done_, l = done_ ++ l' /\
    existsb bad done_ = false /\ s_log st' = s_log st ++ map (EPrint stdout) (map option_line done_)) _)
    with (l := l); [| |done|by exists []; rewrite app_nil_r].
  - intros g st1 Hs (done_ & -> & Hb & Hlog). unfold getopt. rewrite Hs. wp_steps.
    rewrite app_nil_r, Hb. apply wp_when; intros Hlt; wp_steps; (split; [done|]).
    + rewrite s_log_add, Hlog, <- app_assoc, map_app. bool_props.
      unfold argc, nth_arg in *. assert (0 <= optind gend) by (unfold optind; lia).
      destruct (drop _ _) as [|s ops] eqn:E.
      * apply (f_equal length) in E. rewrite length_drop in E. cbn in E. lia.
      * assert (nth (Z.to_nat (optind gend)) (getopt_argv argv gend) "" = s) as ->; [|reflexivity].
        rewrite <- (take_drop (Z.to_nat (optind gend)) (getopt_argv argv gend)), E.
        rewrite app_nth2; rewrite length_take_le by lia; [|lia]. by rewrite Nat.sub_diag.
    + bool_props. unfold argc in *. rewrite drop_ge by lia. by rewrite app_nil_r.
  - intros a l' g st1 g1 Hs Ha (done_ & -> & Hb & Hlog). unfold getopt. rewrite Hs.
    destruct a as [|c arg|msg]; [done| |].
    + wp_steps. pose proof (getopt_step_found _ _ _ _ _ Hs) as [b Hc].
      destruct (opt_lookup_xp _ _ Hc) as [-> | ->]; wp_go;
        (split; [done|]); eexists; (split; [by rewrite cons_middle, app_assoc|]);
        rewrite existsb_app, Hb, s_log_add, Hlog, !map_app, <- app_assoc; done.
    + wp_go. assert (existsb bad (done_ ++ GError msg :: l') = true) as ->
        by (rewrite existsb_app; cbn; by rewrite orb_true_r).
      split; [done|]. eexists. rewrite s_log_add, Hlog, <- app_assoc. split; [done|].
      unfold reports. rewrite existsb_app. cbn. by rewrite orb_true_r.
Qed.
End TGetopt.

(** C36: [t_getopt] ends on every command line: with status 0, or with status 1
    after a message on stderr, and the latter exactly when [getopt] meets an
    error. The elements it then looks at are the ones it was given, in another
    order. *)
Theorem t_getopt_total `{Kernel} argv st :
  exists l g, getopts "xp:" (getopt_init argv) l g /\ getopt_argv argv g ≡ₚ argv /\
    wp (t_getopt.main argv) (fun r st' =>
      if existsb (fun a => match a with GError _ => true | _ => false end) l
      then r = Stopped (Exited EXIT_FAILURE) /\
           exists evs, s_log st' = s_log st ++ evs /\ reports evs = true
      else r = Returned 0) st.
Proof.
  destruct (getopts_total "xp:" (getopt_init argv)) as (l & g & Hg). exists l, g.
  split; [done|]. split; [by eapply getopt_argv_perm|].
  eapply wp_mono; [by apply t_getopt_run|]. intros r st'. case_if; [done|]. by intros [-> _].
Qed.

Lemma word_opts_ok l : existsb (fun a => match a with GError _ => true | _ => false end)
  (concat (map word_opts l)) = false.
Proof.
  induction l as [|w l IH]; [done|]. cbn. rewrite existsb_app, IH, orb_false_r.
  destruct w as [fl arg|s]; [|done]. cbn. rewrite existsb_app.
  replace (existsb _ (flags_found fl)) with false by (by induction fl).
  by destruct arg.
Qed.

(** C37: A command line written from options -x, -p with an argument, groups of
    them, and operands anywhere among them is reported option by option in order,
    followed by the first operand. *)
Theorem t_getopt_prints `{Kernel} prog ws tail st :
  forallb (word_ok "xp:") ws = true ->
  wp (t_getopt.main (prog :: render_line ws tail)) (fun r st' =>
    r = Returned 0 /\
    s_log st' = s_log st ++ map (EPrint stdout)
      (map option_line (concat (map word_opts ws)) ++ operand_lines (line_operands ws tail))) st.
Proof.
  intros Hok. pose proof (getopts_line "xp:" ws tail [] [] eq_refl Hok) as Hg.
  destruct (render_argv prog ws tail) as [Hargv Hopt].
  eapply wp_mono; [apply (t_getopt_run (prog :: render_line ws tail) _ _ st Hg)|].
  intros r st'. rewrite word_opts_ok. intros [-> Hlog]. split; [done|]. rewrite Hlog.
  cbn [app] in *. rewrite Hargv, Hopt.
  replace (Z.to_nat _) with (S (length (line_used ws tail))) by lia. cbn [drop].
  by rewrite drop_app_length.
Qed.

(** -x three -pone -xp two -- four *)
Definition sample_words : list word :=
  [Word "x" NoArg; Operand "three"; Word "" (Glued "p" "one"); Word "x" (Next "p" "two")].
Definition idle : @St mem_kernel := mkSt 0 [] (Fs ∅ ∅ ∅).

Lemma t_getopt_prints_witness :
  wp (t_getopt.main ["t"; "-x"; "three"; "-pone"; "-xp"; "two"; "--"; "four"]) (fun r st' =>
    r = Returned 0 /\
    s_log st' = s_log idle ++ map (EPrint stdout)
      (map option_line [GFound "x" ""; GFound "p" "one"; GFound "x" ""; GFound "p" "two"] ++
       operand_lines ["three"; "four"])) idle.
Proof. apply (t_getopt_prints "t" sample_words (Some ["four"])). reflexivity. Defined.

(** ** t_mount.c *)
Section TMount.
Import t_mount.

(** The argument of the last option [c], and the flags all options -f give. *)
Definition last_arg (c : ascii) (l : list gopt_ans) : option string :=
  fold_left (fun o a => match a with
                        | GFound d arg => if Ascii.eqb d c then Some arg else o
                        | _ => o
                        end) l None.
Fixpoint letters_flags (s : string) : option Z :=
  match s with
  | EmptyString => Some 0
  | String c s =>
      match flag_of c, letters_flags s with
      | Some f, Some f' => Some (Z.lor f f')
      | _, _ => None
      end
  end.
Definition ans_flags (a : gopt_ans) : option Z :=
  match a with
  | GFound c arg => if Ascii.eqb c "f" then letters_flags arg else Some 0
  | _ => None
  end.
Fixpoint all_flags (l : list gopt_ans) : option Z :=
  match l with
  | [] => Some 0
  | a :: l =>
      match ans_flags a, all_flags l with
      | Some f, Some f' => Some (Z.lor f f')
      | _, _ => None
      end
  end.

Lemma last_arg_snoc c l a :
  last_arg c (l ++ [a]) = match a with
                          | GFound d arg => if Ascii.eqb d c then Some arg else last_arg c l
                          | _ => last_arg c l
                          end.
Proof. unfold last_arg. by rewrite fold_left_app. Qed.

Context `{K : Kernel}.

(** The letters of one -f: the flags are added, or the program ends. *)
Lemma parse_flags_run s flags (Q : res Z -> St -> Prop) st :
  match letters_flags s with
  | Some f => Q (Returned (Z.lor flags f)) st
  | None => forall text, Q (Stopped (Exited EXIT_FAILURE)) (add_ev (EPrint stderr text) st)
  end -> wp (parse_flags s flags) Q st.
Proof.
  revert flags. induction s as [|c s IH]; intros flags; cbn [parse_flags letters_flags].
  - intros HQ. wp_steps. by rewrite Z.lor_0_r in HQ.
  - destruct (flag_of c) as [f|].
    + intros HQ. apply IH. destruct (letters_flags s); [|done]. by rewrite <- Z.lor_assoc.
    + intros HQ. wp_steps. apply HQ.
Qed.

Lemma opt_lookup_tof c b :
  opt_lookup "t:o:f:" c = Some b -> c = "t"%char \/ c = "o"%char \/ c = "f"%char.
Proof. destruct c as [[] [] [] [] [] [] [] []]; cbn; intros [= <-]; auto. Qed.

Lemma all_flags_snoc l a :
  all_flags (l ++ [a]) = match all_flags l, ans_flags a with
                         | Some f, Some f' => Some (Z.lor f f')
                         | _, _ => None
                         end.
Proof.
  induction l as [|b l IH]; cbn.
  - destruct (ans_flags a); [|done]. by rewrite Z.lor_0_r.
  - rewrite IH. destruct (ans_flags b), (all_flags l), (ans_flags a); try done.
    by rewrite Z.lor_assoc.
Qed.

Lemma all_flags_app_None l l' : all_flags l = None -> all_flags (l ++ l') = None.
Proof.
  induction l as [|b l IH]; cbn; [done|]. destruct (ans_flags b); [|done].
  destruct (all_flags l); [done|]. intros _. by rewrite IH.
Qed.

(** The operands, as the programs index them. *)
Lemma drop_optind (argv : list string) (i : Z) :
  0 <= i ->
  match drop (Z.to_nat i) argv with
  | [a; b] => argc argv = i + 2 /\ argv.[i] = a /\ argv.[i + 1] = b
  | _ => argc argv <> i + 2
  end.
Proof.
  intros Hi. unfold argc, nth_arg.
  assert (length (drop (Z.to_nat i) argv) = (length argv - Z.to_nat i)%nat) as Hl by apply length_drop.
  destruct (drop (Z.to_nat i) argv) as [|a [|b [|c l]]] eqn:E; cbn in Hl; try lia.
  assert (forall j, nth (Z.to_nat i + j) argv "" = nth j [a; b] "") as Hn.
  { intros j. rewrite <- (take_drop (Z.to_nat i) argv), E at 1.
    rewrite app_nth2; rewrite length_take_le by lia; [|lia]. f_equal. lia. }
  split; [lia|]. split.
  - rewrite <- (Nat.add_0_r (Z.to_nat i)). apply (Hn 0%nat).
  - rewrite Z2Nat.inj_add by lia. apply (Hn 1%nat).
Qed.

(** The end of a run that makes no call. *)
Definition refused (st : St) (r : res Z) (st' : St) : Prop :=
  r = Stopped (Exited EXIT_FAILURE) /\ exists text, s_log st' = s_log st ++ [EPrint stderr text].

(** The end of a run that makes the call [s]. *)
Definition called (s : SysE Z) (st : St) (r : res Z) (st' : St) : Prop :=
  exists x, if x ==? -1
    then r = Stopped (Exited EXIT_FAILURE) /\
         exists text, s_log st' = s_log st ++ [ECall s x; EPrint stderr text]
    else r = Returned 0 /\ s_log st' = s_log st ++ [ECall s x].

(** What follows the options: the operands are counted, and mounted. *)
Lemma operands_run `{CText} argv i o st0 st :
  0 <= i -> s_log st = s_log st0 ->
  wp (when (argc argv !=? i + 2) (
        fprintf stderr "Wrong number of arguments provided.\n" [] ;;
        exit EXIT_FAILURE) ;;
      r <- sys (Mount argv.[i] argv.[i + 1] (fsType o) (flags o) (options o)) ;;
      when (r ==? -1) (
        e <- errno ;;
        fprintf stderr "Failed to mount %s on %s - %s\n"
          [Str argv.[i]; Str argv.[i + 1]; Str (strerror e)] ;;
        exit EXIT_FAILURE) ;;
      Ret 0)
    (fun r st' => match drop (Z.to_nat i) argv with
     | [source; target] => called (Mount source target (fsType o) (flags o) (options o)) st0 r st'
     | _ => refused st0 r st'
     end) st.
Proof.
  intros Hi Hlog. pose proof (drop_optind argv i Hi) as Hops.
  destruct (drop _ _) as [|src [|tgt [|x ops]]].
  1, 2, 4: apply Z.eqb_neq in Hops; rewrite Hops; cbn [negb]; wp_steps; split; [done|]; eexists; by rewrite s_log_add, Hlog.
  destruct Hops as (Hargc & -> & ->). rewrite Hargc, Z.eqb_refl. cbn [negb].
  wp_go; unfold called; eexists; rewrite Hb.
  - split; [done|]. eexists. rewrite s_log_add, s_log_after, Hlog, <- app_assoc. done.
  - split; [done|]. by rewrite s_log_after, Hlog.
Qed.

Lemma mount_run `{CText} argv l gend st :
  getopts "t:o:f:" (getopt_init argv) l gend ->
  wp (main argv) (fun r st' =>
    match all_flags l, drop (Z.to_nat (optind gend)) (getopt_argv argv gend) with
    | Some f, [source; target] =>
        called (Mount source target (last_arg "t" l) f (last_arg "o" l)) st r st'
    | _, _ => refused st r st'
    end) st.
Proof.
  intros Hg. unfold main. apply wp_bind.
  apply (wp_getopts _ "t:o:f:" snd gend (fun l' '(o, _) st' => exists done_, l = done_ ++ l' /\
    s_log st' = s_log st /\ fsType o = last_arg "t" done_ /\ options o = last_arg "o" done_ /\
    all_flags done_ = Some (flags o)) _) with (l := l); [| |done|by exists []].
  - intros [o g] st1 Hs (done_ & -> & Hlog & Ht & Ho & Hf). cbn in Hs. unfold getopt. rewrite Hs.
    do 3 wp_run1. rewrite app_nil_r, Hf.
    rewrite <- Ht, <- Ho. apply operands_run; [unfold optind; lia|done].
  - intros a l' [o g] st1 g1 Hs Ha (done_ & -> & Hlog & Ht & Ho & Hf). cbn in Hs.
    unfold getopt. rewrite Hs. destruct a as [|c arg|msg]; [done| |].
    + wp_steps. pose proof (getopt_step_found _ _ _ _ _ Hs) as [b Hc].
      assert (done_ ++ GFound c arg :: l' = (done_ ++ [GFound c arg]) ++ l') as Hd
        by by rewrite <- app_assoc.
      pose proof (all_flags_snoc done_ (GFound c arg)) as Hf'. rewrite Hf in Hf'.
      destruct (opt_lookup_tof _ _ Hc) as [-> | [-> | ->]]; cbn [ans_flags Ascii.eqb Bool.eqb] in Hf'.
      * wp_go. split; [done|]. exists (done_ ++ [GFound "t" arg]).
        rewrite !last_arg_snoc, Hf'. cbn. by rewrite Z.lor_0_r.
      * wp_go. split; [done|]. exists (done_ ++ [GFound "o" arg]).
        rewrite !last_arg_snoc, Hf'. cbn. by rewrite Z.lor_0_r.
      * wp_go. apply parse_flags_run. destruct (letters_flags arg) as [f|].
        -- wp_go. split; [done|]. exists (done_ ++ [GFound "f" arg]).
           by rewrite !last_arg_snoc, Hf'.
        -- intros text. rewrite Hd, (all_flags_app_None _ _ Hf').
           split; [done|]. exists text. by rewrite s_log_add, Hlog.
    + wp_go. replace (all_flags _) with (@None Z).
      * split; [done|]. eexists. by rewrite s_log_add, Hlog.
      * rewrite cons_middle, app_assoc, all_flags_app_None; [done|].
        by rewrite all_flags_snoc, Hf.
Qed.
End TMount.

(** C17: On a command line with options -t, -o and -f anywhere among two operands,
    [t_mount] makes one call: it mounts the first operand on the second, with the
    last type and the last options given and the flags of all letters of all -f;
    it succeeds exactly when the call does. *)
Theorem t_mount_mounts `{CText} `{Kernel} prog ws tail source target f st :
  forallb (word_ok "t:o:f:") ws = true ->
  line_operands ws tail = [source; target] ->
  all_flags (concat (map word_opts ws)) = Some f ->
  wp (t_mount.main (prog :: render_line ws tail))
    (called (Mount source target (last_arg "t" (concat (map word_opts ws))) f
               (last_arg "o" (concat (map word_opts ws)))) st) st.
Proof.
  intros Hok Hops Hf. pose proof (getopts_line "t:o:f:" ws tail [] [] eq_refl Hok) as Hg.
  destruct (render_argv prog ws tail) as [Hargv Hopt].
  eapply wp_mono; [apply (mount_run (prog :: render_line ws tail) _ _ st Hg)|].
  intros r st'. cbn [app] in *. rewrite Hf, Hargv, Hopt.
  replace (Z.to_nat _) with (S (length (line_used ws tail))) by lia. cbn [drop].
  by rewrite drop_app_length, Hops.
Qed.

(** mount -f rE -t ext4 /dev/sda1 -o noatime -f b /mnt *)
Definition mount_words : list word :=
  [Word "" (Next "f" "rE"); Word "" (Next "t" "ext4"); Operand "/dev/sda1";
   Word "" (Next "o" "noatime"); Word "" (Glued "f" "b"); Operand "/mnt"].

Lemma t_mount_mounts_witness :
  let _ := plain_text in
  wp (t_mount.main ["mount"; "-f"; "rE"; "-t"; "ext4"; "/dev/sda1"; "-o"; "noatime"; "-fb"; "/mnt"])
    (called (Mount "/dev/sda1" "/mnt" (Some "ext4") 4105 (Some "noatime")) idle) idle.
Proof.
  apply (t_mount_mounts "mount" mount_words None "/dev/sda1" "/mnt" 4105 idle); reflexivity.
Defined.

(** On every command line [t_mount] ends, after no call and a message on stderr
    or after one call of [mount]; it reports success only when that call
    succeeded. *)
Theorem t_mount_fail_stop `{CText} `{Kernel} argv : fail_stop (t_mount.main argv).
Proof.
  intros st. destruct (getopts_total "t:o:f:" (getopt_init argv)) as (l & g & Hg).
  eapply wp_mono; [by apply (mount_run argv _ _ st Hg)|]. intros r st'.
  assert (refused st r st' -> exists l, s_log st' = s_log st ++ l /\
            fail_stop_log (success r) l = true) as Href.
  { intros [-> [text ->]]. by eexists. }
  destruct (all_flags l) as [f|]; [|done].
  destruct (drop _ _) as [|src [|tgt [|x ops]]]; try done.
  intros [x Hx]. destruct (x ==? -1) eqn:E; destruct Hx as [-> Hx]; [destruct Hx as [text ->]|];
    (eexists; split; [done|]); unfold fail_stop_log, no_failure; cbn; by rewrite E.
Qed.
