(* ===== verification/Walks.v ===== *)
(** * Walks over records in a buffer: inotify/ and xattr/

    The kernel hands demo_inotify a buffer of event structures of varying size,
    and xattr_view a buffer of strings, each with its NUL. The theorems say that
    the walk over the bytes of such a buffer comes to each record once, in order,
    and ends with the last. *)

From S2P Require Import Prelude.
From S2P Require Import CLib.
From S2P Require Import Sys.
From S2P Require Import Sem.
From S2P Require Import FsSpec.
From S2P Require Import Misc.

(** ** demo_inotify.c *)
Section Inotify.
Import demo_inotify.
Context `{K : Kernel}.

(** An event as the kernel writes it. *)
Definition encode_event (e : inotify_event) : string :=
  encode_int (wd e) +:+ encode_int (mask e) +:+ encode_int (cookie e) +:+
  encode_int (slen (name e)) +:+ name e.
Definition event_ok (e : inotify_event) : Prop :=
  - 2 ^ 31 <= wd e < 2 ^ 31 /\ 0 <= mask e < 2 ^ 32 /\ 0 <= cookie e < 2 ^ 32 /\
  slen (name e) < 2 ^ 32.

Definition event_flags : list (Z * string) :=
  [(IN_ACCESS, "IN_ACCESS "); (IN_ATTRIB, "IN_ATTRIB "); (IN_CLOSE_NOWRITE, "IN_CLOSE_NOWRITE ");
   (IN_CLOSE_WRITE, "IN_CLOSE_WRITE "); (IN_CREATE, "IN_CREATE "); (IN_DELETE, "IN_DELETE ");
   (IN_DELETE_SELF, "IN_DELETE_SELF "); (IN_IGNORED, "IN_IGNORED "); (IN_ISDIR, "IN_ISDIR ");
   (IN_MODIFY, "IN_MODIFY "); (IN_MOVE_SELF, "IN_MOVE_SELF "); (IN_MOVED_FROM, "IN_MOVED_FROM ");
   (IN_MOVED_TO, "IN_MOVED_TO "); (IN_OPEN, "IN_OPEN "); (IN_Q_OVERFLOW, "IN_Q_OVERFLOW ");
   (IN_UNMOUNT, "IN_UNMOUNT ")].

(** The line of an event: its watch, its name and cookie when it has them, and
    the names of the bits of its mask. *)
Definition opt_piece (b : bool) (s : string) : list string := if b then [s] else [].
Definition event_line (e : inotify_event) : list string :=
  [format "    wd = %d; " [Int (wd e)]] ++
  opt_piece (0 <? slen (name e)) (format "name = %s; " [Str (name e)]) ++
  opt_piece (0 <? cookie e) (format "cookie = %d; " [Int (i32 (cookie e))]) ++
  concat (map (fun '(bit, text) => opt_piece (has_bit (mask e) bit) (format text [])) event_flags) ++
  [format "\n" []].

Lemma wp_print_when b fmt args (Q : res unit -> St -> Prop) st :
  Q (Returned tt) (printed (opt_piece b (format fmt args)) st) -> wp (when b (printf fmt args)) Q st.
Proof. intros HQ. apply wp_when; intros ->; [by wp_steps|]. by rewrite printed_nil in HQ. Qed.

Lemma printInotifyEvent_run e (Q : res unit -> St -> Prop) st :
  Q (Returned tt) (printed (event_line e) st) -> wp (printInotifyEvent e) Q st.
Proof.
  intros HQ. unfold printInotifyEvent, print_flag.
  wp_run1. wp_run1. rewrite add_ev_printed.
  do 18 (wp_run1; apply wp_print_when; rewrite printed_app).
  wp_run1. rewrite add_ev_printed, printed_app.
  unfold event_line in HQ. cbn [map event_flags concat] in HQ.
  rewrite app_nil_r in HQ. rewrite <- !app_assoc in *. exact HQ.
Qed.

Lemma decode_u32 z s : 0 <= z < 2 ^ 32 -> u32 (decode_int (encode_int z +:+ s)) = z.
Proof.
  intros Hz. rewrite decode_encode_int_app. unfold uwrap.
  rewrite swrap_mod by done. by apply Z.mod_small.
Qed.

Lemma sdrop_encode z s :
  sdrop 4 (encode_int z +:+ s) = s /\ sdrop 8 (encode_int z +:+ s) = sdrop 4 s /\
  sdrop 12 (encode_int z +:+ s) = sdrop 8 s /\ sdrop 16 (encode_int z +:+ s) = sdrop 12 s.
Proof. done. Qed.

(** The structure at the front of the rest of the buffer. *)
Lemma read_encoded e s :
  event_ok e ->
  event_len (encode_event e +:+ s) = slen (name e) /\ read_event (encode_event e +:+ s) = e.
Proof.
  intros (Hw & Hm & Hc & Hn). unfold read_event, event_len, sizeof_event, encode_event.
  pose proof (slen_nonneg (name e)). rewrite <- !app_assoc_s.
  rewrite !(fun z s => proj2 (proj2 (proj2 (sdrop_encode z s)))).
  rewrite !(fun z s => proj1 (proj2 (proj2 (sdrop_encode z s)))).
  rewrite !(fun z s => proj1 (proj2 (sdrop_encode z s))), !(fun z s => proj1 (sdrop_encode z s)).
  rewrite !decode_u32 by lia. rewrite decode_encode_int_app, stake_app, swrap_id by lia.
  by destruct e.
Qed.

(** The walk, from the offset [slen pre]. *)
Lemma print_events_run es (Q : res unit -> St -> Prop) st :
  Forall event_ok es ->
  Q (Returned tt) (printed (concat (map event_line es)) st) ->
  wp (print_events (sconcat (map encode_event es))) Q st.
Proof.
  intros Hok HQ. unfold print_events.
  apply (wp_iter_measure _ (fun p st' => exists done_ es', es = done_ ++ es' /\
    p = slen (sconcat (map encode_event done_)) /\
    st' = printed (concat (map event_line done_)) st)
    (fun p _ => Z.to_nat (slen (sconcat (map encode_event es)) - p)));
    [|exists [], es; by rewrite printed_nil].
  intros p st' (done_ & es' & -> & -> & ->). rewrite map_app, sconcat_app, slen_app.
  destruct es' as [|e es'].
  - rewrite app_nil_r in HQ. cbn. rewrite Z.add_0_r, Z.ltb_irrefl. by wp_steps.
  - apply Forall_app in Hok as [Hok Hok']. apply Forall_cons in Hok' as [He _].
    cbn [map sconcat]. rewrite slen_app.
    assert (16 <= slen (encode_event e)) as Hlen.
    { unfold encode_event. rewrite !slen_app, !slen_encode_int. unfold sizeof_int.
      pose proof (slen_nonneg (name e)). lia. }
    pose proof (slen_nonneg (sconcat (map encode_event es'))).
    rewrite (proj2 (Z.ltb_lt _ _)) by lia. rewrite sdrop_app.
    destruct (read_encoded e (sconcat (map encode_event es')) He) as [Hl Hr].
    rewrite Hr, Hl. wp_run1. apply printInotifyEvent_run. wp_steps.
    assert (sizeof_event + slen (name e) = slen (encode_event e)) as ->.
    { unfold encode_event. rewrite !slen_app, !slen_encode_int. unfold sizeof_int, sizeof_event. lia. }
    split; [|lia]. exists (done_ ++ [e]), es'. rewrite <- app_assoc. split; [done|].
    rewrite map_app, sconcat_app, slen_app, printed_app, map_app, concat_app.
    cbn [map sconcat concat].
    by rewrite app_nil_r, app_nil_r_s.
Qed.
End Inotify.

(** C34: When the kernel answers a read with whole events, each a structure with
    the length of its name, a round of [demo_inotify] prints the number of bytes
    and then each event once, in order: its watch, its name and cookie when it has
    them, and the bits of its mask. Then it goes on to the next round. *)
Theorem inotify_prints_events `{CText} `{Kernel} fd es st :
  es <> [] -> Forall event_ok es ->
  let buffer := sconcat (map encode_event es) in
  answer (Read fd demo_inotify.BUFFER_LENGTH) st = (slen buffer, buffer) ->
  wp (demo_inotify.serve fd tt) (fun r st' => r = Returned (inl tt) /\
    s_log st' = s_log st ++
      ECall (Read fd demo_inotify.BUFFER_LENGTH) (slen buffer, buffer) ::
      map (EPrint stdout) (format "Read %ld bytes from inotify fd\n" [Int (slen buffer)] ::
                           concat (map event_line es))) st.
Proof.
  intros Hne Hok buffer Hans. unfold demo_inotify.serve. wp_run1. wp_run1. rewrite Hans.
  assert (0 < slen buffer) as Hpos.
  { unfold buffer. destruct es as [|e es]; [done|]. cbn [map sconcat]. rewrite slen_app.
    unfold encode_event at 1. rewrite !slen_app, !slen_encode_int. pose proof (slen_nonneg (demo_inotify.name e)).
    pose proof (slen_nonneg (sconcat (map encode_event es))). unfold sizeof_int. lia. }
  rewrite (proj2 (Z.leb_gt _ _) Hpos). wp_steps. rewrite stake_all by lia.
  apply print_events_run; [done|]. wp_steps. split; [done|]. cbn.
  by rewrite s_log_after, Hans, <- !app_assoc.
Qed.

(** A kernel that answers one read with two events. *)
Definition sample_events : list demo_inotify.inotify_event :=
  [demo_inotify.Event 1 (demo_inotify.IN_OPEN .| demo_inotify.IN_ISDIR) 0 "";
   demo_inotify.Event 1 demo_inotify.IN_MOVED_TO 77 (String "a" (String nul ""))].
Definition event_kernel : Kernel := {|
  kstate := unit;
  kcall X (s : SysE X) k :=
    (match s in SysE X return X with
     | Read _ _ => (slen (sconcat (map encode_event sample_events)), sconcat (map encode_event sample_events))
     | s => refuse s
     end, None, k) |}.

Lemma inotify_prints_events_witness :
  let _ := plain_text in let _ := event_kernel in
  let st := mkSt 0 [] tt : St in
  wp (demo_inotify.serve 3 tt) (fun r st' => r = Returned (inl tt) /\
    s_log st' = s_log st ++
      ECall (Read 3 demo_inotify.BUFFER_LENGTH)
        (slen (sconcat (map encode_event sample_events)), sconcat (map encode_event sample_events)) ::
      map (EPrint stdout) (format "Read %ld bytes from inotify fd\n"
                             [Int (slen (sconcat (map encode_event sample_events)))] ::
                           concat (map event_line sample_events))) st.
Proof.
  apply (@inotify_prints_events plain_text event_kernel 3 sample_events); [done| |reflexivity].
  repeat constructor; vm_compute; repeat split; discriminate.
Defined.

(** ** xattr_view.c *)
Section Xattr.
Import xattr_view.
Context `{T : CText} `{K : Kernel}.

(** A list of names as [listxattr] writes it. *)
Definition encode_names (names : list string) : string :=
  sconcat (map (fun n => n +:+ String nul "") names).

(** A value as it is printed: all its bytes in hexadecimal, or its text. *)
Definition value_pieces (hex : bool) (n : Z) (v : string) : list string :=
  if hex
  then map (fun i => format "%02x " [Int (ord (snth i v))]) (seqZ 0 n) ++ [format "\n" []]
  else [format "%.*s\n" [Int (i32 n); Str v]].

(** The events for one name: the value is asked for, and printed or reported. *)
Definition name_shown (hex : bool) (path name : string) (evs : list event) : Prop :=
  exists x v e,
    evs = ECall (Getxattr path name XATTR_SIZE) (x, v) ::
      if x ==? -1
      then [EPrint stderr (format "Failed to get xattr value for: %s - %s\n" [Str name; Str (strerror e)])]
      else map (EPrint stdout) (format "\tname=%s; value=" [Str name] :: value_pieces hex x v).

Lemma printValueHex_run n v (Q : res unit -> St -> Prop) st :
  Q (Returned tt) (printed (value_pieces true n v) st) -> wp (printValueHex n v) Q st.
Proof.
  intros HQ. unfold printValueHex. apply wp_bind.
  apply (wp_for_print _ (fun i => format "%02x " [Int (ord (snth i v))])).
  - intros i Q' st' HQ'. by apply wp_fprintf.
  - wp_steps. rewrite add_ev_printed, printed_app. exact HQ.
Qed.

Lemma print_value_run (hex : bool) n v (Q : res unit -> St -> Prop) st :
  Q (Returned tt) (printed (value_pieces hex n v) st) ->
  wp ((if hex then printValueHex else printValueStr) n v) Q st.
Proof. destruct hex; [apply printValueHex_run|]. intros HQ. by apply wp_fprintf. Qed.

Lemma encode_names_app l l' : encode_names (l ++ l') = encode_names l +:+ encode_names l'.
Proof. unfold encode_names. by rewrite map_app, sconcat_app. Qed.

Lemma slen_encode_names_cons n l :
  slen (encode_names (n :: l)) = slen n + 1 + slen (encode_names l).
Proof. unfold encode_names. cbn [map sconcat]. by rewrite !slen_app. Qed.
End Xattr.

(** C35: The names [listxattr] lists, each followed by its NUL, are taken one by one
    and in order: for each [xattr_view] asks for the value, and prints the name
    with the value, in hexadecimal byte by byte with -x, or reports the failure and
    goes on. *)
Theorem xattr_shows_names `{CText} `{Kernel} hex path names st :
  Forall (fun n => cstr n = n) names ->
  wp (xattr_view.print_names hex path (encode_names names) (slen (encode_names names)))
    (fun r st' => r = Returned tt /\ exists evss,
      s_log st' = s_log st ++ concat evss /\ Forall2 (name_shown hex path) names evss) st.
Proof.
  intros Hok. unfold xattr_view.print_names.
  apply (wp_iter_measure _ (fun p st' => exists done_ names' evss, names = done_ ++ names' /\
    p = slen (encode_names done_) /\ s_log st' = s_log st ++ concat evss /\
    Forall2 (name_shown hex path) done_ evss)
    (fun p _ => Z.to_nat (slen (encode_names names) - p)));
    [|exists [], names, []; by rewrite app_nil_r].
  intros p st' (done_ & names' & evss & -> & -> & Hlog & Hev).
  rewrite encode_names_app, slen_app. destruct names' as [|n names'].
  - cbn. rewrite Z.add_0_r, Z.ltb_irrefl, app_nil_r. wp_steps. split; [done|]. by exists evss.
  - apply Forall_app in Hok as [_ Hok]. apply Forall_cons in Hok as [Hn _].
    rewrite slen_encode_names_cons. pose proof (slen_nonneg n). pose proof (slen_nonneg (encode_names names')).
    rewrite (proj2 (Z.ltb_lt _ _)) by lia. rewrite sdrop_app.
    replace (cstr (encode_names (n :: names'))) with n
      by (unfold encode_names; cbn [map sconcat]; rewrite <- app_assoc_s; symmetry; by apply cstr_app_nul).
    assert (forall evs st2, s_log st2 = s_log st' ++ evs -> name_shown hex path n evs ->
      (exists done0 names0 evss0, done_ ++ n :: names' = done0 ++ names0 /\
        slen (encode_names done_) + (slen n + 1) = slen (encode_names done0) /\
        s_log st2 = s_log st ++ concat evss0 /\ Forall2 (name_shown hex path) done0 evss0)) as Hnext.
    { intros evs st2 Hlog2 Hs. exists (done_ ++ [n]), names', (evss ++ [evs]).
      rewrite encode_names_app, slen_app, slen_encode_names_cons, concat_app.
      change (slen (encode_names [])) with 0. cbn [concat].
      split; [by rewrite <- app_assoc|]. split; [lia|]. split; [|by apply Forall2_app; [|constructor]].
      by rewrite app_nil_r, Hlog2, Hlog, app_assoc. }
    wp_run1. wp_run1. destruct (answer _ _) as [x v] eqn:Hans. wp_run1.
    destruct (x ==? -1) eqn:Hx; wp_steps.
    + split; [|lia]. eapply Hnext.
      * rewrite s_log_add, s_log_after, Hans, <- app_assoc. done.
      * exists x, v, (s_errno (after (Getxattr path n xattr_view.XATTR_SIZE) st')).
        rewrite Hx. reflexivity.
    + apply print_value_run. wp_steps. split; [|lia]. eapply Hnext.
      * unfold printed. cbn. rewrite s_log_after, Hans, <- !app_assoc. done.
      * exists x, v, 0. rewrite Hx. reflexivity.
Qed.

(** A file with two attributes. *)
Definition xattr_kernel : Kernel := {|
  kstate := unit;
  kcall X (s : SysE X) k :=
    (match s in SysE X return X with
     | Getxattr _ name _ => if streq name "user.x" then (2, "hi") else (-1, "")
     | s => refuse s
     end, None, k) |}.

Lemma xattr_shows_names_witness :
  let _ := plain_text in let _ := xattr_kernel in
  let st := mkSt 0 [] tt : St in
  wp (xattr_view.print_names true "f" (encode_names ["user.x"; "user.y"]) 14)
    (fun r st' => r = Returned tt /\ exists evss,
      s_log st' = s_log st ++ concat evss /\
      Forall2 (name_shown true "f") ["user.x"; "user.y"] evss) st.
Proof.
  apply (@xattr_shows_names plain_text xattr_kernel true "f" ["user.x"; "user.y"]).
  repeat constructor.
Defined.
