(* ===== verification/MemSpec.v ===== *)
(** * Memory: mappings and allocated blocks

    The programs of mmap/ and pshm/ read and write memory they have mapped, and
    free_and_sbrk frees blocks it has allocated. [in_bounds] checks a log: an
    access lies within a mapping that is in place. *)

From S2P Require Import Prelude.
From S2P Require Import CLib.
From S2P Require Import Sys.
From S2P Require Import Sem.
From S2P Require Import PosixIpc.
From S2P Require Import Procs.

(** ** Accesses to mappings *)

(** [live] are the mappings in place, by address and length. *)
Definition within (live : list (Z * Z)) (addr n : Z) : bool :=
  existsb (fun '(a, len) => (a ==? addr) && (0 <=? n) && (n <=? len)) live.

Fixpoint in_bounds (live : list (Z * Z)) (l : list event) : bool :=
  match l with
  | [] => true
  | ECall s x :: l =>
      match s in SysE X return X -> bool with
      | Mmap len _ _ _ _ => fun r => in_bounds (if r ==? -1 then live else (r, len) :: live) l
      | Munmap addr len => fun r =>
          in_bounds (if r ==? -1 then live
                     else filter (fun p => negb (p.1 ==? addr)) live) l
      | LoadBytes addr n => fun _ => within live addr n && in_bounds live l
      | LoadString addr => fun d => within live addr (slen d + 1) && in_bounds live l
      | StoreBytes addr d => fun _ => within live addr (slen d) && in_bounds live l
      | _ => fun _ => in_bounds live l
      end x
  | _ :: l => in_bounds live l
  end.

(** What is relied on: the size of a file is not negative, and nothing is mapped
    with length 0. *)
Definition map_post {X} (s : SysE X) : X -> Prop :=
  match s in SysE X return X -> Prop with
  | Fstat _ => fun '(r, buf) => (r ==? -1) = false -> 0 <= st_size buf < 2 ^ 63
  | Mmap len _ _ _ _ => fun r => len = 0 -> r = -1
  | _ => fun _ => True
  end.
Class MapKernel `{K : Kernel} := {
  map_law : forall X (s : SysE X) k, map_post s (kcall s k).1.1 }.

Definition keeps_in_bounds `{Kernel} (t : prog Z) : Prop :=
  forall st, wp t (fun _ st' => exists l, s_log st' = s_log st ++ l /\ in_bounds [] l = true) st.

(** t_mmap prints the file with a precision that is its size as an int; where that
    is negative it reads a text, up to a NUL. [texts_end]: the texts a log reads end
    before the size that was last reported; [int_sizes]: no size reported is negative
    as an int. *)
Fixpoint texts_end (size : Z) (l : list event) : bool :=
  match l with
  | [] => true
  | ECall s x :: l =>
      match s in SysE X return X -> bool with
      | Fstat _ => fun '(_, buf) => texts_end (st_size buf) l
      | LoadString _ => fun d => (slen d <? size) && texts_end size l
      | _ => fun _ => texts_end size l
      end x
  | _ :: l => texts_end size l
  end.

Definition int_sizes (l : list event) : bool :=
  forallb (fun ev =>
    match ev with
    | ECall s x => match s in SysE X return X -> bool with
                   | Fstat _ => fun '(r, buf) => (r ==? -1) || (0 <=? i32 (st_size buf))
                   | _ => fun _ => true
                   end x
    | _ => true
    end) l.

Definition in_bounds_by_text `{Kernel} (t : prog Z) : Prop :=
  forall st, wp t (fun _ st' => exists l, s_log st' = s_log st ++ l /\
    in_bounds [] l = texts_end 0 l /\ (int_sizes l = true -> texts_end 0 l = true)) st.

#[global] Arguments within : simpl never.

Lemma within_head addr len n live : 0 <= n <= len -> within ((addr, len) :: live) addr n = true.
Proof.
  intros Hn. unfold within. cbn. rewrite Z.eqb_refl, !(proj2 (Z.leb_le _ _)) by lia. done.
Qed.

Lemma within_text addr len n live : 0 <= n -> len < n -> within ((addr, len) :: live) addr n = within live addr n.
Proof. intros H0 Hn. unfold within. cbn. by rewrite Z.eqb_refl, (proj2 (Z.leb_gt n len)), andb_false_r by lia. Qed.

(** A size that is not negative as an int is not below it. *)
Lemma int_size n : 0 <= n -> 0 <= i32 n -> i32 n <= n.
Proof.
  intros Hn. unfold swrap. change (2 ^ (32 - 1)) with 2147483648. change (2 ^ 32) with 4294967296.
  pose proof (Z.mod_le (n + 2147483648) 4294967296 ltac:(lia) ltac:(lia)). lia.
Qed.

Section Mappings.
Context `{T : CText} `{MK : MapKernel}.

Lemma map_after {X} (s : SysE X) st : map_post s (answer s st).
Proof. apply map_law. Qed.
End Mappings.

(** Steps over a call, keeping its event and what is relied on. *)
Ltac wp_map :=
  let H := fresh "Hmap" in wp_law H ltac:(fun s st => constr:(map_after s st));
  cbn [map_post] in H.
Ltac wp_map_go := repeat (cbv zeta; first [wp_map | wp_head | wp_branch]).

Lemma slen_strncpy s n : 0 <= n -> slen (strncpy s n "") = n.
Proof.
  intros Hn. unfold strncpy, overlay. rewrite !slen_app, slen_srepeat, slen_sdrop, slen_stake by
    (rewrite ?slen_app, ?slen_srepeat; pose proof (slen_nonneg (stake n s)); lia).
  change (slen "") with 0. lia.
Qed.

Lemma slen_char c : slen (String c "") = 1.
Proof. done. Qed.

Ltac in_range :=
  rewrite ?slen_srepeat, ?slen_strncpy, ?slen_char; unfold sizeof_int in *; bool_props;
  try match goal with |- context [uwrap 64 ?z] => rewrite (uwrap_id 64 z) by lia end; cbn; lia.
Ltac mapping_path :=
  log_chain; eexists; (split; [reflexivity|]);
  repeat match goal with H : ?b = false -> _, H' : ?b = false |- _ => specialize (H H') end;
  repeat autounfold with consts in *; cbn [in_bounds]; use_branches;
  rewrite ?within_head by in_range; use_branches; done.

Section Programs.
Context `{T : CText} `{MK : MapKernel}.

Lemma mmcat_in_bounds argv : keeps_in_bounds (mmcat.main argv).
Proof. intros st. unfold mmcat.main. wp_map_go; mapping_path. Qed.
Lemma pshm_read_in_bounds argv : keeps_in_bounds (pshm_read.main argv).
Proof. intros st. unfold pshm_read.main. wp_map_go; mapping_path. Qed.

Lemma pshm_write_in_bounds argv : keeps_in_bounds (pshm_write.main argv).
Proof.
  intros st. unfold pshm_write.main. pose proof (slen_nonneg argv.[2]). wp_map_go; mapping_path.
Qed.

Lemma anon_mmap_in_bounds : keeps_in_bounds anon_mmap.main.
Proof.
  intros st. unfold anon_mmap.main, anon_mmap.child, anon_mmap.parent, anon_mmap.load_char,
    anon_mmap.store_char. wp_map_go; mapping_path.
Qed.

Lemma t_mmap_in_bounds argv : in_bounds_by_text (t_mmap.main argv).
Proof.
  intros st. unfold t_mmap.main, t_mmap.update. wp_map_go.
  all: log_chain; eexists; (split; [reflexivity|]).
  all: repeat match goal with H : ?b = false -> _, H' : ?b = false |- _ => specialize (H H') end.
  all: unfold int_sizes; cbn [in_bounds texts_end forallb]; rewrite ?andb_true_r; try done.
  all: repeat match goal with H : (?x ==? -1) = false |- context [?x ==? -1] => rewrite H; cbn [orb] end.
  all: match goal with H : (i32 ?n <? 0) = _ |- _ => pose proof (int_size n) end; bool_props.
  1-5: match goal with |- context [slen ?d <? ?n] => pose proof (slen_nonneg d); split; [|rewrite (proj2 (Z.leb_gt 0 (i32 n))) by lia; done];
         destruct (Z.ltb_spec (slen d) n); [by rewrite !within_head by in_range|by rewrite within_text by lia] end.
  all: split; [by rewrite !within_head by in_range|done].
Qed.
End Programs.

(** C22: Every program that maps memory keeps its accesses within a mapping that is
    in place, of the length it was given: whatever the sizes of the files and the
    texts, and whichever calls fail; but t_mmap where it prints a file whose size is
    negative as an int. It reads that file as a text, and is in bounds just when the
    text ends before the mapping does. *)
Theorem mappings_in_bounds `{CText} `{MapKernel} argv :
  keeps_in_bounds (mmcat.main argv) /\ in_bounds_by_text (t_mmap.main argv) /\
  keeps_in_bounds anon_mmap.main /\
  keeps_in_bounds (pshm_read.main argv) /\ keeps_in_bounds (pshm_write.main argv).
Proof.
  split; [apply mmcat_in_bounds|]. split; [apply t_mmap_in_bounds|].
  split; [apply anon_mmap_in_bounds|]. split; [apply pshm_read_in_bounds|apply pshm_write_in_bounds].
Qed.

(** A kernel with one file of [n] bytes that it can map. *)
Definition map_kernel (n : Z) : Kernel := {|
  kstate := unit;
  kcall X (s : SysE X) k :=
    (match s in SysE X return X with
     | Open _ _ _ | ShmOpen _ _ _ => 3
     | Fstat _ => (0, Stat 0 0 0 0 0 0 (Z.max 0 n) 0 0 0 0 0)
     | Mmap len _ _ _ _ => if len ==? 0 then -1 else 4096
     | Close _ | Munmap _ _ | Msync _ _ _ | Ftruncate _ _ => 0
     | LoadBytes _ n => srepeat (Z.to_nat n) "o"
     | Write _ d => slen d
     | s => refuse s
     end, None, k) |}.

#[export] Instance map_kernel_law n : n < 2 ^ 63 -> @MapKernel (map_kernel n).
Proof.
  intros Hn. constructor. intros X s k. destruct s; try done.
  - intros _. cbn [st_size kcall map_kernel fst]. lia.
  - by intros ->.
Qed.

Lemma mappings_in_bounds_witness :
  let _ := plain_text in let _ := map_kernel 8 in
  let argv := ["t_mmap"; "f"; "new"] in
  keeps_in_bounds (mmcat.main argv) /\ in_bounds_by_text (t_mmap.main argv) /\
  keeps_in_bounds anon_mmap.main /\
  keeps_in_bounds (pshm_read.main argv) /\ keeps_in_bounds (pshm_write.main argv).
Proof.
  apply (@mappings_in_bounds plain_text (map_kernel 8) (map_kernel_law 8 eq_refl) ["t_mmap"; "f"; "new"]).
Defined.

(** ** t_mmap.c *)

(** A log without stores, but for the two of the update and the [msync] after
    them. *)
Definition is_store (ev : event) : bool :=
  match ev with ECall (StoreBytes _ _) _ => true | _ => false end.
Definition updates (addr size : Z) (d1 d2 : string) (l : list event) : Prop :=
  exists pre post r, r <> -1 /\
    l = pre ++ [ECall (StoreBytes addr d1) tt; ECall (StoreBytes addr d2) tt;
                ECall (Msync addr size MS_SYNC) r] ++ post /\
    existsb is_store (pre ++ post) = false.

(** What the two stores leave of the bytes of the mapping. *)
Lemma update_bytes v size c :
  0 < size < 2 ^ 64 -> slen c = size ->
  overlay (strncpy v (u64 (size - 1)) "") (overlay (srepeat (Z.to_nat size) nul) c) =
  stake (size - 1) v +:+ srepeat (Z.to_nat (size - slen (stake (size - 1) v))) nul.
Proof.
  intros Hs Hc. rewrite uwrap_id by lia. unfold strncpy.
  set (s := stake (size - 1) v). assert (0 <= slen s <= size - 1) as Hl.
  { pose proof (slen_nonneg s). split; [done|]. unfold s. rewrite slen_stake by lia. lia. }
  unfold overlay. rewrite !slen_srepeat. rewrite Z2Nat.id by lia.
  replace (sdrop size c) with "" by (symmetry; apply slen_0; rewrite slen_sdrop; lia).
  change (slen "") with 0. replace (sdrop _ "") with "" by (unfold sdrop; by destruct (Z.to_nat _)).
  rewrite !app_nil_r_s, slen_app, slen_srepeat, <- app_assoc_s. f_equal.
  replace (Z.to_nat size) with (Z.to_nat (size - 1) + 1)%nat by lia.
  assert (forall a b, srepeat (a + b) nul = srepeat a nul +:+ srepeat b nul) as Hrep.
  { intros a b. induction a as [|a IH]; [done|]. cbn. by rewrite IH. }
  replace (slen s + Z.of_nat (Z.to_nat (size - 1 - slen s))) with
    (slen (srepeat (Z.to_nat (size - 1)) nul)) by (rewrite slen_srepeat; lia).
  rewrite Hrep, sdrop_app, <- Hrep. f_equal. lia.
Qed.

(** Given a new value, [t_mmap] that succeeds has overwritten the whole mapping
    with the value, cut to leave room for a NUL, and NULs up to its end, and has
    synchronised it with the file. It stores nothing else. *)
Theorem t_mmap_sets_value `{CText} `{MapKernel} argv st :
  argc argv = 3 -> argv.[1] <> "-h" ->
  wp (t_mmap.main argv) (fun r st' => success r = true ->
    exists l addr size d1 d2, s_log st' = s_log st ++ l /\ 0 < size /\
      updates addr size d1 d2 l /\
      forall c, slen c = size ->
        overlay d2 (overlay d1 c) = stake (size - 1) argv.[2] +:+
          srepeat (Z.to_nat (size - slen (stake (size - 1) argv.[2]))) nul) st.
Proof.
  intros Hargc Hh. unfold t_mmap.main, t_mmap.update.
  apply streq_neq in Hh. rewrite Hargc, Hh. change ((3 <? 2) || false) with false.
  wp_map_go; intros Hs; try discriminate Hs.
  all: match goal with H : (_ ==? -1) = false -> _, H' : (_ ==? -1) = false |- _ => specialize (H H') end; bool_props.
  all: destruct x4, x5.
  1: pose (ev := ECall (LoadString x1) x3). 2: pose (ev := ECall (LoadBytes x1 (i32 (st_size s))) x3).
  all: exists ([ECall (Open argv.[1] O_RDWR 0) x; ECall (Fstat x) (z, s);
           ECall (Mmap (st_size s) (PROT_READ .| PROT_WRITE) MAP_SHARED x 0) x1; ECall (Close x) x2; ev;
           EPrint stdout (format "Current string=%.*s\n" [Int (i32 (st_size s)); Str x3])] ++
          [ECall (StoreBytes x1 (srepeat (Z.to_nat (st_size s)) nul)) tt;
           ECall (StoreBytes x1 (strncpy argv.[2] (u64 (st_size s - 1)) "")) tt;
           ECall (Msync x1 (st_size s) MS_SYNC) x6] ++
          [EPrint stdout (format "Copied \042%s\042 to shared memory\n" [Str argv.[2]]);
           ECall (Munmap x1 (st_size s)) x7]).
  all: exists x1, (st_size s), (srepeat (Z.to_nat (st_size s)) nul), (strncpy argv.[2] (u64 (st_size s - 1)) "").
  all: (split; [by log_chain|]); (split; [lia|]); split.
  1, 3: eexists _, _, x6; split; [done|]; split; [reflexivity|]; reflexivity.
  all: intros c Hc; apply update_bytes; [lia|done].
Qed.

Lemma t_mmap_sets_value_witness :
  let _ := plain_text in let _ := map_kernel 8 in
  let st := mkSt 0 [] tt : St in
  wp (t_mmap.main ["t_mmap"; "f"; "new"]) (fun r st' => success r = true ->
    exists l addr size d1 d2, s_log st' = s_log st ++ l /\ 0 < size /\
      updates addr size d1 d2 l /\
      forall c, slen c = size ->
        overlay d2 (overlay d1 c) = stake (size - 1) "new" +:+
          srepeat (Z.to_nat (size - slen (stake (size - 1) "new"))) nul) st.
Proof.
  apply (@t_mmap_sets_value plain_text (map_kernel 8) (map_kernel_law 8 eq_refl) ["t_mmap"; "f"; "new"]);
    [reflexivity|discriminate].
Defined.

(** ** free_and_sbrk.c *)

(** The blocks a log allocates, and the addresses it frees, in order. *)
Definition allocated (l : list event) : list Z :=
  omap (fun ev => match ev with
                  | ECall s x => match s in SysE X return X -> option Z with
                                 | Malloc _ => fun p => Some p
                                 | _ => fun _ => None
                                 end x
                  | _ => None
                  end) l.
Definition freed (l : list event) : list Z :=
  omap (fun ev => match ev with ECall (Free p) _ => Some p | _ => None end) l.

Lemma allocated_app l l' : allocated (l ++ l') = allocated l ++ allocated l'.
Proof. apply omap_app. Qed.
Lemma freed_app l l' : freed (l ++ l') = freed l ++ freed l'.
Proof. apply omap_app. Qed.

(** Every [step]-th block from number [lo] to number [hi], counted from 1. *)
Definition every (blocks : list Z) (lo hi step : Z) : list Z :=
  map (fun k => nth (Z.to_nat (lo - 1 + k * step)) blocks 0) (seqZ 0 ((hi - lo) / step + 1)).

Lemma every_NoDup blocks lo hi step :
  1 <= lo -> 0 < step -> hi <= Z.of_nat (length blocks) ->
  NoDup blocks -> NoDup (every blocks lo hi step).
Proof.
  intros Hlo Hs Hhi Hnd. unfold every.
  assert (forall k, k ∈ seqZ 0 ((hi - lo) / step + 1) -> 0 <= lo - 1 + k * step < Z.of_nat (length blocks)) as Hin.
  { intros k Hk%elem_of_seqZ. assert (k * step <= hi - lo); [|nia].
    apply Z.le_trans with ((hi - lo) / step * step); [nia|].
    rewrite Z.mul_comm. by apply Z.mul_div_le. }
  pose proof (NoDup_seqZ 0 ((hi - lo) / step + 1)) as Hseq.
  induction Hseq as [|k l Hk Hl IH]; cbn; [constructor|].
  pose proof (Hin k (list_elem_of_here _ _)) as Hk1.
  constructor; [|by apply IH; intros k' Hk'; apply Hin, list_elem_of_further].
  intros (k' & E & Hk')%list_elem_of_fmap. apply Hk.
  pose proof (Hin k' (list_elem_of_further _ _ _ Hk')) as Hk2.
  replace k with k'; [done|].
  assert (Z.to_nat (lo - 1 + k * step) = Z.to_nat (lo - 1 + k' * step)) as E'.
  { apply (proj1 (NoDup_nth blocks 0)); [by apply NoDup_ListNoDup|lia|lia|exact E]. }
  nia.
Qed.

Section FreeAndSbrk.
Import free_and_sbrk.
Context `{T : CText} `{K : Kernel}.

(** The state after a run that adds [l] to the log. *)
Definition adds (l : list event) (st st' : St) : Prop := s_log st' = s_log st ++ l.

Lemma getUnsignedLong_show n (Q : res Z -> St -> Prop) st :
  0 <= n <= ULONG_MAX ->
  (forall e, Q (Returned n) (mkSt e (s_log st) (s_kern st))) ->
  wp (getUnsignedLong (show_int n)) Q st.
Proof.
  intros Hn HQ. unfold getUnsignedLong, strtoul. rewrite strtoul_show by auto.
  wp_go; try discriminate. cbn.
  replace (uwrap 64 (swrap 64 n)) with n; [apply HQ|].
  unfold uwrap. rewrite swrap_mod by done. symmetry. apply Z.mod_small.
  unfold ULONG_MAX in *. lia.
Qed.

Lemma allocate_run n size (Q : res (list Z) -> St -> Prop) st :
  0 <= n ->
  (forall blocks st' l, adds l st st' -> allocated l = blocks -> freed l = [] ->
     Z.of_nat (length blocks) = n -> Q (Returned blocks) st') ->
  (forall st' l, adds l st st' -> freed l = [] -> Q (Stopped (Exited EXIT_FAILURE)) st') ->
  wp (allocate n size) Q st.
Proof.
  intros Hn HQ Hfail. unfold allocate.
  apply (wp_for_loop _ _ _ (fun i blocks st' => exists l, adds l st st' /\
    allocated l = blocks /\ freed l = [] /\ Z.of_nat (length blocks) = i /\ i <= n)).
  - exists []. unfold adds. rewrite app_nil_r. repeat split; cbn; lia.
  - intros i blocks st' Hi (l & Hl & Ha & Hf & Hlen & Hin). wp_go.
    + apply (Hfail _ (l ++ [ECall (Malloc size) (answer (Malloc size) st'); EPrint stderr
        (format "Failed to allocate %lu bytes - %s\n"
           [Int size; Str (strerror (s_errno (after (Malloc size) st')))])])).
      * unfold adds in *. log_events. by rewrite Hl, <- app_assoc.
      * by rewrite freed_app, Hf.
    + exists (l ++ [ECall (Malloc size) (answer (Malloc size) st')]).
      unfold adds in *. rewrite s_log_after, Hl, allocated_app, freed_app, Ha, Hf, length_app.
      rewrite <- app_assoc. do 3 (split; [done|]). cbn. lia.
  - intros i blocks st' Hi Hi' (l & Hl & Ha & Hf & Hlen & Hin). eapply HQ; [done..|lia].
Qed.

(** The steps of the loop that frees: the number does not wrap around. *)
Lemma release_run blocks lo hi step (Q : res unit -> St -> Prop) st :
  1 <= lo -> 0 < step < 2 ^ 63 -> hi <= MAX_ALLOCS -> lo < 2 ^ 64 ->
  (forall st' l, adds l st st' -> allocated l = [] -> freed l = every blocks lo hi step ->
     Q (Returned tt) st') ->
  wp (release blocks lo hi step) Q st.
Proof.
  intros Hlo Hstep Hhi Hlo' HQ. unfold release. unfold MAX_ALLOCS in *.
  apply (wp_iter_measure _ (fun i st' => exists k l, adds l st st' /\ allocated l = [] /\
      0 <= k <= Z.max 0 ((hi - lo) / step + 1) /\ i = lo - 1 + k * step /\
      freed l = map (fun k => nth (Z.to_nat (lo - 1 + k * step)) blocks 0) (seqZ 0 k))
    (fun i _ => Z.to_nat (hi - i))).
  - intros i st' (k & l & Hl & Ha & Hk & -> & Hf).
    pose proof (Z.div_mod (hi - lo) step). pose proof (Z.mod_pos_bound (hi - lo) step).
    destruct (Z.ltb_spec (lo - 1 + k * step) hi) as [Hlt|Hge].
    + wp_steps. assert (k <= (hi - lo) / step) by (apply Z.div_le_lower_bound; lia).
      rewrite (uwrap_id 64) by nia. split; [|nia].
      exists (k + 1), (l ++ [ECall (Free (nth (Z.to_nat (lo - 1 + k * step)) blocks 0))
                (answer (Free (nth (Z.to_nat (lo - 1 + k * step)) blocks 0)) st')]).
      unfold adds in *. rewrite s_log_after, Hl, allocated_app, freed_app, Ha, Hf, <- app_assoc.
      split; [done|]. split; [done|]. split; [lia|]. split; [lia|].
      by rewrite seqZ_app, map_app by lia.
    + wp_steps. eapply HQ; [done|done|]. rewrite Hf. unfold every. f_equal.
      assert ((hi - lo) / step < k) by (apply Z.div_lt_upper_bound; nia).
      unfold seqZ. do 2 f_equal. lia.
  - rewrite uwrap_id by lia. exists 0, []. unfold adds. rewrite app_nil_r.
    repeat split; [lia|lia|lia].
Qed.
End FreeAndSbrk.

Lemma show_int_not_h n : 0 <= n <= ULONG_MAX -> streq (show_int n) "-h" = false.
Proof.
  intros Hn. apply streq_neq. intros E.
  pose proof (strtoul_show 0 n ltac:(by left) Hn) as H. by rewrite E in H.
Qed.


(** A kernel whose allocator returns a new block each time. *)
Definition alloc_kernel : Kernel := {|
  kstate := Z;
  kcall X (s : SysE X) k :=
    match s in SysE X return X * option Z * Z with
    | Malloc _ => (4096 + 16 * k, None, k + 1)
    | s => (refuse s, None, k)
    end |}.

