(* ===== verification/FailStop.v ===== *)
(** * Programs that stop at the first failure

    Most programs of the repository make a sequence of calls and check each one.
    [fail_stop] (see Sem) is what such a program promises: it ends; it makes no
    call after one that failed; it reports success only when none failed; and
    when it reports failure it has said so on stderr. Here it is proved for the
    programs without loops of the IPC, mapping and information directories. *)

From S2P Require Import Prelude.
From S2P Require Import CLib.
From S2P Require Import Sys.
From S2P Require Import Sem.
From S2P Require Import PosixIpc.
From S2P Require Import Mq.
From S2P Require Import Procs.
From S2P Require Import Misc.

Section Programs.
Context `{T : CText} `{K : Kernel}.
Variable argv : list string.

Lemma psem_getvalue_stops : fail_stop (psem_getvalue.main argv).
Proof. unfold psem_getvalue.main. fail_stop_tac. Qed.

Lemma psem_post_stops : fail_stop (psem_post.main argv).
Proof. unfold psem_post.main. fail_stop_tac. Qed.

Lemma psem_unlink_stops : fail_stop (psem_unlink.main argv).
Proof. unfold psem_unlink.main. fail_stop_tac. Qed.

Lemma psem_wait_stops getpid_addr : fail_stop (psem_wait.main getpid_addr argv).
Proof. unfold psem_wait.main. fail_stop_tac. Qed.

Lemma pshm_unlink_stops : fail_stop (pshm_unlink.main argv).
Proof. unfold pshm_unlink.main. fail_stop_tac. Qed.

Lemma pshm_write_stops : fail_stop (pshm_write.main argv).
Proof. unfold pshm_write.main. fail_stop_tac. Qed.

Lemma pmsg_unlink_stops : fail_stop (pmsg_unlink.main argv).
Proof. unfold pmsg_unlink.main. fail_stop_tac. Qed.

Lemma pmsg_getattr_stops : fail_stop (pmsg_getattr.main argv).
Proof. unfold pmsg_getattr.main. fail_stop_tac. Qed.

Lemma t_acct_on_stops : fail_stop (t_acct_on.main argv).
Proof. unfold t_acct_on.main. fail_stop_tac. Qed.

Lemma t_mmap_stops : fail_stop (t_mmap.main argv).
Proof. unfold t_mmap.main, t_mmap.update. fail_stop_tac. Qed.

Lemma anon_mmap_stops : fail_stop anon_mmap.main.
Proof.
  unfold anon_mmap.main, anon_mmap.child, anon_mmap.parent, anon_mmap.load_char,
    anon_mmap.store_char. fail_stop_tac.
Qed.

Lemma t_uname_stops : fail_stop t_uname.main.
Proof. unfold t_uname.main. fail_stop_tac. Qed.

Lemma show_time_stops : fail_stop show_time.main.
Proof. unfold show_time.main. fail_stop_tac. Qed.

Lemma procfs_pidmax_stops junk : fail_stop (procfs_pidmax.main junk).
Proof. unfold procfs_pidmax.main. fail_stop_tac. Qed.
End Programs.

(** C29: Each of these programs ends on every command line and whatever the system
    answers; it makes no call after one that failed; it reports success only if
    every call succeeded, and failure only after a message on stderr, without
    having made a call or after the one that failed. *)
Theorem programs_fail_stop `{CText} `{Kernel} argv getpid_addr junk :
  Forall fail_stop
    [psem_getvalue.main argv; psem_post.main argv; psem_unlink.main argv;
     psem_wait.main getpid_addr argv; pshm_unlink.main argv; pshm_write.main argv;
     pmsg_unlink.main argv; pmsg_getattr.main argv; t_mmap.main argv; anon_mmap.main;
     t_acct_on.main argv; t_uname.main; show_time.main; procfs_pidmax.main junk].
Proof.
  constructor; [apply psem_getvalue_stops|]. constructor; [apply psem_post_stops|].
  constructor; [apply psem_unlink_stops|]. constructor; [apply psem_wait_stops|].
  constructor; [apply pshm_unlink_stops|]. constructor; [apply pshm_write_stops|].
  constructor; [apply pmsg_unlink_stops|]. constructor; [apply pmsg_getattr_stops|].
  constructor; [apply t_mmap_stops|]. constructor; [apply anon_mmap_stops|].
  constructor; [apply t_acct_on_stops|]. constructor; [apply t_uname_stops|].
  constructor; [apply show_time_stops|]. constructor; [apply procfs_pidmax_stops|constructor].
Qed.
