(* ===== verification/Auth.v ===== *)
(** * Authentication: users_groups/src/check_passwd.c *)

From S2P Require Import Prelude.
From S2P Require Import CLib.
From S2P Require Import Sys.
From S2P Require Import Sem.
From S2P Require Import Procs.

(** The events of an authentication, with others among them: the name read is
    looked up, the password is encrypted with the entry of the user (the shadow
    entry, when there is one, over the public one), and the result is that entry. *)
Definition authentication (line : string) (pw : passwd) (sh : option string) (password : string) : list event :=
  let user := check_passwd.strip_newline (cstr line) in
  let entry := default (pw_passwd pw) sh in
  [ECall (Getpwnam user) (Some pw); ECall (Getspnam user) sh;
   ECall (Getpass "Password: ") (Some password); ECall (Crypt password entry) (Some entry);
   EPrint stdout (format "Successfully authenticated: UID=%ld\n" [Int (pw_uid pw)])].

Ltac sublist_tac := repeat first [apply sublist_nil_l | apply sublist_skip | apply sublist_cons].

(** C20: [check_passwd] ends on every answer of the system. It reports success only
    after an authentication: the password that was typed, encrypted with the entry
    of the user whose name was typed, is that entry; and the UID it prints is that
    user's. Otherwise it exits with status 1. *)
Theorem check_passwd_authentic `{CText} `{Kernel} st :
  wp check_passwd.main (fun r st' =>
    if success r then exists l size line pw sh password, s_log st' = s_log st ++ l /\
      sublist (ECall (Fgets size) (Some line) :: authentication line pw sh password) l
    else r = Stopped (Exited EXIT_FAILURE)) st.
Proof.
  unfold check_passwd.main. wp_call_go; cbn [success]; try done.
  all: subst; bool_props; subst.
  all: eexists _, _, _, _, _, _; (split; [log_chain; reflexivity|]); sublist_tac.
Qed.
