(* ===== verification/SeekSpec.v ===== *)
(** * Sessions of fileio/src/seek_io.c

    A command line of seek_io is a list of commands on an open file. [session]
    is the abstract machine of these commands, on an offset and the content of
    the file; the theorem says that the program implements it. *)

From S2P Require Import Prelude.
From S2P Require Import CLib.
From S2P Require Import Sys.
From S2P Require Import Sem.
From S2P Require Import FsSpec.
From S2P Require Import FileIO.

Inductive cmd := CRead (n : Z) (how : seek_io.DisplayType) | CWrite (s : string) | CSeek (off : Z).

Definition render_cmd (c : cmd) : string :=
  match c with
  | CRead n seek_io.TEXT => "r" +:+ show_int n
  | CRead n seek_io.HEX => "R" +:+ show_int n
  | CWrite s => "w" +:+ s
  | CSeek off => "s" +:+ show_int off
  end.

Definition cmd_ok (c : cmd) : Prop :=
  match c with
  | CRead n _ => 0 <= n <= ULONG_MAX
  | CWrite s => s <> ""
  | CSeek off => 0 <= off <= LONG_MAX
  end.

(** How a byte is displayed. *)
Definition show_byte (how : seek_io.DisplayType) (c : ascii) : string :=
  match how with
  | seek_io.TEXT => String (if isprint c then c else "?"%char) ""
  | seek_io.HEX => format "%02x " [Int (u32 (schar c))]
  end.
Fixpoint show_bytes (how : seek_io.DisplayType) (d : string) : string :=
  match d with EmptyString => "" | String c d => show_byte how c +:+ show_bytes how d end.

(** One command, from an offset and a content to others, with the text printed. A
    read takes at most as much as asked for, and nothing only at the end of the
    file; a write writes a prefix. *)
Inductive cmd_step (path : string) : cmd -> Z * string -> Z * string -> string -> Prop :=
| step_end n how off c :
    n = 0 \/ slen c <= off ->
    cmd_step path (CRead n how) (off, c) (off, c) (format "End-of-file\n" [])
| step_read n how off c k :
    0 < k <= n -> off + k <= slen c ->
    cmd_step path (CRead n how) (off, c) (off + k, c) (show_bytes how (stake k (sdrop off c)))
| step_write s off c k :
    0 <= k <= slen s ->
    cmd_step path (CWrite s) (off, c) (off + k, write_at off (stake k s) c)
      (format "Wrote %lu bytes to %s\n" [Int (u64 k); Str path])
| step_seek off' off c :
    cmd_step path (CSeek off') (off, c) (off', c) (format "Seeked to offset %ld\n" [Int off']).

Inductive session (path : string) : list cmd -> Z * string -> Z * string -> string -> Prop :=
| session_nil s : session path [] s s ""
| session_snoc l s s' text c s'' t :
    session path l s s' text -> cmd_step path c s' s'' t ->
    session path (l ++ [c]) s s'' (text +:+ t).

(** The display loops print the bytes one by one. *)
Lemma show_bytes_snth how d :
  sconcat (map (fun j => show_byte how (snth j d)) (seqZ 0 (slen d))) = show_bytes how d.
Proof.
  induction d as [|c d IH]; [done|].
  assert (slen (String c d) = Z.succ (slen d)) as -> by (unfold slen; cbn [String.length]; lia).
  pose proof (slen_nonneg d). rewrite seqZ_cons by lia. rewrite Z.pred_succ. cbn [map sconcat show_bytes].
  f_equal. rewrite <- IH. f_equal. change (Z.succ 0) with (1 + 0).
  rewrite <- (fmap_add_seqZ 1 0). change (@map ?A ?B ?f ?l) with (f <$> l).
  rewrite <- list_fmap_compose. apply list_fmap_ext. intros i j Hj%list_elem_of_lookup_2%elem_of_seqZ.
  unfold compose, snth. by replace (Z.to_nat (1 + j)) with (S (Z.to_nat j)) by lia.
Qed.

Section Session.
Context `{T : CText} `{FK : FileKernel}.

Lemma show_byte_text c :
  format "%c" [Int (if isprint c then schar c else ord "?")] = show_byte seek_io.TEXT c.
Proof. by destruct c as [[] [] [] [] [] [] [] []]. Qed.

Lemma display_run how n d (Q : res unit -> St -> Prop) st :
  n = slen d ->
  (forall st', s_kern st' = s_kern st ->
     text_on stdout (s_log st') = text_on stdout (s_log st) +:+ show_bytes how d -> Q (Returned tt) st') ->
  wp (match how with
      | seek_io.TEXT => for_ 0 n (fun j =>
          printf "%c" [Int (if isprint (snth j d) then schar (snth j d) else ord "?")])
      | seek_io.HEX => for_ 0 n (fun j => printf "%02x " [Int (u32 (schar (snth j d)))])
      end) Q st.
Proof.
  intros -> HQ.
  assert (Q (Returned tt) (printed (map (fun j => show_byte how (snth j d)) (seqZ 0 (slen d))) st)) as HQ'.
  { apply HQ; [done|]. unfold printed. cbn [s_log]. rewrite text_on_app, text_printed. by rewrite show_bytes_snth. }
  destruct how; eapply wp_for_print; try exact HQ'; intros i Q' st' H'; apply wp_fprintf.
  - by rewrite show_byte_text.
  - exact H'.
Qed.

Lemma numbers_run (get : string -> prog Z) n s (Q : res Z -> St -> Prop) st :
  (get = seek_io.getUnsignedLong /\ 0 <= n <= ULONG_MAX) \/ (get = seek_io.getLong /\ LONG_MIN <= n <= LONG_MAX) ->
  s = show_int n ->
  (forall e, Q (Returned n) (mkSt e (s_log st) (s_kern st))) -> wp (get s) Q st.
Proof.
  intros [[-> Hn]|[-> Hn]] -> HQ.
  - unfold seek_io.getUnsignedLong, strtoul. rewrite strtoul_show by auto. wp_go; try discriminate. apply HQ.
  - unfold seek_io.getLong, strtol. rewrite strtol_show by auto. wp_go; try discriminate. apply HQ.
Qed.

(** The file behind [fd] has content [c], [fd] is at offset [off], and [text] has
    been printed. *)
Variables (fd ino : Z) (names : gmap string Z).
Definition at_session (p : Z * string) (text : string) (st : St) : Prop :=
  0 <= p.1 /\ fd_at (fsv st) fd ino p.1 p.2 /\ fs_names (fsv st) = names /\
  text_on stdout (s_log st) = text.

Definition cmd_post (path : string) (c : cmd) (p : Z * string) (text : string) (r : res unit) (st : St) : Prop :=
  match r with
  | Returned _ => exists p' t, cmd_step path c p p' t /\ at_session p' (text +:+ t) st
  | Stopped s => s = Exited EXIT_FAILURE
  end.

Lemma read_run path n how off c text st :
  0 <= n <= ULONG_MAX -> at_session (off, c) text st ->
  wp (seek_io.readDisplayBytes fd n how) (cmd_post path (CRead n how) (off, c) text) st.
Proof.
  intros Hn (Hoff & Hat & Hnm & Htext). cbn [fst snd] in *. unfold seek_io.readDisplayBytes.
  wp_run1. wp_fs. wp_run1. apply wp_when; intros Hb; [by wp_steps|].
  wp_run1. wp_fs. rewrite Hfs in Hfs0. destruct x0 as [r d]. wp_run1.
  destruct Hfs0 as [[-> Hv]|(ino' & off' & c' & Hat' & -> & Hle & Hd & Hend & Hv)]; [by wp_go|].
  destruct (fd_at_det _ _ _ _ _ _ _ _ Hat Hat') as (<- & <- & <-).
  pose proof (slen_nonneg d) as Hd0. pose proof (f_equal slen Hd) as Hlen.
  rewrite slen_stake, slen_sdrop in Hlen by lia.
  assert (forall (st1 st2 : St) t, s_kern st1 = s_kern st2 -> fsv st2 = set_fd fd (ino, off + slen d) (fsv st) ->
            text_on stdout (s_log st1) = text +:+ t -> at_session (off + slen d, c) (text +:+ t) st1) as Hnext.
  { intros st3 st4 t Hk Hv4 Ht. unfold at_session. unfold fsv in *. rewrite Hk, Hv4. cbn.
    split; [lia|]. split; [|done]. apply fd_at_set_fd_eq. apply Hat. }
  assert (text_on stdout (s_log st1) = text) as Ht1.
  { rewrite Hlog0, Hlog, !text_on_app, Htext. cbn. by rewrite !app_nil_r_s. }
  destruct (Z.eqb_spec (slen d) (-1)); [lia|]. destruct (Z.eqb_spec (slen d) 0) as [Hz|Hz].
  - wp_run1. wp_fs. exists (off, c), (format "End-of-file\n" []). split.
    + apply step_end. destruct (Z.eq_dec n 0); [by left|right; apply Hend; lia].
    + replace off with (off + slen d) by lia. apply (Hnext _ st2); [done|by rewrite Hfs0|].
      rewrite Hlog1, !text_on_app, Ht1. cbn. by rewrite !app_nil_r_s.
  - apply display_run; [done|]. intros st2 Hk Ht2. wp_fs.
    exists (off + slen d, c), (show_bytes how d). split.
    + rewrite Hd at 2. apply step_read; lia.
    + apply (Hnext _ st3); [done|unfold fsv in *; by rewrite Hfs0, Hk|].
      rewrite Hlog1, text_on_app, Ht2, Ht1. cbn. by rewrite app_nil_r_s.
Qed.

Lemma at_session_log p text st st' :
  at_session p text st -> s_kern st' = s_kern st -> s_log st' = s_log st -> at_session p text st'.
Proof. intros (H1 & H2 & H3 & H4) Hk Hl. unfold at_session, fsv in *. by rewrite Hk, Hl. Qed.

Lemma write_run path s off c text st :
  at_session (off, c) text st ->
  wp (seek_io.command fd path (render_cmd (CWrite s))) (cmd_post path (CWrite s) (off, c) text) st.
Proof.
  intros (Hoff & Hat & Hnm & Htext). cbn [fst snd] in *. unfold seek_io.command. cbn [render_cmd].
  change (snth 0 ("w" +:+ s)) with "w"%char. change (sdrop 1 ("w" +:+ s)) with s.
  cbv zeta. do 3 wp_branch. wp_run1. wp_fs. wp_go; [done|]. bool_props.
  destruct Hfs as [[? _]|(ino' & off1 & c' & Hat' & Hk & Hv)]; [done|].
  destruct (fd_at_det _ _ _ _ _ _ _ _ Hat Hat') as (<- & <- & <-).
  eexists (off + x, _), _. split; [by apply step_write|]. split; [cbn; lia|].
  rewrite fsv_add, Hv. split; [|split; [done|]].
  - apply fd_at_set_fd_eq. cbn. by rewrite lookup_insert_eq.
  - rewrite s_log_add, Hlog, !text_on_app, Htext. cbn. by rewrite !app_nil_r_s.
Qed.

Lemma seek_run path off' off c text st :
  0 <= off' <= LONG_MAX -> at_session (off, c) text st ->
  wp (seek_io.command fd path (render_cmd (CSeek off'))) (cmd_post path (CSeek off') (off, c) text) st.
Proof.
  intros Hr (Hoff & Hat & Hnm & Htext). cbn [fst snd] in *. unfold seek_io.command. cbn [render_cmd].
  change (snth 0 ("s" +:+ ?x)) with "s"%char. change (sdrop 1 ("s" +:+ ?x)) with x. cbv zeta.
  do 4 wp_branch. wp_run1. eapply (numbers_run _ off'); [right; split; [done|]|done|].
  { unfold LONG_MIN. lia. }
  intros e. wp_run1. wp_fs. wp_go; [done|]. bool_props. subst x.
  destruct Hfs as [[? _]|(ino' & off1 & c' & Hat' & _ & _ & Hv)]; [lia|].
  destruct (fd_at_det _ _ _ _ _ _ _ _ Hat Hat') as (<- & <- & <-).
  exists (off', c), (format "Seeked to offset %ld\n" [Int off']). split; [by apply step_seek|].
  split; [cbn; lia|]. rewrite fsv_add, Hv. split; [|split; [done|]].
  - apply fd_at_set_fd_eq. apply Hat.
  - rewrite s_log_add, Hlog, !text_on_app. cbn [s_log]. rewrite Htext. cbn. by rewrite !app_nil_r_s.
Qed.

Lemma command_run path cm p text st :
  cmd_ok cm -> at_session p text st ->
  wp (seek_io.command fd path (render_cmd cm)) (cmd_post path cm p text) st.
Proof.
  destruct p as [off c], cm as [n how|s|off']; intros Hok Hs; [|by apply write_run|by apply seek_run].
  unfold seek_io.command.
  destruct how; cbn [render_cmd].
  - change (snth 0 ("r" +:+ ?x)) with "r"%char. change (sdrop 1 ("r" +:+ ?x)) with x. cbv zeta.
    wp_branch. wp_run1. eapply (numbers_run _ n); [by left|done|]. intros e.
    apply read_run; [done|]. by eapply at_session_log.
  - change (snth 0 ("R" +:+ ?x)) with "R"%char. change (sdrop 1 ("R" +:+ ?x)) with x. cbv zeta.
    wp_branch. wp_branch. wp_run1. eapply (numbers_run _ n); [by left|done|]. intros e.
    apply read_run; [done|]. by eapply at_session_log.
Qed.
End Session.

(** The file a name stands for, with its content, and the file it stands for after
    it has been created. *)
Definition file_of (v : fs) (path : string) (c : string) : Prop :=
  (exists ino, fs_names v !! path = Some ino /\ fs_data v !! ino = Some c) \/
  (fs_names v !! path = None /\ c = "").

Lemma render_long c : cmd_ok c -> 2 <= slen (render_cmd c).
Proof.
  assert (forall s, s <> "" -> 1 <= slen s) as Hs.
  { intros s Hne. pose proof (slen_nonneg s). destruct (Z.eq_dec (slen s) 0) as [E|]; [|lia].
    by apply slen_0 in E. }
  assert (forall x s, slen (String x s) = 1 + slen s) as Hc by (intros; unfold slen; cbn [String.length]; lia).
  intros Hok. assert (exists x s, render_cmd c = String x s /\ s <> "") as (x & s & -> & Hne).
  { destruct c as [n [|]|s|off]; cbn in *; eexists _, _; (split; [reflexivity|]); [| |done|]; intros E.
    1, 2: pose proof (strtoul_show 10 n ltac:(by right) Hok) as H; by rewrite E in H.
    pose proof (strtol_show 10 off ltac:(by right)) as H. rewrite E in H.
    unfold LONG_MIN in H. specialize (H ltac:(lia)). done. }
  rewrite Hc. specialize (Hs s Hne). lia.
Qed.

(** Opening: what the name stands for from then on. *)
Lemma open_session path fd v v' c :
  open_post path (O_RDWR .| O_CREAT) fd v v' -> fd <> -1 -> file_of v path c ->
  exists ino, fs_names v' !! path = Some ino /\ fd_at v' fd ino 0 c.
Proof.
  intros [[-> _]|(_ & _ & ino & c' & Hf & ->)] Hne Hfile; [done|]. exists ino.
  change (has_bit (O_RDWR .| O_CREAT) O_TRUNC) with false.
  assert (c' = c) as ->.
  { destruct Hf as [[Hn Hd]|(Hn & _ & _ & ->)], Hfile as [(i & Hn' & Hd')|[Hn' ->]]; congruence. }
  split; [cbn; by rewrite lookup_insert_eq|].
  apply fd_at_set_fd_eq. cbn. by rewrite lookup_insert_eq.
Qed.

(** C10: A command line of reads, writes and seeks implements the session of these
    commands on the file, from offset 0 of its content, which is empty when the
    file does not exist. When seek_io reports success the file holds the content
    the session ends with and the standard output is the text of the session;
    otherwise it exits with status 1. It ends in every case. *)
Theorem seek_io_session `{CText} `{FileKernel} prog path cmds c st :
  cmds <> [] -> path <> "--help" -> Forall cmd_ok cmds -> file_of (fsv st) path c ->
  wp (seek_io.main (prog :: path :: map render_cmd cmds)) (fun r st' =>
    if success r then exists p text, session path cmds (0, c) p text /\
      file_of (fsv st') path p.2 /\
      text_on stdout (s_log st') = text_on stdout (s_log st) +:+ text
    else r = Stopped (Exited EXIT_FAILURE)) st.
Proof.
  intros Hne Hpath Hok Hfile. unfold seek_io.main.
  assert (argc (prog :: path :: map render_cmd cmds) = 2 + Z.of_nat (length cmds)) as Hargc
    by (unfold argc; cbn; rewrite length_map; lia).
  assert (0 < length cmds)%nat by (destruct cmds; [done|cbn; lia]).
  rewrite Hargc. change (nth_arg (_ :: path :: _) 1) with path.
  apply streq_neq in Hpath. rewrite Hpath, (proj2 (Z.ltb_ge _ _)) by lia. cbn [orb].
  wp_run1. wp_run1. wp_run1. wp_fs. wp_run1. apply wp_when; intros Hb; [by wp_steps|]. bool_props.
  destruct (open_session _ _ _ _ _ Hfs Hb Hfile) as (ino & Hname & Hat).
  set (t0 := text_on stdout (s_log st)).
  wp_run1. unfold for_. apply (wp_for_loop _ _ _ (fun i _ st' => exists p text,
    session path (take (Z.to_nat (i - 2)) cmds) (0, c) p text /\
    at_session x ino (fs_names (fsv st0)) p (t0 +:+ text) st')).
  - exists (0, c), "". split; [constructor|]. split; [done|]. split; [done|]. split; [done|].
    rewrite Hlog, text_on_app. done.
  - intros i [] st1 Hi (p & text & Hsess & Hat1).
    destruct (lookup_lt_is_Some_2 cmds (Z.to_nat (i - 2)) ltac:(lia)) as [cm Hcm].
    assert (nth_arg (prog :: path :: map render_cmd cmds) i = render_cmd cm) as ->.
    { unfold nth_arg. replace (Z.to_nat i) with (S (S (Z.to_nat (i - 2)))) by lia. cbn [nth].
      apply nth_lookup_Some. rewrite list_lookup_fmap. by rewrite Hcm. }
    pose proof (Forall_lookup_1 _ _ _ _ Hok Hcm) as Hcok.
    rewrite (proj2 (Z.ltb_ge _ _)) by (by apply render_long). wp_steps.
    eapply wp_mono; [by eapply command_run|]. intros [[]|s] st2; [|by intros ->].
    intros (p' & t & Hstep & Hat2). exists p', (text +:+ t). split; [|by rewrite app_assoc_s].
    replace (Z.to_nat (i + 1 - 2)) with (S (Z.to_nat (i - 2))) by lia.
    rewrite (take_S_r _ _ _ Hcm). by eapply session_snoc.
  - intros i [] st1 _ Hi (p & text & Hsess & (_ & Hat1 & Hn1 & Ht1)).
    rewrite Hi, take_ge in Hsess by lia.
    wp_run1. wp_fs. wp_go; [done|]. exists p, text. split; [done|].
    destruct (close_data _ _ _ _ Hfs0) as [Hd Hn]. split.
    + left. exists ino. rewrite Hd, Hn, Hn1. split; [done|]. apply Hat1.
    + rewrite Hlog0, text_on_app, Ht1. cbn. by rewrite app_nil_r_s.
Qed.

(** Write over the start of a file, read on from there, and read it whole. *)
Lemma seek_io_session_witness :
  let _ := plain_text in
  wp (seek_io.main ["seek_io"; "a"; "wSOME"; "r3"; "s0"; "R20"]) (fun r st' =>
    if success r then exists p text,
      session "a" [CWrite "SOME"; CRead 3 seek_io.TEXT; CSeek 0; CRead 20 seek_io.HEX]
        (0, "some bytes") p text /\
      file_of (fsv st') "a" p.2 /\
      text_on stdout (s_log st') = text_on stdout (s_log two_files) +:+ text
    else r = Stopped (Exited EXIT_FAILURE)) two_files.
Proof.
  apply (seek_io_session "seek_io" "a"
    [CWrite "SOME"; CRead 3 seek_io.TEXT; CSeek 0; CRead 20 seek_io.HEX] "some bytes" two_files);
    [discriminate|discriminate| |].
  - repeat constructor; unfold ULONG_MAX, LONG_MAX; lia || discriminate.
  - left. exists 1. by split.
Defined.
