(* ===== verification/Conc.v ===== *)
(** * Tasks that run interleaved over a shared state

    Threads of a process, or processes that share semaphores and memory: a pool
    of programs, each with its own [errno] and output, over a machine that
    answers their calls one at a time or makes them wait. A schedule is the
    sequence of the tasks that take a step. [csafe] is a logic for one task
    under any interference of the others: the tasks agree on an invariant of
    the machine and of one ghost value per task. *)

From S2P Require Import Prelude.
From S2P Require Import CLib.
From S2P Require Import Sys.
From S2P Require Import Sem.

(** ** Pools *)

(** The thread functions of programs that start no thread. *)
Definition no_threads (fn : string) (arg : Z) : prog Z := Ret 0.

(** [mcall i n s m] is the answer to the call [s] of task [i] of [n], [None]
    while the call has to wait; [mexit] records the end of a task and [mend]
    says whether it ends the other tasks too. *)
Class Machine := {
  mstate : Type;
  mcall : forall X, nat -> nat -> SysE X -> mstate -> option (X * option Z * mstate);
  mexit : nat -> res Z -> mstate -> mstate;
  mend : nat -> res Z -> bool }.
Arguments mcall {_ X} i n s m.

Record local := mkLocal { l_errno : Z; l_out : list event }.
Definition local0 : local := mkLocal 0 [].

(** The effects of a task on itself. *)
Definition out_ev (ev : event) (l : local) : local := mkLocal (l_errno l) (l_out l ++ [ev]).
Definition proc_step {X} (p : ProcE X) (l : local) : (X * local) + stop :=
  match p in ProcE X return (X * local) + stop with
  | GetErrno => inl (l_errno l, l)
  | SetErrno e => inl (tt, mkLocal e (l_out l))
  | Print f text => inl (tt, out_ev (EPrint f text) l)
  | Fflush f => inl (tt, out_ev (EFlush f) l)
  | Setbuf f => inl (tt, out_ev (ESetbuf f) l)
  | Atexit fn => inl (0, out_ev (EAtexit fn) l)
  | ExitE c => inr (Exited c)
  | ImmExitE c => inr (ImmExited c)
  | AbortE => inr Aborted
  end.

Definition answered (e : option Z) (l : local) : local := mkLocal (default (l_errno l) e) (l_out l).

(** The task a call starts: a thread, with its function and argument, or the
    process a fork makes, which goes on where its parent does, with the answer 0. *)
Inductive newcomer := Thread (fn : string) (arg : Z) | Process.
Definition spawns {X} (s : SysE X) : X -> option newcomer :=
  match s in SysE X return X -> option newcomer with
  | PthreadCreate fn arg => fun x => if x.1 ==? 0 then Some (Thread fn arg) else None
  | Fork => fun x => if 0 <? x then Some Process else None
  | _ => fun _ => None
  end.
Definition forked_code {X R} (s : SysE X) : (X -> prog R) -> option (prog R) :=
  match s in SysE X return (X -> prog R) -> option (prog R) with
  | Fork => fun k => Some (k 0)
  | _ => fun _ => None
  end.
Definition copied (l : local) : local := mkLocal (l_errno l) [].

Record task := mkTask { t_code : prog Z + res Z; t_local : local }.
Record pool `{Machine} := mkPool { p_tasks : list task; p_mach : mstate; p_over : bool }.
Arguments mkPool {_} _ _ _.

Section Pools.
Context `{M : Machine} (fns : string -> Z -> prog Z).

Definition set_task (i : nat) (t : task) (p : pool) : pool :=
  mkPool (<[i := t]> (p_tasks p)) (p_mach p) (p_over p).

Definition finish (i : nat) (r : res Z) (l : local) (p : pool) : pool :=
  mkPool (<[i := mkTask (inr r) l]> (p_tasks p)) (mexit i r (p_mach p)) (mend i r).

Definition new_task (c : option newcomer) (t : option (prog Z)) (l : local) : list task :=
  match c with
  | Some (Thread fn arg) => [mkTask (inl (fns fn arg)) local0]
  | Some Process => match t with Some t => [mkTask (inl t) (copied l)] | None => [] end
  | None => []
  end.

(** One step of task [i]: [None] when it has to wait or has ended. *)
Definition step_vis {X} (i : nat) (e : E X) (k : X -> prog Z) (l : local) (p : pool) : option pool :=
  match e with
  | inl1 pe =>
      match proc_step pe l with
      | inl (x, l') => Some (set_task i (mkTask (inl (k x)) l') p)
      | inr s => Some (finish i (Stopped s) l p)
      end
  | inr1 s =>
      match mcall i (length (p_tasks p)) s (p_mach p) with
      | None => None
      | Some (x, e, m) =>
          Some (mkPool (<[i := mkTask (inl (k x)) (answered e l)]> (p_tasks p) ++
                    new_task (spawns s x) (forked_code s k) l)
                  m false)
      end
  end.

Definition step1 (i : nat) (p : pool) : option pool :=
  if p_over p then None else
  match p_tasks p !! i with
  | Some (mkTask (inl t) l) =>
      match observe t with
      | RetF r => Some (finish i (Returned r) l p)
      | TauF t => Some (set_task i (mkTask (inl t) l) p)
      | VisF e k => step_vis i e k l p
      end
  | _ => None
  end.

Fixpoint exec (sched : list nat) (p : pool) : option pool :=
  match sched with
  | [] => Some p
  | i :: sched => match step1 i p with Some p => exec sched p | None => None end
  end.

(** How a task ended, with its output. *)
Definition outcome (i : nat) (p : pool) : option (res Z * list event) :=
  match p_tasks p !! i with
  | Some (mkTask (inr r) l) => Some (r, l_out l)
  | _ => None
  end.

(** What a task has printed so far. *)
Definition output (i : nat) (p : pool) : list event :=
  match p_tasks p !! i with Some t => l_out (t_local t) | None => [] end.

(** A schedule that goes round the tasks, each taking the steps it can, until
    the pool is over. *)
Definition turn (p : pool) (i : nat) : pool := default p (step1 i p).
Definition turns (ids : list nat) (p : pool) : pool := foldl turn p ids.
Fixpoint round_robin (fuel : nat) (p : pool) : pool :=
  match fuel with
  | O => p
  | S fuel => round_robin fuel (turns (seq 0 (length (p_tasks p))) p)
  end.

Definition start (ts : list (prog Z)) (m : mstate) : pool :=
  mkPool (map (fun t => mkTask (inl t) local0) ts) m false.

Lemma exec_app s1 s2 p : exec (s1 ++ s2) p = match exec s1 p with Some p => exec s2 p | None => None end.
Proof. revert p. induction s1 as [|i s1 IH]; intros p; cbn; [done|]. by destruct (step1 i p). Qed.

(** Where the end of a task never ends the others, no pool is over. *)
Lemma never_over ts m sched p :
  (forall i r, mend i r = false) -> exec sched (start ts m) = Some p -> p_over p = false.
Proof.
  intros Hm. assert (p_over (start ts m) = false) as H by done. revert H.
  generalize (start ts m) as p0. induction sched as [|i sched IH]; intros p0 H0; cbn; [by intros [= <-]|].
  destruct (step1 i p0) as [p1|] eqn:E; [|done]. apply IH. revert E. unfold step1. rewrite H0.
  destruct (p_tasks p0 !! i) as [[[t|r] l]|]; try done.
  destruct (observe t) as [r|t'|X [pe|s] k]; [intros [= <-]; apply Hm|by intros [= <-]| |];
    cbn [step_vis].
  - destruct (proc_step pe l) as [[x l']|s]; intros [= <-]; [done|apply Hm].
  - destruct (mcall i (length (p_tasks p0)) s (p_mach p0)) as [[[x e] m']|]; [|done]. by intros [= <-].
Qed.

(** What turns compute is reached by a schedule. *)
Lemma turns_exec ids p : exists sched, exec sched p = Some (turns ids p).
Proof.
  revert p. induction ids as [|i ids IH]; intros p; cbn; [by exists []|].
  unfold turn at 2. destruct (step1 i p) as [p'|] eqn:E; [|apply IH]. cbn.
  destruct (IH p') as [sched Hs]. exists (i :: sched). cbn. by rewrite E.
Qed.

Lemma round_robin_exec fuel p : exists sched, exec sched p = Some (round_robin fuel p).
Proof.
  revert p. induction fuel as [|fuel IH]; intros p; cbn [round_robin]; [by exists []|].
  destruct (turns_exec (seq 0 (length (p_tasks p))) p) as [s1 H1].
  destruct (IH (turns (seq 0 (length (p_tasks p))) p)) as [s2 H2].
  exists (s1 ++ s2). by rewrite exec_app, H1.
Qed.
End Pools.

(** ** A logic for one task

    [Inv m gs] relates the machine to the ghost values of the tasks, [alive]
    are the ghosts of running tasks, [waits] says in which states a task may be
    kept waiting, [says] what the output of a running task may be, [Begin] is the
    ghost a new thread starts with and [Done] what is known of a task that has
    ended. *)
Class Protocol {M : Machine} := {
  ghost : Type;
  Inv : mstate -> list ghost -> Prop;
  alive : ghost -> bool;
  waits : nat -> ghost -> mstate -> list ghost -> Prop;
  says : ghost -> list event -> Prop;
  Begin : string -> Z -> ghost -> Prop;
  Done : nat -> res Z -> local -> ghost -> Prop }.

Section Logic.
Context {M : Machine} {P : Protocol}.

(** The ghost of a newcomer; [child] is what is required of a new process. *)
Definition begins (child : ghost -> Prop) (c : option newcomer) (gn : list ghost) : Prop :=
  match c with
  | Some (Thread fn arg) => exists g, gn = [g] /\ alive g = true /\ says g [] /\ Begin fn arg g
  | Some Process => exists g, gn = [g] /\ alive g = true /\ says g [] /\ child g
  | None => gn = []
  end.

(** A fork splits a task in two, which end separately: the postcondition is told
    which task it is that ends. *)
Fixpoint safe {R} (n : nat) (i : nat) (t : prog R) (Q : nat -> res R -> local -> ghost -> Prop)
    (l : local) (g : ghost) : Prop :=
  match n with
  | O => True
  | S n =>
      match observe t with
      | RetF r => Q i (Returned r) l g
      | TauF t => safe n i t Q l g
      | VisF e k =>
          match e with
          | inl1 pe => fun k =>
              match proc_step pe l with
              | inl (x, l') =>
                  (says g (l_out l) -> says g (l_out l')) /\ safe n i (k x) Q l' g
              | inr s => Q i (Stopped s) l g
              end
          | inr1 s => fun k =>
              forall m gs, Inv m gs -> gs !! i = Some g ->
              match mcall i (length gs) s m with
              | None => waits i g m gs
              | Some (x, e, m') => exists g' gn,
                  Inv m' (<[i := g']> gs ++ gn) /\ alive g' = true /\
                  (says g (l_out l) -> says g' (l_out l)) /\
                  begins (fun g => forall t, forked_code s k = Some t ->
                    safe n (length gs) t Q (copied l) g) (spawns s x) gn /\
                  safe n i (k x) Q (answered e l) g'
              end
          end k
      end
  end.

Definition fsafe {R} (i : nat) (t : prog R) (Q : nat -> res R -> local -> ghost -> Prop)
    (l : local) (g : ghost) : Prop :=
  forall n, safe n i t Q l g.

(** A task that makes no processes. *)
Definition csafe {R} (i : nat) (t : prog R) (Q : res R -> local -> ghost -> Prop) (l : local) (g : ghost) : Prop :=
  fsafe i t (fun j r l g => j = i /\ Q r l g) l g.

(** The end of a task gives its ghost up; when it ends the other tasks too the
    invariant has no further use. *)
Definition ended (i : nat) (r : res Z) (l : local) (g : ghost) : Prop :=
  forall m gs, Inv m gs -> gs !! i = Some g -> says g (l_out l) ->
  exists g', (mend i r = false -> Inv (mexit i r m) (<[i := g']> gs)) /\
    alive g' = false /\ Done i r l g'.

(** *** Rules *)
Lemma begins_mono (C C' : ghost -> Prop) c gn :
  begins C c gn -> (forall g, C g -> C' g) -> begins C' c gn.
Proof.
  destruct c as [[fn arg|]|]; cbn; [done| |done]. intros (g & -> & Ha & Hs & HC) H. exists g. auto.
Qed.

Lemma forked_code_bind {X R S} (s : SysE X) (h : X -> prog R) (k : R -> prog S) :
  forked_code s (fun x => ITree.bind (h x) k) =
  option_map (fun t => ITree.bind t k) (forked_code s h).
Proof. by destruct s. Qed.

Lemma safe_S {R} n i (t : prog R) Q l g : safe (S n) i t Q l g -> safe n i t Q l g.
Proof.
  revert i t l g. induction n as [|n IH]; intros i t l g H; [done|].
  remember (S n) as n' eqn:Hn. cbn [safe] in *. subst n'. cbn [safe].
  destruct (observe t) as [r|t'|X [pe|s] k]; [done|by apply IH| |].
  - destruct (proc_step pe l) as [[x l']|s]; [|done]. destruct H. auto.
  - intros m gs HI Hg. specialize (H m gs HI Hg).
    destruct (mcall i (length gs) s m) as [[[x e] m']|]; [|done].
    destruct H as (g' & gn & HI' & Ha & Hsy & Hb & H). exists g', gn.
    split_and!; [done|done|done| |by apply IH]. eapply begins_mono; [exact Hb|]. eauto.
Qed.

Lemma safe_le {R} m n i (t : prog R) Q l g : (m <= n)%nat -> safe n i t Q l g -> safe m i t Q l g.
Proof. induction 1; eauto using safe_S. Qed.

Lemma safe_mono {R} n i (t : prog R) (Q Q' : nat -> res R -> local -> ghost -> Prop) l g :
  safe n i t Q l g -> (forall j r l' g', Q j r l' g' -> Q' j r l' g') -> safe n i t Q' l g.
Proof.
  intros H HQ. revert i t l g H. induction n as [|n IH]; intros i t l g; [done|]. cbn [safe].
  destruct (observe t) as [r|t'|X [pe|s] k]; [apply HQ|apply IH| |].
  - destruct (proc_step pe l) as [[x l']|s]; [|apply HQ]. intros [? ?]. auto.
  - intros H m gs HI Hg. specialize (H m gs HI Hg).
    destruct (mcall i (length gs) s m) as [[[x e] m']|]; [|done].
    destruct H as (g' & gn & HI' & Ha & Hsy & Hb & H). exists g', gn.
    split_and!; [done|done|done| |by apply IH]. eapply begins_mono; [exact Hb|]. eauto.
Qed.

Lemma fsafe_mono {R} i (t : prog R) (Q Q' : nat -> res R -> local -> ghost -> Prop) l g :
  fsafe i t Q l g -> (forall j r l' g', Q j r l' g' -> Q' j r l' g') -> fsafe i t Q' l g.
Proof. intros H HQ n. by eapply safe_mono; [apply H|]. Qed.

Lemma safe_bind {R S} n i (t : prog R) (k : R -> prog S) Q l g :
  safe n i t (fun j r l' g' => match r with
                               | Returned x => forall m, (m <= n)%nat -> safe m j (k x) Q l' g'
                               | Stopped s => Q j (Stopped s) l' g'
                               end) l g ->
  safe n i (ITree.bind t k) Q l g.
Proof.
  enough (forall b, (n <= b)%nat -> safe n i t (fun j r l' g' => match r with
      | Returned x => forall m, (m <= b)%nat -> safe m j (k x) Q l' g'
      | Stopped s => Q j (Stopped s) l' g'
      end) l g -> safe n i (ITree.bind t k) Q l g) as He by (apply He; lia).
  intros b. revert i t l g. induction n as [|n IH]; intros i t l g Hn; [done|]. intros H.
  destruct (observe t) as [r|t'|X e h] eqn:Ho; cbn [safe] in H; rewrite Ho in H.
  - specialize (H (Datatypes.S n) Hn). cbn [safe] in *. by rewrite observe_bind, Ho.
  - cbn [safe]. rewrite observe_bind, Ho. by apply IH; [lia|].
  - cbn [safe]. rewrite observe_bind, Ho. destruct e as [pe|s].
    + destruct (proc_step pe l) as [[x l']|s]; [|done]. destruct H as [Hsy H].
      split; [done|]. by apply IH; [lia|].
    + intros m gs HI Hg. specialize (H m gs HI Hg).
      destruct (mcall i (length gs) s m) as [[[x e] m']|]; [|done].
      destruct H as (g' & gn & HI' & Ha & Hsy & Hb' & H). exists g', gn.
      split_and!; [done|done|done| |by apply IH; [lia|]].
      eapply begins_mono; [exact Hb'|]. intros gc Hc t'. rewrite forked_code_bind.
      destruct (forked_code s h) as [c|]; [|done]. intros [= <-]. apply IH; [lia|]. by apply Hc.
Qed.

Lemma fsafe_bind {R S} i (t : prog R) (k : R -> prog S) Q l g :
  fsafe i t (fun j r l' g' => match r with
                              | Returned x => fsafe j (k x) Q l' g'
                              | Stopped s => Q j (Stopped s) l' g'
                              end) l g ->
  fsafe i (ITree.bind t k) Q l g.
Proof.
  intros H n. apply safe_bind. eapply safe_mono; [apply H|]. intros j [x|s]; [|done].
  intros l' g' Hk m _. apply Hk.
Qed.

Lemma fsafe_ret {R} i (r : R) Q l g : Q i (Returned r) l g -> fsafe i (Ret r) Q l g.
Proof. intros H [|n]; done. Qed.

Lemma fsafe_proc {X} i (p : ProcE X) Q l g :
  match proc_step p l with
  | inl (x, l') => (says g (l_out l) -> says g (l_out l')) /\ Q i (Returned x) l' g
  | inr s => Q i (Stopped s) l g
  end ->
  fsafe i (ITree.trigger (inl1 p)) Q l g.
Proof.
  intros H [|n]; [done|]. cbn. destruct (proc_step p l) as [[x l']|s]; [|done].
  destruct H. split; [done|]. by apply fsafe_ret.
Qed.

(** A call: it may wait, or its answer keeps the invariant for a new ghost. A
    process it makes returns from it with the same right. *)
Lemma fsafe_sys {X} i (s : SysE X) Q l g :
  (forall m gs, Inv m gs -> gs !! i = Some g ->
    match mcall i (length gs) s m with
    | None => waits i g m gs
    | Some (x, e, m') => exists g' gn,
        Inv m' (<[i := g']> gs ++ gn) /\ alive g' = true /\
        (says g (l_out l) -> says g' (l_out l)) /\
        begins (fun g => forall t, forked_code s (fun x : X => Ret x) = Some t ->
          fsafe (length gs) t Q (copied l) g) (spawns s x) gn /\
        Q i (Returned x) (answered e l) g'
    end) ->
  fsafe i (sys s) Q l g.
Proof.
  intros H [|n]; [done|]. cbn [safe observe _observe sys ITree.trigger subevent resum].
  intros m gs HI Hg. specialize (H m gs HI Hg).
  destruct (mcall i (length gs) s m) as [[[x e] m']|]; [|done].
  destruct H as (g' & gn & HI' & Ha & Hsy & Hb & H). exists g', gn.
  split_and!; [done|done|done| |by apply fsafe_ret]. eapply begins_mono; [exact Hb|].
  intros gc Hc t Ht. by apply Hc.
Qed.

Lemma fsafe_exit {R} i c (Q : nat -> res R -> local -> ghost -> Prop) l g :
  Q i (Stopped (Exited c)) l g -> fsafe i (exit c) Q l g.
Proof. by intros H [|n]. Qed.

Lemma fsafe__exit {R} i c (Q : nat -> res R -> local -> ghost -> Prop) l g :
  Q i (Stopped (ImmExited c)) l g -> fsafe i (_exit c) Q l g.
Proof. by intros H [|n]. Qed.

Lemma fsafe_fprintf i f fmt args Q l g :
  (says g (l_out l) -> says g (l_out l ++ [EPrint f (format fmt args)])) ->
  Q i (Returned tt) (out_ev (EPrint f (format fmt args)) l) g -> fsafe i (fprintf f fmt args) Q l g.
Proof. intros Hs H. by apply fsafe_proc. Qed.

Lemma fsafe_setbuf i f Q l g :
  (says g (l_out l) -> says g (l_out l ++ [ESetbuf f])) ->
  Q i (Returned tt) (out_ev (ESetbuf f) l) g -> fsafe i (setbuf f) Q l g.
Proof. intros Hs H. by apply fsafe_proc. Qed.

Lemma fsafe_errno i Q l g : Q i (Returned (l_errno l)) l g -> fsafe i errno Q l g.
Proof. intros H. by apply fsafe_proc. Qed.

Lemma fsafe_set_errno i e Q l g : Q i (Returned tt) (mkLocal e (l_out l)) g -> fsafe i (set_errno e) Q l g.
Proof. intros H. by apply fsafe_proc. Qed.

Lemma fsafe_when i b t Q l g :
  (b = true -> fsafe i t Q l g) -> (b = false -> Q i (Returned tt) l g) -> fsafe i (when b t) Q l g.
Proof. destruct b; intros; [auto|]. apply fsafe_ret. auto. Qed.

(** A loop keeps an invariant of its variables, output and ghost, in the task and
    in the processes it makes. *)
Lemma fsafe_iter {A B} (body : A -> prog (A + B)) (I : nat -> A -> local -> ghost -> Prop)
    (Q : nat -> res B -> local -> ghost -> Prop) :
  (forall i a l g, I i a l g ->
    fsafe i (body a) (fun j r l' g' => match r with
                                       | Returned (inl a') => I j a' l' g'
                                       | Returned (inr b) => Q j (Returned b) l' g'
                                       | Stopped s => Q j (Stopped s) l' g'
                                       end) l g) ->
  forall i a l g, I i a l g -> fsafe i (ITree.iter body a) Q l g.
Proof.
  intros Hb i a l g HI n. revert i a l g HI. induction (lt_wf n) as [n _ IH]. intros i a l g HI.
  enough (safe n i (ITree.bind (body a) (fun lr => match lr with
        | inl l => Tau (ITree.iter body l) | inr r => Ret r end)) Q l g) as H by (by destruct n).
  apply safe_bind. eapply safe_mono; [apply Hb, HI|].
  intros j [[a'|b]|s] l' g' H; [| |done]; intros m Hm.
  - destruct m as [|m]; [done|]. by apply IH; [lia|].
  - by apply fsafe_ret.
Qed.

Lemma fsafe_for_loop {A} i lo hi (body : Z -> A -> prog A) (I : nat -> Z -> A -> local -> ghost -> Prop)
    (Q : nat -> res A -> local -> ghost -> Prop) a l g :
  I i lo a l g ->
  (forall i j a l g, lo <= j < hi -> I i j a l g ->
    fsafe i (body j a) (fun i' r l' g' => match r with
                                          | Returned a' => I i' (j + 1) a' l' g'
                                          | Stopped s => Q i' (Stopped s) l' g'
                                          end) l g) ->
  (forall i j a l g, hi <= j -> j = Z.max lo hi -> I i j a l g -> Q i (Returned a) l g) ->
  fsafe i (for_loop lo hi body a) Q l g.
Proof.
  intros H0 Hb HQ. unfold for_loop.
  apply (fsafe_iter _ (fun i '(j, a) l g => lo <= j <= Z.max lo hi /\ I i j a l g)); [|split; [lia|done]].
  intros i' [j a'] l' g' [Hj HI]. destruct (Z.ltb_spec j hi).
  - apply fsafe_bind. eapply fsafe_mono; [by apply Hb; [lia|]|].
    intros j' [a''|s] l'' g'' HI'; [|done]. apply fsafe_ret. split; [lia|done].
  - apply fsafe_ret. eapply HQ; [done|lia|done].
Qed.

(** *** Rules for tasks that make no processes

    In their protocols nothing is said of the output of running tasks. *)
Class Mute := mute g out : says g out.
Context {HMute : Mute}.

Lemma csafe_mono {R} i (t : prog R) (Q Q' : res R -> local -> ghost -> Prop) l g :
  csafe i t Q l g -> (forall r l' g', Q r l' g' -> Q' r l' g') -> csafe i t Q' l g.
Proof. intros H HQ. eapply fsafe_mono; [exact H|]. intros j r l' g' [-> ?]. auto. Qed.

Lemma csafe_bind {R S} i (t : prog R) (k : R -> prog S) Q l g :
  csafe i t (fun r l' g' => match r with
                            | Returned x => csafe i (k x) Q l' g'
                            | Stopped s => Q (Stopped s) l' g'
                            end) l g ->
  csafe i (ITree.bind t k) Q l g.
Proof.
  intros H. apply fsafe_bind. eapply fsafe_mono; [exact H|].
  by intros j [x|s] l' g' [-> Hr].
Qed.

Lemma csafe_ret {R} i (r : R) Q l g : Q (Returned r) l g -> csafe i (Ret r) Q l g.
Proof. intros H. by apply fsafe_ret. Qed.

Lemma csafe_proc {X} i (p : ProcE X) Q l g :
  match proc_step p l with inl (x, l') => Q (Returned x) l' g | inr s => Q (Stopped s) l g end ->
  csafe i (ITree.trigger (inl1 p)) Q l g.
Proof.
  intros H. apply fsafe_proc. destruct (proc_step p l) as [[x l']|s]; [|done].
  split; [intros _; apply mute|done].
Qed.

Lemma csafe_sys {X} i (s : SysE X) Q l g :
  (forall m gs, Inv m gs -> gs !! i = Some g ->
    match mcall i (length gs) s m with
    | None => waits i g m gs
    | Some (x, e, m') => exists g' gn,
        Inv m' (<[i := g']> gs ++ gn) /\ alive g' = true /\
        begins (fun _ => False) (spawns s x) gn /\ Q (Returned x) (answered e l) g'
    end) ->
  csafe i (sys s) Q l g.
Proof.
  intros H. apply fsafe_sys. intros m gs HI Hg. specialize (H m gs HI Hg).
  destruct (mcall i (length gs) s m) as [[[x e] m']|]; [|done].
  destruct H as (g' & gn & HI' & Ha & Hb & H). exists g', gn.
  split_and!; [done|done|intros _; apply mute|by eapply begins_mono; [exact Hb|]|done|done].
Qed.

Lemma csafe_exit {R} i c (Q : res R -> local -> ghost -> Prop) l g :
  Q (Stopped (Exited c)) l g -> csafe i (exit c) Q l g.
Proof. intros H. by apply fsafe_exit. Qed.

Lemma csafe_fprintf i f fmt args Q l g :
  Q (Returned tt) (out_ev (EPrint f (format fmt args)) l) g -> csafe i (fprintf f fmt args) Q l g.
Proof. intros H. by apply csafe_proc. Qed.

Lemma csafe_errno i Q l g : Q (Returned (l_errno l)) l g -> csafe i errno Q l g.
Proof. intros H. by apply csafe_proc. Qed.

Lemma csafe_set_errno i e Q l g : Q (Returned tt) (mkLocal e (l_out l)) g -> csafe i (set_errno e) Q l g.
Proof. intros H. by apply csafe_proc. Qed.

Lemma csafe_when i b t Q l g :
  (b = true -> csafe i t Q l g) -> (b = false -> Q (Returned tt) l g) -> csafe i (when b t) Q l g.
Proof. destruct b; intros; [auto|]. apply csafe_ret. auto. Qed.

Lemma csafe_iter {A B} i (body : A -> prog (A + B)) (I : A -> local -> ghost -> Prop)
    (Q : res B -> local -> ghost -> Prop) :
  (forall a l g, I a l g ->
    csafe i (body a) (fun r l' g' => match r with
                                     | Returned (inl a') => I a' l' g'
                                     | Returned (inr b) => Q (Returned b) l' g'
                                     | Stopped s => Q (Stopped s) l' g'
                                     end) l g) ->
  forall a l g, I a l g -> csafe i (ITree.iter body a) Q l g.
Proof.
  intros Hb a l g HI. apply (fsafe_iter _ (fun j a l g => j = i /\ I a l g)); [|done].
  intros j a' l' g' [-> HI']. eapply fsafe_mono; [by apply Hb|].
  intros j' [[a''|b]|s] l'' g'' [-> Hr]; done.
Qed.

Lemma csafe_for_loop {A} i lo hi (body : Z -> A -> prog A) (I : Z -> A -> local -> ghost -> Prop)
    (Q : res A -> local -> ghost -> Prop) a l g :
  I lo a l g ->
  (forall j a l g, lo <= j < hi -> I j a l g ->
    csafe i (body j a) (fun r l' g' => match r with
                                       | Returned a' => I (j + 1) a' l' g'
                                       | Stopped s => Q (Stopped s) l' g'
                                       end) l g) ->
  (forall j a l g, hi <= j -> j = Z.max lo hi -> I j a l g -> Q (Returned a) l g) ->
  csafe i (for_loop lo hi body a) Q l g.
Proof.
  intros H0 Hb HQ. apply (fsafe_for_loop _ _ _ _ (fun i' j a l g => i' = i /\ I j a l g)); [done| |].
  - intros i' j a' l' g' Hj [-> HI]. eapply fsafe_mono; [by apply Hb|].
    intros j' [a''|s] l'' g'' [-> Hr]; done.
  - intros i' j a' l' g' Hj Hj' [-> HI]. split; [done|]. by eapply HQ.
Qed.
End Logic.

(** ** Soundness *)
Section Soundness.
Context {M : Machine} {P : Protocol} (fns : string -> Z -> prog Z).

(** Every thread function is safe from the ghost it begins with. *)
Hypothesis fns_safe : forall fn arg g i, alive g = true -> Begin fn arg g ->
  csafe i (fns fn arg) (ended i) local0 g.

Lemma csafe_ended i t l g : csafe i t (ended i) l g -> fsafe i t ended l g.
Proof. intros H. eapply fsafe_mono; [exact H|]. by intros j r l' g' [-> ?]. Qed.

Lemma process_code {X R} (s : SysE X) (k : X -> prog R) x :
  spawns s x = Some Process -> exists t, forked_code s k = Some t.
Proof. destruct s; cbn; try done; [|case_if; done]. intros _. by eexists. Qed.

Definition task_ok (n i : nat) (t : task) (g : ghost) : Prop :=
  match t_code t with
  | inl c => alive g = true /\ says g (l_out (t_local t)) /\ safe n i c ended (t_local t) g
  | inr r => alive g = false /\ Done i r (t_local t) g
  end.

Definition pool_ok (n : nat) (p : pool) : Prop :=
  exists gs, (p_over p = false -> Inv (p_mach p) gs) /\ length gs = length (p_tasks p) /\
  forall i t g, p_tasks p !! i = Some t -> gs !! i = Some g -> task_ok n i t g.

Lemma task_ok_S n i t g : task_ok (S n) i t g -> task_ok n i t g.
Proof. unfold task_ok. destruct (t_code t); [|done]. intros (? & ? & ?). eauto using safe_S. Qed.

(** Replacing one task and its ghost, and adding new ones. *)
Lemma tasks_ok_insert n (ts : list task) gs i t g tn gn :
  length gs = length ts -> (i < length ts)%nat ->
  (forall j t g, ts !! j = Some t -> gs !! j = Some g -> task_ok (S n) j t g) ->
  task_ok n i t g ->
  (forall j t g, tn !! j = Some t -> gn !! j = Some g -> task_ok n (length ts + j) t g) ->
  forall j t' g', (<[i := t]> ts ++ tn) !! j = Some t' -> (<[i := g]> gs ++ gn) !! j = Some g' ->
  task_ok n j t' g'.
Proof.
  intros Hl Hi Hold Hnew Happ j t' g' Ht Hg.
  rewrite lookup_app_Some, length_insert in Ht. rewrite lookup_app_Some, length_insert in Hg.
  destruct Ht as [Ht|[Hj Ht]], Hg as [Hg|[Hj' Hg]].
  - destruct (decide (i = j)) as [<-|Hne].
    + rewrite list_lookup_insert_eq in Ht by lia.
      rewrite list_lookup_insert_eq in Hg by lia. by simplify_eq.
    + rewrite list_lookup_insert_ne in Ht by done.
      rewrite list_lookup_insert_ne in Hg by done. eauto using task_ok_S.
  - apply lookup_lt_Some in Ht. rewrite length_insert in Ht. lia.
  - apply lookup_lt_Some in Hg. rewrite length_insert in Hg. lia.
  - replace j with (length ts + (j - length ts))%nat by lia.
    rewrite Hl in Hg. by apply Happ.
Qed.

Lemma tasks_ok_set n (ts : list task) gs i t g :
  length gs = length ts -> (i < length ts)%nat ->
  (forall j t g, ts !! j = Some t -> gs !! j = Some g -> task_ok (S n) j t g) ->
  task_ok n i t g ->
  forall j t' g', <[i := t]> ts !! j = Some t' -> <[i := g]> gs !! j = Some g' -> task_ok n j t' g'.
Proof.
  intros Hl Hi Hold Hnew j t' g' Ht Hg.
  eapply (tasks_ok_insert n ts gs i t g [] []); rewrite ?app_nil_r; eauto. done.
Qed.

Lemma finish_ok n i r l p gs g :
  Inv (p_mach p) gs -> length gs = length (p_tasks p) -> gs !! i = Some g ->
  (forall i t g, p_tasks p !! i = Some t -> gs !! i = Some g -> task_ok (S n) i t g) ->
  says g (l_out l) -> ended i r l g -> pool_ok n (finish i r l p).
Proof.
  intros HI Hl Hg Hok Hsy He. destruct (He _ _ HI Hg Hsy) as (g' & HI' & Ha & HD).
  pose proof (lookup_lt_Some _ _ _ Hg).
  exists (<[i := g']> gs). split_and!; [done|by cbn; rewrite !length_insert|].
  apply tasks_ok_set; [done|lia|done|by split].
Qed.

Lemma set_task_ok n i t l p gs g :
  (p_over p = false -> Inv (p_mach p) gs) -> length gs = length (p_tasks p) -> gs !! i = Some g ->
  (forall i t g, p_tasks p !! i = Some t -> gs !! i = Some g -> task_ok (S n) i t g) ->
  alive g = true -> says g (l_out l) -> safe n i t ended l g -> pool_ok n (set_task i (mkTask (inl t) l) p).
Proof.
  intros HI Hl Hg Hok Ha Hsy Hs. pose proof (lookup_lt_Some _ _ _ Hg).
  exists gs. split_and!; [done|by cbn; rewrite length_insert|].
  intros j t' g'' Ht Hg'. rewrite <- (list_insert_id gs i g) in Hg' by done. revert j t' g'' Ht Hg'.
  apply tasks_ok_set; [done|lia|done|by split_and!].
Qed.

(** A step of any task keeps the pool safe, for one step less. *)
Lemma step1_ok n i p p' : pool_ok (S n) p -> step1 fns i p = Some p' -> pool_ok n p'.
Proof.
  intros (gs & HI & Hl & Hok). unfold step1. destruct (p_over p) eqn:Ho; [done|].
  specialize (HI eq_refl) as HI'. clear HI. rename HI' into HI.
  destruct (p_tasks p !! i) as [[[t|r] l]|] eqn:Ht; try done.
  pose proof (lookup_lt_Some _ _ _ Ht) as Hi.
  destruct (lookup_lt_is_Some_2 gs i) as [g Hg]; [lia|].
  pose proof (Hok _ _ _ Ht Hg) as (Ha & Hsy & Hs). cbn [safe t_local] in Hs, Hsy.
  destruct (observe t) as [r|t'|X e k].
  - intros [= <-]. eapply finish_ok; eauto.
  - intros [= <-]. eapply set_task_ok; eauto.
  - destruct e as [pe|s]; cbn [step_vis].
    + destruct (proc_step pe l) as [[x l']|s]; intros [= <-]; [|eapply finish_ok; eauto].
      destruct Hs. eapply set_task_ok; eauto.
    + specialize (Hs _ _ HI Hg). rewrite Hl in Hs.
      destruct (mcall i (length (p_tasks p)) s (p_mach p)) as [[[x e] m']|]; [|done].
      destruct Hs as (g' & gn & HI' & Ha' & Hsy' & Hb & Hs). intros [= <-].
      exists (<[i := g']> gs ++ gn). split_and!; [done| |].
      * cbn. rewrite !length_app, !length_insert, Hl. f_equal.
        destruct (spawns s x) as [[fn arg|]|] eqn:Es; cbn [begins] in Hb; [|destruct (process_code _ k _ Es) as [c ->]|by subst gn].
        all: by destruct Hb as (g1 & -> & _).
      * apply tasks_ok_insert; [done|done|done|split_and!; [done|by apply Hsy'|done]|].
        intros j t' g'' Ht' Hg'.
        destruct (spawns s x) as [[fn arg|]|] eqn:Es; cbn [begins new_task] in *; [| |by subst gn].
        -- destruct Hb as (g1 & -> & Ha1 & Hs1 & HB). destruct j; [|done]. cbn in Ht', Hg'. simplify_eq.
           split_and!; [done|done|]. by apply csafe_ended, fns_safe.
        -- destruct Hb as (g1 & -> & Ha1 & Hs1 & HB). destruct (process_code _ k _ Es) as [c Hc].
           rewrite Hc in Ht'. destruct j; [|done]. cbn in Ht', Hg'. simplify_eq.
           split_and!; [done|done|]. rewrite Nat.add_0_r. by apply HB.
Qed.

Lemma exec_ok n sched p p' :
  pool_ok (length sched + n) p -> exec fns sched p = Some p' -> pool_ok n p'.
Proof.
  revert p. induction sched as [|i sched IH]; intros p; cbn; [by intros H [= <-]|].
  intros H. destruct (step1 fns i p) as [p1|] eqn:E; [|done]. eauto using step1_ok.
Qed.

(** A pool started with safe tasks is safe after any schedule. *)
Lemma start_ok ts m gs sched p :
  Inv m gs -> Forall2 (fun t g => alive g = true /\ says g [] /\ forall i, ts !! i = Some t -> gs !! i = Some g ->
    fsafe i t ended local0 g) ts gs ->
  exec fns sched (start ts m) = Some p -> forall n, pool_ok n p.
Proof.
  intros HI Hts He n. eapply exec_ok; [|exact He].
  exists gs. split_and!; [by intros _|cbn; rewrite length_map; symmetry; by eapply Forall2_length|].
  intros i t g Ht Hg. cbn in Ht. rewrite list_lookup_fmap in Ht.
  destruct (ts !! i) as [c|] eqn:Hc; [|done]. cbn in Ht. injection Ht as <-.
  pose proof (Forall2_lookup_lr _ _ _ _ _ _ Hts Hc Hg) as (Ha & Hsy & Hs). split_and!; [done|done|]. by apply Hs.
Qed.

(** No deadlock: when among the live tasks there is always one that cannot be
    kept waiting, a pool that is not over can take a step. *)
Lemma pool_progress p :
  pool_ok 1 p -> p_over p = false ->
  (forall gs, Inv (p_mach p) gs -> length gs = length (p_tasks p) ->
    (forall i g, gs !! i = Some g -> alive g = false -> exists r l,
      outcome i p = Some (r, l_out l) /\ Done i r l g) ->
    exists i g, gs !! i = Some g /\ alive g = true /\ ~ waits i g (p_mach p) gs) ->
  exists i p', step1 fns i p = Some p'.
Proof.
  intros (gs & HI & Hl & Hok) Ho Hw. specialize (HI Ho).
  destruct (Hw gs HI Hl) as (i & g & Hg & Ha & Hnw).
  { intros i g Hg Ha. destruct (lookup_lt_is_Some_2 (p_tasks p) i) as [[[t|r] l] Ht].
    { apply lookup_lt_Some in Hg. lia. }
    - destruct (Hok _ _ _ Ht Hg) as [Ha' _]. congruence.
    - destruct (Hok _ _ _ Ht Hg) as [_ HD]. exists r, l. unfold outcome. by rewrite Ht. }
  destruct (lookup_lt_is_Some_2 (p_tasks p) i) as [[[t|r] l] Ht].
  { apply lookup_lt_Some in Hg. lia. }
  2:{ destruct (Hok _ _ _ Ht Hg) as [Ha' _]. congruence. }
  exists i. unfold step1. rewrite Ho, Ht. destruct (Hok _ _ _ Ht Hg) as (_ & _ & Hs). cbn in Hs.
  destruct (observe t) as [r|t'|X e k]; [by eexists|by eexists|].
  destruct e as [pe|s]; cbn [step_vis].
  - destruct (proc_step pe l) as [[x l']|s]; by eexists.
  - specialize (Hs _ _ HI Hg). rewrite Hl in Hs.
    destruct (mcall i (length (p_tasks p)) s (p_mach p)) as [[[x e] m']|]; [by eexists|done].
Qed.

(** What is known of a task that has ended. *)
Lemma ended_task p i r out :
  pool_ok 0 p -> outcome i p = Some (r, out) -> exists l g gs,
    l_out l = out /\ Done i r l g /\ gs !! i = Some g /\ (p_over p = false -> Inv (p_mach p) gs).
Proof.
  unfold outcome. intros (gs & HI & Hl & Hok).
  destruct (p_tasks p !! i) as [[[t|r'] l]|] eqn:Ht; try done. intros [= -> <-]. pose proof (lookup_lt_Some _ _ _ Ht).
  destruct (lookup_lt_is_Some_2 gs i) as [g Hg]; [lia|].
  destruct (Hok _ _ _ Ht Hg) as [_ HD]. by exists l, g, gs.
Qed.
End Soundness.

(** ** Specifications of machines

    What a family of calls may do to the part of the machine it works on, of
    type [V]: the answers task [i] of [n] may get, when a call may have to wait,
    and what the end of a task does. A machine implements it through a view. *)
Record Spec (V : Type) := mkSpec {
  answers : forall X, nat -> nat -> SysE X -> V -> X -> V -> Prop;
  blocks : forall X, nat -> SysE X -> V -> Prop;
  at_exit : nat -> res Z -> V -> V;
  ends_all : nat -> res Z -> bool }.
Arguments answers {V} S {X} i n s v x v' : rename.
Arguments blocks {V} S {X} i s v : rename.
Arguments at_exit {V} S i r v : rename.
Arguments ends_all {V} S i r : rename.

Class Implements (M : Machine) {V} (S : Spec V) := {
  view : mstate -> V;
  sp_call : forall X (s : SysE X) i n m x e m', mcall i n s m = Some (x, e, m') ->
    answers S i n s (view m) x (view m');
  sp_wait : forall X (s : SysE X) i n m, mcall i n s m = None -> blocks S i s (view m);
  sp_exit : forall i r m, mend i r = false -> view (mexit i r m) = at_exit S i r (view m);
  sp_end : forall i r, mend i r = ends_all S i r }.

(** Protocols over a view. *)
Class VProtocol (V : Type) := {
  vghost : Type;
  vinv : V -> list vghost -> Prop;
  valive : vghost -> bool;
  vwaits : nat -> vghost -> V -> list vghost -> Prop;
  vsays : vghost -> list event -> Prop;
  vbegin : string -> Z -> vghost -> Prop;
  vdone : nat -> res Z -> local -> vghost -> Prop }.

#[export] Instance view_protocol {M : Machine} {V} {S : Spec V} {HM : Implements M S}
    {P : VProtocol V} : Protocol := {|
  ghost := vghost;
  Inv m gs := vinv (view m) gs;
  alive := valive;
  waits i g m gs := vwaits i g (view m) gs;
  says := vsays;
  Begin := vbegin;
  Done := vdone |}.

Class VMute {V} {P : VProtocol V} := vmute g out : vsays g out.

Section Views.
Context {M : Machine} {V : Type} {S : Spec V} {HM : Implements M S} {P : VProtocol V}.
Implicit Types (g : ghost) (gs : list ghost).

#[export] Instance view_mute {HMute : VMute} : Mute.
Proof. intros g out. apply vmute. Defined.

(** A call: what may wait, and every answer it may get; and the call that makes a
    process: [gc] is the ghost of the child. *)
Lemma fsafe_call {X} i (s : SysE X) (Q : nat -> res X -> local -> ghost -> Prop) l g :
  (forall x, spawns s x = None) ->
  (forall v gs, vinv v gs -> gs !! i = Some g ->
    (blocks S i s v -> vwaits i g v gs) /\
    forall x v' e, answers S i (length gs) s v x v' -> exists g',
      vinv v' (<[i := g']> gs) /\ valive g' = true /\
      (vsays g (l_out l) -> vsays g' (l_out l)) /\ Q i (Returned x) (answered e l) g') ->
  fsafe i (sys s) Q l g.
Proof.
  intros Hs H. apply fsafe_sys. intros m gs HI Hg. destruct (H _ _ HI Hg) as [Hw Ha].
  destruct (mcall i (length gs) s m) as [[[x e] m']|] eqn:E; [|by eapply Hw, sp_wait, E].
  destruct (Ha x _ e (sp_call _ _ _ _ _ _ _ _ E)) as (g' & HI' & Hl & Hsy & HQ).
  exists g', []. rewrite app_nil_r, Hs. done.
Qed.

Lemma fsafe_fork i (Q : nat -> res Z -> local -> ghost -> Prop) l g :
  (forall v gs, vinv v gs -> gs !! i = Some g ->
    (blocks S i Fork v -> vwaits i g v gs) /\
    forall x v' e, answers S i (length gs) Fork v x v' ->
      if 0 <? x then exists g' gc,
        vinv v' (<[i := g']> gs ++ [gc]) /\ valive g' = true /\ valive gc = true /\
        (vsays g (l_out l) -> vsays g' (l_out l)) /\ vsays gc [] /\
        Q (length gs) (Returned 0) (copied l) gc /\ Q i (Returned x) (answered e l) g'
      else exists g', vinv v' (<[i := g']> gs) /\ valive g' = true /\
        (vsays g (l_out l) -> vsays g' (l_out l)) /\ Q i (Returned x) (answered e l) g') ->
  fsafe i (sys Fork) Q l g.
Proof.
  intros H. apply fsafe_sys. intros m gs HI Hg. destruct (H _ _ HI Hg) as [Hw Ha].
  destruct (mcall i (length gs) Fork m) as [[[x e] m']|] eqn:E; [|by eapply Hw, sp_wait, E].
  pose proof (Ha x _ e (sp_call _ _ _ _ _ _ _ _ E)) as Hx. cbn [spawns].
  destruct (0 <? x).
  - destruct Hx as (g' & gc & HI' & Hl & Hlc & Hsy & Hsc & HQc & HQ). exists g', [gc].
    split_and!; [done|done|done| |done]. exists gc. split_and!; [done|done|done|].
    intros t [= <-]. by apply fsafe_ret.
  - destruct Hx as (g' & HI' & Hl & Hsy & HQ). exists g', []. by rewrite app_nil_r.
Qed.

Context {HMute : VMute}.

(** A call in a program that makes no processes, and one that starts no task. *)
Lemma csafe_call {X} i (s : SysE X) (Q : res X -> local -> ghost -> Prop) l g :
  (forall v gs, vinv v gs -> gs !! i = Some g ->
    (blocks S i s v -> vwaits i g v gs) /\
    forall x v' e, answers S i (length gs) s v x v' -> exists g' gn,
      vinv v' (<[i := g']> gs ++ gn) /\ valive g' = true /\ begins (fun _ => False) (spawns s x) gn /\
      Q (Returned x) (answered e l) g') ->
  csafe i (sys s) Q l g.
Proof.
  intros H. apply csafe_sys. intros m gs HI Hg. destruct (H _ _ HI Hg) as [Hw Ha].
  destruct (mcall i (length gs) s m) as [[[x e] m']|] eqn:E.
  - eapply Ha, sp_call, E.
  - eapply Hw, sp_wait, E.
Qed.

Lemma csafe_call1 {X} i (s : SysE X) (Q : res X -> local -> ghost -> Prop) l g :
  (forall x, spawns s x = None) ->
  (forall v gs, vinv v gs -> gs !! i = Some g ->
    (blocks S i s v -> vwaits i g v gs) /\
    forall x v' e, answers S i (length gs) s v x v' -> exists g',
      vinv v' (<[i := g']> gs) /\ valive g' = true /\ Q (Returned x) (answered e l) g') ->
  csafe i (sys s) Q l g.
Proof.
  intros Hs H. apply csafe_call. intros v gs HI Hg. destruct (H _ _ HI Hg) as [Hw Ha].
  split; [done|]. intros x v' e Hx. destruct (Ha x v' e Hx) as (g' & HI' & Hl & HQ).
  exists g', []. rewrite app_nil_r, Hs. done.
Qed.

Lemma ended_says i r l g :
  (forall v gs, vinv v gs -> gs !! i = Some g -> vsays g (l_out l) -> exists g',
    (ends_all S i r = false -> vinv (at_exit S i r v) (<[i := g']> gs)) /\
    valive g' = false /\ vdone i r l g') ->
  ended i r l g.
Proof.
  intros H m gs HI Hg Hsy. destruct (H _ _ HI Hg Hsy) as (g' & HI' & Ha & HD).
  exists g'. split_and!; [|done|done]. intros Hm. cbn [Inv view_protocol].
  rewrite sp_exit by done. apply HI'. by rewrite <- (sp_end (S := S)).
Qed.

Lemma ended_view i r l g :
  (forall v gs, vinv v gs -> gs !! i = Some g -> exists g',
    (ends_all S i r = false -> vinv (at_exit S i r v) (<[i := g']> gs)) /\
    valive g' = false /\ vdone i r l g') ->
  ended i r l g.
Proof. intros H. apply ended_says. auto. Qed.
End Views.

(** ** Symbolic execution of a task, between its calls *)
Ltac cs_head :=
  lazymatch goal with
  | |- csafe _ (ITree.bind _ _) _ _ _ => apply csafe_bind
  | |- csafe _ (Ret _) _ _ _ => apply csafe_ret; cbv beta iota
  | |- csafe _ errno _ _ _ => apply csafe_errno; cbv beta iota
  | |- csafe _ (set_errno _) _ _ _ => apply csafe_set_errno; cbv beta iota
  | |- csafe _ (printf _ _) _ _ _ => apply csafe_fprintf; cbv beta iota
  | |- csafe _ (fprintf _ _ _) _ _ _ => apply csafe_fprintf; cbv beta iota
  | |- csafe _ (exit _) _ _ _ => apply csafe_exit; cbv beta iota
  | |- csafe _ (when true ?t) _ _ _ => change (when true t) with t
  | |- csafe _ (when false ?t) _ _ _ => apply csafe_ret; cbv beta iota
  end.
Ltac cs_branch :=
  lazymatch goal with
  | |- csafe _ (when ?b _) _ _ _ =>
      apply csafe_when; let H := fresh "Hb" in intros H; try discriminate H; cbv beta iota
  | |- csafe _ (if ?b then _ else _) _ _ _ => let H := fresh "Hb" in destruct b eqn:H; try discriminate H
  | |- csafe _ (match ?x with _ => _ end) _ _ _ => destruct x eqn:?
  end.
Ltac fs_head :=
  lazymatch goal with
  | |- fsafe _ (ITree.bind _ _) _ _ _ => apply fsafe_bind
  | |- fsafe _ (Ret _) _ _ _ => apply fsafe_ret; cbv beta iota
  | |- fsafe _ errno _ _ _ => apply fsafe_errno; cbv beta iota
  | |- fsafe _ (set_errno _) _ _ _ => apply fsafe_set_errno; cbv beta iota
  | |- fsafe _ (printf _ _) _ _ _ => apply fsafe_fprintf; cbv beta iota
  | |- fsafe _ (fprintf _ _ _) _ _ _ => apply fsafe_fprintf; cbv beta iota
  | |- fsafe _ (setbuf _) _ _ _ => apply fsafe_setbuf; cbv beta iota
  | |- fsafe _ (exit _) _ _ _ => apply fsafe_exit; cbv beta iota
  | |- fsafe _ (_exit _) _ _ _ => apply fsafe__exit; cbv beta iota
  | |- fsafe _ (when true ?t) _ _ _ => change (when true t) with t
  | |- fsafe _ (when false ?t) _ _ _ => apply fsafe_ret; cbv beta iota
  end.
Ltac fs_branch :=
  lazymatch goal with
  | |- fsafe _ (when ?b _) _ _ _ =>
      apply fsafe_when; let H := fresh "Hb" in intros H; try discriminate H; cbv beta iota
  | |- fsafe _ (if ?b then _ else _) _ _ _ => let H := fresh "Hb" in destruct b eqn:H; try discriminate H
  | |- fsafe _ (match ?x with _ => _ end) _ _ _ => destruct x eqn:?
  end.
Ltac fs_steps := repeat (cbv zeta; fs_head).
Ltac fs_go := repeat (cbv zeta; first [fs_head | fs_branch]).
Ltac cs_steps := repeat (cbv zeta; cs_head).
Ltac cs_go := repeat (cbv zeta; first [cs_head | cs_branch]).
