(* ===== verification/PthreadSpec.v ===== *)
(** * What the programs of threads/ rely on from the threads library

    [pt_spec] is the interface: the machine shows the integers in memory, the
    owners of the mutexes, the tasks behind thread identifiers and the values
    of the threads that have ended, and each call keeps to [pt_answers] and
    waits only as [pt_blocks] says. [pt_machine] implements it. *)

From S2P Require Import Prelude.
From S2P Require Import CLib.
From S2P Require Import Sys.
From S2P Require Import Sem.
From S2P Require Import Conc.

Record vstate := mkV {
  cells : gmap Z Z; owner : gmap Z nat; thread : gmap Z nat; retval : gmap nat Z }.

Definition cell (v : vstate) (a : Z) : Z := default 0 (cells v !! a).
Definition set_cell (a z : Z) (v : vstate) : vstate :=
  mkV (<[a := z]> (cells v)) (owner v) (thread v) (retval v).
Definition set_owner (k : Z) (o : option nat) (v : vstate) : vstate :=
  mkV (cells v) (partial_alter (fun _ => o) k (owner v)) (thread v) (retval v).
Definition set_thread (t : Z) (j : nat) (v : vstate) : vstate :=
  mkV (cells v) (owner v) (<[t := j]> (thread v)) (retval v).
Definition set_retval (j : nat) (z : Z) (v : vstate) : vstate :=
  mkV (cells v) (owner v) (thread v) (<[j := z]> (retval v)).

#[global] Arguments cell : simpl never.
#[global] Arguments set_cell : simpl never.
#[global] Arguments set_owner : simpl never.
#[global] Arguments set_thread : simpl never.
#[global] Arguments set_retval : simpl never.

(** Integers are accessed at multiples of their size. *)
Definition aligned (a : Z) : bool := a mod 4 ==? 0.

(** The answers task [i] of [n] may get. A mutex is locked when it was free and
    unlocked by its owner; a thread identifier is fresh; a join returns the
    value of a thread that has ended; a wait on a condition gives the mutex up
    and takes it again, and may end without a signal. *)
Definition pt_answers {X} (i n : nat) (s : SysE X) (v : vstate) : X -> vstate -> Prop :=
  match s in SysE X return X -> vstate -> Prop with
  | LoadInt a => fun x v' => v' = v /\ (aligned a = true -> x = cell v a)
  | StoreInt a z => fun _ v' => aligned a = true -> v' = set_cell a z v
  | MutexLock k => fun x v' =>
      (x = 0 /\ owner v !! k = None /\ v' = set_owner k (Some i) v) \/ (x <> 0 /\ v' = v)
  | MutexUnlock k => fun x v' =>
      owner v !! k = Some i -> (x = 0 /\ v' = set_owner k None v) \/ (x <> 0 /\ v' = v)
  | CondSleep c k => fun x v' =>
      owner v !! k = Some i -> (x = 0 /\ v' = set_owner k None v) \/ (x <> 0 /\ v' = v)
  | CondWake c k => fun x v' => owner v !! k = None /\ v' = set_owner k (Some i) v
  | PthreadCreate _ _ => fun x v' =>
      (x.1 = 0 /\ thread v !! x.2 = None /\ v' = set_thread x.2 n v) \/ (x.1 <> 0 /\ v' = v)
  | PthreadJoin t => fun x v' =>
      v' = v /\ (x.1 = 0 -> forall j, thread v !! t = Some j -> retval v !! j = Some x.2)
  | StoreBytes _ _ => fun _ _ => True
  | _ => fun _ v' => v' = v
  end.

(** When a call may have to wait. *)
Definition pt_blocks {X} (s : SysE X) (v : vstate) : Prop :=
  match s in SysE X return Prop with
  | MutexLock k => owner v !! k <> None
  | CondWake _ _ => True
  | PthreadJoin t => forall j, thread v !! t = Some j -> retval v !! j = None
  | _ => False
  end.

(** The first task is the main thread: its return ends the process, as does an
    [exit] of any thread. *)
Definition pt_spec : Spec vstate := {|
  answers X := pt_answers;
  blocks X i := pt_blocks;
  at_exit i r v := match r with Returned z => set_retval i z v | Stopped _ => v end;
  ends_all i r := match r with Returned _ => (i =? 0)%nat | Stopped _ => true end |}.

Abbreviation Pthreads M := (Implements M pt_spec).

(** ** Lemmas on the views *)
Lemma cell_set a b z v : cell (set_cell a z v) b = if decide (a = b) then z else cell v b.
Proof.
  unfold cell, set_cell; cbn. case_decide as Hd; [subst; by rewrite lookup_insert_eq|].
  by rewrite lookup_insert_ne.
Qed.

Lemma owner_set k j o v : owner (set_owner k o v) !! j = if decide (k = j) then o else owner v !! j.
Proof.
  unfold set_owner; cbn. case_decide as Hd; [subst; apply lookup_partial_alter_eq|].
  by apply lookup_partial_alter_ne.
Qed.

Lemma thread_set t u j v : thread (set_thread t j v) !! u = if decide (t = u) then Some j else thread v !! u.
Proof. unfold set_thread; cbn. apply lookup_insert. Qed.

Lemma retval_set i j z v : retval (set_retval i z v) !! j = if decide (i = j) then Some z else retval v !! j.
Proof. unfold set_retval; cbn. apply lookup_insert. Qed.

(** ** An implementation *)
Definition pt_mcall {X} (i n : nat) (s : SysE X) (v : vstate) : option (X * option Z * vstate) :=
  match s in SysE X return option (X * option Z * vstate) with
  | LoadInt a => Some (cell v a, None, v)
  | StoreInt a z => Some (tt, None, set_cell a z v)
  | StoreBytes _ _ => Some (tt, None, v)
  | MutexLock k =>
      match owner v !! k with
      | None => Some (0, None, set_owner k (Some i) v)
      | Some _ => None
      end
  | CondWake _ k =>
      match owner v !! k with
      | None => Some (0, None, set_owner k (Some i) v)
      | Some _ => None
      end
  | MutexUnlock k | CondSleep _ k =>
      if decide (owner v !! k = Some i) then Some (0, None, set_owner k None v)
      else Some (EPERM, None, v)
  | PthreadCreate _ _ =>
      match thread v !! Z.of_nat n with
      | None => Some ((0, Z.of_nat n), None, set_thread (Z.of_nat n) n v)
      | Some _ => Some ((EAGAIN, 0), None, v)
      end
  | PthreadJoin t =>
      match thread v !! t with
      | None => Some ((ESRCH, 0), None, v)
      | Some j =>
          match retval v !! j with Some z => Some ((0, z), None, v) | None => None end
      end
  | CondSignal _ => Some (0, None, v)
  | PthreadCancel _ => Some (0, None, v)
  | Sleep _ => Some (0, None, v)
  | s => Some (refuse s, None, v)
  end.

#[export] Instance pt_machine : Machine := {|
  mstate := vstate;
  mcall X i n s v := pt_mcall i n s v;
  mexit i r v := match r with Returned z => set_retval i z v | Stopped _ => v end;
  mend i r := match r with Returned _ => (i =? 0)%nat | Stopped _ => true end |}.

#[export] Instance pt_machine_ok : Implements pt_machine pt_spec.
Proof.
  refine {| view := fun v : mstate (Machine := pt_machine) => v |}.
  - intros X s i n m x e m'. cbn [mcall pt_machine mstate] in *. destruct s; cbn;
      try (intros [= <- <- <-]; try done; split; done).
    all: repeat case_match; intros [= <- <- <-]; cbn; intros; try (split; done); try done; eauto.
    all: try (split; [done|]; intros ? j Hj; congruence).
    all: try (by left); try (right; split; [discriminate|done]).
  - intros X s i n m. cbn [mcall pt_machine mstate] in *. destruct s; cbn; try done.
    all: repeat case_match; try done; intros _; intros; congruence.
  - done.
  - done.
Defined.

(** Memory as the program finds it: the static variables are zero. *)
Definition v0 : vstate := mkV ∅ ∅ ∅ ∅.
