(* ===== verification/Threads.v ===== *)
(** * POSIX threads: threads/

    The programs of the directory, each with its main thread [main] and its
    thread function; [fns] is the table from the name of a function to its
    code. Static variables and mutexes are named by addresses. *)

From S2P Require Import Prelude.
From S2P Require Import CLib.
From S2P Require Import Sys.
From S2P Require Import Sem.
From S2P Require Import Conc.
From S2P Require Import PthreadSpec.

Definition NUM_THREADS : Z := 2.

(** [pthread_cond_wait]: the mutex is given up, then taken again. *)
Definition pthread_cond_wait (c m : Z) : prog Z :=
  r <- sys (CondSleep c m) ;;
  if r !=? 0 then Ret r else sys (CondWake c m).

(** What a wait answers in a thread that is cancelled there. *)
Definition CANCELED : Z := -1.
Definition PTHREAD_CANCELED : Z := -1.

(** ** simple_thread.c

    The argument of the thread is the address of a string literal. *)
Module simple_thread.
Definition hello : Z := 4096.
Definition literal (a : Z) : string := if a ==? hello then "Hello thread" else "".

Definition f (arg : Z) : prog Z :=
  printf "%s\n" [Str (literal arg)] ;;
  Ret (slen (literal arg)).

Definition main `{CText} : prog Z :=
  '(result, thread) <- sys (PthreadCreate "f" hello) ;;
  when (result !=? 0) (
    fprintf stderr "Failed to create thread - %s\n" [Str (strerror result)] ;;
    exit EXIT_FAILURE) ;;
  printf "Message from main\n" [] ;;
  '(result, length) <- sys (PthreadJoin thread) ;;
  when (result !=? 0) (
    fprintf stderr "Failed to join with thread - %s\n" [Str (strerror result)] ;;
    exit EXIT_FAILURE) ;;
  printf "Thread returned: %ld\n" [Int length] ;;
  Ret EXIT_SUCCESS.
(** The thread functions by name. *)
Definition fns (fn : string) (arg : Z) : prog Z :=
  if streq fn "f" then f arg else Ret 0.
End simple_thread.

(** ** thread_incr.c

    [numLoops] is the address of the variable of [main] the threads read. *)
Module thread_incr.
Definition glob : Z := 4096.
Definition numLoops : Z := 8192.

Definition getUnsignedLong `{CText} (str : string) : prog Z :=
  set_errno 0 ;;
  result <- strtoul str 0 ;;
  e <- errno ;;
  when ((e !=? 0) || negb (streq (st_end result) "")) (
    e <- errno ;;
    fprintf stderr "Failed to convert %s to unsigned long - %s\n" [Str str; Str (strerror e)] ;;
    exit EXIT_FAILURE) ;;
  Ret (st_val result).

Definition f (arg : Z) : prog Z :=
  numLoops <- sys (LoadInt arg) ;;
  for_ 0 numLoops (fun i =>
    loc <- sys (LoadInt glob) ;;
    sys (StoreInt glob (i32 (loc + 1)))) ;;
  Ret 0.

Definition create_all `{CText} (arg : Z) : prog (list Z) :=
  for_loop 0 NUM_THREADS (fun i threads =>
    '(error, thread) <- sys (PthreadCreate "f" arg) ;;
    when (error !=? 0) (
      fprintf stderr "Failed to create thread - %s\n" [Str (strerror error)] ;;
      exit EXIT_FAILURE) ;;
    Ret (threads ++ [thread])) [].

Definition join_all `{CText} (threads : list Z) : prog unit :=
  for_ 0 NUM_THREADS (fun i =>
    '(error, _) <- sys (PthreadJoin (nth (Z.to_nat i) threads 0)) ;;
    when (error !=? 0) (
      fprintf stderr "Failed to join thread - %s\n" [Str (strerror error)] ;;
      exit EXIT_FAILURE)).

Definition main `{CText} (argv : list string) : prog Z :=
  n <- (if 1 <? argc argv then getUnsignedLong argv.[1] else Ret 10000000) ;;
  sys (StoreInt numLoops (i32 n)) ;;
  threads <- create_all numLoops ;;
  join_all threads ;;
  v <- sys (LoadInt glob) ;;
  printf "glob = %d\n" [Int v] ;;
  Ret EXIT_SUCCESS.
(** The thread functions by name. *)
Definition fns (fn : string) (arg : Z) : prog Z :=
  if streq fn "f" then f arg else Ret 0.
End thread_incr.

(** ** thread_incr_mutex.c *)
Module thread_incr_mutex.
Definition globMutex : Z := 0.
Definition glob : Z := 4096.
Definition numLoops : Z := 8192.

Definition getUnsignedLong `{CText} (str : string) : prog Z :=
  set_errno 0 ;;
  result <- strtoul str 0 ;;
  e <- errno ;;
  when ((e !=? 0) || negb (streq (st_end result) "")) (
    e <- errno ;;
    fprintf stderr "Failed to convert %s to unsigned long - %s\n" [Str str; Str (strerror e)] ;;
    exit EXIT_FAILURE) ;;
  Ret (st_val result).

(** One iteration of the thread: the increment under the mutex. *)
Definition increment `{CText} : prog unit :=
  error <- sys (MutexLock globMutex) ;;
  when (error !=? 0) (
    e <- errno ;;
    fprintf stderr "Failed to lock mutex - %s\n" [Str (strerror e)] ;;
    exit EXIT_FAILURE) ;;
  loc <- sys (LoadInt glob) ;;
  sys (StoreInt glob (i32 (loc + 1))) ;;
  error <- sys (MutexUnlock globMutex) ;;
  when (error !=? 0) (
    e <- errno ;;
    fprintf stderr "Failed to unlock mutex - %s\n" [Str (strerror e)] ;;
    exit EXIT_FAILURE).

Definition f `{CText} (arg : Z) : prog Z :=
  numLoops <- sys (LoadInt arg) ;;
  for_ 0 numLoops (fun i => increment) ;;
  Ret 0.

Definition create_all `{CText} (arg : Z) : prog (list Z) :=
  for_loop 0 NUM_THREADS (fun i threads =>
    '(error, thread) <- sys (PthreadCreate "f" arg) ;;
    when (error !=? 0) (
      fprintf stderr "Failed to create thread - %s\n" [Str (strerror error)] ;;
      exit EXIT_FAILURE) ;;
    Ret (threads ++ [thread])) [].

Definition join_all `{CText} (threads : list Z) : prog unit :=
  for_ 0 NUM_THREADS (fun i =>
    '(error, _) <- sys (PthreadJoin (nth (Z.to_nat i) threads 0)) ;;
    when (error !=? 0) (
      fprintf stderr "Failed to join thread - %s\n" [Str (strerror error)] ;;
      exit EXIT_FAILURE)).

Definition main `{CText} (argv : list string) : prog Z :=
  n <- (if 1 <? argc argv then getUnsignedLong argv.[1] else Ret 10000000) ;;
  sys (StoreInt numLoops (i32 n)) ;;
  threads <- create_all numLoops ;;
  join_all threads ;;
  v <- sys (LoadInt glob) ;;
  printf "glob = %d\n" [Int v] ;;
  Ret EXIT_SUCCESS.
(** The thread functions by name. *)
Definition fns `{CText} (fn : string) (arg : Z) : prog Z :=
  if streq fn "f" then f arg else Ret 0.
End thread_incr_mutex.

(** ** thread_multijoin.c

    [threads] is the address of the static pointer; an element of the array has
    its state and its sleeping time after the identifier. The identifiers, which
    only [main] uses, are a list. *)
Module thread_multijoin.
Inductive ThreadState := TS_ALIVE | TS_TERMINATED | TS_JOINED.
Definition state_code (s : ThreadState) : Z :=
  match s with TS_ALIVE => 0 | TS_TERMINATED => 1 | TS_JOINED => 2 end.

Definition cond : Z := 0.
Definition mutex : Z := 0.
Definition threads : Z := 4096.
Definition numUnjoinedThreads : Z := 8192.
Definition sizeof_Thread : Z := 16.
Definition state (base i : Z) : Z := base + i * sizeof_Thread + 8.
Definition sleepTime_sec (base i : Z) : Z := base + i * sizeof_Thread + 12.

Definition getInt `{CText} (str : string) : prog Z :=
  set_errno 0 ;;
  r <- strtol str 0 ;;
  let result := i32 (st_val r) in
  e <- errno ;;
  when ((e !=? 0) || negb (streq (st_end r) "")) (
    e <- errno ;;
    fprintf stderr "Failed to convert %s to int - %s\n" [Str str; Str (strerror e)] ;;
    exit EXIT_FAILURE) ;;
  Ret result.

Definition func `{CText} (index : Z) : prog Z :=
  base <- sys (LoadInt threads) ;;
  i <- sys (LoadInt index) ;;
  secs <- sys (LoadInt (sleepTime_sec base i)) ;;
  sys (Sleep secs) ;;
  i <- sys (LoadInt index) ;;
  printf "Thread %d terminating\n" [Int i] ;;
  error <- sys (MutexLock mutex) ;;
  when (error !=? 0) (
    fprintf stderr "Failed to lock mutex - %s\n" [Str (strerror error)] ;;
    exit EXIT_FAILURE) ;;
  base <- sys (LoadInt threads) ;;
  i <- sys (LoadInt index) ;;
  sys (StoreInt (state base i) (state_code TS_TERMINATED)) ;;
  n <- sys (LoadInt numUnjoinedThreads) ;;
  sys (StoreInt numUnjoinedThreads (i32 (n + 1))) ;;
  error <- sys (MutexUnlock mutex) ;;
  when (error !=? 0) (
    fprintf stderr "Failed to unlock mutex - %s\n" [Str (strerror error)] ;;
    exit EXIT_FAILURE) ;;
  error <- sys (CondSignal cond) ;;
  when (error !=? 0) (
    fprintf stderr "Failed to pthread_cond_signal() - %s\n" [Str (strerror error)] ;;
    exit EXIT_FAILURE) ;;
  sys (Free index) ;;
  Ret 0.

(** The loop that creates the threads; the write through a null pointer comes
    before the test. *)
Definition create_all `{CText} (argv : list string) (base numThreads : Z) : prog (list Z) :=
  for_loop 0 numThreads (fun i ids =>
    sys (StoreInt (state base i) (state_code TS_ALIVE)) ;;
    secs <- getInt argv.[i + 1] ;;
    sys (StoreInt (sleepTime_sec base i) secs) ;;
    index <- sys (Malloc sizeof_int) ;;
    when (index ==? 0) crash ;;
    sys (StoreInt index i) ;;
    '(error, id) <- sys (PthreadCreate "func" index) ;;
    when (error !=? 0) (
      fprintf stderr "Failed to create pthread - %s\n" [Str (strerror error)] ;;
      exit EXIT_FAILURE) ;;
    Ret (ids ++ [id])) [].

(** The wait for a thread to reap, with the mutex held. *)
Definition await `{CText} : prog unit :=
  ITree.iter (fun _ : unit =>
    n <- sys (LoadInt numUnjoinedThreads) ;;
    if negb (n ==? 0) then Ret (inr tt) else
    error <- pthread_cond_wait cond mutex ;;
    when (error !=? 0) (
      fprintf stderr "Failed to pthread_cond_wait() - %s\n" [Str (strerror error)] ;;
      exit EXIT_FAILURE) ;;
    Ret (inl tt)) tt.

(** The pass over the array that reaps the threads that have terminated. *)
Definition reap `{CText} (ids : list Z) (base numThreads numLiveThreads : Z) : prog Z :=
  for_loop 0 numThreads (fun i numLiveThreads =>
    st <- sys (LoadInt (state base i)) ;;
    if st ==? state_code TS_TERMINATED then
      '(error, _) <- sys (PthreadJoin (nth (Z.to_nat i) ids 0)) ;;
      when (error !=? 0) (
        fprintf stderr "Failed to join() with thread %d - %s\n" [Int i; Str (strerror error)] ;;
        exit EXIT_FAILURE) ;;
      sys (StoreInt (state base i) (state_code TS_JOINED)) ;;
      let numLiveThreads := numLiveThreads - 1 in
      n <- sys (LoadInt numUnjoinedThreads) ;;
      sys (StoreInt numUnjoinedThreads (i32 (n - 1))) ;;
      printf "Reaped thread %d (numLiveThreads = %d)\n" [Int i; Int numLiveThreads] ;;
      Ret numLiveThreads
    else Ret numLiveThreads) numLiveThreads.

Definition main `{CText} (argv : list string) : prog Z :=
  when ((argc argv <? 2) || streq argv.[1] "-h") (
    fprintf stderr "Usage: %s <nsecs>...\n" [Str argv.[0]] ;;
    exit EXIT_FAILURE) ;;
  let numThreads := argc argv - 1 in
  base <- sys (Malloc (u64 (numThreads * sizeof_Thread))) ;;
  sys (StoreInt threads base) ;;
  when (base ==? 0) (
    e <- errno ;;
    fprintf stderr "Failed to malloc() memory for threads - %s\n" [Str (strerror e)] ;;
    exit EXIT_FAILURE) ;;
  ids <- create_all argv base numThreads ;;
  ITree.iter (fun numLiveThreads =>
    if negb (0 <? numLiveThreads) then Ret (inr tt) else
    error <- sys (MutexLock mutex) ;;
    when (error !=? 0) (
      fprintf stderr "Failed to lock mutex - %s\n" [Str (strerror error)] ;;
      exit EXIT_FAILURE) ;;
    await ;;
    numLiveThreads <- reap ids base numThreads numLiveThreads ;;
    error <- sys (MutexUnlock mutex) ;;
    when (error !=? 0) (
      fprintf stderr "Failed to unlock mutex - %s\n" [Str (strerror error)] ;;
      exit EXIT_FAILURE) ;;
    Ret (inl numLiveThreads)) numThreads ;;
  sys (Free base) ;;
  Ret EXIT_SUCCESS.
(** The thread functions by name. *)
Definition fns `{CText} (fn : string) (arg : Z) : prog Z :=
  if streq fn "func" then func arg else Ret 0.
End thread_multijoin.

(** ** thread_cleanup.c

    The thread is cancelled, if at all, in its wait for the condition; the
    handlers then run as they do at the end of the function. *)
Module thread_cleanup.
Definition cond : Z := 0.
Definition mutex : Z := 0.
Definition glob : Z := 4096.

Definition memoryCleanupHandler (arg : Z) : prog unit :=
  printf "cleanup: freeing block at %p\n" [Int arg] ;;
  sys (Free arg).

Definition mutexCleanupHandler `{CText} : prog unit :=
  printf "cleanup: unlocking mutex\n" [] ;;
  result <- sys (MutexUnlock mutex) ;;
  when (result !=? 0) (
    fprintf stderr "pthread_mutex_unlock() failed - %s\n" [Str (strerror result)] ;;
    exit EXIT_FAILURE).

(** The wait for [glob]: whether the thread is cancelled there. *)
Definition await `{CText} : prog bool :=
  ITree.iter (fun _ : unit =>
    g <- sys (LoadInt glob) ;;
    if negb (g ==? 0) then Ret (inr false) else
    result <- pthread_cond_wait cond mutex ;;
    if result ==? CANCELED then Ret (inr true) else
    when (result !=? 0) (
      fprintf stderr "pthread_cond_wait() failed - %s\n" [Str (strerror result)] ;;
      exit EXIT_FAILURE) ;;
    Ret (inl tt)) tt.

Definition threadFunc `{CText} (arg : Z) : prog Z :=
  buffer <- sys (Malloc 65536) ;;
  when (buffer ==? 0) (
    e <- errno ;;
    fprintf stderr "malloc() failed - %s\n" [Str (strerror e)] ;;
    exit EXIT_FAILURE) ;;
  printf "thread:  allocated memory at %p\n" [Int buffer] ;;
  result <- sys (MutexLock mutex) ;;
  when (result !=? 0) (
    fprintf stderr "pthread_mutex_lock() failed - %s\n" [Str (strerror result)] ;;
    exit EXIT_FAILURE) ;;
  cancelled <- await ;;
  when (negb cancelled) (printf "thread: condition wait loop completed\n" []) ;;
  mutexCleanupHandler ;;
  memoryCleanupHandler buffer ;;
  Ret (if cancelled then PTHREAD_CANCELED else 0).

(** The main thread after its pause: it cancels the thread, or changes [glob]
    and signals the condition. *)
Definition notify `{CText} (argv : list string) (thread : Z) : prog unit :=
  if argc argv ==? 1 then
    printf "main:    about to cancel thread\n" [] ;;
    result <- sys (PthreadCancel thread) ;;
    when (result !=? 0) (
      fprintf stderr "pthread_cancel() failed - %s\n" [Str (strerror result)] ;;
      exit EXIT_FAILURE)
  else
    printf "main:    about to signal condition variable\n" [] ;;
    result <- sys (MutexLock mutex) ;;
    when (result !=? 0) (
      fprintf stderr "pthread_mutex_lock() failed - %s\n" [Str (strerror result)] ;;
      exit EXIT_FAILURE) ;;
    sys (StoreInt glob 1) ;;
    result <- sys (MutexUnlock mutex) ;;
    when (result !=? 0) (
      fprintf stderr "pthread_mutex_unlock() failed - %s\n" [Str (strerror result)] ;;
      exit EXIT_FAILURE) ;;
    result <- sys (CondSignal cond) ;;
    when (result !=? 0) (
      fprintf stderr "pthread_cond_signal() failed - %s\n" [Str (strerror result)] ;;
      exit EXIT_FAILURE).

Definition main `{CText} (argv : list string) : prog Z :=
  '(result, thread) <- sys (PthreadCreate "threadFunc" 0) ;;
  when (result !=? 0) (
    fprintf stderr "pthread_create() failed - %s\n" [Str (strerror result)] ;;
    exit EXIT_FAILURE) ;;
  sys (Sleep 2) ;;
  notify argv thread ;;
  '(result, status) <- sys (PthreadJoin thread) ;;
  when (result !=? 0) (
    fprintf stderr "pthread_join() failed - %s\n" [Str (strerror result)] ;;
    exit EXIT_FAILURE) ;;
  (if status ==? PTHREAD_CANCELED then printf "main:    thread was cancelled\n" []
   else printf "main:    thread terminated normally\n" []) ;;
  Ret EXIT_SUCCESS.
(** The thread functions by name. *)
Definition fns `{CText} (fn : string) (arg : Z) : prog Z :=
  if streq fn "threadFunc" then threadFunc arg else Ret 0.
End thread_cleanup.
