(* ===== verification/Numbers.v ===== *)
(** * Numbers on the command line

    Twenty-nine programs have a function that reads a number with [strtol] or
    [strtoul] and checks the outcome, in one of four ways. [accepts] is what each
    way lets pass; the theorem says that every function is the reference [reads]
    with its way of checking, its base and its type. *)

From S2P Require Import Prelude.
From S2P Require Import CLib.
From S2P Require Import Sys.
From S2P Require Import Sem.
From S2P Require Import FileIO.
From S2P Require Import Files.
From S2P Require Import PosixIpc.
From S2P Require Import Pipes.
From S2P Require Import Msg.
From S2P Require Import SemShm.
From S2P Require Import Mq.
From S2P Require Import Locks.
From S2P Require Import Sockets.
From S2P Require Import Signals.
From S2P Require Import Procs.
From S2P Require Import Misc.
From S2P Require Import Threads.

(** [Whole]: the text is a number in range and nothing else, or empty. [Prefix]: it
    begins with a number in range. [Lax]: anything but a number out of range with
    text after it. [Inverted]: a number with nothing after it, or out of range. *)
Inductive policy := Whole | Prefix | Lax | Inverted.

Definition accepts (p : policy) (r : strto) : bool :=
  let rest := negb (streq (st_end r) "") in
  match p with
  | Whole => negb (st_range r) && negb rest
  | Prefix => negb (st_range r) && st_conv r
  | Lax => negb (st_range r && rest)
  | Inverted => st_range r || negb rest
  end.

(** The reference: the number, converted to the type of the function, without a
    trace; or a message and status 1. *)
Definition reads `{Kernel} (parse : string -> Z -> strto) (base : Z) (p : policy) (type : Z -> Z)
    (get : string -> prog Z) : Prop :=
  forall str st, wp (get str) (fun r st' =>
    let n := parse str base in
    if accepts p n then r = Returned (type (st_val n)) /\ s_log st' = s_log st
    else r = Stopped (Exited EXIT_FAILURE) /\ exists text, s_log st' = s_log st ++ [EPrint stderr text]) st.

Ltac reads_tac :=
  intros str st; unfold strtol, strtoul;
  match goal with |- context [?parse str ?b] =>
    let rg := fresh "rg" in let cv := fresh "cv" in let en := fresh "en" in let Hen := fresh "Hen" in
    destruct (parse str b) as [? rg cv en]; destruct (streq en "") eqn:Hen, rg, cv;
    wp_go; cbn -[streq] in *; rewrite ?Hen in *; cbn -[streq] in *
  end;
  try match goal with
  | H : true = false |- _ => discriminate H
  | H : false = true |- _ => discriminate H
  end;
  (split; [reflexivity|first [reflexivity | eexists; reflexivity]]).

Section Getters.
Context `{T : CText} `{K : Kernel}.

Lemma seek_io_reads : reads strtoul_ 10 Prefix id seek_io.getUnsignedLong.
Proof. unfold seek_io.getUnsignedLong. reads_tac. Qed.

Lemma seek_io_long_reads : reads strtol_ 10 Prefix id seek_io.getLong.
Proof. unfold seek_io.getLong. reads_tac. Qed.

Lemma t_unlink_reads : reads strtoul_ 0 Prefix id t_unlink.getUnsignedLong.
Proof. unfold t_unlink.getUnsignedLong. reads_tac. Qed.

Lemma t_kill_reads : reads strtol_ 0 Prefix i32 t_kill.getInt.
Proof. unfold t_kill.getInt. reads_tac. Qed.

Lemma sig_sender_reads : reads strtol_ 0 Prefix id sig_sender.getLong.
Proof. unfold sig_sender.getLong. reads_tac. Qed.

Lemma free_and_sbrk_reads :
  reads strtoul_ 0 Prefix (fun v => u64 (i64 v)) free_and_sbrk.getUnsignedLong.
Proof. unfold free_and_sbrk.getUnsignedLong. reads_tac. Qed.

Lemma process_time_reads : reads strtoul_ 0 Prefix id process_time.getUnsignedLong.
Proof. unfold process_time.getUnsignedLong. reads_tac. Qed.

Lemma t_sigqueue_reads : reads strtol_ 0 Whole id t_sigqueue.getLong.
Proof. unfold t_sigqueue.getLong. reads_tac. Qed.

Lemma sig_receiver_reads : reads strtoul_ 0 Whole u32 sig_receiver.getUnsignedInt.
Proof. unfold sig_receiver.getUnsignedInt. reads_tac. Qed.

Lemma catch_rtsigs_reads : reads strtoul_ 0 Whole id catch_rtsigs.getUnsignedLong.
Proof. unfold catch_rtsigs.getUnsignedLong. reads_tac. Qed.

Lemma multi_wait_reads : reads strtoul_ 0 Whole u32 multi_wait.getUint.
Proof. unfold multi_wait.getUint. reads_tac. Qed.

Lemma thread_incr_reads : reads strtoul_ 0 Whole id thread_incr.getUnsignedLong.
Proof. unfold thread_incr.getUnsignedLong. reads_tac. Qed.

Lemma thread_incr_mutex_reads : reads strtoul_ 0 Whole id thread_incr_mutex.getUnsignedLong.
Proof. unfold thread_incr_mutex.getUnsignedLong. reads_tac. Qed.

Lemma thread_multijoin_reads : reads strtol_ 0 Whole i32 thread_multijoin.getInt.
Proof. unfold thread_multijoin.getInt. reads_tac. Qed.

Lemma psem_create_reads base : reads strtol_ base Lax id (fun s => psem_create.getLong s base).
Proof. unfold psem_create.getLong. reads_tac. Qed.

Lemma pshm_create_reads base : reads strtoul_ base Lax id (fun s => pshm_create.getUnsignedLong s base).
Proof. unfold pshm_create.getUnsignedLong. reads_tac. Qed.

Lemma pmsg_create_reads base : reads strtol_ base Lax id (fun s => pmsg_create.getLong s base).
Proof. unfold pmsg_create.getLong. reads_tac. Qed.

Lemma pmsg_send_reads : reads strtoul_ 0 Lax id pmsg_send.getUnsignedLong.
Proof. unfold pmsg_send.getUnsignedLong. reads_tac. Qed.

Lemma fifo_seqnum_client_reads : reads strtol_ 0 Lax i32 fifo_seqnum_client.getInt.
Proof. unfold fifo_seqnum_client.getInt. reads_tac. Qed.

Lemma pipe_sync_reads : reads strtoul_ 0 Lax u32 pipe_sync.getUint.
Proof. unfold pipe_sync.getUint. reads_tac. Qed.

Lemma svmsg_create_reads : reads strtol_ 8 Lax i32 svmsg_create.getInt.
Proof. unfold svmsg_create.getInt. reads_tac. Qed.

Lemma svmsg_receive_reads : reads strtol_ 0 Lax id svmsg_receive.getLong.
Proof. unfold svmsg_receive.getLong. reads_tac. Qed.

Lemma svmsg_send_reads : reads strtol_ 0 Lax id svmsg_send.getLong.
Proof. unfold svmsg_send.getLong. reads_tac. Qed.

Lemma svsem_mon_reads : reads strtol_ 0 Lax i32 svsem_mon.getInt.
Proof. unfold svsem_mon.getInt. reads_tac. Qed.

Lemma svsem_setall_reads : reads strtol_ 0 Lax id svsem_setall.getLong.
Proof. unfold svsem_setall.getLong. reads_tac. Qed.

Lemma t_flock_reads : reads strtol_ 0 Lax id t_flock.getLong.
Proof. unfold t_flock.getLong. reads_tac. Qed.

Lemma is_seqnum_sv_reads : reads strtol_ 0 Lax id is_seqnum_sv.getLong.
Proof. unfold is_seqnum_sv.getLong. reads_tac. Qed.

Lemma is_seqnum_cl_reads : reads strtol_ 0 Lax id is_seqnum_cl.getLong.
Proof. unfold is_seqnum_cl.getLong. reads_tac. Qed.

Lemma svsem_demo_reads : reads strtol_ 0 Inverted i32 svsem_demo.getInt.
Proof. unfold svsem_demo.getInt. reads_tac. Qed.

End Getters.

Create HintDb getters discriminated.
#[export] Hint Constants Opaque : getters.
#[export] Hint Resolve
  seek_io_reads seek_io_long_reads t_unlink_reads t_kill_reads
  sig_sender_reads free_and_sbrk_reads process_time_reads t_sigqueue_reads
  sig_receiver_reads catch_rtsigs_reads multi_wait_reads thread_incr_reads
  thread_incr_mutex_reads thread_multijoin_reads psem_create_reads pshm_create_reads
  pmsg_create_reads pmsg_send_reads fifo_seqnum_client_reads pipe_sync_reads
  svmsg_create_reads svmsg_receive_reads svmsg_send_reads svsem_mon_reads
  svsem_setall_reads t_flock_reads is_seqnum_sv_reads is_seqnum_cl_reads
  svsem_demo_reads : getters.

(** A function of the table: where its number comes from, and how it is checked. *)
Record getter := Getter {
  g_parse : string -> Z -> strto; g_base : Z; g_policy : policy; g_type : Z -> Z;
  g_get : string -> prog Z }.
Definition sound `{Kernel} (g : getter) : Prop :=
  reads (g_parse g) (g_base g) (g_policy g) (g_type g) (g_get g).

Definition getters `{CText} (base : Z) : list getter :=
  [Getter strtoul_ 10 Prefix id seek_io.getUnsignedLong;
   Getter strtol_ 10 Prefix id seek_io.getLong;
   Getter strtoul_ 0 Prefix id t_unlink.getUnsignedLong;
   Getter strtol_ 0 Prefix i32 t_kill.getInt;
   Getter strtol_ 0 Prefix id sig_sender.getLong;
   Getter strtoul_ 0 Prefix (fun v => u64 (i64 v)) free_and_sbrk.getUnsignedLong;
   Getter strtoul_ 0 Prefix id process_time.getUnsignedLong;
   Getter strtol_ 0 Whole id t_sigqueue.getLong;
   Getter strtoul_ 0 Whole u32 sig_receiver.getUnsignedInt;
   Getter strtoul_ 0 Whole id catch_rtsigs.getUnsignedLong;
   Getter strtoul_ 0 Whole u32 multi_wait.getUint;
   Getter strtoul_ 0 Whole id thread_incr.getUnsignedLong;
   Getter strtoul_ 0 Whole id thread_incr_mutex.getUnsignedLong;
   Getter strtol_ 0 Whole i32 thread_multijoin.getInt;
   Getter strtol_ base Lax id (fun s => psem_create.getLong s base);
   Getter strtoul_ base Lax id (fun s => pshm_create.getUnsignedLong s base);
   Getter strtol_ base Lax id (fun s => pmsg_create.getLong s base);
   Getter strtoul_ 0 Lax id pmsg_send.getUnsignedLong;
   Getter strtol_ 0 Lax i32 fifo_seqnum_client.getInt;
   Getter strtoul_ 0 Lax u32 pipe_sync.getUint;
   Getter strtol_ 8 Lax i32 svmsg_create.getInt;
   Getter strtol_ 0 Lax id svmsg_receive.getLong;
   Getter strtol_ 0 Lax id svmsg_send.getLong;
   Getter strtol_ 0 Lax i32 svsem_mon.getInt;
   Getter strtol_ 0 Lax id svsem_setall.getLong;
   Getter strtol_ 0 Lax id t_flock.getLong;
   Getter strtol_ 0 Lax id is_seqnum_sv.getLong;
   Getter strtol_ 0 Lax id is_seqnum_cl.getLong;
   Getter strtol_ 0 Inverted i32 svsem_demo.getInt].

(** C26: Every function that reads a number from the command line computes the same as
    the reference [reads] with its own base, type and way of checking. The fourteen
    [Lax] ones thus let any text pass but a number out of range with text after it:
    a word without digits is read as 0. *)
Theorem getters_reference `{CText} `{Kernel} base : Forall sound (getters base).
Proof.
  unfold getters, sound. repeat (apply Forall_cons; split); [..|apply Forall_nil; exact I].
  all: cbn [g_parse g_base g_policy g_type g_get]; auto with getters.
Qed.
