(* ===== verification/IncrMutex.v ===== *)
(** * The counter of threads/thread_incr_mutex.c

    The protocol of the mutex and the counter, and what follows for every
    interleaving of the threads. For threads/thread_incr.c, which has no mutex,
    an interleaving that loses an increment. *)

From S2P Require Import Prelude.
From S2P Require Import CLib.
From S2P Require Import Sys.
From S2P Require Import Sem.
From S2P Require Import Conc.
From S2P Require Import PthreadSpec.
From S2P Require Import Threads.

Import thread_incr_mutex.

(** ** The ghosts: where a thread is, and how often it has incremented *)
Inductive phase := Idle | Locked | Loaded (x : Z) | Stored | Gone.
Inductive gh :=
| Main0                                       (* before [numLoops] is set *)
| MainC (tids : list Z) (joined : nat)        (* threads created and joined *)
| MainEnd
| W (k : Z) (ph : phase).

Definition holds (g : gh) : bool :=
  match g with W _ (Locked | Loaded _ | Stored) => true | _ => false end.
Definition count (g : gh) : Z := match g with W k _ => k | _ => 0 end.
Definition total (gs : list gh) : Z := foldr (fun g n => count g + n) 0 gs.
Definition gh_alive (g : gh) : bool :=
  match g with MainEnd | W _ Gone => false | _ => true end.
Definition is_worker (g : gh) : bool := match g with W _ _ => true | _ => false end.

(** [main] and the threads it has made. *)
Definition main_ok (n : Z) (v : vstate) (gs : list gh) (g : gh) : Prop :=
  match g with
  | Main0 => length gs = 1%nat
  | MainC tids joined =>
      length gs = S (length tids) /\ cell v numLoops = n /\ (joined <= length tids)%nat /\
      (forall j tid, tids !! j = Some tid -> thread v !! tid = Some (S j)) /\
      (forall j, (j < joined)%nat -> exists k, gs !! S j = Some (W k Gone))
  | _ => False
  end.

Record incr_inv (n : Z) (v : vstate) (gs : list gh) : Prop := {
  ii_glob : cell v glob = i32 (total gs);
  ii_own : forall i, owner v !! globMutex = Some i <-> exists g, gs !! i = Some g /\ holds g = true;
  ii_loaded : forall i k x, gs !! i = Some (W k (Loaded x)) -> x = i32 (total gs);
  ii_gone : forall i k, gs !! i = Some (W k Gone) -> k = Z.max 0 n;
  ii_ret : forall i z, retval v !! i = Some z -> exists g, gs !! i = Some g /\ gh_alive g = false;
  ii_back : forall i g, gs !! i = Some g -> gh_alive g = false -> is_Some (retval v !! i);
  ii_worker : forall i g, gs !! i = Some g -> is_worker g = true <-> i <> 0%nat;
  ii_main : exists g, gs !! 0%nat = Some g /\ main_ok n v gs g }.

Definition result (n : Z) : list event :=
  [EPrint stdout (format "glob = %d\n" [Int (i32 (2 * Z.max 0 n))])].

Definition incr_protocol (n : Z) : VProtocol vstate := {|
  vghost := gh;
  vinv := incr_inv n;
  valive := gh_alive;
  vwaits i g v gs :=
    match g with
    | W _ Idle => owner v !! globMutex <> None
    | MainC tids j => exists tid, tids !! j = Some tid /\
        forall i, thread v !! tid = Some i -> retval v !! i = None
    | _ => False
    end;
  vsays _ _ := True;
  vbegin fn arg g := fn = "f" /\ arg = numLoops /\ g = W 0 Idle;
  vdone i r l g := i = 0%nat -> forall z, r = Returned z -> z = EXIT_SUCCESS /\ l_out l = result n |}.

(** ** The invariant after a step *)
Lemma total_insert gs i g g' :
  gs !! i = Some g -> total (<[i := g']> gs) = total gs - count g + count g'.
Proof.
  revert i. induction gs as [|h gs IH]; intros [|i]; try done.
  - cbn. intros [= ->]. unfold total. cbn. lia.
  - intros H. change (count h + total (<[i := g']> gs) = count h + total gs - count g + count g').
    rewrite (IH _ H). lia.
Qed.

Lemma total_app gs gs' : total (gs ++ gs') = total gs + total gs'.
Proof. induction gs as [|h gs IH]; cbn; [done|]. unfold total in *. rewrite IH. lia. Qed.

Lemma insert_cases {A} (gs : list A) i g' j g :
  (i < length gs)%nat -> <[i := g']> gs !! j = Some g ->
  (j = i /\ g = g') \/ (j <> i /\ gs !! j = Some g).
Proof.
  intros Hlt. rewrite list_lookup_insert. case_decide; [intros [= <-]; left; intuition|].
  destruct (decide (j = i)) as [->|]; [|by right]. intros Hj. exfalso; intuition.
Qed.

(** The mutex after a move of thread [i]: it takes it, gives it back or neither. *)
Lemma own_insert (gs : list gh) i g g' (o : option nat) :
  (forall j, o = Some j <-> exists h, gs !! j = Some h /\ holds h = true) ->
  gs !! i = Some g -> (holds g' = true -> holds g = true \/ o = None) ->
  forall j, (if holds g' then Some i else if holds g then None else o) = Some j <->
    exists h, <[i := g']> gs !! j = Some h /\ holds h = true.
Proof.
  intros Hown Hi Hacq j. pose proof (lookup_lt_Some _ _ _ Hi) as Hlt. split.
  - intros Hj. destruct (holds g') eqn:Hh'.
    { injection Hj as <-. exists g'. by rewrite list_lookup_insert_eq. }
    destruct (holds g) eqn:Hh; [done|]. destruct (proj1 (Hown j) Hj) as (h & Hg & Hg').
    exists h. split; [|done]. rewrite list_lookup_insert_ne; [done|]. intros ->. simplify_eq. congruence.
  - intros (h & Hg & Hh). destruct (insert_cases _ _ _ _ _ Hlt Hg) as [[-> ->]|[Hne Hg']]; [by rewrite Hh|].
    pose proof (proj2 (Hown j) (ex_intro _ h (conj Hg' Hh))) as Hj.
    destruct (holds g) eqn:Hh0.
    { pose proof (proj2 (Hown i) (ex_intro _ _ (conj Hi Hh0))). congruence. }
    destruct (holds g'); [|done]. destruct (Hacq eq_refl); congruence.
Qed.

Section Steps.
Context (n : Z).

(** A move of thread [i], from [W k ph] to [W k' ph']. *)
Lemma incr_inv_worker v v' gs i k ph k' ph' :
  incr_inv n v gs -> gs !! i = Some (W k ph) -> ph <> Gone ->
  cell v' glob = i32 (total gs - k + k') ->
  cell v' numLoops = cell v numLoops -> thread v' = thread v ->
  (retval v' = retval v /\ ph' <> Gone \/
   (exists z, retval v' = <[i := z]> (retval v)) /\ ph' = Gone /\ k' = Z.max 0 n) ->
  owner v' !! globMutex = (if holds (W k' ph') then Some i
    else if holds (W k ph) then None else owner v !! globMutex) ->
  (holds (W k' ph') = true -> holds (W k ph) = true \/ owner v !! globMutex = None) ->
  (forall x, ph' = Loaded x -> x = i32 (total gs - k + k')) ->
  (k = k' \/ holds (W k ph) = true) ->
  incr_inv n v' (<[i := W k' ph']> gs).
Proof.
  intros [Hgl Hown Hld Hgo Hret Hbk Hwk (g0 & Hg0 & Hm)] Hi Hph Hc Hn Ht Hr Ho Hacq Hx Hk.
  pose proof (lookup_lt_Some _ _ _ Hi) as Hlt.
  assert (i <> 0%nat) as Hi0 by (by apply (Hwk i _ Hi)).
  assert (total (<[i := W k' ph']> gs) = total gs - k + k') as Htot
    by (by rewrite (total_insert _ _ _ _ Hi)).
  pose proof (fun j g => insert_cases gs i (W k' ph') j g Hlt) as Hcase.
  constructor.
  - by rewrite Htot.
  - intros j. rewrite Ho. by apply own_insert.
  - intros j k0 x Hg. rewrite Htot. destruct (Hcase _ _ Hg) as [[-> [= <- <-]]|[Hne Hg']]; [auto|].
    destruct Hk as [<-|Hh].
    { rewrite (Hld _ _ _ Hg'). f_equal. lia. }
    pose proof (proj2 (Hown i) (ex_intro _ _ (conj Hi Hh))).
    pose proof (proj2 (Hown j) (ex_intro _ _ (conj Hg' eq_refl))). congruence.
  - intros j k0 Hg. destruct (Hcase _ _ Hg) as [[-> [= <- <-]]|[Hne Hg']]; [|eauto].
    destruct Hr as [[_ ?]|(_ & _ & ?)]; [done|done].
  - intros j z Hj. destruct (decide (i = j)) as [<-|Hne].
    + exists (W k' ph'). rewrite list_lookup_insert_eq by done. split; [done|].
      destruct Hr as [[Hr _]|(_ & -> & _)]; [|done]. rewrite Hr in Hj.
      destruct (Hret _ _ Hj) as (g & Hg & Ha). rewrite Hi in Hg. injection Hg as <-. by destruct ph.
    + rewrite list_lookup_insert_ne by done. apply (Hret j z).
      destruct Hr as [[Hr _]|([z' Hr] & _ & _)]; rewrite Hr in Hj; [done|].
      by rewrite lookup_insert_ne in Hj.
  - intros j g Hg Ha. destruct (Hcase _ _ Hg) as [[-> ->]|[Hne Hg']].
    + destruct Hr as [[_ Hne]|([z Hr] & _ & _)]; [by destruct ph'|].
      rewrite Hr, lookup_insert_eq. by eexists.
    + destruct (Hbk _ _ Hg' Ha) as [z Hz]. destruct Hr as [[Hr _]|([z' Hr] & _ & _)]; rewrite Hr; [by eexists|].
      rewrite lookup_insert_ne by done. by eexists.
  - intros j g Hg. destruct (Hcase _ _ Hg) as [[-> ->]|[Hne Hg']]; [done|by apply Hwk].
  - exists g0. rewrite list_lookup_insert_ne by done. split; [done|].
    destruct g0 as [|tids joined| |]; cbn in *; rewrite ?length_insert; [done| |done|done].
    destruct Hm as (Hl & Hnl & Hjl & Htid & Hj). rewrite Hn, Ht. split_and!; try done.
    intros j Hjj. destruct (Hj j Hjj) as [k0 Hk0]. exists k0.
    rewrite list_lookup_insert_ne; [done|]. intros ->. rewrite Hi in Hk0. congruence.
Qed.

(** A move of [main], which may have made a new thread. *)
Lemma incr_inv_main v v' gs g g' gn :
  incr_inv n v gs -> gs !! 0%nat = Some g ->
  (gn = [] \/ gn = [W 0 Idle]) -> is_worker g' = false ->
  cell v' glob = cell v glob -> owner v' = owner v -> retval v' = retval v ->
  gh_alive g = true -> gh_alive g' = true ->
  main_ok n v' (<[0%nat := g']> gs ++ gn) g' ->
  incr_inv n v' (<[0%nat := g']> gs ++ gn).
Proof.
  intros [Hgl Hown Hld Hgo Hret Hbk Hwk _] Hi Hgn Hw Hc Ho Hr Ha Ha' Hm.
  pose proof (lookup_lt_Some _ _ _ Hi) as Hlt.
  assert (is_worker g = false) as Hwg.
  { destruct (is_worker g) eqn:E; [|done]. by apply (Hwk _ _ Hi) in E. }
  assert (total (<[0%nat := g']> gs ++ gn) = total gs) as Htot.
  { rewrite total_app, (total_insert _ _ _ _ Hi).
    destruct Hgn as [-> | ->], g, g'; cbn in *; lia || done. }
  assert (forall j h, (<[0%nat := g']> gs ++ gn) !! j = Some h ->
    (j = 0%nat /\ h = g') \/ (j <> 0%nat /\ gs !! j = Some h) \/
    (j = length gs /\ gn = [h] /\ h = W 0 Idle)) as Hcase.
  { intros j h. rewrite lookup_app_Some, length_insert. intros [Hj|[Hj Hh]].
    - destruct j as [|j]; [rewrite list_lookup_insert_eq in Hj by done; injection Hj as <-; by left|].
      rewrite list_lookup_insert_ne in Hj by done. by right; left.
    - right; right. destruct Hgn as [-> | ->]; [done|].
      destruct (j - length gs)%nat eqn:E; [|done]. cbn in Hh. injection Hh as <-. split; [lia|done]. }
  assert (forall j h, j <> 0%nat -> gs !! j = Some h -> (<[0%nat := g']> gs ++ gn) !! j = Some h) as Hold.
  { intros j h Hj Hh. apply lookup_app_l_Some. by rewrite list_lookup_insert_ne. }
  assert ((<[0%nat := g']> gs ++ gn) !! 0%nat = Some g') as H0.
  { apply lookup_app_l_Some. by rewrite list_lookup_insert_eq. }
  constructor.
  - by rewrite Htot, Hc.
  - intros j. rewrite Ho, Hown. split; intros (h & Hh & Hhh).
    + exists h. split; [|done]. apply Hold; [|done]. intros ->. rewrite Hi in Hh. injection Hh as <-. by destruct g.
    + destruct (Hcase _ _ Hh) as [[-> ->]|[[Hne Hh']|(-> & _ & ->)]]; [by destruct g'|eauto|done].
  - intros j k x Hh. rewrite Htot.
    destruct (Hcase _ _ Hh) as [[-> <-]|[[Hne Hh']|(-> & _ & [=])]]; [done|eauto].
  - intros j k Hh. destruct (Hcase _ _ Hh) as [[-> <-]|[[Hne Hh']|(-> & _ & [=])]]; [done|eauto].
  - intros j z. rewrite Hr. intros Hj. destruct (Hret _ _ Hj) as (h & Hh & Hha).
    exists h. split; [|done]. apply Hold; [|done]. intros ->. congruence.
  - intros j h Hh Hha. rewrite Hr.
    destruct (Hcase _ _ Hh) as [[-> ->]|[[Hne Hh']|(-> & _ & ->)]]; [congruence|eauto|done].
  - intros j h Hh. destruct (Hcase _ _ Hh) as [[-> ->]|[[Hne Hh']|(-> & _ & ->)]]; [by rewrite Hw|by apply Hwk|].
    split; [|done]. intros _. lia.
  - exists g'. by rewrite H0.
Qed.
End Steps.

(** ** The programs keep to the protocol *)
Section Safe.
Context {M : Machine} {HM : Pthreads M} `{CText} (n : Z).
#[local] Instance the_protocol : VProtocol vstate := incr_protocol n.
#[local] Instance the_mute : VMute.
Proof. done. Defined.

Lemma stopped_ok i s l g : ended i (Stopped s) l g.
Proof. apply ended_view. intros v gs _ _. by exists MainEnd. Qed.

(** A thread sees the number of loops. *)
Lemma worker_sees_loops v gs i k ph :
  incr_inv n v gs -> gs !! i = Some (W k ph) -> cell v numLoops = n.
Proof.
  intros HI Hi. destruct (ii_main _ _ _ HI) as (g0 & Hg0 & Hm).
  pose proof (proj1 (ii_worker _ _ _ HI _ _ Hi) eq_refl) as Hne.
  apply lookup_lt_Some in Hi. destruct g0; cbn in Hm; [lia|by destruct Hm as (_ & ? & _)|done|done].
Qed.

(** One call of a thread that holds its place in the protocol. *)
Lemma worker_call {X} i (s : SysE X) k ph (Q : res X -> local -> ghost -> Prop) l :
  (forall x, spawns s x = None) ->
  (forall v gs, incr_inv n v gs -> gs !! i = Some (W k ph) ->
    (blocks pt_spec i s v -> ph = Idle /\ owner v !! globMutex <> None) /\
    forall x v' e, answers pt_spec i (length gs) s v x v' -> exists k' ph',
      incr_inv n v' (<[i := W k' ph']> gs) /\ ph' <> Gone /\ Q (Returned x) (answered e l) (W k' ph')) ->
  csafe i (sys s) Q l (W k ph).
Proof.
  intros Hs Hc. apply csafe_call1; [done|]. intros v gs HI Hi. destruct (Hc _ _ HI Hi) as [Hb Ha].
  split; [by intros [-> ?]%Hb|]. intros x v' e Hx.
  destruct (Ha _ _ e Hx) as (k' & ph' & HI' & Hne & HQ). exists (W k' ph').
  split_and!; [done|by destruct ph'|done].
Qed.

(** Closes the conditions of [incr_inv_worker] that follow from the call. *)
Ltac worker_move :=
  eapply incr_inv_worker; eauto; cbn; rewrite ?owner_set, ?Z.sub_add, ?decide_True by done;
  try solve [done | by left | by right | intros _; by left | intros _; by right | by left; split].

Lemma increment_safe i k l :
  csafe i increment (fun r l' g' => match r with
                                    | Returned _ => g' = W (k + 1) Idle
                                    | Stopped s => ended i (Stopped s) l' g'
                                    end) l (W k Idle).
Proof.
  unfold increment. apply csafe_bind, worker_call; [done|]. intros v gs HI Hi. split; [done|].
  intros x v' e [(-> & Ho & ->)|[Hx%Z.eqb_neq ->]].
  2:{ exists k, Idle. split_and!; [by rewrite list_insert_id|done|].
      rewrite Hx. cs_go. apply stopped_ok. }
  exists k, Locked. split_and!; [|done|].
  { worker_move.
    apply (ii_glob _ _ _ HI). }
  cs_go. clear HI Hi Ho. apply worker_call; [done|]. clear v gs. intros v gs HI Hi. split; [done|].
  intros x v' e' [-> Hx]. exists k, (Loaded x). rewrite (Hx eq_refl). split_and!; [|done|].
  { worker_move; rewrite ?(ii_glob _ _ _ HI); try done.
    apply (ii_own _ _ _ HI). eauto. by intros ? [= <-]. }
  cs_go. rewrite (ii_glob _ _ _ HI). clear HI Hi Hx. apply worker_call; [done|].
  set (t := i32 (total gs)). clearbody t. clear v gs x. intros v gs HI Hi. split; [done|].
  intros x v' e2 Hx. rewrite (Hx eq_refl). exists (k + 1), Stored. split_and!; [|done|].
  { pose proof (ii_loaded _ _ _ HI _ _ _ Hi) as ->.
    worker_move; rewrite ?cell_set, ?decide_True by done.
    - rewrite swrap_add_l by done. f_equal. lia.
    - by rewrite decide_False.
    - apply (ii_own _ _ _ HI). eauto. }
  cs_go. clear HI Hi Hx t v gs v'. apply worker_call; [done|]. intros v gs HI Hi. split; [done|].
  assert (owner v !! globMutex = Some i) as Ho by (apply (ii_own _ _ _ HI); eauto).
  intros y v' e3 Hy. destruct (Hy Ho) as [[-> ->]|[Hz%Z.eqb_neq ->]].
  - exists (k + 1), Idle. split_and!; [|done|by cs_go].
    worker_move. apply (ii_glob _ _ _ HI).
  - exists (k + 1), Stored. split_and!; [by rewrite list_insert_id|done|].
    rewrite Hz. cs_go. apply stopped_ok.
Qed.

Lemma f_safe i g : g = W 0 Idle -> csafe i (f numLoops) (ended i) local0 g.
Proof.
  intros ->. unfold f. apply csafe_bind, worker_call; [done|]. intros v gs HI Hi. split; [done|].
  intros x v' e [-> Hx]. rewrite (Hx eq_refl), (worker_sees_loops _ _ _ _ _ HI Hi).
  exists 0, Idle. split_and!; [by rewrite list_insert_id|done|]. clear HI Hi Hx v gs.
  apply csafe_bind. unfold for_.
  eapply csafe_for_loop with (I := fun j _ _ g => g = W j Idle); [done| |].
  - intros j [] l g Hj ->. eapply csafe_mono; [apply increment_safe|].
    by intros [[]|s] l' g'.
  - intros j [] l g Hj Hjn ->. cs_go. apply ended_view. intros v gs HI Hi.
    exists (W j Gone). split_and!; [|done|].
    + intros Hne. worker_move. apply (ii_glob _ _ _ HI).
    + intros ->. by destruct (proj1 (ii_worker _ _ _ HI _ _ Hi) eq_refl).
Qed.

Lemma getUnsignedLong_safe i str l g :
  csafe i (getUnsignedLong str) (fun r l' g' =>
    match r with
    | Returned x => x = st_val (strtoul_ str 0) /\ g' = g /\ l_out l' = l_out l
    | Stopped s => ended i (Stopped s) l' g'
    end) l g.
Proof.
  unfold getUnsignedLong, strtoul. cs_go; try apply stopped_ok; by split_and!.
Qed.

(** One call of [main] that leaves the threads alone. *)
Lemma main_call {X} (s : SysE X) g0 (Q : res X -> local -> ghost -> Prop) l :
  (forall x, spawns s x = None) ->
  (forall v gs, incr_inv n v gs -> gs !! 0%nat = Some g0 -> main_ok n v gs g0 ->
    (blocks pt_spec 0 s v -> vwaits 0 g0 v gs) /\
    forall x v' e, answers pt_spec 0 (length gs) s v x v' -> exists g',
      incr_inv n v' (<[0%nat := g']> gs) /\ gh_alive g' = true /\ Q (Returned x) (answered e l) g') ->
  csafe 0 (sys s) Q l g0.
Proof.
  intros Hs Hc. apply csafe_call1; [done|]. intros v gs HI Hi. apply Hc; [done|done|].
  destruct (ii_main _ _ _ HI) as (g & Hg & Hm). cbn in *. by simplify_eq.
Qed.

Lemma create_all_safe l :
  l_out l = [] ->
  csafe 0 (create_all numLoops) (fun r l' g' =>
    match r with
    | Returned tids => g' = MainC tids 0 /\ length tids = 2%nat /\ l_out l' = []
    | Stopped s => ended 0 (Stopped s) l' g'
    end) l (MainC [] 0).
Proof.
  intros Hl. unfold create_all.
  eapply csafe_for_loop with (I := fun j tids l g =>
    g = MainC tids 0 /\ length tids = Z.to_nat j /\ l_out l = []); [done| |].
  2:{ intros j tids l' g Hj -> (-> & Hlen & Hout). by split_and!. }
  intros j tids l' g Hj (-> & Hlen & Hout). apply csafe_bind, csafe_call.
  intros v gs HI Hi. split; [done|]. intros [error t] v' e Hx.
  destruct Hx as [(Hx & Ht & ->)|[Hx%Z.eqb_neq ->]]; cbn [fst snd] in *.
  - subst error. exists (MainC (tids ++ [t]) 0), [W 0 Idle]. cbn [spawns fst]. split_and!; [|done| |].
    + eapply incr_inv_main; eauto. 
      destruct (ii_main _ _ _ HI) as (g & Hg & Hm). cbn in Hi, Hg. rewrite Hi in Hg. injection Hg as <-.
      destruct Hm as (Hl' & Hn & Hjl & Htid & Hjd). cbn. rewrite !length_app, length_insert, Hl'.
      split_and!; [cbn; lia|done|lia| |intros k Hk; lia].
      intros k tid. rewrite thread_set, lookup_app_Some. intros [Hk|[Hk1 Hk2]].
      * rewrite decide_False; [by apply Htid|]. intros <-. rewrite (Htid _ _ Hk) in Ht. done.
      * destruct (k - length tids)%nat eqn:E; [|done]. cbn in Hk2. injection Hk2 as <-.
        rewrite decide_True by done. f_equal. cbn. lia.
    + by exists (W 0 Idle).
    + cs_go. split_and!; [done|rewrite length_app; cbn; lia|done].
  - exists (MainC tids 0), []. cbn [spawns fst]. rewrite Hx, app_nil_r.
    split_and!; [by rewrite list_insert_id|done|done|]. cs_go. apply stopped_ok.
Qed.

Lemma join_all_safe tids l :
  length tids = 2%nat -> l_out l = [] ->
  csafe 0 (join_all tids) (fun r l' g' =>
    match r with
    | Returned _ => g' = MainC tids 2 /\ l_out l' = []
    | Stopped s => ended 0 (Stopped s) l' g'
    end) l (MainC tids 0).
Proof.
  intros Hlen Hl. unfold join_all, for_.
  eapply csafe_for_loop with (I := fun j _ l g => g = MainC tids (Z.to_nat j) /\ l_out l = []); [done| |].
  2:{ intros j [] l' g Hj -> (-> & Hout). by split. }
  intros j [] l' g Hj (-> & Hout). change (0 <= j < 2) in Hj. apply csafe_bind, main_call; [done|].
  intros v gs HI Hi (Hl' & Hn & Hjl & Htid & Hjd). rewrite Hlen in *.
  destruct (lookup_lt_is_Some_2 tids (Z.to_nat j)) as [t Ht]; [lia|].
  rewrite (nth_lookup_Some _ _ _ _ Ht). split; [by intros Hb; exists t|].
  intros [error z] v' e [-> Hx]. cbn [fst snd] in *.
  destruct (Z.eqb_spec error 0) as [->|Hne].
  - specialize (Hx eq_refl _ (Htid _ _ Ht)). destruct (ii_ret _ _ _ HI _ _ Hx) as (g & Hg & Ha).
    exists (MainC tids (Z.to_nat (j + 1))). split_and!; [|done|by cs_go].
    rewrite <- (app_nil_r (<[_ := _]> gs)). eapply incr_inv_main; eauto.
    cbn. rewrite app_nil_r, length_insert, Hlen. split_and!; try done; [lia|].
    intros k Hk. rewrite list_lookup_insert_ne by done.
    destruct (decide (k = Z.to_nat j)) as [->|]; [|apply Hjd; lia].
    pose proof (proj2 (ii_worker _ _ _ HI _ _ Hg) ltac:(done)).
    destruct g as [| | |k []]; try done. eauto.
  - exists (MainC tids (Z.to_nat j)). split_and!; [by rewrite list_insert_id|done|].
    cs_go. apply stopped_ok.
Qed.

Definition loops (argv : list string) : Z :=
  i32 (if 1 <? argc argv then st_val (strtoul_ argv.[1] 0) else 10000000).

(** All threads are joined: they are at their end. *)
Lemma all_joined v gs tids :
  incr_inv n v gs -> gs !! 0%nat = Some (MainC tids 2) -> length tids = 2%nat ->
  cell v glob = i32 (2 * Z.max 0 n).
Proof.
  intros HI Hi Hlen. destruct (ii_main _ _ _ HI) as (g & Hg & Hm). rewrite Hi in Hg.
  injection Hg as <-. destruct Hm as (Hl & _ & _ & _ & Hj).
  destruct (Hj 0%nat ltac:(lia)) as [k1 H1], (Hj 1%nat ltac:(lia)) as [k2 H2].
  rewrite (ii_glob _ _ _ HI). f_equal.
  destruct gs as [|a [|b [|c [|]]]]; try (cbn in Hl; lia). cbn in Hi, H1, H2. simplify_eq.
  pose proof (ii_gone _ _ _ HI 1%nat _ eq_refl). pose proof (ii_gone _ _ _ HI 2%nat _ eq_refl).
  cbn. lia.
Qed.

Lemma parse_safe argv :
  loops argv = n ->
  csafe 0 (if 1 <? argc argv then getUnsignedLong argv.[1] else Ret 10000000) (fun r l' g' =>
    match r with
    | Returned x => i32 x = n /\ g' = Main0 /\ l_out l' = []
    | Stopped s => ended 0 (Stopped s) l' g'
    end) local0 Main0.
Proof.
  unfold loops. intros Hn. destruct (1 <? argc argv).
  - eapply csafe_mono; [apply getUnsignedLong_safe|]. intros [x|s] l' g'; [|done].
    by intros (-> & -> & ->).
  - by apply csafe_ret.
Qed.

Lemma main_safe argv : loops argv = n -> csafe 0 (main argv) (ended 0) local0 Main0.
Proof.
  intros Hn. unfold main. apply csafe_bind. eapply csafe_mono; [by apply parse_safe|].
  intros [x|s] l g; [|done]. intros (Hx & -> & Hl). rewrite Hx.
  apply csafe_bind, main_call; [done|]. intros v gs HI Hi Hm. split; [done|].
  intros [] v' e Hv. rewrite (Hv eq_refl). exists (MainC [] 0). split_and!; [|done|].
  { rewrite <- (app_nil_r (<[_ := _]> gs)). eapply incr_inv_main; eauto.
    - rewrite cell_set. by rewrite decide_False.
    - cbn. rewrite app_nil_r, length_insert. split_and!; try done; [|lia].
      rewrite cell_set. by rewrite decide_True. }
  apply csafe_bind. clear HI Hi Hm Hv v v' gs. eapply csafe_mono; [by apply create_all_safe|].
  intros [tids|s] l' g'; [|done]. intros (-> & Hlen & Hout).
  apply csafe_bind. eapply csafe_mono; [by apply join_all_safe|].
  intros [[]|s] l'' g'; [|done]. intros [-> Hout'].
  apply csafe_bind, main_call; [done|]. intros v gs HI Hi Hm. split; [done|].
  intros y v' e' [-> Hy]. rewrite (Hy eq_refl), (all_joined _ _ _ HI Hi Hlen).
  exists (MainC tids 2). split_and!; [by rewrite list_insert_id|done|]. cs_go.
  apply ended_view. intros v1 gs1 HI1 Hi1. exists MainEnd. split_and!; [done|done|].
  intros _ z [= <-]. split; [done|]. cbn. by rewrite Hout'.
Qed.
End Safe.

(** ** Every interleaving *)
Definition fresh (v : vstate) : Prop :=
  cell v glob = 0 /\ owner v !! globMutex = None /\ retval v = ∅.

Section Pools.
Context {M : Machine} {HM : Pthreads M} `{CText}.

Lemma fresh_inv n v : fresh v -> incr_inv n v [Main0].
Proof.
  intros (Hg & Ho & Hr). constructor.
  - by rewrite Hg.
  - intros i. rewrite Ho. split; [done|]. intros (g & Hi & Hh). destruct i; [|done]. cbn in Hi. by simplify_eq.
  - intros [|[|i]] k x Hi; cbn in Hi; by simplify_eq.
  - intros [|[|i]] k Hi; cbn in Hi; by simplify_eq.
  - intros i z. by rewrite Hr.
  - intros [|[|i]] g Hi; cbn in Hi; by simplify_eq.
  - intros [|[|i]] g Hi; cbn in Hi; by simplify_eq.
  - by exists Main0.
Qed.

Lemma fns_ok n fn arg (g : gh) i :
  fn = "f" /\ arg = numLoops /\ g = W 0 Idle ->
  csafe (P := view_protocol (P := incr_protocol n)) i (fns fn arg) (ended i) local0 g.
Proof. intros (-> & -> & ->). exact (f_safe n i (W 0 Idle) eq_refl). Qed.

Lemma reachable_ok argv m sched p :
  fresh (view m) -> exec fns sched (start [main argv] m) = Some p ->
  forall k, pool_ok (P := view_protocol (P := incr_protocol (loops argv))) k p.
Proof.
  intros Hf He. eapply (start_ok fns (P := view_protocol (P := incr_protocol (loops argv)))); [| | |exact He].
  - intros fn arg g i Ha Hb. by apply fns_ok.
  - by apply fresh_inv.
  - constructor; [|constructor]. split; [done|]. split; [done|]. intros [|[|i]] Hi _; try done. by apply csafe_ended, main_safe.
Qed.

(** Some task that has not ended is not waiting. *)
Lemma someone_runs n v gs :
  incr_inv n v gs -> exists i g, gs !! i = Some g /\ gh_alive g = true /\
    ~ vwaits (VProtocol := incr_protocol n) i g v gs.
Proof.
  intros HI. destruct (owner v !! globMutex) as [j|] eqn:Ho.
  { destruct (proj1 (ii_own _ _ _ HI j) Ho) as (g & Hg & Hh). exists j, g.
    destruct g as [| | |k []]; try done; by split_and!; [|done|cbn; tauto]. }
  destruct (decide (Exists (fun g => is_worker g && gh_alive g = true) gs)) as [He|Hn].
  { apply Exists_exists in He as (g & [i Hi]%list_elem_of_lookup & Hg%andb_prop).
    exists i, g. destruct Hg as [Hw Ha]. split_and!; [done|done|].
    destruct g as [| | |k []]; cbn; try done; tauto. }
  destruct (ii_main _ _ _ HI) as (g & Hg & Hm). exists 0%nat, g.
  destruct g as [|tids joined| |]; try done; split_and!; try done; [cbn; tauto|].
  intros (tid & Ht & Hr). destruct Hm as (Hl & _ & _ & Htid & _).
  specialize (Hr _ (Htid _ _ Ht)). pose proof (lookup_lt_Some _ _ _ Ht).
  destruct (lookup_lt_is_Some_2 gs (S joined)) as [h Hh]; [lia|].
  destruct (ii_back _ _ _ HI _ _ Hh) as [z Hz]; [|congruence].
  destruct (gh_alive h) eqn:E; [|done]. destruct Hn. apply Exists_exists.
  exists h. split; [by eapply list_elem_of_lookup_2|]. rewrite E.
  by rewrite (proj2 (ii_worker _ _ _ HI _ _ Hh)).
Qed.

(** C2: Whatever the interleaving of the threads of thread_incr_mutex, when its
    main thread returns it has printed exactly one line, with twice the number
    of loops (in the arithmetic of int), and returns success: no increment is
    lost. *)
Theorem thread_incr_mutex_exact argv m sched p z out :
  fresh (view m) -> exec fns sched (start [main argv] m) = Some p ->
  outcome 0 p = Some (Returned z, out) ->
  z = EXIT_SUCCESS /\
  out = [EPrint stdout (format "glob = %d\n" [Int (i32 (2 * Z.max 0 (loops argv)))])].
Proof.
  intros Hf He Ho. pose proof (reachable_ok _ _ _ _ Hf He 0) as Hok.
  destruct (ended_task _ _ _ _ Hok Ho) as (l & g & gs & <- & HD & _). by apply HD.
Qed.

(** C30: thread_incr_mutex does not deadlock: in every state any interleaving of
    its threads reaches, unless the process has ended some thread can take a
    step. *)
Theorem thread_incr_mutex_progress argv m sched p :
  fresh (view m) -> exec fns sched (start [main argv] m) = Some p -> p_over p = false ->
  exists i p', step1 fns i p = Some p'.
Proof.
  intros Hf He Ho. pose proof (reachable_ok _ _ _ _ Hf He 1) as Hok.
  eapply pool_progress; [exact Hok|done|]. intros gs HI _ _. by apply (someone_runs (loops argv)).
Qed.
End Pools.

Definition two_loops : pool :=
  let _ := plain_text in
  round_robin fns 40 (start (M := pt_machine) [main ["thread_incr_mutex"; "2"]] v0).

Lemma thread_incr_mutex_exact_witness :
  let _ := plain_text in
  exists sched, exec fns sched (start (M := pt_machine) [main ["thread_incr_mutex"; "2"]] v0) = Some two_loops /\
  outcome 0 two_loops = Some (Returned 0, [EPrint stdout (format "glob = %d\n" [Int 4])]).
Proof.
  intros T. destruct (round_robin_exec fns 40 (start (M := pt_machine) [main ["thread_incr_mutex"; "2"]] v0))
    as [sched Hs].
  exists sched. split; [exact Hs|].
  destruct (outcome 0 two_loops) as [[[z|s] out]|] eqn:E.
  - destruct (thread_incr_mutex_exact (M := pt_machine) ["thread_incr_mutex"; "2"] v0 sched two_loops z out) as [-> ->].
    + by split_and!.
    + exact Hs.
    + exact E.
    + reflexivity.
  - exfalso. assert (match outcome 0 two_loops with Some (Returned _, _) => true | _ => false end = true) as H
      by (vm_compute; reflexivity). by rewrite E in H.
  - exfalso. assert (match outcome 0 two_loops with Some (Returned _, _) => true | _ => false end = true) as H
      by (vm_compute; reflexivity). by rewrite E in H.
Defined.

Lemma thread_incr_mutex_progress_witness :
  let _ := plain_text in
  exists sched p i p',
    exec fns sched (start (M := pt_machine) [main ["thread_incr_mutex"; "2"]] v0) = Some p /\
    step1 fns i p = Some p'.
Proof.
  intros T. destruct (thread_incr_mutex_progress (M := pt_machine) ["thread_incr_mutex"; "2"] v0 []
    (start (M := pt_machine) [main ["thread_incr_mutex"; "2"]] v0)) as (i & p' & Hp).
  - by split_and!.
  - reflexivity.
  - reflexivity.
  - by eexists [], _, i, p'.
Defined.

(** ** thread_incr.c *)

(** Without the mutex an increment can be lost: an interleaving of the two
    threads of thread_incr, with one loop each, after which the program prints
    1 and not 2. *)
Theorem thread_incr_loses :
  let _ := plain_text in
  exists sched p,
    exec thread_incr.fns sched
      (start (M := pt_machine) [thread_incr.main ["thread_incr"; "1"]] v0) = Some p /\
    outcome 0 p = Some (Returned EXIT_SUCCESS, [EPrint stdout (format "glob = %d\n" [Int 1])]).
Proof.
  intros T. destruct (turns_exec thread_incr.fns
    (repeat 0%nat 30 ++ flat_map (fun _ => [1%nat; 2%nat]) (seq 0 15) ++ repeat 0%nat 30)
    (start (M := pt_machine) [thread_incr.main ["thread_incr"; "1"]] v0)) as [sched Hs].
  eexists sched, _. split; [exact Hs|]. vm_compute. reflexivity.
Qed.
