(* ===== verification/ShmXfer.v ===== *)
(** * The transfer of svshm/: writer and reader together

    [shm_spec] is what the two programs of svshm/ rely on from the System V
    semaphores and shared memory: two semaphores, a segment with a size and a
    buffer, the standard input of the writer (task 0) and the standard output
    of the reader (task 1). The theorems hold for every interleaving of the two
    programs, whole, over any machine that implements it. *)

From S2P Require Import Prelude.
From S2P Require Import CLib.
From S2P Require Import Sys.
From S2P Require Import Sem.
From S2P Require Import Conc.
From S2P Require Import SemShm.

Import svshm_xfr.

(** ** The interface *)
Record xfer := mkX { sW : Z; sR : Z; size : Z; buf : string; inp : string; outp : string }.

Definition sem (num : Z) (v : xfer) : Z := if num ==? WRITE_SEM then sW v else sR v.
Definition set_sem (num z : Z) (v : xfer) : xfer :=
  if num ==? WRITE_SEM then mkX z (sR v) (size v) (buf v) (inp v) (outp v)
  else mkX (sW v) z (size v) (buf v) (inp v) (outp v).
Definition set_size (z : Z) (v : xfer) : xfer := mkX (sW v) (sR v) z (buf v) (inp v) (outp v).
Definition set_buf (s : string) (v : xfer) : xfer := mkX (sW v) (sR v) (size v) s (inp v) (outp v).
Definition set_inp (s : string) (v : xfer) : xfer := mkX (sW v) (sR v) (size v) (buf v) s (outp v).
Definition set_outp (s : string) (v : xfer) : xfer := mkX (sW v) (sR v) (size v) (buf v) (inp v) s.

Section Spec.
Context (semid shmid shmp : Z).

(** The answers of the calls: a failed call changes nothing; an operation on a
    semaphore is carried out when its value stays non-negative; a read returns
    the next bytes of the input, none only at its end; a write may be partial. *)
Definition shm_answers {X} (i n : nat) (s : SysE X) (v : xfer) : X -> xfer -> Prop :=
  match s in SysE X return X -> xfer -> Prop with
  | Semget key _ _ => fun x v' => v' = v /\ (x = -1 \/ (key = SEM_KEY -> x = semid))
  | Shmget key _ _ => fun x v' => v' = v /\ (x = -1 \/ (key = SHM_KEY -> x = shmid))
  | Shmat id _ => fun x v' => v' = v /\ (x = -1 \/ (id = shmid -> x = shmp))
  | SemctlSetval id num z => fun x v' =>
      (x = -1 /\ v' = v) \/ (x <> -1 /\ (id = semid -> v' = set_sem num z v))
  | Semop id [Sembuf num op _] => fun x v' =>
      (x = -1 /\ v' = v) \/
      (x = 0 /\ (id = semid -> 0 <= sem num v + op /\ v' = set_sem num (sem num v + op) v))
  | Semop _ _ => fun _ _ => True
  | LoadInt a => fun x v' => v' = v /\ (a = bufferSize shmp -> x = size v)
  | StoreInt a z => fun _ v' => a = bufferSize shmp -> v' = set_size z v
  | LoadBytes a n => fun x v' =>
      v' = v /\ (a = buffer shmp -> 0 <= n <= BUF_SIZE -> x = stake n (buf v))
  | StoreBytes a d => fun _ v' =>
      a = buffer shmp -> slen d <= BUF_SIZE -> v' = set_buf (overlay d (buf v)) v
  | Read fd count => fun x v' => fd = STDIN_FILENO -> i = 0%nat -> 0 < count ->
      (x = (-1, "") /\ v' = v) \/
      (x.1 = slen x.2 /\ slen x.2 <= count /\ inp v = x.2 +:+ inp v' /\ v' = set_inp (inp v') v /\
       (x.2 = "" -> inp v = ""))
  | Write fd d => fun x v' => fd = STDOUT_FILENO -> i = 1%nat ->
      (x = -1 /\ v' = v) \/ (0 <= x <= slen d /\ v' = set_outp (outp v +:+ stake x d) v)
  | _ => fun _ v' => v' = v
  end.

Definition shm_blocks {X} (s : SysE X) (v : xfer) : Prop :=
  match s in SysE X return Prop with
  | Semop id [Sembuf num op _] => id = semid -> sem num v + op < 0
  | Semop _ _ => True
  | _ => False
  end.

(** The tasks are processes: the end of one is no end of the other. *)
Definition shm_spec : Spec xfer := {|
  answers X := shm_answers;
  blocks X i := shm_blocks;
  at_exit _ _ v := v;
  ends_all _ _ := false |}.
End Spec.

(** ** The protocol

    One token goes round: it is in the value of WRITE_SEM, with the writer, in
    the value of READ_SEM or with the reader. *)
Inductive wst :=
| W0 | W1 | W2                       (* before and between the initialisations *)
| WIdle (sz : Z)                     (* in the loop, the size it last stored *)
| WHold                              (* has reserved WRITE_SEM *)
| WRead (n : Z) (d : string)         (* has read [d], with result [n] *)
| WStored (n : Z) (d : string)       (* has stored the bytes *)
| WSized (n : Z) (d : string)        (* has stored the size *)
| WFin                               (* out of the loop *)
| WLast                              (* has reserved WRITE_SEM for the last time *)
| WEnd                               (* returned *)
| WGone.                             (* failed *)
Inductive rst :=
| RIdle
| RHold (d : string)                 (* has reserved READ_SEM, [d] is in the buffer *)
| RWritten (d : string)              (* has written [d] *)
| RPart (d : string)                 (* has written only a part of [d] *)
| RZero                              (* has seen the size 0 *)
| RDone                              (* has released WRITE_SEM for the last time *)
| REnd
| RGone.
Inductive gh := GW (w : wst) | GR (r : rst).
Inductive place := PInit | PWrite | PWriter | PRead | PReader.

Definition gh_alive (g : gh) : bool :=
  match g with GW WEnd | GW WGone | GR REnd | GR RGone => false | _ => true end.

Definition r_idle (r : rst) : Prop := r = RIdle \/ r = RGone.
Definition r_done (r : rst) : Prop := r = RDone \/ r = REnd.
(** Everything has arrived, and the reader knows. *)
Definition over (v : xfer) (r : rst) : Prop := r_done r /\ inp v = "".

(** Splits what is known of a place into its cases. *)
Ltac place_cases :=
  unfold r_idle, over, r_done in *;
  repeat match goal with
  | H : _ /\ _ |- _ => destruct H
  | H : _ \/ _ |- _ => destruct H
  | H : exists _, _ |- _ => destruct H
  | H : match ?x with _ => _ end |- _ => destruct x
  end; try done; subst; try done; auto.

Section Protocol.
Context (file : string).

(** [d] is in the segment and not yet in the output. *)
Definition filled (v : xfer) (d : string) : Prop :=
  size v = slen d /\ slen d <= BUF_SIZE /\ stake (slen d) (buf v) = d /\
  file = outp v +:+ d +:+ inp v /\ (d = "" -> inp v = "").
(** What the writer has read: [n] is the result, [d] the bytes. *)
Definition was_read (v : xfer) (n : Z) (d : string) : Prop :=
  file = outp v +:+ d +:+ inp v /\ slen d <= BUF_SIZE /\
  (n = slen d /\ (d = "" -> inp v = "") \/ n = -1 /\ d = "").
Definition settled (v : xfer) : Prop := file = outp v +:+ inp v.
Definition begun (v : xfer) : Prop := exists rest, file = outp v +:+ rest.

Definition at_place (p : place) (v : xfer) (w : wst) (r : rst) : Prop :=
  match p with
  | PInit => sW v = 0 /\ sR v = 0 /\ settled v /\ r_idle r /\ (w = W0 \/ w = WGone)
  | PWrite => sW v = 1 /\ sR v = 0 /\ settled v /\
      match w with
      | W1 | W2 => r_idle r
      | WIdle sz => size v = sz /\ (sz <> 0 /\ r_idle r \/ sz = 0 /\ over v r)
      | WFin => over v r
      | WGone => r_idle r \/ over v r
      | _ => False
      end
  | PWriter => sW v = 0 /\ sR v = 0 /\
      match w with
      | WHold => settled v /\ r_idle r
      | WRead n d => was_read v n d /\ r_idle r
      | WStored n d => was_read v n d /\ stake (slen d) (buf v) = d /\ r_idle r
      | WSized n d => was_read v n d /\ stake (slen d) (buf v) = d /\ size v = n /\ r_idle r
      | WLast | WEnd => settled v /\ over v r
      | WGone => begun v /\ (r_idle r \/ over v r /\ settled v)
      | _ => False
      end
  | PRead => sW v = 0 /\ sR v = 1 /\ r_idle r /\ exists d, filled v d /\
      match w with
      | WIdle sz => size v = sz
      | WFin => d = ""
      | WGone => True
      | _ => False
      end
  | PReader => sW v = 0 /\ sR v = 0 /\
      match r with
      | RHold d => filled v d /\ match w with WIdle sz => size v = sz | WFin => d = "" | WGone => True | _ => False end
      | RWritten d => d <> "" /\ settled v /\ size v = slen d /\ match w with WIdle sz => size v = sz | WGone => True | _ => False end
      | RZero => settled v /\ inp v = "" /\ match w with WIdle sz => size v = sz /\ sz = 0 | WFin | WGone => True | _ => False end
      | RPart d => begun v /\ size v = slen d /\ match w with WIdle sz => size v = sz | WFin => d = "" | WGone => True | _ => False end
      | RGone => begun v /\ match w with WIdle sz => size v = sz | WFin | WGone => True | _ => False end
      | _ => False
      end
  end.

Definition xfer_inv (v : xfer) (gs : list gh) : Prop :=
  exists p w r, gs = [GW w; GR r] /\ at_place p v w r.

Definition xfer_protocol : VProtocol xfer := {|
  vghost := gh;
  vinv := xfer_inv;
  valive := gh_alive;
  vwaits i g v gs :=
    match g with
    | GW (WIdle _ | WFin) => sW v <= 0
    | GR RIdle => sR v <= 0
    | _ => False
    end;
  vsays _ _ := True;
  vbegin _ _ _ := False;
  vdone i r l g := match r with
                   | Returned z => z = EXIT_SUCCESS /\ (g = GW WEnd \/ g = GR REnd)
                   | Stopped _ => g = GW WGone \/ g = GR RGone
                   end |}.

(** The output is always a prefix of the file, and the whole file once a
    program has returned. *)
Lemma settled_begun v : settled v -> begun v.
Proof. intros H. by exists (inp v). Qed.

Lemma filled_begun v d : filled v d -> begun v.
Proof. intros (_ & _ & _ & H & _). by exists (d +:+ inp v). Qed.

Lemma inv_begun v gs : xfer_inv v gs -> begun v.
Proof.
  intros (p & w & r & -> & H). destruct p; cbn in H.
  - apply settled_begun, H.
  - apply settled_begun, H.
  - destruct H as (_ & _ & H). destruct w; try done; try (by apply settled_begun, H); try by apply H.
    all: destruct H as [(Hf & _) _]; eexists; exact Hf.
  - destruct H as (_ & _ & _ & d & H & _). by eapply filled_begun.
  - destruct H as (_ & _ & H). destruct r; try done; try (by apply H); try (by apply settled_begun, H).
    by eapply filled_begun, H.
Qed.

Lemma inv_complete v gs :
  xfer_inv v gs -> gs !! 0%nat = Some (GW WEnd) \/ gs !! 1%nat = Some (GR REnd) -> outp v = file.
Proof.
  intros (p & w & r & -> & H) He. cbn in He.
  assert (over v r /\ settled v) as [[_ Hi] Hs].
  { destruct He as [[= ->]|[= ->]]; destruct p; cbn in H; try tauto.
    all: by place_cases.
  }
  unfold settled in Hs. by rewrite Hi, app_nil_r_s in Hs.
Qed.

(** A writer, or a reader, may fail in any state. *)
Lemma writer_gone p v w r :
  gh_alive (GW w) = true -> at_place p v w r -> at_place p v WGone r.
Proof.
  intros Ha H. assert (begun v) as Hb by (eapply (inv_begun v [GW w; GR r]); by exists p, w, r).
  destruct p; cbn in *.
  - tauto.
  - destruct w; try done; tauto.
  - destruct w; try done; tauto.
  - destruct H as (HW & HR & Hr & d & Hf & _). by eauto 10.
  - destruct r; try done; tauto.
Qed.

Lemma reader_gone p v w r :
  gh_alive (GR r) = true -> r <> RDone -> at_place p v w r -> at_place p v w RGone.
Proof.
  intros Ha Hr H. assert (begun v) as Hb by (eapply (inv_begun v [GW w; GR r]); by exists p, w, r).
  assert (r_done r <-> False) as Hd by (destruct r; try done; (split; [intros [|]; done|done])).
  assert (r_idle RGone) as Hi by by right.
  destruct p; cbn in *; unfold over in *.
  - tauto.
  - destruct w; try done; tauto.
  - destruct w; try done; tauto.
  - tauto.
  - destruct r, w; try done; tauto.
Qed.
End Protocol.

(** ** The programs keep to the protocol *)
Section Safe.
Context {M : Machine} `{CText} (semid shmid shmp : Z) {HM : Implements M (shm_spec semid shmid shmp)}.
Context (file : string).
#[local] Instance the_protocol : VProtocol xfer := xfer_protocol file.
#[local] Instance the_mute : VMute.
Proof. done. Defined.
Abbreviation place_ok := (at_place file).

Lemma writer_stopped s l w : gh_alive (GW w) = true -> ended 0 (Stopped s) l (GW w).
Proof.
  intros Ha. apply ended_view. intros v gs (p & w' & r & -> & Hp) [= <-].
  exists (GW WGone). split_and!; [|done|by left]. intros _. exists p, WGone, r.
  split; [done|]. by eapply writer_gone.
Qed.

Lemma reader_stopped s l r : gh_alive (GR r) = true -> r <> RDone -> ended 1 (Stopped s) l (GR r).
Proof.
  intros Ha Hr. apply ended_view. intros v gs (p & w & r' & -> & Hp) [= <-].
  exists (GR RGone). split_and!; [|done|by right]. intros _. exists p, w, RGone.
  split; [done|]. by eapply reader_gone.
Qed.

(** One call of the writer, and of the reader. *)
Lemma writer_call {X} (s : SysE X) w (Q : res X -> local -> ghost -> Prop) l :
  (forall x, spawns s x = None) ->
  (forall v r p, place_ok p v w r ->
    (shm_blocks semid s v -> vwaits 0 (GW w) v [GW w; GR r]) /\
    forall x v' e, shm_answers semid shmid shmp 0 2 s v x v' -> exists w' p',
      place_ok p' v' w' r /\ gh_alive (GW w') = true /\ Q (Returned x) (answered e l) (GW w')) ->
  csafe 0 (sys s) Q l (GW w).
Proof.
  intros Hs Hc. apply csafe_call1; [done|]. intros v gs (p & w' & r & -> & Hp) [= <-].
  destruct (Hc v r p Hp) as [Hb Ha]. split; [done|]. intros x v' e Hx.
  destruct (Ha x v' e Hx) as (w'' & p' & Hp' & Ha' & HQ). exists (GW w'').
  split_and!; [|done|done]. by exists p', w'', r.
Qed.

Lemma reader_call {X} (s : SysE X) r (Q : res X -> local -> ghost -> Prop) l :
  (forall x, spawns s x = None) ->
  (forall v w p, place_ok p v w r ->
    (shm_blocks semid s v -> vwaits 1 (GR r) v [GW w; GR r]) /\
    forall x v' e, shm_answers semid shmid shmp 1 2 s v x v' -> exists r' p',
      place_ok p' v' w r' /\ gh_alive (GR r') = true /\ Q (Returned x) (answered e l) (GR r')) ->
  csafe 1 (sys s) Q l (GR r).
Proof.
  intros Hs Hc. apply csafe_call1; [done|]. intros v gs (p & w & r' & -> & Hp) [= <-].
  destruct (Hc v w p Hp) as [Hb Ha]. split; [done|]. intros x v' e Hx.
  destruct (Ha x v' e Hx) as (r'' & p' & Hp' & Ha' & HQ). exists (GR r'').
  split_and!; [|done|done]. by exists p', w, r''.
Qed.

(** A call that changes nothing the protocol speaks of. *)
Definition quiet {X} (s : SysE X) (P : X -> Prop) : Prop :=
  (forall x, spawns s x = None) /\ (forall v, ~ shm_blocks semid s v) /\
  forall i v x v', shm_answers semid shmid shmp i 2 s v x v' -> v' = v /\ P x.

Lemma writer_quiet {X} (s : SysE X) (P : X -> Prop) w (Q : res X -> local -> ghost -> Prop) l :
  quiet s P -> gh_alive (GW w) = true ->
  (forall x e, P x -> Q (Returned x) (answered e l) (GW w)) -> csafe 0 (sys s) Q l (GW w).
Proof.
  intros (Hs & Hb & Ha) Hw HQ. apply writer_call; [done|]. intros v r p Hp.
  split; [by intros ?%Hb|]. intros x v' e [-> HP]%Ha. exists w, p. auto.
Qed.

Lemma reader_quiet {X} (s : SysE X) (P : X -> Prop) r (Q : res X -> local -> ghost -> Prop) l :
  quiet s P -> gh_alive (GR r) = true ->
  (forall x e, P x -> Q (Returned x) (answered e l) (GR r)) -> csafe 1 (sys s) Q l (GR r).
Proof.
  intros (Hs & Hb & Ha) Hr HQ. apply reader_call; [done|]. intros v w p Hp.
  split; [by intros ?%Hb|]. intros x v' e [-> HP]%Ha. exists r, p. auto.
Qed.

Lemma quiet_semget key n f : quiet (Semget key n f) (fun x => x = -1 \/ (key = SEM_KEY -> x = semid)).
Proof. split_and!; try done. intros v []. Qed.
Lemma quiet_shmget key n f : quiet (Shmget key n f) (fun x => x = -1 \/ (key = SHM_KEY -> x = shmid)).
Proof. split_and!; try done. intros v []. Qed.
Lemma quiet_shmat id f : quiet (Shmat id f) (fun x => x = -1 \/ (id = shmid -> x = shmp)).
Proof. split_and!; try done. intros v []. Qed.
Lemma quiet_shmdt a : quiet (Shmdt a) (fun _ => True).
Proof. split_and!; try done. intros v []. Qed.
Lemma quiet_shmrm id : quiet (ShmctlRmid id) (fun _ => True).
Proof. split_and!; try done. intros v []. Qed.
Lemma quiet_semrm id : quiet (SemctlRmid id) (fun _ => True).
Proof. split_and!; try done. intros v []. Qed.
Lemma quiet_load a : quiet (LoadInt a) (fun _ => True).
Proof. split_and!; [done|by intros v []|]. by intros i v x v' [-> _]. Qed.

(** *** Semaphores *)

(** A reservation retries while it is interrupted. *)
Lemma reserve_safe i num (Q : res Z -> local -> ghost -> Prop) (g : ghost) l :
  (forall l, csafe i (sys (Semop semid [Sembuf num (-1) 0])) (fun r l' g' =>
    match r with
    | Returned x => x = -1 /\ g' = g \/ x = 0 /\ Q (Returned 0) l' g'
    | Stopped _ => False
    end) l g) ->
  (forall l', Q (Returned (-1)) l' g) ->
  csafe i (reserve semid num) Q l g.
Proof.
  intros Hc HQ. unfold reserve, binary_sems.reserveSem.
  apply (csafe_iter _ _ (fun _ _ g' => g' = g)); [|done].
  intros [] l' g' ->. apply csafe_bind. eapply csafe_mono; [apply Hc|].
  intros [x|s] l'' g''; [|done]. intros [[-> ->]|[-> Hq]].
  - cs_go; auto.
  - by cs_go.
Qed.

Lemma writer_reserve sz (Q : res Z -> local -> ghost -> Prop) l :
  sz <> 0 -> (forall l, Q (Returned 0) l (GW WHold)) -> (forall l, Q (Returned (-1)) l (GW (WIdle sz))) ->
  csafe 0 (reserve semid WRITE_SEM) Q l (GW (WIdle sz)).
Proof.
  intros Hsz HQ HQ1. apply reserve_safe; [|done]. intros l'. apply writer_call; [done|].
  intros v r p Hp. split; [cbn; intros Hb; specialize (Hb eq_refl); cbn in Hb; lia|].
  intros x v' e [[-> ->]|[-> Hx]]; [by exists (WIdle sz), p; auto 10|].
  destruct (Hx eq_refl) as [Hle ->]. cbn in Hle. exists WHold, PWriter.
  split_and!; [|done|by right]. destruct p; cbn in Hp; try lia; try tauto.
  all: destruct Hp as (HW & HR & Hs & Hsize & Hp); cbn; rewrite ?HW; by destruct Hp as [[? ?]|[? ?]].
Qed.

Lemma writer_last_reserve (Q : res Z -> local -> ghost -> Prop) l :
  (forall l, Q (Returned 0) l (GW WLast)) -> (forall l, Q (Returned (-1)) l (GW WFin)) ->
  csafe 0 (reserve semid WRITE_SEM) Q l (GW WFin).
Proof.
  intros HQ HQ1. apply reserve_safe; [|done]. intros l'. apply writer_call; [done|].
  intros v r p Hp. split; [cbn; intros Hb; specialize (Hb eq_refl); cbn in Hb; lia|].
  intros x v' e [[-> ->]|[-> Hx]]; [by exists WFin, p; auto 10|].
  destruct (Hx eq_refl) as [Hle ->]. cbn in Hle. exists WLast, PWriter.
  split_and!; [|done|by right]. destruct p; cbn in Hp; try lia; try tauto.
  destruct Hp as (HW & HR & Hs & Hp). cbn. rewrite HW. by split_and!.
Qed.

Lemma idle_size p v sz r : place_ok p v (WIdle sz) r -> size v = sz.
Proof.
  destruct p; cbn; intros Hp; try tauto.
  - destruct Hp as (_ & _ & _ & _ & [|]); done.
  - by destruct Hp as (_ & _ & _ & d & _ & ?).
  - destruct r; tauto.
Qed.

(** Where the writer is when it holds the token. *)
Definition w_holds (w : wst) : bool :=
  match w with WHold | WRead _ _ | WStored _ _ | WSized _ _ | WLast | WEnd => true | _ => false end.
Lemma w_holds_place p v w r : w_holds w = true -> place_ok p v w r -> p = PWriter.
Proof.
  intros Hw. destruct p; cbn; intros Hp; [|by destruct w; try tauto| done | |].
  - destruct Hp as (_ & _ & _ & _ & [-> | ->]); done.
  - destruct Hp as (_ & _ & _ & d & _ & Hp). by destruct w.
  - destruct r; try tauto; destruct w; try done; tauto.
Qed.

(** The size the writer loads is the one it stored. *)
Lemma writer_load_idle sz (Q : res Z -> local -> ghost -> Prop) l :
  (forall e, sz <> 0 -> Q (Returned sz) (answered e l) (GW (WIdle sz))) ->
  (forall e, sz = 0 -> Q (Returned 0) (answered e l) (GW WFin)) ->
  csafe 0 (sys (LoadInt (bufferSize shmp))) Q l (GW (WIdle sz)).
Proof.
  intros HQ HQ0. apply writer_call; [done|]. intros v r p Hp. split; [by intros []|].
  intros x v' e [-> Hx]. rewrite (Hx eq_refl).
  pose proof (idle_size _ _ _ _ Hp) as Hsize.
  rewrite Hsize. destruct (Z.eq_dec sz 0) as [->|Hne].
  - exists WFin, p. split_and!; [|done|by apply HQ0]. destruct p; cbn in *; try tauto.
    + by destruct Hp as (_ & _ & _ & _ & [|]).
    + destruct Hp as (? & ? & ? & d & Hf & ?). split_and!; [done..|]. exists d. split; [done|].
      apply slen_0. by destruct Hf as [<- _].
    + destruct r; try tauto.
      3:{ destruct Hp as (? & ? & Hb & Hs & ?). split_and!; try done. apply slen_0. congruence. }
      * destruct Hp as (? & ? & Hf & ?). split_and!; try done. apply slen_0. by destruct Hf as [<- _].
      * destruct Hp as (? & ? & Hd & ? & Hs & ?). destruct Hd. apply slen_0. congruence.
  - exists (WIdle sz), p. split_and!; [done|done|by apply HQ].
Qed.

Lemma writer_read (Q : res (Z * string) -> local -> ghost -> Prop) l :
  (forall n d e, slen d <= BUF_SIZE -> Q (Returned (n, d)) (answered e l) (GW (WRead n d))) ->
  csafe 0 (sys (Read STDIN_FILENO BUF_SIZE)) Q l (GW WHold).
Proof.
  intros HQ. apply writer_call; [done|]. intros v r p Hp. split; [by intros []|].
  intros [n d] v' e Hx. exists (WRead n d), PWriter.
  assert (p = PWriter) as -> by (by refine (w_holds_place _ _ _ _ _ Hp)). cbn in Hp.
  destruct Hp as (HW & HR & Hs & Hr). unfold settled in Hs.
  destruct (Hx eq_refl eq_refl ltac:(done)) as [[[= -> ->] ->]|(Hn & Hd & Hi & -> & He)]; cbn in *.
  - split_and!; try done; [|by apply HQ]. split_and!; [done|done|by right].
  - split_and!; try done; [|by apply HQ]. split_and!; cbn; [by rewrite <- Hi|done|]. left. split; [done|].
    intros ->. rewrite (He eq_refl) in Hi. by destruct (inp v').
Qed.

Lemma writer_store n d (Q : res unit -> local -> ghost -> Prop) l :
  slen d <= BUF_SIZE -> (forall e, Q (Returned tt) (answered e l) (GW (WStored n d))) ->
  csafe 0 (sys (StoreBytes (buffer shmp) d)) Q l (GW (WRead n d)).
Proof.
  intros Hd HQ. apply writer_call; [done|]. intros v r p Hp. split; [by intros []|].
  intros [] v' e Hx. rewrite (Hx eq_refl Hd). exists (WStored n d), PWriter.
  assert (p = PWriter) as -> by (by refine (w_holds_place _ _ _ _ _ Hp)). cbn in Hp.
  destruct Hp as (HW & HR & Hrd & Hr). split_and!; [|done|done]. cbn.
  split_and!; [done|done|exact Hrd|apply stake_overlay|done].
Qed.

Lemma writer_store_size n d (Q : res unit -> local -> ghost -> Prop) l :
  (forall e, Q (Returned tt) (answered e l) (GW (WSized n d))) ->
  csafe 0 (sys (StoreInt (bufferSize shmp) n)) Q l (GW (WStored n d)).
Proof.
  intros HQ. apply writer_call; [done|]. intros v r p Hp. split; [by intros []|].
  intros [] v' e Hx. rewrite (Hx eq_refl). exists (WSized n d), PWriter.
  assert (p = PWriter) as -> by (by refine (w_holds_place _ _ _ _ _ Hp)). cbn in Hp.
  destruct Hp as (HW & HR & Hrd & Hbuf & Hr). split_and!; [|done|done]. cbn.
  split_and!; [done|done|exact Hrd|done|done|done].
Qed.

Lemma writer_load_sized n d (Q : res Z -> local -> ghost -> Prop) l :
  (forall e, Q (Returned n) (answered e l) (GW (WSized n d))) ->
  csafe 0 (sys (LoadInt (bufferSize shmp))) Q l (GW (WSized n d)).
Proof.
  intros HQ. apply writer_call; [done|]. intros v r p Hp. split; [by intros []|].
  intros x v' e [-> Hx]. rewrite (Hx eq_refl). exists (WSized n d), p.
  assert (p = PWriter) as -> by (by refine (w_holds_place _ _ _ _ _ Hp)). cbn in Hp.
  assert (size v = n) as -> by tauto.
  split_and!; [exact Hp|done|apply HQ].
Qed.

(** The release of READ_SEM hands the bytes over. *)
Lemma writer_release n d (Q : res Z -> local -> ghost -> Prop) l :
  n <> -1 ->
  (forall e, Q (Returned (-1)) (answered e l) (GW (WSized n d))) ->
  (forall e, Q (Returned 0) (answered e l) (GW (WIdle n))) ->
  csafe 0 (release semid READ_SEM) Q l (GW (WSized n d)).
Proof.
  intros Hn HQ1 HQ. apply writer_call; [done|]. intros v r p Hp.
  assert (p = PWriter) as -> by (by refine (w_holds_place _ _ _ _ _ Hp)). cbn in Hp.
  destruct Hp as (HW & HR & (Hf & Hd & Hrd) & Hbuf & Hsize & Hr).
  split; [intros Hb; specialize (Hb eq_refl); cbn in Hb; lia|].
  intros x v' e [[-> ->]|[-> Hx]].
  { exists (WSized n d), PWriter. by split_and!. }
  destruct (Hx eq_refl) as [_ ->]. exists (WIdle n), PRead. split_and!; [|done|done].
  cbn. rewrite HR. split_and!; [done|done|done|]. exists d. split; [|done].
  destruct Hrd as [[-> He]|[-> _]]; [|done]. by split_and!.
Qed.

Lemma writer_transfer l :
  csafe 0 (svshm_xfr_writer.transfer semid shmp) (fun r l' g' =>
    match r with Returned _ => g' = GW WFin | Stopped s => ended 0 (Stopped s) l' g' end)
    l (GW (WIdle BUF_SIZE)).
Proof.
  unfold svshm_xfr_writer.transfer.
  eapply csafe_iter with (I := fun _ _ g => exists sz, g = GW (WIdle sz)); [|by eexists].
  intros [xfrs bytes] l' g [sz ->]. apply csafe_bind, writer_load_idle; intros e Hsz; [|by cs_go].
  rewrite (proj2 (Z.eqb_neq _ _) Hsz). cbn [negb].
  apply csafe_bind, writer_reserve; [done| |]; intros l1; [|cs_go; by apply writer_stopped].
  cs_go. apply writer_read. intros n d e1 Hd. cs_steps.
  apply writer_store; [done|]. intros e2. cs_steps. apply writer_store_size. intros e3. cs_steps.
  apply writer_load_sized. intros e4. apply csafe_bind, csafe_when; intros Hn.
  { cs_go. by apply writer_stopped. }
  apply Z.eqb_neq in Hn. apply csafe_bind, writer_release; [done| |]; intros e5.
  { cs_go. by apply writer_stopped. }
  cs_go. eapply writer_quiet; [apply quiet_load|done|]. intros x e6 _. cs_go. by eexists.
Qed.

Lemma writer_setval num w w' (Q : res Z -> local -> ghost -> Prop) l :
  w = W0 /\ num = WRITE_SEM /\ w' = W1 \/ w = W1 /\ num = READ_SEM /\ w' = W2 ->
  (forall e, Q (Returned (-1)) (answered e l) (GW w)) ->
  (forall x e, x <> -1 -> Q (Returned x) (answered e l) (GW w')) ->
  csafe 0 (sys (SemctlSetval semid num (if num ==? WRITE_SEM then 1 else 0))) Q l (GW w).
Proof.
  intros Hw HQ1 HQ. apply writer_call; [done|]. intros v r p Hp. split; [by intros []|].
  intros x v' e [[-> ->]|[Hx Hv]].
  { exists w, p. split_and!; [done| |done]. by destruct Hw as [(-> & _)|(-> & _)]. }
  rewrite (Hv eq_refl). exists w', PWrite. destruct Hw as [(-> & -> & ->)|(-> & -> & ->)].
  - split_and!; [|done|by apply HQ]. destruct p; cbn in *; try tauto.
    + by destruct Hp as (_ & _ & _ & d & _ & []).
    + destruct r; tauto.
  - split_and!; [|done|by apply HQ]. destruct p; cbn in *; try tauto.
    + by destruct Hp as (_ & _ & _ & _ & [|]).
    + by destruct Hp as (_ & _ & _ & d & _ & []).
    + destruct r; tauto.
Qed.

Lemma writer_first_size (Q : res unit -> local -> ghost -> Prop) l :
  (forall e, Q (Returned tt) (answered e l) (GW (WIdle BUF_SIZE))) ->
  csafe 0 (sys (StoreInt (bufferSize shmp) BUF_SIZE)) Q l (GW W2).
Proof.
  intros HQ. apply writer_call; [done|]. intros v r p Hp. split; [by intros []|].
  intros [] v' e Hv. rewrite (Hv eq_refl). exists (WIdle BUF_SIZE), PWrite.
  split_and!; [|done|done]. destruct p; cbn in *; try tauto.
  - by destruct Hp as (_ & _ & _ & _ & [|]).
  - destruct Hp as (HW & HR & Hs & Hr). split_and!; [done..|]. by left.
  - by destruct Hp as (_ & _ & _ & d & _ & []).
  - destruct r; tauto.
Qed.

Lemma writer_main argv : csafe 0 (svshm_xfr_writer.main argv) (ended 0) local0 (GW W0).
Proof.
  unfold svshm_xfr_writer.main, binary_sems.initSemAvailable, binary_sems.initSemInUse.
  apply csafe_bind. eapply writer_quiet; [apply quiet_semget|done|]. intros x e Hx.
  cs_go; [by apply writer_stopped|]. apply Z.eqb_neq in Hb. destruct Hx as [|Hx]; [done|].
  rewrite (Hx eq_refl). clear x Hx Hb.
  eapply (writer_setval WRITE_SEM); [by left| |]; intros; [cs_go; by apply writer_stopped|].
  cs_go; [by apply writer_stopped|].
  eapply (writer_setval READ_SEM); [by right| |]; intros; [cs_go; by apply writer_stopped|].
  cs_go; [by apply writer_stopped|].
  eapply writer_quiet; [apply quiet_shmget|done|]. intros y e2 Hy.
  cs_go; [by apply writer_stopped|]. apply Z.eqb_neq in Hb1. destruct Hy as [|Hy]; [done|].
  rewrite (Hy eq_refl). clear y Hy Hb1.
  eapply writer_quiet; [apply quiet_shmat|done|]. intros y e3 Hy.
  cs_go; [by apply writer_stopped|]. apply Z.eqb_neq in Hb1. destruct Hy as [|Hy]; [done|].
  rewrite (Hy eq_refl). clear y Hy Hb1.
  apply writer_first_size. intros e4. cs_steps.
  eapply csafe_mono; [apply writer_transfer|]. intros [[xfrs bytes]|s] l g; [|done]. intros ->.
  apply csafe_bind, writer_last_reserve; intros l'; [|cs_go; by apply writer_stopped]. cs_go.
  eapply writer_quiet; [apply quiet_shmdt|done|]. intros y e5 _. cs_go; [by apply writer_stopped|].
  eapply writer_quiet; [apply quiet_shmrm|done|]. intros y' e6 _. cs_go; [by apply writer_stopped|].
  eapply writer_quiet; [apply quiet_semrm|done|]. intros y2 e7 _. cs_go; [by apply writer_stopped|].
  apply ended_view. intros v gs (p & w & r & -> & Hp) [= ->]. exists (GW WEnd).
  split_and!; [|done|by split; [|left]]. intros _. exists p, WEnd, r. split; [done|].
  assert (p = PWriter) as -> by (by refine (w_holds_place _ _ _ _ _ Hp)). exact Hp.
Qed.

(** *** The reader *)
Lemma reader_reserve (Q : res Z -> local -> ghost -> Prop) l :
  (forall l d, d <> "" -> Q (Returned 0) l (GR (RHold d))) ->
  (forall l, Q (Returned 0) l (GR (RHold ""))) ->
  (forall l, Q (Returned (-1)) l (GR RIdle)) ->
  csafe 1 (reserve semid READ_SEM) Q l (GR RIdle).
Proof.
  intros HQ HQ0 HQ1. apply reserve_safe; [|done]. intros l'. apply reader_call; [done|].
  intros v w p Hp. split; [cbn; intros Hb; specialize (Hb eq_refl); cbn in Hb; lia|].
  intros x v' e [[-> ->]|[-> Hx]]; [by exists RIdle, p; auto 10|].
  destruct (Hx eq_refl) as [Hle ->]. cbn in Hle.
  destruct p; cbn in Hp; try lia.
  destruct Hp as (HW & HR & _ & d & Hf & Hw). exists (RHold d), PReader.
  split_and!; [|done|right; split; [done|]].
  - cbn. rewrite HR. by split_and!.
  - destruct (decide (d = "")) as [->|]; auto.
Qed.

Lemma reader_place p v w r :
  match r with RHold _ | RWritten _ | RPart _ | RZero => True | _ => False end ->
  place_ok p v w r -> p = PReader.
Proof.
  intros Hr. destruct p; cbn; [intros (_ & _ & _ & [-> | ->] & _); done| | | |done].
  all: destruct w, r; try tauto; intros Hp; exfalso; by place_cases.
Qed.

(** The size the reader loads while it holds the token. *)
Lemma reader_load_hold d (Q : res Z -> local -> ghost -> Prop) l :
  (forall e, Q (Returned (slen d)) (answered e l) (GR (RHold d))) ->
  csafe 1 (sys (LoadInt (bufferSize shmp))) Q l (GR (RHold d)).
Proof.
  intros HQ. apply reader_call; [done|]. intros v w p Hp. split; [by intros []|].
  intros x v' e [-> Hx]. rewrite (Hx eq_refl).
  assert (p = PReader) as -> by (by refine (reader_place _ _ _ _ _ Hp)).
  exists (RHold d), PReader. split_and!; [done|done|].
  destruct Hp as (_ & _ & (-> & _) & _). apply HQ.
Qed.

(** The size 0: the input is at its end. *)
Lemma reader_load_zero (Q : res Z -> local -> ghost -> Prop) l :
  (forall e, Q (Returned 0) (answered e l) (GR RZero)) ->
  csafe 1 (sys (LoadInt (bufferSize shmp))) Q l (GR (RHold "")).
Proof.
  intros HQ. apply reader_call; [done|]. intros v w p Hp. split; [by intros []|].
  intros x v' e [-> Hx]. rewrite (Hx eq_refl).
  assert (p = PReader) as -> by (by refine (reader_place _ _ _ _ _ Hp)). cbn in Hp.
  destruct Hp as (HW & HR & (Hs & _ & _ & Hf & He) & Hw).
  exists RZero, PReader. split_and!; [|done|by rewrite Hs].
  cbn. split_and!; [done|done|done|by apply He|]. destruct w; try done. by split; [|rewrite <- Hw].
Qed.

Lemma reader_bytes d (Q : res string -> local -> ghost -> Prop) l :
  (forall e, Q (Returned d) (answered e l) (GR (RHold d))) ->
  csafe 1 (sys (LoadBytes (buffer shmp) (slen d))) Q l (GR (RHold d)).
Proof.
  intros HQ. apply reader_call; [done|]. intros v w p Hp. split; [by intros []|].
  intros x v' e [-> Hx].
  assert (p = PReader) as -> by (by refine (reader_place _ _ _ _ _ Hp)).
  exists (RHold d), PReader. split_and!; [done|done|].
  destruct Hp as (_ & _ & (_ & Hd & Hb & _) & _).
  rewrite (Hx eq_refl), Hb; [apply HQ|]. pose proof (slen_nonneg d). lia.
Qed.

(** The bytes go to the output; a partial write is a failure of the reader. *)
Lemma reader_write d (Q : res Z -> local -> ghost -> Prop) l :
  d <> "" ->
  (forall e, Q (Returned (slen d)) (answered e l) (GR (RWritten d))) ->
  (forall e x, x <> slen d -> Q (Returned x) (answered e l) (GR (RPart d))) ->
  csafe 1 (sys (Write STDOUT_FILENO d)) Q l (GR (RHold d)).
Proof.
  intros Hd HQ HQ1. apply reader_call; [done|]. intros v w p Hp. split; [by intros []|].
  assert (p = PReader) as -> by (by refine (reader_place _ _ _ _ _ Hp)). cbn in Hp.
  intros x v' e Hx. pose proof (filled_begun file v d ltac:(tauto)) as Hbg.
  destruct Hp as (HW & HR & (Hs & Hd' & Hb & Hf & He) & Hw).
  assert (forall v', size v' = size v -> sW v' = 0 -> sR v' = 0 -> begun file v' ->
    place_ok PReader v' w (RPart d)) as Hpart.
  { intros v1 H1 H2 H3 H4. cbn. rewrite H1. split_and!; try done. }
  destruct (Hx eq_refl eq_refl) as [[-> ->]|[Hle ->]].
  { exists (RPart d), PReader. split_and!; [by apply Hpart|done|].
    apply HQ1. pose proof (slen_nonneg d). lia. }
  destruct (Z.eq_dec x (slen d)) as [->|Hne].
  - exists (RWritten d), PReader. split_and!; [|done|apply HQ].
    rewrite stake_all by done. cbn. split_and!; try done; [unfold settled; cbn; by rewrite <- app_assoc_s|].
    by destruct w.
  - exists (RPart d), PReader. split_and!; [apply Hpart; try done|done|by apply HQ1].
    exists (sdrop x d +:+ inp v). cbn. rewrite Hf, <- (stake_sdrop x d) at 1.
    by rewrite <- !app_assoc_s.
Qed.

Lemma reader_load_written d (Q : res Z -> local -> ghost -> Prop) l r :
  r = RWritten d \/ r = RPart d ->
  (forall e, Q (Returned (slen d)) (answered e l) (GR r)) ->
  csafe 1 (sys (LoadInt (bufferSize shmp))) Q l (GR r).
Proof.
  intros Hr HQ. apply reader_call; [done|]. intros v w p Hp. split; [by intros []|].
  intros x v' e [-> Hx]. rewrite (Hx eq_refl). exists r, p.
  assert (p = PReader) as -> by (refine (reader_place _ _ _ _ _ Hp); by destruct Hr as [-> | ->]).
  assert (size v = slen d) as -> by (destruct Hr as [-> | ->]; cbn in Hp; tauto).
  split_and!; [done|by destruct Hr as [-> | ->]|apply HQ].
Qed.

(** The release of WRITE_SEM, in the loop and at the end. *)
Lemma reader_release r r' (Q : res Z -> local -> ghost -> Prop) l :
  (exists d, r = RWritten d /\ r' = RIdle) \/ r = RZero /\ r' = RDone ->
  (forall e, Q (Returned (-1)) (answered e l) (GR r)) ->
  (forall e, Q (Returned 0) (answered e l) (GR r')) ->
  csafe 1 (release semid WRITE_SEM) Q l (GR r).
Proof.
  intros Hr HQ1 HQ. apply reader_call; [done|]. intros v w p Hp.
  assert (p = PReader) as -> by (refine (reader_place _ _ _ _ _ Hp); by destruct Hr as [(d & -> & _)|[-> _]]).
  destruct Hp as (HW & HR & Hp).
  split; [intros Hb; specialize (Hb eq_refl); cbn in Hb; lia|].
  intros x v' e [[-> ->]|[-> Hx]].
  { exists r, PReader. split_and!; [by split_and!|by destruct Hr as [(d & -> & _)|[-> _]]|done]. }
  destruct (Hx eq_refl) as [_ ->]. exists r', PWrite.
  split_and!; [|by destruct Hr as [(d & _ & ->)|[_ ->]]|done].
  cbn. rewrite HW. split_and!; [done|done| |].
  - by destruct Hr as [(d & -> & _)|[-> _]]; destruct Hp as (? & ? & _).
  - destruct Hr as [(d & -> & ->)|[-> ->]].
    + destruct Hp as (Hd & Hs & Hsize & Hw). destruct w; try done; [|left; by left].
      split; [done|]. left. split; [|by left]. intros ->. destruct Hd. apply slen_0. congruence.
    + destruct Hp as (Hs & Hi & Hw). assert (over v RDone) as Ho by (by split; [left|]).
      destruct w; try done; [|by right]. destruct Hw as [? ->]. split; [done|]. right. by split.
Qed.

Lemma reader_transfer l :
  csafe 1 (svshm_xfr_reader.transfer semid shmp) (fun r l' g' =>
    match r with Returned _ => g' = GR RZero | Stopped s => ended 1 (Stopped s) l' g' end)
    l (GR RIdle).
Proof.
  unfold svshm_xfr_reader.transfer.
  eapply csafe_iter with (I := fun _ _ g => g = GR RIdle); [|done].
  intros [xfrs bytes] l' g ->. apply csafe_bind, reader_reserve; intros l1.
  3:{ cs_go. by apply reader_stopped. }
  2:{ cs_go. apply reader_load_zero. intros e. by cs_go. }
  intros d Hd. cs_go. apply reader_load_hold. intros e.
  assert ((slen d =? 0) = false) as -> by (apply Z.eqb_neq; intros ?%slen_0; done).
  cs_go. apply reader_load_hold. intros e1. cs_go. apply reader_bytes. intros e2. cs_go.
  apply reader_write; [done| |].
  - intros e3. cs_go. eapply reader_load_written; [by left|]. intros e4. rewrite Z.eqb_refl. cs_go.
    eapply reader_release; [left; by eexists| |]; intros e5; cs_go; [by apply reader_stopped|].
    eapply reader_quiet; [apply quiet_load|done|]. intros x e6 _. by cs_go.
  - intros e3 x Hx. cs_go. eapply reader_load_written; [by right|]. intros e4.
    rewrite (proj2 (Z.eqb_neq _ _) Hx). cs_go. by apply reader_stopped.
Qed.

Lemma reader_end p v w : place_ok p v w RDone -> place_ok p v w REnd.
Proof.
  assert (over v RDone -> over v REnd) as Ho by (intros [_ ?]; split; [by right|done]).
  assert (r_idle RDone <-> False) as Hi by (split; [intros [|]; done|done]).
  destruct p; cbn; try tauto; destruct w; tauto.
Qed.

Lemma reader_main argv : csafe 1 (svshm_xfr_reader.main argv) (ended 1) local0 (GR RIdle).
Proof.
  unfold svshm_xfr_reader.main.
  apply csafe_bind. eapply reader_quiet; [apply quiet_semget|done|]. intros x e Hx.
  cs_go; [by apply reader_stopped|]. apply Z.eqb_neq in Hb. destruct Hx as [|Hx]; [done|].
  rewrite (Hx eq_refl). clear x Hx Hb.
  eapply reader_quiet; [apply quiet_shmget|done|]. intros y e2 Hy.
  cs_go; [by apply reader_stopped|]. apply Z.eqb_neq in Hb. destruct Hy as [|Hy]; [done|].
  rewrite (Hy eq_refl). clear y Hy Hb.
  eapply reader_quiet; [apply quiet_shmat|done|]. intros y e3 Hy.
  cs_go; [by apply reader_stopped|]. apply Z.eqb_neq in Hb. destruct Hy as [|Hy]; [done|].
  rewrite (Hy eq_refl). clear y Hy Hb.
  eapply csafe_mono; [apply reader_transfer|]. intros [[xfrs bytes]|s] l g; [|done]. intros ->. cs_go.
  eapply reader_quiet; [apply quiet_shmdt|done|]. intros y e5 _. cs_go; [by apply reader_stopped|].
  eapply reader_release; [right; by split| |]; intros e6; cs_go; [by apply reader_stopped|].
  apply ended_view. intros v gs (p & w & r & -> & Hp) [= ->]. exists (GR REnd).
  split_and!; [|done|by split; [|right]]. intros _. exists p, w, REnd.
  split; [done|]. by apply reader_end.
Qed.
End Safe.

(** ** Every interleaving of the two programs *)
Definition xfer0 (file : string) (v : xfer) : Prop :=
  sW v = 0 /\ sR v = 0 /\ inp v = file /\ outp v = "".


Section Pools.
Context {M : Machine} `{CText} (semid shmid shmp : Z) {HM : Implements M (shm_spec semid shmid shmp)}.

Definition both (wargv rargv : list string) : list (prog Z) :=
  [svshm_xfr_writer.main wargv; svshm_xfr_reader.main rargv].

Lemma both_ok file wargv rargv m sched p :
  xfer0 file (view m) -> exec no_threads sched (start (both wargv rargv) m) = Some p ->
  forall k, pool_ok (P := view_protocol (P := xfer_protocol file)) k p.
Proof.
  intros (HW & HR & Hi & Ho) He.
  eapply (start_ok no_threads (P := view_protocol (P := xfer_protocol file))); [|  | |exact He].
  - done.
  - exists PInit, W0, RIdle. split; [reflexivity|]. cbn. unfold settled. rewrite Hi, Ho.
    split_and!; try done; by left.
  - constructor; [|constructor; [|constructor]]; (split; [done|]; split; [done|]); intros [|[|i]] Hi' Hg; try done.
    + apply csafe_ended. by eapply writer_main.
    + apply csafe_ended. by eapply reader_main.
Qed.

Lemma both_running wargv rargv m sched p :
  exec no_threads sched (start (both wargv rargv) m) = Some p -> p_over p = false.
Proof. apply never_over. intros i r. by rewrite (sp_end (S := shm_spec semid shmid shmp)). Qed.

(** C13: Whatever the interleaving of the two programs of svshm, with any
    interruptions and failures of their calls, what the reader has written is
    always a prefix of the writer's input: no byte is lost, repeated or
    reordered. *)
Theorem svshm_output_prefix file wargv rargv m sched p :
  xfer0 file (view m) -> exec no_threads sched (start (both wargv rargv) m) = Some p ->
  exists rest, file = outp (view (p_mach p)) +:+ rest.
Proof.
  intros H0 He. pose proof (both_running _ _ _ _ _ He) as Ho.
  destruct (both_ok _ _ _ _ _ _ H0 He 0) as (gs & HI & _). by eapply inv_begun, HI.
Qed.

(** C3: When the writer of svshm or the reader returns, whatever the
    interleaving, it returns success and the whole input has been written by the
    reader: the writer does not end, and remove the segment, before the reader
    is done. *)
Theorem svshm_complete file wargv rargv m sched p i z out :
  xfer0 file (view m) -> exec no_threads sched (start (both wargv rargv) m) = Some p ->
  outcome i p = Some (Returned z, out) ->
  z = EXIT_SUCCESS /\ outp (view (p_mach p)) = file.
Proof.
  intros H0 He Hr. pose proof (both_running _ _ _ _ _ He) as Ho.
  destruct (ended_task _ _ _ _ (both_ok _ _ _ _ _ _ H0 He 0) Hr) as (l & g & gs & _ & HD & Hg & HI).
  specialize (HI Ho). destruct HD as [-> HD]. split; [done|]. eapply inv_complete; [exact HI|].
  destruct HI as (p0 & w & r & -> & _). destruct i as [|[|i]]; cbn in Hg; try done; injection Hg as <-.
  - left. by destruct HD as [[= ->]|].
  - right. by destruct HD as [|[= ->]].
Qed.

(** C31: The writer and the reader of svshm do not deadlock: in every state an
    interleaving reaches, if neither has failed and they have not both
    returned, one of them can take a step. *)
Theorem svshm_progress file wargv rargv m sched p :
  xfer0 file (view m) -> exec no_threads sched (start (both wargv rargv) m) = Some p ->
  (forall i s out, outcome i p <> Some (Stopped s, out)) ->
  outcome 0 p = None \/ outcome 1 p = None ->
  exists i p', step1 no_threads i p = Some p'.
Proof.
  intros H0 He Hs Hn. pose proof (both_running _ _ _ _ _ He) as Ho.
  eapply pool_progress; [by eapply (both_ok file)|done|].
  intros gs (p0 & w & r & -> & Hp) _ Hend.
  assert (forall i g, [GW w; GR r] !! i = Some g -> gh_alive g = false ->
    g = GW WEnd \/ g = GR REnd) as Hdead.
  { intros i g Hg Ha. destruct (Hend i g Hg Ha) as ([z|s] & l & Hr & HD); [by destruct HD|].
    by destruct (Hs i s (l_out l)). }
  assert (w <> WGone) as Hw by (intros ->; by destruct (Hdead 0%nat _ eq_refl eq_refl)).
  assert (r <> RGone) as Hr by (intros ->; by destruct (Hdead 1%nat _ eq_refl eq_refl)).
  assert (gh_alive (GW w) = true \/ gh_alive (GR r) = true) as Ha.
  { destruct (gh_alive (GW w)) eqn:Ew; [by left|]. destruct (gh_alive (GR r)) eqn:Er; [by right|].
    destruct (Hend 0%nat _ eq_refl Ew) as (r0 & l0 & H1 & _).
    destruct (Hend 1%nat _ eq_refl Er) as (r1 & l1 & H2 & _). destruct Hn; congruence. }
  enough ((gh_alive (GW w) = true /\ ~ vwaits (VProtocol := xfer_protocol file) 0 (GW w) (view (p_mach p)) [GW w; GR r])
    \/ (gh_alive (GR r) = true /\ ~ vwaits (VProtocol := xfer_protocol file) 1 (GR r) (view (p_mach p)) [GW w; GR r]))
    as [[H1 H2]|[H1 H2]]; [by exists 0%nat, (GW w)|by exists 1%nat, (GR r)|].
  destruct p0; cbn in Hp.
  - left. destruct Hp as (_ & _ & _ & _ & [-> | ->]); [|done]. split; [done|]. cbn. tauto.
  - destruct Hp as (HW & _ & _ & Hp). left. destruct w; try done; cbn; (split; [done|]); rewrite ?HW; lia || tauto.
  - destruct Hp as (_ & _ & Hp). destruct w; try done; try (left; split; [done|]; cbn; tauto).
    right. destruct Hp as [_ [[-> | ->] _]]; [|by destruct Ha]. split; [done|]. cbn. tauto.
  - destruct Hp as (_ & HR & [-> | ->] & _); [|done]. right. split; [done|]. cbn. rewrite HR. lia.
  - right. destruct r; try tauto; (split; [done|]); cbn; tauto.
Qed.
End Pools.

(** ** An implementation *)
Definition the_semid : Z := 1.
Definition the_shmid : Z := 2.
Definition the_shmp : Z := 4096.

Definition xfer_mcall {X} (i : nat) (s : SysE X) (v : xfer) : option (X * option Z * xfer) :=
  match s in SysE X return option (X * option Z * xfer) with
  | Semget _ _ _ => Some (the_semid, None, v)
  | Shmget _ _ _ => Some (the_shmid, None, v)
  | Shmat _ _ => Some (the_shmp, None, v)
  | Shmdt _ | ShmctlRmid _ | SemctlRmid _ => Some (0, None, v)
  | SemctlSetval _ num z => Some (0, None, set_sem num z v)
  | Semop _ [Sembuf num op _] =>
      if 0 <=? sem num v + op then Some (0, None, set_sem num (sem num v + op) v) else None
  | LoadInt _ => Some (size v, None, v)
  | StoreInt _ z => Some (tt, None, set_size z v)
  | LoadBytes _ n => Some (stake n (buf v), None, v)
  | StoreBytes _ d => Some (tt, None, set_buf (overlay d (buf v)) v)
  | Read _ count => 
      let d := stake count (inp v) in Some ((slen d, d), None, set_inp (sdrop count (inp v)) v)
  | Write _ d => Some (slen d, None, set_outp (outp v +:+ d) v)
  | s => Some (refuse s, None, v)
  end.

#[export] Instance shm_machine : Machine := {|
  mstate := xfer;
  mcall X i n s v := xfer_mcall i s v;
  mexit _ _ v := v;
  mend _ _ := false |}.

#[export] Instance shm_machine_ok : Implements shm_machine (shm_spec the_semid the_shmid the_shmp).
Proof.
  refine {| view := fun v : mstate (Machine := shm_machine) => v |}; [| |done|done].
  - intros X s i n m x e m'. cbn [mcall shm_machine mstate shm_spec answers]. destruct s; cbn;
      try (intros [= <- <- <-]; by auto).
    + intros [= <- <- <-] _ _ Hc. right. cbn. rewrite slen_stake, stake_sdrop by lia.
      split_and!; [done|lia|done|done|]. intros Hd. apply slen_0.
      pose proof (slen_stake count (inp m) ltac:(lia)) as Hl. rewrite Hd in Hl.
      change (slen "") with 0 in Hl. pose proof (slen_nonneg (inp m)). lia.
    + intros [= <- <- <-] _ _. right. rewrite stake_all by done. pose proof (slen_nonneg data).
      split; [lia|done].
    + destruct ops as [|[num op flg] [|]]; cbn; try done.
      destruct (Z.leb_spec 0 (sem num m + op)); [|done]. intros [= <- <- <-]. right. by split.
  - intros X s i n m. cbn [mcall shm_machine mstate shm_spec blocks]. destruct s; cbn; try done.
    destruct ops as [|[num op flg] [|]]; cbn; try done.
    destruct (Z.leb_spec 0 (sem num m + op)); [done|]. intros; lia.
Defined.

#[local] Existing Instance plain_text.

Definition hello : xfer := mkX 0 0 0 "" "hello" "".

(** The two programs, taking turns. *)
Definition hello_end : pool :=
  round_robin no_threads 200 (start (M := shm_machine) (both ["svshm_xfr_writer"] ["svshm_xfr_reader"]) hello).

Lemma hello_run :
  exists sched, exec no_threads sched
    (start (M := shm_machine) (both ["svshm_xfr_writer"] ["svshm_xfr_reader"]) hello) = Some hello_end.
Proof. apply round_robin_exec. Qed.

Lemma svshm_output_prefix_witness :
  exists rest, "hello" = outp (p_mach hello_end) +:+ rest.
Proof.
  assert (forall sched p, exec no_threads sched
    (start (M := shm_machine) (both ["svshm_xfr_writer"] ["svshm_xfr_reader"]) hello) = Some p ->
    exists rest, "hello" = outp (p_mach p) +:+ rest) as H.
  { intros sched p He.
    apply (svshm_output_prefix (M := shm_machine) (HM := shm_machine_ok) the_semid the_shmid the_shmp
      "hello" ["svshm_xfr_writer"] ["svshm_xfr_reader"] hello sched p); [repeat split|exact He]. }
  destruct hello_run as [sched He]. exact (H sched hello_end He).
Defined.

Lemma svshm_complete_witness :
  outcome 1 hello_end = Some (Returned 0, [EPrint stdout (format "Received %d bytes (%d xfrs)\n" [Int 5; Int 1])]) /\
  outp (p_mach hello_end) = "hello".
Proof.
  assert (forall sched p out, exec no_threads sched
    (start (M := shm_machine) (both ["svshm_xfr_writer"] ["svshm_xfr_reader"]) hello) = Some p ->
    outcome 1 p = Some (Returned 0, out) -> outp (p_mach p) = "hello") as H.
  { intros sched p out He Hr.
    apply (svshm_complete (M := shm_machine) (HM := shm_machine_ok) the_semid the_shmid the_shmp
      "hello" ["svshm_xfr_writer"] ["svshm_xfr_reader"] hello sched p 1 0 out); [repeat split|exact He|exact Hr]. }
  assert (outcome 1 hello_end =
    Some (Returned 0, [EPrint stdout (format "Received %d bytes (%d xfrs)\n" [Int 5; Int 1])])) as Hr
    by (vm_compute; reflexivity).
  split; [exact Hr|]. destruct hello_run as [sched He]. exact (H sched hello_end _ He Hr).
Defined.

Lemma svshm_progress_witness :
  exists i p', step1 no_threads i
    (start (M := shm_machine) (both ["svshm_xfr_writer"] ["svshm_xfr_reader"]) hello) = Some p'.
Proof.
  apply (svshm_progress (M := shm_machine) (HM := shm_machine_ok) the_semid the_shmid the_shmp
    "hello" ["svshm_xfr_writer"] ["svshm_xfr_reader"] hello []).
  - repeat split.
  - reflexivity.
  - intros [|[|i]] s out; cbn; discriminate.
  - left. reflexivity.
Defined.

(** The count the reader prints is not protected by the semaphores: after
    it has released WRITE_SEM it adds whatever size the writer has stored since.
    An interleaving in which all 5 bytes arrive, both programs return success,
    and the reader reports 0 bytes. *)
Theorem svshm_count_races :
  exists sched p,
    exec no_threads sched
      (start (M := shm_machine) (both ["svshm_xfr_writer"] ["svshm_xfr_reader"]) hello) = Some p /\
    outp (p_mach p) = "hello" /\
    outcome 0 p = Some (Returned EXIT_SUCCESS,
      [EPrint stdout (format "Sent %d bytes (%d xfrs)\n" [Int 5; Int 2])]) /\
    outcome 1 p = Some (Returned EXIT_SUCCESS,
      [EPrint stdout (format "Received %d bytes (%d xfrs)\n" [Int 0; Int 1])]).
Proof.
  destruct (turns_exec no_threads (flat_map (fun _ => 1%nat :: repeat 0%nat 30) (seq 0 100))
    (start (M := shm_machine) (both ["svshm_xfr_writer"] ["svshm_xfr_reader"]) hello)) as [sched Hs].
  eexists sched, _. split; [exact Hs|]. vm_compute. by split_and!.
Qed.
