(* ===== verification/PipeSpec.v ===== *)
(** * What the programs of pipes/ rely on from processes and a pipe

    [pipe_spec] is the interface: the processes with the ends of the pipe each
    has open, the bytes in the pipe, and what has been written on the standard
    output they share. A fork copies the ends; a read meets the end of the pipe
    only when no process has the write end open any more; the end of a process
    closes its ends and lets its parent's wait return. A process that writes to a
    pipe nobody reads goes on with a failed write; the signal SIGPIPE is left out.
    [pipe_machine] implements
    it. *)

From S2P Require Import Prelude.
From S2P Require Import CLib.
From S2P Require Import Sys.
From S2P Require Import Sem.
From S2P Require Import Conc.

Record proc := mkProc {
  parent : option nat; has_rd : bool; has_wr : bool; gone : bool; reaped : bool }.
(** The first process is nobody's child. *)
Record pipes := mkPipes { procs : list proc; pbuf : string; sout : string }.

Definition set_rd (b : bool) (c : proc) : proc := mkProc (parent c) b (has_wr c) (gone c) (reaped c).
Definition set_wr (b : bool) (c : proc) : proc := mkProc (parent c) (has_rd c) b (gone c) (reaped c).
Definition set_reaped (c : proc) : proc := mkProc (parent c) (has_rd c) (has_wr c) (gone c) true.
(** The end of a process. *)
Definition end_proc (c : proc) : proc := mkProc (parent c) false false true (reaped c).
Definition child_of (i : nat) (c : proc) : proc := mkProc (Some i) (has_rd c) (has_wr c) false false.

Definition on_proc (i : nat) (f : proc -> proc) (v : pipes) : pipes :=
  mkPipes (alter f i (procs v)) (pbuf v) (sout v).
Definition set_pbuf (s : string) (v : pipes) : pipes := mkPipes (procs v) s (sout v).
Definition set_sout (s : string) (v : pipes) : pipes := mkPipes (procs v) (pbuf v) s.
Definition add_proc (c : proc) (v : pipes) : pipes := mkPipes (procs v ++ [c]) (pbuf v) (sout v).

Definition proc_at (i : nat) (v : pipes) : proc := default (mkProc None false false true true) (procs v !! i).
Definition writers (v : pipes) : bool := existsb has_wr (procs v).
Definition readers (v : pipes) : bool := existsb has_rd (procs v).
Definition waited_for (i : nat) (c : proc) : bool :=
  match parent c with Some j => (j =? i)%nat | None => false end && negb (reaped c).

Section Spec.
Context (rfd wfd : Z).

(** A call that fails changes nothing, except that a failed close may have closed
    the descriptor. *)
Definition closed (i : nat) (f : proc -> proc) (v : pipes) (x : Z) (v' : pipes) : Prop :=
  v' = on_proc i f v \/ (x = -1 /\ v' = v).

Definition pipe_answers {X} (i n : nat) (s : SysE X) (v : pipes) : X -> pipes -> Prop :=
  match s in SysE X return X -> pipes -> Prop with
  | Pipe => fun x v' =>
      (x.1 = -1 /\ v' = v) \/
      (x.1 <> -1 /\ x.2 = (rfd, wfd) /\ NoDup [STDOUT_FILENO; rfd; wfd] /\
       v' = on_proc i (fun c => set_rd true (set_wr true c)) (set_pbuf "" v))
  | Fork => fun x v' =>
      (x = -1 /\ v' = v) \/ (0 < x /\ v' = add_proc (child_of i (proc_at i v)) v)
  | Close fd => fun x v' =>
      if fd ==? rfd then closed i (set_rd false) v x v'
      else if fd ==? wfd then closed i (set_wr false) v x v' else v' = v
  | Read fd count => fun x v' =>
      if fd ==? rfd then
        0 < count ->
        (x.1 = -1 /\ v' = v) \/
        (x.1 = slen x.2 /\ slen x.2 <= count /\ pbuf v = x.2 +:+ pbuf v' /\ v' = set_pbuf (pbuf v') v /\
         (x.2 = "" -> pbuf v = "" /\ writers v = false))
      else v' = v
  | Write fd d => fun x v' =>
      (x = -1 /\ v' = v) \/
      (0 <= x <= slen d /\
       v' = if fd ==? wfd then set_pbuf (pbuf v +:+ stake x d) v
            else if fd ==? STDOUT_FILENO then set_sout (sout v +:+ stake x d) v else v)
  | Wait => fun x v' =>
      (x = -1 /\ v' = v) \/
      (0 < x /\ exists j c, procs v !! j = Some c /\ waited_for i c = true /\ gone c = true /\
        v' = on_proc j set_reaped v)
  | _ => fun _ v' => v' = v
  end.

(** A read waits for bytes or the end, a write for a reader to make room, a wait
    for a child to end. *)
Definition pipe_blocks {X} (i : nat) (s : SysE X) (v : pipes) : Prop :=
  match s in SysE X return Prop with
  | Read fd _ => fd = rfd -> pbuf v = "" /\ writers v = true
  | Write fd _ => fd = wfd /\ pbuf v <> "" /\ readers v = true
  | Wait => exists j c, procs v !! j = Some c /\ waited_for i c = true /\ gone c = false
  | _ => False
  end.

(** Processes end one by one. *)
Definition pipe_spec : Spec pipes := {|
  answers X := pipe_answers;
  blocks X := pipe_blocks;
  at_exit i r v := on_proc i end_proc v;
  ends_all _ _ := false |}.
End Spec.

Abbreviation Pipes M rfd wfd := (Implements M (pipe_spec rfd wfd)).

(** ** Lemmas on the views *)
Lemma procs_on i f v j : procs (on_proc i f v) !! j = if decide (i = j) then f <$> procs v !! j else procs v !! j.
Proof.
  unfold on_proc. cbn. case_decide as H; [subst; apply list_lookup_alter_eq|by apply list_lookup_alter_ne].
Qed.

Lemma length_on i f v : length (procs (on_proc i f v)) = length (procs v).
Proof. apply length_alter. Qed.

Lemma on_proc_id i v : on_proc i (fun c => c) v = v.
Proof.
  destruct v as [cs b o]. unfold on_proc. cbn. f_equal. apply list_eq. intros j.
  destruct (decide (i = j)) as [->|Hne]; [|by rewrite list_lookup_alter_ne].
  rewrite list_lookup_alter_eq. by destruct (cs !! j).
Qed.

Lemma writers_false v : writers v = false <-> forall j c, procs v !! j = Some c -> has_wr c = false.
Proof.
  unfold writers. rewrite <- not_true_iff_false, existsb_exists. split.
  - intros H j c Hj. apply not_true_iff_false. intros Hc. destruct H. exists c.
    split; [by eapply list_elem_of_In, list_elem_of_lookup_2|done].
  - intros H (c & Hin & Hc). apply list_elem_of_In, list_elem_of_lookup_1 in Hin as [j Hj].
    rewrite (H _ _ Hj) in Hc. done.
Qed.

Lemma writers_true v : writers v = true <-> exists j c, procs v !! j = Some c /\ has_wr c = true.
Proof.
  unfold writers. rewrite existsb_exists. split.
  - intros (c & Hin & Hc). apply list_elem_of_In, list_elem_of_lookup_1 in Hin as [j Hj]. eauto.
  - intros (j & c & Hj & Hc). exists c. split; [by eapply list_elem_of_In, list_elem_of_lookup_2|done].
Qed.

(** ** An implementation

    The ends of the pipe are 3 and 4; a pipe takes a write when it is empty. A
    process with number [n] has the identifier 100 + n. *)
Definition ended_child (i : nat) (v : pipes) : option (nat * proc) :=
  list_find (fun c => waited_for i c && gone c = true) (procs v).
Definition live_child (i : nat) (v : pipes) : bool :=
  existsb (fun c => waited_for i c && negb (gone c)) (procs v).

Definition pipe_mcall {X} (i n : nat) (s : SysE X) (v : pipes) : option (X * option Z * pipes) :=
  match s in SysE X return option (X * option Z * pipes) with
  | Pipe => Some ((0, (3, 4)), None, on_proc i (fun c => set_rd true (set_wr true c)) (set_pbuf "" v))
  | Fork => Some (100 + Z.of_nat n, None, add_proc (child_of i (proc_at i v)) v)
  | Close fd =>
      if fd ==? 3 then Some (0, None, on_proc i (set_rd false) v)
      else if fd ==? 4 then Some (0, None, on_proc i (set_wr false) v) else Some (-1, Some EBADF, v)
  | Read fd count =>
      if negb (fd ==? 3) || (count <=? 0) then Some ((-1, ""), Some EBADF, v)
      else if streq (pbuf v) "" && writers v then None
      else let d := stake count (pbuf v) in Some ((slen d, d), None, set_pbuf (sdrop (slen d) (pbuf v)) v)
  | Write fd d =>
      if fd ==? 4 then
        if negb (readers v) then Some (-1, Some EPIPE, v)
        else if negb (streq (pbuf v) "") then None
        else Some (slen d, None, set_pbuf (pbuf v +:+ d) v)
      else if fd ==? STDOUT_FILENO then Some (slen d, None, set_sout (sout v +:+ d) v)
      else Some (-1, Some EBADF, v)
  | Wait =>
      match ended_child i v with
      | Some (j, _) => Some (100 + Z.of_nat j, None, on_proc j set_reaped v)
      | None => if live_child i v then None else Some (-1, Some ECHILD, v)
      end
  | Sleep _ => Some (0, None, v)
  | Getpid => Some (100 + Z.of_nat i, None, v)
  | s => Some (refuse s, None, v)
  end.

#[export] Instance pipe_machine : Machine := {|
  mstate := pipes;
  mcall X i n s v := pipe_mcall i n s v;
  mexit i r v := on_proc i end_proc v;
  mend i r := false |}.

Lemma live_child_spec i v :
  live_child i v = true <-> exists j c, procs v !! j = Some c /\ waited_for i c = true /\ gone c = false.
Proof.
  unfold live_child. rewrite existsb_exists. split.
  - intros (c & Hin & [Hw Hg]%andb_true_iff).
    apply list_elem_of_In, list_elem_of_lookup_1 in Hin as [j Hj]. apply negb_true_iff in Hg. eauto.
  - intros (j & c & Hj & Hw & Hg). exists c. rewrite Hw, Hg.
    split; [by eapply list_elem_of_In, list_elem_of_lookup_2|done].
Qed.

Lemma pipe_mcall_ok {X} (s : SysE X) i n v x e v' :
  pipe_mcall i n s v = Some (x, e, v') -> pipe_answers 3 4 i n s v x v'.
Proof.
  destruct s; cbn; try (intros [= <- <- <-]; done).
  - destruct (fd ==? 3); cbn [negb orb]; [|by intros [= <- <- <-]]. intros H Hc.
    rewrite (proj2 (Z.leb_gt _ _) Hc) in H. right. revert H.
    destruct (streq (pbuf v) "" && writers v) eqn:Hw; [done|]. intros [= <- <- <-]. cbn.
    assert (slen (stake count (pbuf v)) <= count /\ (stake count (pbuf v) = "" -> pbuf v = "")) as [Hle He].
    { rewrite slen_stake by lia. split; [lia|]. intros Hs%(f_equal slen). rewrite slen_stake in Hs by lia.
      apply slen_0. change (slen "") with 0 in Hs. lia. }
    split_and!; try done.
    + pose proof (sdrop_app (stake count (pbuf v)) (sdrop count (pbuf v))) as Hd.
      rewrite stake_sdrop in Hd. by rewrite Hd, stake_sdrop.
    + intros Hs. specialize (He Hs). split; [done|]. rewrite He in Hw. done.
  - repeat case_match; intros [= <- <- <-]; auto.
    all: right; (split; [pose proof (slen_nonneg data); lia|by rewrite stake_all]).
  - repeat case_match; intros [= <- <- <-]; auto; by left.
  - intros [= <- <- <-]. right. split; [lia|done].
  - destruct (ended_child i v) as [[j c]|] eqn:E; [|case_match; [done|]; intros [= <- <- <-]; by left].
    intros [= <- <- <-]. right. split; [lia|].
    apply list_find_Some in E as (Hj & [Hw Hg]%andb_true_iff & _). by exists j, c.
  - intros [= <- <- <-]. right. split_and!; try done.
    by apply (bool_decide_eq_true_1 (NoDup [STDOUT_FILENO; 3; 4])).
Qed.

Lemma pipe_mcall_waits {X} (s : SysE X) i n v : pipe_mcall i n s v = None -> pipe_blocks 3 4 i s v.
Proof.
  destruct s; cbn; try done.
  - intros H ->. revert H. cbn. case_match; [done|].
    destruct (streq (pbuf v) "") eqn:E; [|done]. apply streq_spec in E. by destruct (writers v).
  - destruct (Z.eqb_spec fd 4) as [->|]; [|by case_match].
    destruct (readers v); [|done]. cbn. destruct (streq (pbuf v) "") eqn:E; [done|].
    by apply streq_neq in E.
  - by repeat case_match.
  - destruct (ended_child i v) as [[j c]|]; [done|].
    destruct (live_child i v) eqn:E; [|done]. intros _. by apply live_child_spec.
Qed.

#[export] Instance pipe_machine_ok : Implements pipe_machine (pipe_spec 3 4).
Proof.
  refine {| view := fun v : mstate (Machine := pipe_machine) => v |}; [| |done|done].
  - intros X s i n m x e m'. apply pipe_mcall_ok.
  - intros X s i n m. apply pipe_mcall_waits.
Defined.
