(* ===== verification/PipeSync.v ===== *)
(** * pipes/pipe_sync.c: a pipe as a barrier

    The parent shares a pipe with its children, which write nothing to it; the
    read of the parent returns when the last of them has closed its end. The
    theorems hold for every interleaving of the parent and the children it makes,
    over any machine that implements [pipe_spec]. *)

From S2P Require Import Prelude.
From S2P Require Import CLib.
From S2P Require Import Sys.
From S2P Require Import Sem.
From S2P Require Import Conc.
From S2P Require Import PipeSpec.
From S2P Require Import Pipes.

Import pipe_sync.

(** ** The protocol *)
Inductive cst := CRun | CShut | CDone | CFailed.
Inductive gh :=
| P0                     (* no pipe yet *)
| PFork (k : nat)        (* the pipe is open, there are [k] processes *)
| PShut                  (* has closed its write end *)
| PErr                   (* has failed to close its write end *)
| PEof (w : nat)         (* has met the end of the pipe and waited for [w] children *)
| PDone
| PFailed (eof : bool)   (* before or after it met the end *)
| C (i : Z) (st : cst).  (* the child number [i] *)

Definition gh_alive (g : gh) : bool :=
  match g with PDone | PFailed _ | C _ CDone | C _ CFailed => false | _ => true end.

Definition ready : event := EPrint stdout (format "Parent ready to go\n" []).
Definition said (i : Z) (out : list event) : Prop :=
  exists pid, EPrint stdout (format "Child %d (PID=%ld) closing pipe\n" [Int i; Int pid]) ∈ out.

(** The parent is not ready before the end of the pipe; a child that has closed its
    end has said so. *)
Definition gh_says (g : gh) (out : list event) : Prop :=
  match g with
  | P0 | PFork _ | PShut | PErr => ready ∉ out
  | C i CShut => said i out
  | _ => True
  end.

(** The children that have been waited for. *)
Definition reaped_count (cs : list proc) : nat := foldr (fun c n => if reaped c then S n else n) 0%nat cs.

(** Past the barrier no child holds the write end. *)
Definition passed (gs : list gh) : Prop := forall j i, gs !! j <> Some (C i CRun).

Definition proc_ok (j : nat) (c : proc) (g : gh) : Prop :=
  gone c = negb (gh_alive g) /\ (gone c = true -> has_wr c = false) /\
  (reaped c = true -> gone c = true /\ j <> 0%nat) /\
  match g with
  | C i st => j <> 0%nat /\ i = Z.of_nat j /\ parent c = Some 0%nat /\ (st = CRun -> has_wr c = true)
  | _ => j = 0%nat /\ parent c = None /\
      match g with PFork _ => has_wr c = true | PShut | PEof _ => has_wr c = false | _ => True end
  end.

Section Protocol.
Context (n : Z).

(** The number of processes, by the state of the parent: [n] with it in the end. *)
Definition parent_ok (v : pipes) (gs : list gh) (g : gh) : Prop :=
  match g with
  | P0 => length gs = 1%nat /\ reaped_count (procs v) = 0%nat
  | PFork k => length gs = k /\ reaped_count (procs v) = 0%nat /\ pbuf v = ""
  | PShut => Z.of_nat (length gs) = n /\ reaped_count (procs v) = 0%nat /\ pbuf v = ""
  | PFailed true => Z.of_nat (length gs) = n /\ passed gs
  | PEof w => Z.of_nat (length gs) = n /\ passed gs /\ reaped_count (procs v) = w
  | PDone => Z.of_nat (length gs) = n /\ passed gs /\ forall j g, gs !! j = Some g -> gh_alive g = false
  | _ => True
  end.

Record sync_inv (v : pipes) (gs : list gh) : Prop := {
  si_len : length (procs v) = length gs;
  si_procs : forall j c g, procs v !! j = Some c -> gs !! j = Some g -> proc_ok j c g;
  si_parent : exists g, gs !! 0%nat = Some g /\ parent_ok v gs g }.

Definition sync_done (i : nat) (r : res Z) (l : local) (g : gh) : Prop :=
  match g with
  | PDone => r = Returned EXIT_SUCCESS
  | PFailed eof => r = Stopped (Exited EXIT_FAILURE) /\ (eof = false -> ready ∉ l_out l)
  | C i CDone => r = Stopped (ImmExited EXIT_SUCCESS) /\ said i (l_out l)
  | C i CFailed => r = Stopped (Exited EXIT_FAILURE)
  | _ => False
  end.

Definition sync_protocol : VProtocol pipes := {|
  vghost := gh;
  vinv := sync_inv;
  valive := gh_alive;
  vwaits i g v gs :=
    match g with
    | PShut => writers v = true
    | PEof _ => exists j c, procs v !! j = Some c /\ waited_for 0 c = true /\ gone c = false
    | _ => False
    end;
  vsays := gh_says;
  vbegin _ _ _ := False;
  vdone := sync_done |}.

(** ** The invariant after a step *)
Lemma reaped_count_alter (f : proc -> proc) j cs :
  (forall c, reaped (f c) = reaped c) -> reaped_count (alter f j cs) = reaped_count cs.
Proof.
  intros Hf. revert j. induction cs as [|c cs IH]; intros [|j]; try done.
  - cbn. by rewrite Hf.
  - change (alter f (S j) (c :: cs)) with (c :: alter f j cs). unfold reaped_count in *.
    cbn [foldr]. by rewrite IH.
Qed.

Lemma reaped_count_set j c cs :
  cs !! j = Some c -> reaped c = false -> reaped_count (alter set_reaped j cs) = S (reaped_count cs).
Proof.
  revert j. induction cs as [|d cs IH]; intros [|j]; try done.
  - intros [= ->] Hc. cbn. by rewrite Hc.
  - intros Hj Hc. change (alter set_reaped (S j) (d :: cs)) with (d :: alter set_reaped j cs).
    unfold reaped_count in *. cbn [foldr]. rewrite (IH _ Hj Hc). by destruct (reaped d).
Qed.

Lemma reaped_count_app cs cs' : reaped_count (cs ++ cs') = (reaped_count cs + reaped_count cs')%nat.
Proof.
  unfold reaped_count. induction cs as [|c cs IH]; [done|]. cbn. rewrite IH. by destruct (reaped c).
Qed.

Lemma reaped_count_all cs :
  (forall c, cs !! 0%nat = Some c -> reaped c = false) -> S (reaped_count cs) = length cs ->
  forall j c, cs !! j = Some c -> j <> 0%nat -> reaped c = true.
Proof.
  assert (forall cs, reaped_count cs <= length cs)%nat as Hle.
  { intros l. unfold reaped_count. induction l as [|c l IH]; cbn; [done|]. destruct (reaped c); lia. }
  assert (forall l, reaped_count l = length l -> forall j c, l !! j = Some c -> reaped c = true) as Hall.
  { intros l. induction l as [|c l IH]; [done|]. unfold reaped_count. cbn. intros H. specialize (Hle l).
    unfold reaped_count in Hle. destruct (reaped c) eqn:Hc; [|lia].
    intros [|j] d; cbn; [by intros [= <-]|]. apply IH. unfold reaped_count. lia. }
  intros H0 H j c Hj Hne. destruct cs as [|d cs]; [done|]. specialize (H0 d eq_refl).
  unfold reaped_count in H. cbn in H. rewrite H0 in H. destruct j as [|j]; [done|].
  apply (Hall cs) with (j := j); [|done]. unfold reaped_count. cbn in H. lia.
Qed.

(** A change of process [j] alone. *)
Lemma sync_inv_on v gs j f g g' :
  sync_inv v gs -> gs !! j = Some g ->
  (forall c, procs v !! j = Some c -> proc_ok j c g -> proc_ok j (f c) g') ->
  (exists g0, <[j := g']> gs !! 0%nat = Some g0 /\ parent_ok (on_proc j f v) (<[j := g']> gs) g0) ->
  sync_inv (on_proc j f v) (<[j := g']> gs).
Proof.
  intros [Hl Hp _] Hg Hf Hpar. constructor; [|intros i c h|done].
  - by rewrite length_on, length_insert.
  - rewrite procs_on. intros Hc Hh. case_decide as Hd.
    + subst i. rewrite list_lookup_insert_eq in Hh by (by eapply lookup_lt_Some). simplify_eq.
      destruct (procs v !! j) as [d|] eqn:E; [|done]. injection Hc as <-. eauto.
    + rewrite list_lookup_insert_ne in Hh by done. eauto.
Qed.

Lemma passed_insert gs j g : passed gs -> (forall i, g <> C i CRun) -> passed (<[j := g]> gs).
Proof.
  intros H Hg k i Hk. apply list_lookup_insert_Some in Hk as [(-> & -> & _)|[_ Hk]]; [by eapply Hg|by eapply H].
Qed.

Lemma child_move v gs j i st st' f :
  sync_inv v gs -> gs !! j = Some (C i st) -> gh_alive (C i st) = true -> st' <> CRun ->
  (forall c, reaped (f c) = reaped c) ->
  (forall c, procs v !! j = Some c -> proc_ok j c (C i st) -> proc_ok j (f c) (C i st')) ->
  sync_inv (on_proc j f v) (<[j := C i st']> gs).
Proof.
  intros HI Hg Ha Hst Hr Hf. pose proof HI as [Hl Hp (g0 & Hg0 & Hpar)].
  assert (j <> 0%nat) as Hj.
  { destruct (lookup_lt_is_Some_2 (procs v) j) as [c Hc]; [rewrite Hl; by eapply lookup_lt_Some|].
    by destruct (Hp _ _ _ Hc Hg) as (_ & _ & _ & ? & _). }
  eapply sync_inv_on; [done|done|done|]. exists g0. rewrite list_lookup_insert_ne by done. split; [done|].
  pose proof (fun H => passed_insert gs j (C i st') H ltac:(intros i'; congruence)) as Hpass.
  destruct g0 as [| | | |w| |[]|]; cbn in *; rewrite ?length_insert, ?reaped_count_alter by done; try done.
  - destruct Hpar as (? & ? & Hw). split_and!; auto.
  - destruct Hpar as (_ & _ & Hd). specialize (Hd _ _ Hg). cbn in Hd. by destruct st.
  - by destruct Hpar; auto.
Qed.

Lemma sync_parent_move v gs g g' f :
  sync_inv v gs -> gs !! 0%nat = Some g ->
  (forall c, proc_ok 0 c g -> proc_ok 0 (f c) g') ->
  parent_ok (on_proc 0 f v) (<[0%nat := g']> gs) g' ->
  sync_inv (on_proc 0 f v) (<[0%nat := g']> gs).
Proof.
  intros HI Hg Hf Hpar. pose proof (lookup_lt_Some _ _ _ Hg).
  eapply sync_inv_on; [done|done|auto|]. exists g'. by rewrite list_lookup_insert_eq by done.
Qed.

(** A call of the parent that changes only what is known. *)
Lemma parent_stay v gs g g' :
  sync_inv v gs -> gs !! 0%nat = Some g ->
  (forall c, proc_ok 0 c g -> proc_ok 0 c g') ->
  parent_ok v (<[0%nat := g']> gs) g' ->
  sync_inv v (<[0%nat := g']> gs).
Proof.
  intros HI Hg Hc Hpar. rewrite <- (on_proc_id 0 v).
  eapply sync_parent_move; [done|done|done|]. by rewrite on_proc_id.
Qed.

(** The read ends do not matter. *)
Lemma inv_rd v gs j b : sync_inv v gs -> sync_inv (on_proc j (set_rd b) v) gs.
Proof.
  intros [Hl Hp (g & Hg & Hpar)]. constructor; [by rewrite length_on| |].
  - intros i c h Hc Hh. rewrite procs_on in Hc. case_decide; [|by eauto]. subst.
    destruct (procs v !! i) as [d|] eqn:E; [|done]. injection Hc as <-. apply (Hp _ _ _ E Hh).
  - exists g. split; [done|]. destruct g; cbn in *; rewrite ?reaped_count_alter by done; done.
Qed.

Lemma parent_fork v gs k :
  sync_inv v gs -> gs !! 0%nat = Some (PFork k) ->
  sync_inv (add_proc (child_of 0 (proc_at 0 v)) v) (<[0%nat := PFork (S k)]> gs ++ [C (Z.of_nat k) CRun]).
Proof.
  intros [Hl Hp (g0 & Hg0 & Hpar)] Hg. rewrite Hg in Hg0. injection Hg0 as <-. cbn in Hpar. destruct Hpar as (Hpar & Hr0 & Hb).
  pose proof (lookup_lt_Some _ _ _ Hg) as Hlt.
  destruct (lookup_lt_is_Some_2 (procs v) 0) as [c0 Hc0]; [lia|].
  destruct (Hp _ _ _ Hc0 Hg) as (Hgone & _ & _ & _ & _ & Hwr).
  constructor; cbn [procs add_proc pbuf].
  - rewrite !length_app, length_insert, Hl. done.
  - intros j c g Hc Hgj. rewrite lookup_app in Hc. rewrite lookup_app, length_insert in Hgj.
    destruct (procs v !! j) as [d|] eqn:Hd.
    + injection Hc as <-. pose proof (lookup_lt_Some _ _ _ Hd).
      destruct j as [|j].
      * rewrite list_lookup_insert_eq in Hgj by done. injection Hgj as <-.
        destruct (Hp _ _ _ Hd Hg) as (? & ? & ? & ? & ? & ?). by split_and!.
      * rewrite list_lookup_insert_ne in Hgj by done.
        destruct (lookup_lt_is_Some_2 gs (S j)) as [h Hh]; [lia|]. rewrite Hh in Hgj. simplify_eq. eauto.
    + apply lookup_ge_None in Hd. assert (<[0%nat := PFork (S k)]> gs !! j = None) as Hn.
      { apply lookup_ge_None. rewrite length_insert. lia. }
      rewrite Hn, <- Hl in Hgj. apply list_lookup_singleton_Some in Hc as [Hj <-].
      apply list_lookup_singleton_Some in Hgj as [_ <-].
      assert (j = length gs) as -> by lia.
      unfold proc_at. rewrite Hc0. cbn. rewrite Hpar. split_and!; try done; lia.
  - exists (PFork (S k)). rewrite lookup_app, list_lookup_insert_eq by done. split; [done|].
    cbn [parent_ok procs add_proc pbuf]. rewrite length_app, length_insert, reaped_count_app, Hr0. cbn. split_and!; [lia|lia|done].
Qed.

Lemma parent_wait v gs w j c :
  sync_inv v gs -> gs !! 0%nat = Some (PEof w) ->
  procs v !! j = Some c -> waited_for 0 c = true -> gone c = true ->
  sync_inv (on_proc j set_reaped v) (<[0%nat := PEof (S w)]> gs).
Proof.
  intros [Hl Hp (g0 & Hg0 & Hpar)] Hg Hj [Hpj Hr]%andb_true_iff Hgone. rewrite Hg in Hg0. injection Hg0 as <-.
  pose proof (lookup_lt_Some _ _ _ Hg) as Hlt. cbn in Hpar. destruct Hpar as (Hn & Hpass & Hw).
  apply negb_true_iff in Hr.
  assert (j <> 0%nat) as Hj0.
  { intros ->. destruct (Hp _ _ _ Hj Hg) as (Hd & _). cbn in Hd. congruence. }
  constructor.
  - by rewrite length_on, length_insert.
  - intros i d h Hd Hh. rewrite procs_on in Hd.
    assert (exists d', procs v !! i = Some d' /\ (d = d' \/ i = j /\ d = set_reaped d')) as (d' & Hd' & Hcase).
    { case_decide; [|by eauto]. subst. rewrite Hj in Hd. cbn in Hd. injection Hd as <-. exists c. auto. }
    assert (exists h', gs !! i = Some h' /\ (h = h' \/ i = 0%nat /\ h' = PEof w /\ h = PEof (S w))) as (h' & Hh' & Hcase').
    { destruct i as [|i]; [|rewrite list_lookup_insert_ne in Hh by done; by eauto].
      rewrite list_lookup_insert_eq in Hh by done. injection Hh as <-. exists (PEof w). auto 10. }
    destruct (Hp _ _ _ Hd' Hh') as (H1 & H2 & H3 & H4).
    destruct Hcase as [->|[-> ->]], Hcase' as [->|(Hi & -> & ->)]; try done.
    simplify_eq. split_and!; try done.
  - exists (PEof (S w)). rewrite list_lookup_insert_eq by done. split; [done|].
    cbn [parent_ok]. rewrite length_insert. split_and!; [done| |].
    + by apply passed_insert.
    + unfold on_proc. cbn [procs]. by erewrite reaped_count_set, Hw.
Qed.
End Protocol.

(** ** The programs keep to the protocol *)
Section Safe.
Context {M : Machine} `{CText} (rfd wfd : Z) {HM : Pipes M rfd wfd}.
Context (n : Z).
#[local] Instance the_protocol : VProtocol pipes := sync_protocol n.

Lemma known v gs g : sync_inv n v gs -> gs !! 0%nat = Some g -> parent_ok n v gs g.
Proof. intros [_ _ (g0 & Hg0 & Hp)] Hg. rewrite Hg in Hg0. by injection Hg0 as ->. Qed.

(** *** The ends *)
Lemma child_fails j i st l :
  gh_alive (C i st) = true -> ended j (Stopped (Exited EXIT_FAILURE)) l (C i st).
Proof.
  intros Ha. apply ended_view. intros v gs HI Hg. exists (C i CFailed).
  split_and!; [|done|done]. intros _. eapply child_move; [exact HI|exact Hg|done|done|done|].
  intros c _ (_ & _ & H3 & H4). destruct H4 as (? & ? & ? & _). by split_and!.
Qed.

Lemma child_done j i l : ended j (Stopped (ImmExited EXIT_SUCCESS)) l (C i CShut).
Proof.
  apply ended_says. intros v gs HI Hg Hsaid. exists (C i CDone).
  split_and!; [|done|done]. intros _. eapply child_move; [exact HI|exact Hg|done|done|done|].
  intros c _ (_ & _ & H3 & H4). destruct H4 as (? & ? & ? & _). by split_and!.
Qed.

(** What the parent has met. *)
Definition met (g : gh) : bool := match g with PEof _ => true | _ => false end.
Definition is_parent (g : gh) : bool := match g with C _ _ => false | _ => true end.

Lemma sync_parent_fails l g :
  gh_alive g = true -> is_parent g = true -> ended 0 (Stopped (Exited EXIT_FAILURE)) l g.
Proof.
  intros Ha Hpar. apply ended_says. intros v gs HI Hg Hs. exists (PFailed (met g)).
  split_and!; [|done|].
  - intros _. eapply sync_parent_move; [exact HI|exact Hg| |].
    + intros c (_ & _ & H3 & H4). destruct g; try done; destruct H4 as (_ & H4 & _);
        (split_and!; try done); intros Hr; by destruct (H3 Hr).
    + pose proof (known _ _ _ HI Hg) as Hp.
      destruct g; try done. cbn in *. destruct Hp as (? & Hpass & _). rewrite length_insert. split; [done|].
      by apply passed_insert.
  - destruct g; try done; cbn in *; split; try done.
Qed.

Lemma sync_parent_done w l :
  n = Z.of_nat (S w) -> ended 0 (Returned EXIT_SUCCESS) l (PEof w).
Proof.
  intros Hn. apply ended_view. intros v gs HI Hg. exists PDone.
  split_and!; [|done|done]. intros _.
  destruct (known _ _ _ HI Hg) as (Hlen & Hpass & Hw).
  eapply sync_parent_move; [exact HI|exact Hg| |].
  - intros c (_ & _ & H3 & _ & H4 & _). split_and!; try done. intros Hr. by destruct (H3 Hr).
  - cbn. rewrite length_insert. split_and!; [done|by apply passed_insert|].
    intros j h. destruct j as [|j]; [rewrite list_lookup_insert_eq by (by eapply lookup_lt_Some); by intros [= <-]|].
    rewrite list_lookup_insert_ne by done. intros Hh.
    destruct (lookup_lt_is_Some_2 (procs v) (S j)) as [c Hc].
    { rewrite (si_len _ _ _ HI). by eapply lookup_lt_Some. }
    destruct (si_procs _ _ _ HI _ _ _ Hc Hh) as (Hgone & _ & H3 & _).
    assert (reaped c = true) as Hr.
    { eapply (reaped_count_all (procs v)); [|rewrite (si_len _ _ _ HI); lia|exact Hc|done].
      intros c0 Hc0. destruct (si_procs _ _ _ HI _ _ _ Hc0 Hg) as (_ & _ & H0 & _).
      destruct (reaped c0); [|done]. by destruct (H0 eq_refl). }
    destruct (H3 Hr) as [Hg1 _]. rewrite Hg1 in Hgone. by destruct (gh_alive h).
Qed.

(** *** The calls *)
Abbreviation ans := (pipe_answers rfd wfd).

(** A call that changes nothing and never waits. *)
Definition quiet {X} (s : SysE X) : Prop :=
  (forall x, spawns s x = None) /\ (forall i v, ~ pipe_blocks rfd wfd i s v) /\
  forall i v x v', ans i 0 s v x v' -> v' = v.

Lemma quiet_call {X} (s : SysE X) j g (Q : nat -> res X -> local -> ghost -> Prop) l :
  quiet s -> gh_alive g = true ->
  (forall x e, Q j (Returned x) (answered e l) g) -> fsafe j (sys s) Q l g.
Proof.
  intros (Hs & Hb & Ha) Hg HQ. apply fsafe_call; [done|]. intros v gs HI Hj.
  split; [by intros ?%Hb|]. intros x v' e ->%Ha. exists g. rewrite list_insert_id by done.
  split_and!; [done|done|done|apply HQ].
Qed.

(** Closing the read end is of no consequence. *)
Lemma sync_close_rd j g (Q : nat -> res Z -> local -> ghost -> Prop) l :
  gh_alive g = true -> (forall x e, Q j (Returned x) (answered e l) g) ->
  fsafe j (sys (Close rfd)) Q l g.
Proof.
  intros Ha HQ. apply fsafe_call; [done|]. intros v gs HI Hg. split; [by intros []|].
  intros x v' e Hx. cbn in Hx. rewrite Z.eqb_refl in Hx. exists g. split_and!; [|done|done|apply HQ].
  rewrite list_insert_id by done. destruct Hx as [-> | [_ ->]]; [|done]. by apply inv_rd.
Qed.

(** *** A child *)
Lemma quiet_sleep z : quiet (Sleep z).
Proof. split_and!; [done|by intros i v []|done]. Qed.
Lemma quiet_getpid : quiet Getpid.
Proof. split_and!; [done|by intros i v []|done]. Qed.

Lemma said_more i out ev : said i out -> said i (out ++ [ev]).
Proof. intros [pid H0]. exists pid. apply elem_of_app. by left. Qed.

(** The program failed in a child, and in the parent. *)
Lemma child_stops {R} j i st fmt args (Q : nat -> res R -> local -> ghost -> Prop) l :
  gh_alive (C i st) = true ->
  (forall l', Q j (Stopped (Exited EXIT_FAILURE)) l' (C i st)) ->
  fsafe j (fprintf stderr fmt args ;; exit EXIT_FAILURE) Q l (C i st).
Proof.
  intros Ha HQ. apply fsafe_bind, fsafe_fprintf; [|by apply fsafe_exit].
  destruct st; try done. apply said_more.
Qed.

Lemma getUint_safe s j i (Q : nat -> res Z -> local -> ghost -> Prop) l :
  (forall l', Q j (Stopped (Exited EXIT_FAILURE)) l' (C i CRun)) ->
  (forall x l', Q j (Returned x) l' (C i CRun)) ->
  fsafe j (getUint s) Q l (C i CRun).
Proof.
  intros Hs HQ. unfold getUint, strtoul. fs_go; first [done|apply Hs|apply HQ].
Qed.

Lemma sync_child_safe argv j (Q : nat -> res unit -> local -> ghost -> Prop) l :
  rfd <> wfd ->
  (forall s l' st, ended j (Stopped s) l' (C (Z.of_nat j) st) -> Q j (Stopped s) l' (C (Z.of_nat j) st)) ->
  fsafe j (child rfd wfd argv (Z.of_nat j)) Q l (C (Z.of_nat j) CRun).
Proof.
  intros Hne HQ. unfold child.
  assert (forall l' st, gh_alive (C (Z.of_nat j) st) = true -> Q j (Stopped (Exited EXIT_FAILURE)) l' (C (Z.of_nat j) st)) as Hfail
    by (intros; by apply HQ, child_fails).
  apply fsafe_bind, sync_close_rd; [done|]. intros r e.
  apply fsafe_bind, fsafe_when; intros _; [apply fsafe_bind, fsafe_errno; apply child_stops; auto|].
  apply fsafe_bind, getUint_safe; [intros l1; by apply Hfail|]. intros secs l1. fs_head.
  apply quiet_call; [apply quiet_sleep|done|]. intros _ e1. fs_head.
  apply quiet_call; [apply quiet_getpid|done|]. intros pid e2. fs_head.
  apply fsafe_fprintf; [done|]. fs_head.
  apply fsafe_call; [done|]. intros v gs HI Hg. split; [by intros []|].
  intros x v' e3 Hx. cbn in Hx. rewrite Z.eqb_refl in Hx. apply not_eq_sym, Z.eqb_neq in Hne. rewrite Hne in Hx.
  exists (C (Z.of_nat j) CShut). split_and!; [|done| |].
  - assert (forall f, (forall c, reaped (f c) = reaped c) -> (forall c, gone (f c) = gone c /\ parent (f c) = parent c) ->
      (forall c, has_wr c = false -> has_wr (f c) = false) ->
      sync_inv n (on_proc j f v) (<[j := C (Z.of_nat j) CShut]> gs)) as Hmv.
    { intros f H1 H2 H3. eapply child_move; [exact HI|exact Hg|done|done|done|].
      intros c _ (Hg1 & Hg2 & Hg3 & ? & ? & ? & _). destruct (H2 c) as [E1 E2]. unfold proc_ok.
      rewrite H1, E1, E2. split_and!; auto; done. }
    destruct Hx as [-> | [_ ->]]; [by apply Hmv|]. rewrite <- (on_proc_id j v). by apply Hmv.
  - intros _. exists pid. cbn. apply elem_of_app. right. by apply list_elem_of_singleton.
  - fs_head. apply fsafe_when; intros _; [apply fsafe_bind, fsafe_errno; apply child_stops; auto|].
    fs_steps. apply HQ, child_done.
Qed.

(** *** The parent *)
Lemma sync_parent_stops {R} g fmt args (Q : nat -> res R -> local -> ghost -> Prop) l :
  gh_alive g = true -> is_parent g = true ->
  (forall l', ended 0 (Stopped (Exited EXIT_FAILURE)) l' g -> Q 0%nat (Stopped (Exited EXIT_FAILURE)) l' g) ->
  fsafe 0 (fprintf stderr fmt args ;; exit EXIT_FAILURE) Q l g.
Proof.
  intros Ha Hp HQ. apply fsafe_bind, fsafe_fprintf; [|by apply fsafe_exit, HQ, sync_parent_fails].
  assert (forall out, ready ∉ out -> ready ∉ out ++ [EPrint stderr (format fmt args)]) as Hr.
  { intros out Ho [?|Hin%list_elem_of_singleton]%elem_of_app; [done|]. discriminate. }
  destruct g; try done; apply Hr.
Qed.

Lemma sync_pipe_call (Q : nat -> res (Z * (Z * Z)) -> local -> ghost -> Prop) l :
  (forall x e, Q 0%nat (Returned (-1, x)) (answered e l) P0) ->
  (forall x e, x <> -1 -> rfd <> wfd -> Q 0%nat (Returned (x, (rfd, wfd))) (answered e l) (PFork 1)) ->
  fsafe 0 (sys Pipe) Q l P0.
Proof.
  intros HQ HQ1. apply fsafe_call; [done|]. intros v gs HI Hg. split; [by intros []|].
  intros [x ends] v' e Ha. cbn in Ha. destruct Ha as [[-> ->]|(Hx & Hends & Hnd & ->)].
  - exists P0. rewrite list_insert_id by done. auto.
  - subst ends. exists (PFork 1). destruct (known _ _ _ HI Hg) as [Hlen Hw]. split_and!; [|done|done|].
    + eapply sync_parent_move; [|exact Hg| |].
      * destruct HI as [? ? ?]. constructor; [done|done|]. exists P0. by split; [|split].
      * intros c (H1 & H2 & H3 & _ & H4 & _). split_and!; try done. intros Hg1. cbn in Hg1, H1. congruence.
      * cbn. rewrite length_insert, reaped_count_alter by done. done.
    + apply HQ1; [done|]. intros ->. inversion Hnd as [|? ? _ Hnd']. inversion Hnd' as [|? ? Hni _]. by destruct Hni; left.
Qed.

Lemma sync_fork_call k (Q : nat -> res Z -> local -> ghost -> Prop) l :
  (forall e, Q 0%nat (Returned (-1)) (answered e l) (PFork k)) ->
  (forall x e, 0 < x -> Q 0%nat (Returned x) (answered e l) (PFork (S k))) ->
  (Q k (Returned 0) (copied l) (C (Z.of_nat k) CRun)) ->
  fsafe 0 (sys Fork) Q l (PFork k).
Proof.
  intros HQ HQ1 HQ0. apply fsafe_fork. intros v gs HI Hg. split; [by intros []|].
  destruct (known _ _ _ HI Hg) as (Hlen & _).
  intros x v' e [[-> ->]|[Hx ->]].
  - exists (PFork k). rewrite list_insert_id by done. auto.
  - rewrite (proj2 (Z.ltb_lt _ _) Hx). exists (PFork (S k)), (C (Z.of_nat k) CRun).
    replace (length gs) with k by (symmetry; exact Hlen).
    split_and!; [by apply parent_fork|done|done|done|done|done|by apply HQ1].
Qed.

Lemma sync_close_wr k (Q : nat -> res Z -> local -> ghost -> Prop) l :
  rfd <> wfd -> n = Z.of_nat k ->
  (forall e, Q 0%nat (Returned (-1)) (answered e l) PErr) ->
  (forall x e, x <> -1 -> Q 0%nat (Returned x) (answered e l) PShut) ->
  fsafe 0 (sys (Close wfd)) Q l (PFork k).
Proof.
  intros Hne Hn HQ HQ1. apply fsafe_call; [done|]. intros v gs HI Hg. split; [by intros []|].
  intros x v' e Hx. cbn in Hx. rewrite Z.eqb_refl in Hx. apply not_eq_sym, Z.eqb_neq in Hne. rewrite Hne in Hx.
  destruct (known _ _ _ HI Hg) as (Hlen & Hw & Hb).
  destruct (Z.eq_dec x (-1)) as [->|Hx1].
  - exists PErr. split_and!; [|done|done|done].
    assert (forall c, proc_ok 0 c (PFork k) -> proc_ok 0 c PErr /\ proc_ok 0 (set_wr false c) PErr) as Hok.
    { intros c (H1 & H2 & H3 & _ & H4 & _). by split; split_and!. }
    destruct Hx as [-> | [_ ->]];
      [eapply sync_parent_move|eapply parent_stay]; try exact HI; try exact Hg; try done; intros c Hc; by apply Hok.
  - destruct Hx as [-> |[? _]]; [|done]. exists PShut. split_and!; [|done|done|by apply HQ1].
    eapply sync_parent_move; [exact HI|exact Hg| |].
    + intros c (H1 & H2 & H3 & _ & H4 & _). by split_and!.
    + cbn. rewrite length_insert, reaped_count_alter by done. split_and!; [lia|done|done].
Qed.

(** The children write nothing: the read meets the end of the pipe or fails. *)
Lemma read_call (Q : nat -> res (Z * string) -> local -> ghost -> Prop) l :
  (forall d e, Q 0%nat (Returned (-1, d)) (answered e l) PShut) ->
  (forall e, Q 0%nat (Returned (0, "")) (answered e l) (PEof 0)) ->
  fsafe 0 (sys (Read rfd 1)) Q l PShut.
Proof.
  intros HQ HQ1. apply fsafe_call; [done|]. intros v gs HI Hg.
  split; [intros Hbl; cbn in Hbl; by destruct (Hbl eq_refl)|].
  intros [x d] v' e Ha. cbn in Ha. rewrite Z.eqb_refl in Ha. destruct (known _ _ _ HI Hg) as (Hlen & Hw & Hb).
  destruct (Ha ltac:(lia)) as [[-> ->]|(-> & _ & Hd & -> & Hend)].
  - exists PShut. rewrite list_insert_id by done. auto.
  - rewrite Hb in Hd. destruct d as [|c d]; [|done]. destruct (Hend eq_refl) as [_ Hwr].
    assert (set_pbuf (pbuf v') v = v) as ->.
    { symmetry in Hd. destruct v; cbn in *. change ("" +:+ ?s) with s in Hd. by rewrite Hd, Hb. }
    exists (PEof 0). split_and!; [|done|done|apply HQ1].
    eapply parent_stay; [exact HI|exact Hg|done|].
    cbn. rewrite length_insert. split_and!; [done| |done]. apply passed_insert; [|done].
    intros j i Hj. destruct (lookup_lt_is_Some_2 (procs v) j) as [c Hc].
    { rewrite (si_len _ _ _ HI). by eapply lookup_lt_Some. }
    destruct (si_procs _ _ _ HI _ _ _ Hc Hj) as (_ & _ & _ & _ & _ & _ & Hrun).
    rewrite writers_false in Hwr. rewrite (Hwr _ _ Hc) in Hrun. by specialize (Hrun eq_refl).
Qed.

Lemma sync_wait_call w (Q : nat -> res Z -> local -> ghost -> Prop) l :
  (forall e, Q 0%nat (Returned (-1)) (answered e l) (PEof w)) ->
  (forall x e, 0 < x -> Q 0%nat (Returned x) (answered e l) (PEof (S w))) ->
  fsafe 0 (sys Wait) Q l (PEof w).
Proof.
  intros HQ HQ1. apply fsafe_call; [done|]. intros v gs HI Hg. split; [done|].
  intros x v' e [[-> ->]|(Hx & j & c & Hj & Hwf & Hgone & ->)].
  - exists (PEof w). rewrite list_insert_id by done. auto.
  - exists (PEof (S w)). split_and!; [|done|done|by apply HQ1]. by eapply parent_wait.
Qed.

Lemma ready_more ev out : ev <> ready -> ready ∉ out -> ready ∉ out ++ [ev].
Proof.
  intros Hne Ho [?|Hin%list_elem_of_singleton]%elem_of_app; [done|]. by subst.
Qed.

(** The loop that makes the children. *)
Lemma fork_all_safe argv (Q : nat -> res unit -> local -> ghost -> Prop) l :
  n = argc argv -> 1 < n -> rfd <> wfd ->
  (forall j s l' g, ended j (Stopped s) l' g -> Q j (Stopped s) l' g) ->
  (forall l', Q 0%nat (Returned tt) l' (PFork (Z.to_nat n))) ->
  fsafe 0 (for_ 1 (argc argv) (fun i =>
    pid <- sys Fork ;;
    if pid ==? -1 then
      e <- errno ;;
      fprintf stderr "Failed to fork() child process - %s\n" [Str (strerror e)] ;;
      exit EXIT_FAILURE
    else when (pid ==? 0) (child rfd wfd argv i))) Q l (PFork 1).
Proof.
  intros Hn H1 Hne HQs HQ. unfold for_.
  apply (fsafe_for_loop (P := view_protocol (P := the_protocol)) 0 _ _ _ (fun j i (_ : unit) (_ : local) (g : gh) => j = 0%nat /\ g = PFork (Z.to_nat i))).
  - done.
  - intros j i [] l' g Hi [-> ->]. apply fsafe_bind, sync_fork_call.
    + intros e. cbn. apply fsafe_bind, fsafe_errno, sync_parent_stops; [done|done|]. intros l''. apply HQs.
    + intros x e Hx. rewrite (proj2 (Z.eqb_neq x (-1))), (proj2 (Z.eqb_neq x 0)) by lia. fs_head.
      split; [done|]. f_equal. lia.
    + cbn. replace i with (Z.of_nat (Z.to_nat i)) at 2 by lia. apply sync_child_safe; [done|].
      intros s l'' st. apply HQs.
  - intros j i [] l' g Hi Hi' [-> ->]. replace i with n by lia. apply HQ.
Qed.

(** The loop that waits for them. *)
Lemma wait_all_safe argv (Q : nat -> res unit -> local -> ghost -> Prop) l :
  n = argc argv -> 1 < n ->
  (forall j s l' g, ended j (Stopped s) l' g -> Q j (Stopped s) l' g) ->
  (forall l', Q 0%nat (Returned tt) l' (PEof (Z.to_nat (n - 1)))) ->
  fsafe 0 (for_ 1 (argc argv) (fun i =>
    r <- sys Wait ;;
    when (r ==? -1) (
      e <- errno ;;
      fprintf stderr "Failed to wait() on child - %s\n" [Str (strerror e)] ;;
      exit EXIT_FAILURE))) Q l (PEof 0).
Proof.
  intros Hn H1 HQs HQ. unfold for_.
  apply (fsafe_for_loop (P := view_protocol (P := the_protocol)) 0 _ _ _ (fun j i (_ : unit) (_ : local) (g : gh) => j = 0%nat /\ g = PEof (Z.to_nat (i - 1)))).
  - done.
  - intros j i [] l' g Hi [-> ->]. apply fsafe_bind, sync_wait_call.
    + intros e. apply fsafe_bind, fsafe_errno, sync_parent_stops; [done|done|]. intros l''. apply HQs.
    + intros x e Hx. rewrite (proj2 (Z.eqb_neq x (-1))) by lia. fs_head.
      split; [done|]. f_equal. lia.
  - intros j i [] l' g Hi Hi' [-> ->]. replace i with n by lia. apply HQ.
Qed.

Lemma sync_main_safe argv : n = argc argv -> fsafe 0 (main argv) ended local0 P0.
Proof.
  intros Hn. unfold main. fs_head. apply fsafe_when; intros Harg.
  { apply sync_parent_stops; auto. }
  apply orb_false_iff in Harg as [Harg _]. apply Z.leb_gt in Harg. rewrite <- Hn in Harg.
  fs_head. apply fsafe_setbuf; [by apply ready_more|]. fs_head. apply fsafe_fprintf; [by apply ready_more|].
  fs_head. apply sync_pipe_call.
  { intros x e. destruct x as [rd wr]. fs_head. cbn. apply fsafe_bind, fsafe_errno, sync_parent_stops; auto. }
  intros x e Hx Hne. rewrite (proj2 (Z.eqb_neq _ _) Hx). do 3 fs_head. apply fork_all_safe; auto.
  intros l1. fs_head. eapply sync_close_wr; [done|lia| |].
  { intros e1. fs_head. cbn. apply fsafe_bind, fsafe_errno, sync_parent_stops; auto. }
  intros x1 e1 Hx1. rewrite (proj2 (Z.eqb_neq _ _) Hx1). do 3 fs_head. apply read_call.
  { intros d e2. fs_head. cbn. apply fsafe_bind, fsafe_errno, sync_parent_stops; auto. }
  intros e2. cbn. do 3 fs_head. apply sync_close_rd; [done|]. intros x3 e3.
  fs_head. apply fsafe_when; intros _; [apply fsafe_bind, fsafe_errno, sync_parent_stops; auto|].
  fs_head. apply fsafe_fprintf; [done|]. fs_head. apply wait_all_safe; auto.
  intros l4. fs_head. apply sync_parent_done. lia.
Qed.
End Safe.

(** ** The barrier *)
Section Theorems.
Context {M : Machine} `{CText} (rfd wfd : Z) {HM : Pipes M rfd wfd}.

(** A process without a pipe. *)
Definition alone (v : pipes) : Prop := procs v = [mkProc None false false false false].

Lemma sync_reachable_ok argv m sched p :
  alone (view m) -> exec no_threads sched (start [main argv] m) = Some p ->
  forall k, pool_ok (P := view_protocol (P := sync_protocol (argc argv))) k p.
Proof.
  intros Ha He. eapply (start_ok no_threads (P := view_protocol (P := sync_protocol (argc argv)))) with (gs := [P0]);
    [done| | |exact He].
  - constructor; [by rewrite Ha| |exists P0; by cbn; rewrite Ha].
    intros j c g Hc Hg. rewrite Ha in Hc. apply list_lookup_singleton_Some in Hc as [-> <-].
    injection Hg as <-. by split_and!.
  - constructor; [|constructor]. split; [done|]. split; [by apply not_elem_of_nil|].
    intros [|i] Hi _; [|done]. by apply sync_main_safe.
Qed.

Lemma sync_running argv m sched p :
  exec no_threads sched (start [main argv] m) = Some p -> p_over p = false.
Proof. apply never_over. intros i r. by rewrite (sp_end (S := pipe_spec rfd wfd)). Qed.

(** What is known of the output of a task, running or not. *)
Lemma output_known argv m sched p :
  alone (view m) -> exec no_threads sched (start [main argv] m) = Some p ->
  exists gs, sync_inv (argc argv) (view (p_mach p)) gs /\ length gs = length (p_tasks p) /\
  forall j g, gs !! j = Some g ->
    if gh_alive g then outcome j p = None /\ gh_says g (output j p)
    else exists r l, outcome j p = Some (r, l_out l) /\ output j p = l_out l /\ sync_done j r l g.
Proof.
  intros Ha He. destruct (sync_reachable_ok _ _ _ _ Ha He 0) as (gs & HI & Hl & Hok).
  exists gs. split; [apply HI; by eapply sync_running|]. split; [done|]. intros j g Hg.
  destruct (lookup_lt_is_Some_2 (p_tasks p) j) as [[[t|r] l] Ht].
  { rewrite <- Hl. by eapply lookup_lt_Some. }
  all: pose proof (Hok _ _ _ Ht Hg) as Ht'; cbn in Ht'; unfold outcome, output; rewrite Ht.
  - destruct Ht' as (-> & Hs & _). done.
  - destruct Ht' as (-> & HD). by exists r, l.
Qed.

(** Which ghost belongs to which process. *)
Lemma ghost_of n v gs j c : sync_inv n v gs -> procs v !! j = Some c -> exists h, gs !! j = Some h.
Proof.
  intros HI Hc. apply lookup_lt_is_Some_2. rewrite <- (si_len _ _ _ HI). by eapply lookup_lt_Some.
Qed.

Lemma child_ghost n v gs j :
  sync_inv n v gs -> (0 < j)%nat -> (j < length gs)%nat -> exists st, gs !! j = Some (C (Z.of_nat j) st).
Proof.
  intros HI Hj0 Hj. destruct (lookup_lt_is_Some_2 gs j Hj) as [h Hh].
  destruct (lookup_lt_is_Some_2 (procs v) j) as [c Hc]; [by rewrite (si_len _ _ _ HI)|].
  destruct (si_procs _ _ _ HI _ _ _ Hc Hh) as (_ & _ & _ & H4).
  destruct h as [| | | | | | |i st]; try (by destruct H4; lia). destruct H4 as (_ & -> & _). eauto.
Qed.

Lemma parent_ghost n v gs i st : sync_inv n v gs -> gs !! 0%nat <> Some (C i st).
Proof.
  intros HI Hg. destruct (lookup_lt_is_Some_2 (procs v) 0) as [c Hc].
  { rewrite (si_len _ _ _ HI). by eapply lookup_lt_Some. }
  by destruct (si_procs _ _ _ HI _ _ _ Hc Hg) as (_ & _ & _ & ? & _).
Qed.

(** C7: Whatever the interleaving of pipe_sync and its children: once the parent has
    printed that it is ready, all its children have been made, and every one has
    printed its line or has failed; and when the parent returns, with success, they
    have all ended. *)
Theorem pipe_sync_waits argv m sched p :
  alone (view m) -> exec no_threads sched (start [main argv] m) = Some p ->
  (ready ∈ output 0 p ->
     Z.of_nat (length (p_tasks p)) = argc argv /\
     forall j, (0 < j < length (p_tasks p))%nat ->
       said (Z.of_nat j) (output j p) \/
       exists out, outcome j p = Some (Stopped (Exited EXIT_FAILURE), out)) /\
  (forall z out, outcome 0 p = Some (Returned z, out) ->
     z = EXIT_SUCCESS /\ Z.of_nat (length (p_tasks p)) = argc argv /\
     forall j, (j < length (p_tasks p))%nat -> outcome j p <> None).
Proof.
  intros Ha He. destruct (output_known _ _ _ _ Ha He) as (gs & HI & Hl & Hk).
  destruct (si_parent _ _ _ HI) as (g & Hg & Hp). pose proof (Hk _ _ Hg) as Hg0. split.
  - intros Hr. assert (Z.of_nat (length gs) = argc argv /\ passed gs) as [Hn Hpass].
    { destruct g as [| | | |w| |[]|]; cbn in Hg0, Hp; try tauto.
      - destruct Hg0 as (r & l & _ & Ho & _ & Hno). rewrite Ho in Hr. by destruct (Hno eq_refl).
      - by destruct (parent_ghost _ _ _ _ _ HI Hg). }
    rewrite <- Hl. split; [done|]. intros j [Hj0 Hj].
    destruct (child_ghost _ _ _ _ HI Hj0 Hj) as [st Hh]. specialize (Hk _ _ Hh).
    destruct st; [by destruct (Hpass _ _ Hh)|left; by apply Hk| |].
    + destruct Hk as (r & l & _ & -> & _ & Hs). by left.
    + destruct Hk as (r & l & Ho & _ & ->). right. eauto.
  - intros z out Ho. rewrite <- Hl.
    destruct (gh_alive g) eqn:Ea; [by destruct Hg0; congruence|].
    destruct Hg0 as (r & l & Ho' & _ & HD). rewrite Ho in Ho'. injection Ho' as <- ->.
    destruct g; try done; cbn in HD; try (by destruct HD); [|by destruct (parent_ghost _ _ _ _ _ HI Hg)].
    injection HD as ->. destruct Hp as (Hn & _ & Hdead). split; [done|]. split; [done|].
    intros j Hj. destruct (lookup_lt_is_Some_2 gs j Hj) as [h Hh]. specialize (Hk _ _ Hh).
    rewrite (Hdead _ _ Hh) in Hk. destruct Hk as (r' & l' & -> & _). done.
Qed.

(** C33: pipe_sync does not deadlock: in every state an interleaving reaches, unless
    the parent and all its children have ended, some of them can take a step. *)
Theorem pipe_sync_progress argv m sched p :
  alone (view m) -> exec no_threads sched (start [main argv] m) = Some p ->
  (exists j, (j < length (p_tasks p))%nat /\ outcome j p = None) ->
  exists i p', step1 no_threads i p = Some p'.
Proof.
  intros Ha He (j & Hj & Hrun). eapply pool_progress; [by eapply (sync_reachable_ok argv)|by eapply sync_running|].
  intros gs HI Hl Hdead. cbn [Inv view_protocol alive waits] in *.
  destruct (lookup_lt_is_Some_2 gs j) as [g Hg]; [lia|].
  assert (valive g = true) as Hal.
  { destruct (valive g) eqn:E; [done|]. destruct (Hdead _ _ Hg E) as (r & l & Ho & _). congruence. }
  assert (forall k h c, gs !! k = Some h -> procs (view (p_mach p)) !! k = Some c -> gone c = false ->
    k <> 0%nat -> exists i g, gs !! i = Some g /\ valive g = true /\ ~ vwaits i g (view (p_mach p)) gs) as Hlive.
  { intros k h c Hh Hc Hgone Hk. exists k, h.
    destruct (si_procs _ _ _ HI _ _ _ Hc Hh) as (Hgh & _ & _ & H4). cbn in *.
    split; [done|]. split; [by rewrite Hgone in Hgh; destruct (gh_alive h)|].
    destruct h; try tauto. }
  destruct (lookup_lt_is_Some_2 (procs (view (p_mach p))) j) as [c Hc].
  { rewrite (si_len _ _ _ HI). by eapply lookup_lt_Some. }
  destruct (si_procs _ _ _ HI _ _ _ Hc Hg) as (Hgone & _ & _ & H4). cbn in Hal. rewrite Hal in Hgone.
  destruct (decide (j = 0%nat)) as [->|Hj0]; [|by eapply Hlive].
  destruct g; try done; try (exists 0%nat; eexists; split; [exact Hg|]; split; [done|]; cbn; tauto).
  - destruct (writers (view (p_mach p))) eqn:Ew; [|exists 0%nat, PShut; split_and!; [done|done|cbn; congruence]].
    apply writers_true in Ew as (k & d & Hk & Hd).
    destruct (ghost_of _ _ _ _ _ HI Hk) as [h Hh].
    destruct (si_procs _ _ _ HI _ _ _ Hk Hh) as (_ & Hgd & _ & _).
    eapply Hlive; [exact Hh|exact Hk| |].
    + destruct (gone d); [|done]. by rewrite (Hgd eq_refl) in Hd.
    + intros ->. rewrite Hk in Hc. injection Hc as ->. destruct H4 as (_ & _ & H4). congruence.
  - destruct (live_child 0 (view (p_mach p))) eqn:El.
    + apply live_child_spec in El as (k & d & Hk & Hw & Hd).
      destruct (ghost_of _ _ _ _ _ HI Hk) as [h Hh].
      eapply Hlive; [exact Hh|exact Hk|done|]. intros ->. rewrite Hk in Hc. injection Hc as ->.
      destruct H4 as (_ & Hroot & _). unfold waited_for in Hw. by rewrite Hroot in Hw.
    + exists 0%nat, (PEof w). split; [done|]. split; [done|]. intros Hw.
      apply live_child_spec in Hw. congruence.
Qed.
End Theorems.

(** ** A run: the machine of PipeSpec, two children, each process in turn *)
Definition alone0 : @mstate pipe_machine := mkPipes [mkProc None false false false false] "" "".

Definition sync_start : @pool pipe_machine :=
  let _ := plain_text in start (M := pipe_machine) [main ["pipe_sync"; "2"; "1"]] alone0.
Definition sync_end : @pool pipe_machine := round_robin (M := pipe_machine) no_threads 60 sync_start.

Lemma sync_run : exists sched, exec (M := pipe_machine) no_threads sched sync_start = Some sync_end.
Proof. apply round_robin_exec. Qed.

Example sync_outputs :
  map (fun i => output (M := pipe_machine) i sync_end) [0; 1; 2]%nat =
  [[ESetbuf stdout; EPrint stdout (format "Parent started\n" []); ready];
   [EPrint stdout (format "Child %d (PID=%ld) closing pipe\n" [Int 1; Int 101])];
   [EPrint stdout (format "Child %d (PID=%ld) closing pipe\n" [Int 2; Int 102])]] /\
  outcome (M := pipe_machine) 0 sync_end =
    Some (Returned EXIT_SUCCESS, output (M := pipe_machine) 0 sync_end).
Proof. vm_compute. done. Qed.

Lemma pipe_sync_waits_witness :
  Z.of_nat (length (p_tasks sync_end)) = 3 /\
  outcome 0 sync_end = Some (Returned EXIT_SUCCESS, output 0 sync_end) /\
  forall j, (0 < j < length (p_tasks sync_end))%nat ->
    said (Z.of_nat j) (output j sync_end) \/
    exists out, outcome j sync_end = Some (Stopped (Exited EXIT_FAILURE), out).
Proof.
  assert (forall sched p, exec no_threads sched sync_start = Some p -> ready ∈ output 0 p ->
    Z.of_nat (length (p_tasks p)) = 3 /\ forall j, (0 < j < length (p_tasks p))%nat ->
      said (Z.of_nat j) (output j p) \/
      exists out, outcome j p = Some (Stopped (Exited EXIT_FAILURE), out)) as H.
  { intros sched p He Hr.
    exact (proj1 (@pipe_sync_waits pipe_machine plain_text 3 4 pipe_machine_ok
      ["pipe_sync"; "2"; "1"] alone0 sched p eq_refl He) Hr). }
  destruct sync_run as [sched He]. destruct (H sched sync_end He) as [H1 H2].
  - apply list_elem_of_In. vm_compute. tauto.
  - split; [exact H1|]. split; [vm_compute; reflexivity|exact H2].
Defined.

Lemma pipe_sync_progress_witness :
  exists i p', step1 no_threads i sync_start = Some p'.
Proof.
  apply (@pipe_sync_progress pipe_machine plain_text 3 4 pipe_machine_ok
    ["pipe_sync"; "2"; "1"] alone0 [] sync_start); [reflexivity|reflexivity|].
  exists 0%nat. split; [cbn; lia|reflexivity].
Defined.
