(* ===== verification/PipeRelay.v ===== *)
(** * pipes/simple_pipe.c: parent and child together

    The parent sends its argument through the pipe to the child, which copies it
    to the standard output. The theorems hold for every interleaving of the two,
    over any machine that implements [pipe_spec]. *)

From S2P Require Import Prelude.
From S2P Require Import CLib.
From S2P Require Import Sys.
From S2P Require Import Sem.
From S2P Require Import Conc.
From S2P Require Import PipeSpec.
From S2P Require Import Pipes.

Import simple_pipe.

(** ** The protocol *)
Inductive pst :=
| S0                     (* no pipe yet *)
| S1                     (* the pipe is open *)
| SFork                  (* the child is made *)
| SSent                  (* has written to the pipe, perhaps not all *)
| SShut                  (* has written all and closed its write end *)
| SErr                   (* has failed to close it *)
| SReap                  (* has waited for the child *)
| SDone | SFail.
#[export] Instance pst_eq_dec : EqDecision pst.
Proof. solve_decision. Defined.

Inductive kst :=
| KStart                 (* has both ends *)
| KRead                  (* reads, its write end is closed *)
| KHave                  (* has bytes to write *)
| KEof                   (* has met the end of the pipe *)
| KLine                  (* and has written the newline *)
| KBad                   (* has failed to read *)
| KErr                   (* a call has failed, the newline may have been written *)
| KDone | KFail.
(** The parent with what it has sent, the child with what it holds. *)
Inductive gh := Par (st : pst) (s : string) | Kid (st : kst) (d : string).

Definition gh_alive (g : gh) : bool :=
  match g with Par SDone _ | Par SFail _ | Kid KDone _ | Kid KFail _ => false | _ => true end.

Definition proc_ok (j : nat) (c : proc) (g : gh) : Prop :=
  gone c = negb (gh_alive g) /\ (gone c = true -> has_wr c = false) /\
  match g with
  | Par st _ => j = 0%nat /\ parent c = None /\
      match st with S1 | SFork | SSent => has_wr c = true | SShut | SReap => has_wr c = false | _ => True end
  | Kid st _ => j = 1%nat /\
      match st with KRead | KHave => has_wr c = false | _ => True end
  end.

Definition newline : string := format "\n" [].

(** [s] is the beginning of [t]. *)
Definition begins_with (t s : string) : Prop := exists rest, t = s +:+ rest.

(** The output has what was sent, or a part of it, and perhaps a newline. *)
Definition shown (s out : string) : Prop := out = s \/ out = s +:+ newline.
Definition part_shown (s out : string) : Prop := exists t, begins_with s t /\ shown t out.

Section Protocol.
Context (a : string).

Definition par_ok (st : pst) (s : string) (v : pipes) : Prop :=
  begins_with a s /\
  match st with
  | S1 | SFork => s = "" /\ pbuf v = ""
  | S0 => s = ""
  | SShut | SReap | SDone => s = a
  | _ => True
  end.

(** The end of the pipe is met only when the parent writes no more. *)
Definition kid_ok (st : pst) (s : string) (kt : kst) (d : string) (v : pipes) : Prop :=
  match kt with
  | KStart | KRead => s = sout v +:+ pbuf v
  | KHave => s = sout v +:+ d +:+ pbuf v
  | KEof => s = sout v /\ st <> SFork
  | KLine | KDone => shown s (sout v) /\ st <> SFork
  | KBad => begins_with s (sout v)
  | KErr | KFail => part_shown s (sout v)
  end.

Inductive relay_pair (v : pipes) : list gh -> Prop :=
| pair_solo st s : par_ok st s v -> st <> SFork -> s = "" -> sout v = "" -> relay_pair v [Par st s]
| pair_both st s kt d : par_ok st s v -> st <> S0 -> st <> S1 -> kid_ok st s kt d v -> relay_pair v [Par st s; Kid kt d].

(** The child has ended. *)
Definition past (st : pst) : bool := match st with SReap | SDone => true | _ => false end.
Definition kid_gone (gs : list gh) : Prop := exists g, gs !! 1%nat = Some g /\ gh_alive g = false.

Record relay_inv (v : pipes) (gs : list gh) : Prop := {
  ri_len : length (procs v) = length gs;
  ri_procs : forall j c g, procs v !! j = Some c -> gs !! j = Some g -> proc_ok j c g;
  ri_pair : relay_pair v gs;
  ri_past : forall st s, gs !! 0%nat = Some (Par st s) -> past st = true -> kid_gone gs }.

Definition relay_done (r : res Z) (g : gh) : Prop :=
  match g with
  | Par SDone _ => r = Stopped (Exited EXIT_SUCCESS)
  | Kid KDone _ => r = Stopped (ImmExited EXIT_SUCCESS)
  | Par SFail _ | Kid KFail _ => r = Stopped (Exited EXIT_FAILURE)
  | _ => False
  end.

Definition relay_protocol : VProtocol pipes := {|
  vghost := gh;
  vinv := relay_inv;
  valive := gh_alive;
  vwaits i g v gs :=
    match g with
    | Par SShut _ => exists j c, procs v !! j = Some c /\ waited_for 0 c = true /\ gone c = false
    | Kid KRead _ => writers v = true
    | _ => False
    end;
  vsays _ _ := True;
  vbegin _ _ _ := False;
  vdone i r l g := relay_done r g |}.

(** ** The invariant after a step *)
Lemma relay_move v v' gs j f g g' :
  relay_inv v gs -> gs !! j = Some g -> procs v' = alter f j (procs v) ->
  (forall c, procs v !! j = Some c -> proc_ok j c g -> proc_ok j (f c) g') ->
  relay_pair v' (<[j := g']> gs) ->
  (forall st s, <[j := g']> gs !! 0%nat = Some (Par st s) -> past st = true -> kid_gone (<[j := g']> gs)) ->
  relay_inv v' (<[j := g']> gs).
Proof.
  intros [Hl Hp _ _] Hg Hv Hf Hpair Hpast. constructor; [by rewrite Hv, length_alter, length_insert| |done|done].
  intros i c h Hc Hh. rewrite Hv in Hc. destruct (decide (j = i)) as [<-|Hne].
  - rewrite list_lookup_insert_eq in Hh by (by eapply lookup_lt_Some). injection Hh as <-.
    rewrite list_lookup_alter_eq in Hc. destruct (procs v !! j) as [d|] eqn:E; [|done]. injection Hc as <-. eauto.
  - rewrite list_lookup_insert_ne in Hh by done. rewrite list_lookup_alter_ne in Hc by done. eauto.
Qed.

Lemma relay_parent_move v v' gs st s st' s' f :
  relay_inv v gs -> gs !! 0%nat = Some (Par st s) -> procs v' = alter f 0%nat (procs v) ->
  (forall c, proc_ok 0 c (Par st s) -> proc_ok 0 (f c) (Par st' s')) ->
  par_ok st' s' v' ->
  (length gs = 1%nat -> s = "" -> sout v = "" -> st' <> SFork /\ s' = "" /\ sout v' = "") ->
  (length gs = 2%nat -> st' <> S0 /\ st' <> S1 /\ forall kt d, kid_ok st s kt d v -> kid_ok st' s' kt d v') ->
  (past st' = true -> past st = true \/ kid_gone gs) ->
  relay_inv v' (<[0%nat := Par st' s']> gs).
Proof.
  intros HI Hg Hv Hf Hpar H1 H2 H3. pose proof (lookup_lt_Some _ _ _ Hg) as Hlt.
  eapply relay_move; [done|done|done|auto| |].
  2:{ intros st0 s0. rewrite list_lookup_insert_eq by done. intros [= <- <-] Hpast. unfold kid_gone.
      rewrite list_lookup_insert_ne by done. destruct (H3 Hpast); [by eapply ri_past|done]. }
  destruct (ri_pair _ _ HI) as [st0 s0 Hp Hn Hs Ho|st0 s0 kt d Hp Hn0 Hn1 Hk]; injection Hg as -> ->; cbn.
  - destruct (H1 eq_refl Hs Ho) as (? & ? & ?). by constructor.
  - destruct (H2 eq_refl) as (? & ? & ?). constructor; auto.
Qed.

Lemma kid_move v v' gs kt d kt' d' f :
  relay_inv v gs -> gs !! 1%nat = Some (Kid kt d) -> gh_alive (Kid kt d) = true ->
  procs v' = alter f 1%nat (procs v) ->
  (forall c, proc_ok 1 c (Kid kt d) -> proc_ok 1 (f c) (Kid kt' d')) ->
  (forall st s c, procs v !! 0%nat = Some c -> proc_ok 0 c (Par st s) -> par_ok st s v -> kid_ok st s kt d v ->
    par_ok st s v' /\ kid_ok st s kt' d' v') ->
  relay_inv v' (<[1%nat := Kid kt' d']> gs).
Proof.
  intros HI Hg Ha Hv Hf H1. eapply relay_move; [done|done|done|auto| |].
  2:{ intros st s. rewrite list_lookup_insert_ne by done. intros H0 Hpast.
      destruct (ri_past _ _ HI _ _ H0 Hpast) as (g & Hg' & Ha'). congruence. }
  pose proof (ri_procs _ _ HI) as Hps. pose proof (ri_len _ _ HI) as Hl.
  destruct (ri_pair _ _ HI) as [st0 s0 Hp Hn -> Ho|st0 s0 kt0 d0 Hp Hn0 Hn1 Hk]; [done|].
  injection Hg as -> ->. cbn. destruct (lookup_lt_is_Some_2 (procs v) 0) as [c Hc]; [rewrite Hl; cbn; lia|].
  destruct (H1 st0 s0 c Hc (Hps _ _ _ Hc eq_refl) Hp Hk). by constructor.
Qed.

(** The child is made when nothing has been sent. *)
Lemma fork_move v gs s :
  relay_inv v gs -> gs !! 0%nat = Some (Par S1 s) ->
  relay_inv (add_proc (child_of 0 (proc_at 0 v)) v) (<[0%nat := Par SFork ""]> gs ++ [Kid KStart ""]).
Proof.
  intros HI Hg. pose proof (ri_procs _ _ HI) as Hps. pose proof (ri_len _ _ HI) as Hl.
  destruct (ri_pair _ _ HI) as [st0 s0 Hp Hn -> Ho|st0 s0 kt0 d0 Hp Hn0 Hn1 Hk]; [|by injection Hg as -> ->].
  injection Hg as -> <-. destruct Hp as (Hb & _ & Hpb).
  destruct (procs v) as [|c0 [|]] eqn:Ep; try done. pose proof (Hps 0%nat c0 _ eq_refl eq_refl) as (Hg0 & Hg1 & _ & Hpar & Hwr).
  constructor.
  - cbn [procs add_proc]. by rewrite Ep.
  - cbn [procs add_proc]. rewrite Ep. intros [|[|j]] c g; cbn; intros [= <-] [= <-].
    + by split_and!.
    + split_and!; try done; unfold proc_at; by rewrite Ep.
  - apply pair_both; [|done|done|].
    + split; [by exists a|done].
    + cbn. by rewrite Ho, Hpb.
  - by intros st s [= <- <-].
Qed.
End Protocol.

(** ** Texts *)
Lemma begins_refl s : begins_with s s.
Proof. exists "". by rewrite app_nil_r_s. Qed.
Lemma begins_app s t : begins_with (s +:+ t) s.
Proof. by exists t. Qed.
Lemma begins_trans r s t : begins_with r s -> begins_with s t -> begins_with r t.
Proof. intros [x ->] [y ->]. exists (y +:+ x). by rewrite app_assoc_s. Qed.
Lemma begins_stake n s : begins_with s (stake n s).
Proof. exists (sdrop n s). by rewrite stake_sdrop. Qed.
Lemma begins_app_l s t u : begins_with t u -> begins_with (s +:+ t) (s +:+ u).
Proof. intros [r ->]. exists r. by rewrite app_assoc_s. Qed.
#[export] Hint Resolve begins_refl begins_app begins_stake begins_app_l : lpi.

Lemma part_begins s out : begins_with s out -> part_shown s out.
Proof. intros H. exists out. split; [done|by left]. Qed.
Lemma part_full s out : shown s out -> part_shown s out.
Proof. intros H. exists s. auto with lpi. Qed.
Lemma part_more s t out : begins_with t s -> part_shown s out -> part_shown t out.
Proof. intros Ht (u & Hu & Ho). exists u. split; [by eapply begins_trans|done]. Qed.

(** A newline written entirely or not at all. *)
Lemma shown_newline s x : 0 <= x <= slen newline -> shown s (s +:+ stake x newline).
Proof.
  change (slen newline) with 1. intros Hx. assert (x = 0 \/ x = 1) as [-> | ->] by lia.
  - left. change (stake 0 newline) with "". apply app_nil_r_s.
  - by right.
Qed.

(** ** The programs keep to the protocol *)
Section Safe.
Context {M : Machine} `{CText} (rfd wfd : Z) {HM : Pipes M rfd wfd}.
Context (a : string).
#[local] Instance the_protocol : VProtocol pipes := relay_protocol a.

Definition kid_failing (kt : kst) : bool := match kt with KDone | KFail => false | _ => true end.

(** What a child knows allows it to fail. *)
Lemma kid_ok_fails st s kt d v : kid_ok st s kt d v -> kid_ok st s KFail d v.
Proof.
  destruct kt; cbn; try done; intros Hk.
  - apply part_begins. subst. auto with lpi.
  - apply part_begins. subst. auto with lpi.
  - apply part_begins. subst. auto with lpi.
  - destruct Hk as [-> _]. apply part_begins; auto with lpi.
  - by apply part_full, Hk.
  - by apply part_begins.
  - by apply part_full, Hk.
Qed.

Lemma kid_fails kt d l :
  gh_alive (Kid kt d) = true -> ended 1 (Stopped (Exited EXIT_FAILURE)) l (Kid kt d).
Proof.
  intros Ha. apply ended_view. intros v gs HI Hg. exists (Kid KFail d).
  split_and!; [|done|done]. intros _. eapply (kid_move a); [exact HI|exact Hg|done|done| |].
  - intros c (_ & _ & H3 & _). by split_and!.
  - intros st s c _ _ Hp Hk. split; [done|]. by eapply kid_ok_fails.
Qed.

Lemma kid_done d l : ended 1 (Stopped (ImmExited EXIT_SUCCESS)) l (Kid KLine d).
Proof.
  apply ended_view. intros v gs HI Hg. exists (Kid KDone d).
  split_and!; [|done|done]. intros _. eapply (kid_move a); [exact HI|exact Hg|done|done| |].
  - intros c (_ & _ & H3 & _). by split_and!.
  - intros st s c _ _ Hp Hk. by split.
Qed.

(** The parent may end with failure wherever it is, and with success when it has
    sent everything. *)
Lemma kid_ok_parent st s st' kt d v v' :
  st' <> SFork -> sout v' = sout v -> pbuf v' = pbuf v -> kid_ok st s kt d v -> kid_ok st' s kt d v'.
Proof. intros Hst Ho Hb. destruct kt; cbn; rewrite ?Ho, ?Hb; tauto. Qed.

Lemma parent_ends r st st' s l :
  (forall v, par_ok a st s v -> par_ok a st' s v) ->
  (st' = SFail \/ st' = SDone) -> (past st' = true -> past st = true) -> relay_done r (Par st' s) ->
  ended 0 r l (Par st s).
Proof.
  intros Hok Hst Hpast HD. apply ended_view. intros v gs HI Hg. exists (Par st' s).
  split_and!; [|by destruct Hst; subst|done]. intros _.
  assert (par_ok a st s v) as Hp.
  { destruct (ri_pair _ _ _ HI); injection Hg as -> ->; done. }
  eapply (relay_parent_move a); [exact HI|exact Hg|done| |exact (Hok _ Hp)| | |auto].
  - intros c (_ & _ & H3 & H4 & _). destruct Hst; subst; by split_and!.
  - intros _ Hs Ho. destruct Hst; by subst.
  - intros _. split_and!; try (by destruct Hst; subst).
    intros kt d. apply kid_ok_parent; [|done|done]. by destruct Hst; subst.
Qed.

Lemma relay_parent_fails st s l : ended 0 (Stopped (Exited EXIT_FAILURE)) l (Par st s).
Proof. apply (parent_ends _ _ SFail); [by intros v [? _]|by left|done|done]. Qed.

Lemma relay_parent_done s l : ended 0 (Stopped (Exited EXIT_SUCCESS)) l (Par SReap s).
Proof. apply (parent_ends _ _ SDone); [by intros v [? ?]|by right|done|done]. Qed.

(** The read ends do not matter, nor which children have been waited for. *)
Lemma relay_inv_on v gs j f :
  (forall c, gone (f c) = gone c /\ has_wr (f c) = has_wr c /\ parent (f c) = parent c) ->
  relay_inv a v gs -> relay_inv a (on_proc j f v) gs.
Proof.
  intros Hf [Hl Hp Hpair Hpast]. constructor; [by rewrite length_on| | |done].
  - intros i c h Hc Hh. rewrite procs_on in Hc. case_decide; [|by eauto]. subst.
    destruct (procs v !! i) as [d|] eqn:E; [|done]. injection Hc as <-.
    destruct (Hf d) as (H1 & H2 & H3). unfold proc_ok. rewrite H1, H2, H3. exact (Hp _ _ _ E Hh).
  - destruct Hpair as [st s Hpo ? ? ?|st s kt d Hpo ? ? Hk]; by constructor.
Qed.

Lemma relay_close_rd j g (Q : nat -> res Z -> local -> ghost -> Prop) l :
  gh_alive g = true -> (forall x e, Q j (Returned x) (answered e l) g) ->
  fsafe j (sys (Close rfd)) Q l g.
Proof.
  intros Ha HQ. apply fsafe_call; [done|]. intros v gs HI Hg. split; [by intros []|].
  intros x v' e Hx. cbn in Hx. rewrite Z.eqb_refl in Hx. exists g. split_and!; [|done|done|apply HQ].
  rewrite list_insert_id by done. destruct Hx as [-> | [_ ->]]; [|done]. by apply relay_inv_on.
Qed.

(** *** The calls of the child *)
Section Child.
Context (Hends : NoDup [STDOUT_FILENO; rfd; wfd]).

Lemma ends_distinct : rfd <> wfd /\ (wfd ==? rfd) = false /\ (STDOUT_FILENO ==? wfd) = false.
Proof.
  inversion_clear Hends as [|? ? Ho Hnd]. inversion_clear Hnd as [|? ? Hr _].
  assert (rfd <> wfd) by (intros ->; apply Hr; by left).
  assert (STDOUT_FILENO <> wfd) by (intros Hw; apply Ho; rewrite Hw; right; by left).
  rewrite !Z.eqb_neq. auto.
Qed.

Lemma kid_call {X} (s : SysE X) kt d (Q : nat -> res X -> local -> ghost -> Prop) l :
  (forall x, spawns s x = None) ->
  (forall v gs, relay_inv a v gs -> gs !! 1%nat = Some (Kid kt d) ->
    (pipe_blocks rfd wfd 1 s v -> kt = KRead /\ writers v = true) /\
    forall x v' e, pipe_answers rfd wfd 1 2 s v x v' -> exists kt' d',
      relay_inv a v' (<[1%nat := Kid kt' d']> gs) /\ gh_alive (Kid kt' d') = true /\
      Q 1%nat (Returned x) (answered e l) (Kid kt' d')) ->
  fsafe 1 (sys s) Q l (Kid kt d).
Proof.
  intros Hs Hc. apply fsafe_call; [done|]. intros v gs HI Hg.
  destruct (Hc v gs HI Hg) as [Hb Ha]. split; [by intros Hbl; destruct (Hb Hbl) as [-> ?]|].
  intros x v' e Hx. destruct (Ha x v' e) as (kt' & d' & HI' & Hal & HQ).
  { destruct s; exact Hx. }
  exists (Kid kt' d'). split_and!; done.
Qed.

Lemma kid_close_wr d (Q : nat -> res Z -> local -> ghost -> Prop) l :
  (forall e, Q 1%nat (Returned (-1)) (answered e l) (Kid KErr d)) ->
  (forall x e, x <> -1 -> Q 1%nat (Returned x) (answered e l) (Kid KRead d)) ->
  fsafe 1 (sys (Close wfd)) Q l (Kid KStart d).
Proof.
  intros HQ HQ1. apply kid_call; [done|]. intros v gs HI Hg. split; [by intros []|].
  intros x v' e Hx. cbn in Hx. destruct ends_distinct as (_ & Hwr & _). rewrite Hwr, Z.eqb_refl in Hx.
  destruct (Z.eq_dec x (-1)) as [->|Hne].
  - exists KErr, d. split_and!; [|done|done].
    assert (forall f, (forall c, gone (f c) = gone c) -> (forall c, has_wr c = false -> has_wr (f c) = false) ->
      relay_inv a (on_proc 1 f v) (<[1%nat := Kid KErr d]> gs)) as Hmv.
    { intros f Hf1 Hf2. eapply kid_move; [exact HI|exact Hg|done|done| |].
      - intros c (H1 & H2 & H3 & _). unfold proc_ok. rewrite Hf1. split_and!; auto.
      - intros st s c _ _ Hp Hk. split; [done|]. exact (kid_ok_fails st s KStart d v Hk). }
    destruct Hx as [-> | [_ ->]]; [by apply Hmv|]. rewrite <- (on_proc_id 1 v). by apply Hmv.
  - destruct Hx as [-> | [? _]]; [|done]. exists KRead, d. split_and!; [|done|by apply HQ1].
    eapply kid_move; [exact HI|exact Hg|done|done| |].
    + intros c (H1 & H2 & H3 & _). by split_and!.
    + intros st s c _ _ Hp Hk. by split.
Qed.

Lemma kid_read n d (Q : nat -> res (Z * string) -> local -> ghost -> Prop) l :
  0 < n ->
  (forall d' e, Q 1%nat (Returned (-1, d')) (answered e l) (Kid KBad d)) ->
  (forall e, Q 1%nat (Returned (0, "")) (answered e l) (Kid KEof d)) ->
  (forall d' e, 0 < slen d' -> Q 1%nat (Returned (slen d', d')) (answered e l) (Kid KHave d')) ->
  fsafe 1 (sys (Read rfd n)) Q l (Kid KRead d).
Proof.
  intros Hn HQ HQ0 HQ1. apply kid_call; [done|]. intros v gs HI Hg.
  split; [intros Hb; cbn in Hb; by destruct (Hb eq_refl)|].
  intros [x d'] v' e Hx. cbn in Hx. rewrite Z.eqb_refl in Hx.
  destruct (Hx Hn) as [[-> ->]|(-> & _ & Hd & -> & Hend)].
  - exists KBad, d. split_and!; [|done|done]. rewrite <- (on_proc_id 1 v).
    eapply kid_move; [exact HI|exact Hg|done|done|by intros c (H1 & H2 & H3 & _)|].
    intros st s c _ _ Hp Hk. split; [done|]. cbn in *. subst. auto with lpi.
  - assert (procs (set_pbuf (pbuf v') v) = alter (fun c => c) 1%nat (procs v)) as Hpr
      by exact (eq_sym (f_equal procs (on_proc_id 1 v))).
    destruct d' as [|ch d'].
    + exists KEof, d. split_and!; [|done|apply HQ0].
      destruct (Hend eq_refl) as [Hpb Hwr]. rewrite Hpb in Hd.
      eapply kid_move; [exact HI|exact Hg|done|exact Hpr|by intros c (H1 & H2 & H3 & _)|].
      intros st s c Hc (_ & _ & _ & _ & Hst) [Hbg Hp] Hk. cbn in Hk.
      assert (st <> SFork) as Hne.
      { intros ->. rewrite writers_false in Hwr. by rewrite (Hwr _ _ Hc) in Hst. }
      split; [|cbn; split; [by rewrite Hk, Hpb, app_nil_r_s|done]].
      split; [done|]. destruct st; try done. by destruct Hp.
    + exists KHave, (String ch d'). split_and!; [|done|apply HQ1; unfold slen; cbn [String.length]; lia].
      eapply kid_move; [exact HI|exact Hg|done|exact Hpr|by intros c (H1 & H2 & H3 & H4)|].
      intros st s c Hc _ [Hbg Hp] Hk. cbn in Hk. split.
      * split; [done|]. destruct st; try done; destruct Hp as [_ Hpb]; by rewrite Hpb in Hd.
      * cbn. by rewrite Hk, Hd.
Qed.

(** A write on the standard output, whose effect on the output is known. *)
Lemma kid_out text kt d (Q : nat -> res Z -> local -> ghost -> Prop) l :
  gh_alive (Kid kt d) = true ->
  (forall x e, x = -1 \/ 0 <= x <= slen text -> exists kt' d',
    (forall c, proc_ok 1 c (Kid kt d) -> proc_ok 1 c (Kid kt' d')) /\ gh_alive (Kid kt' d') = true /\
    Q 1%nat (Returned x) (answered e l) (Kid kt' d') /\
    forall st s v, kid_ok st s kt d v ->
      kid_ok st s kt' d' (if x ==? -1 then v else set_sout (sout v +:+ stake x text) v)) ->
  fsafe 1 (sys (Write STDOUT_FILENO text)) Q l (Kid kt d).
Proof.
  intros Hal HQ. apply kid_call; [done|]. intros v gs HI Hg. destruct ends_distinct as (_ & _ & Hout).
  split; [intros [Hf _]; by apply Z.eqb_neq in Hout|].
  intros x v' e Hx. cbn [pipe_answers] in Hx. rewrite Hout, Z.eqb_refl in Hx.
  destruct (HQ x e) as (kt' & d' & Hproc & Ha & HQ' & Hk); [by destruct Hx as [[? _]|[? _]]; auto|].
  exists kt', d'. split_and!; [|done|done].
  assert (v' = (if x ==? -1 then v else set_sout (sout v +:+ stake x text) v)) as ->.
  { destruct Hx as [[-> ->]|[Hx ->]]; [done|]. destruct (Z.eqb_spec x (-1)); [lia|done]. }
  eapply (kid_move a _ _ _ _ _ _ _ (fun c => c)); [exact HI|exact Hg|done| |exact Hproc|].
  - destruct (x ==? -1); cbn; exact (eq_sym (f_equal procs (on_proc_id 1 v))).
  - intros st s c _ _ Hp Hk'. split; [|by apply Hk]. destruct Hp. by destruct (x ==? -1), st.
Qed.

Lemma kid_write d (Q : nat -> res Z -> local -> ghost -> Prop) l :
  (forall e, Q 1%nat (Returned (slen d)) (answered e l) (Kid KRead d)) ->
  (forall x e, x <> slen d -> Q 1%nat (Returned x) (answered e l) (Kid KErr d)) ->
  fsafe 1 (sys (Write STDOUT_FILENO d)) Q l (Kid KHave d).
Proof.
  intros HQ HQ1. apply kid_out; [done|]. intros x e Hx. destruct (Z.eq_dec x (slen d)) as [->|Hne].
  - exists KRead, d. split_and!; [done|done|done|]. intros st s v Hk. cbn in Hk.
    pose proof (slen_nonneg d). destruct (Z.eqb_spec (slen d) (-1)); [lia|].
    cbn. by rewrite stake_all, <- app_assoc_s by lia.
  - exists KErr, d. split_and!; [by intros c (H1 & H2 & H3 & _)|done|by apply HQ1|].
    intros st s v Hk. cbn in Hk. subst s. destruct (x ==? -1); cbn; apply part_begins; [auto with lpi|].
    apply begins_app_l. exists (sdrop x d +:+ pbuf v). by rewrite app_assoc_s, stake_sdrop.
Qed.

(** The newline, after the end of the pipe or a failed read. *)
Lemma kid_line kt d (Q : nat -> res Z -> local -> ghost -> Prop) l :
  (kt = KEof /\ (forall x e, Q 1%nat (Returned x) (answered e l) (Kid KLine d)) \/
   kt = KBad /\ (forall x e, Q 1%nat (Returned x) (answered e l) (Kid KErr d))) ->
  fsafe 1 (sys (Write STDOUT_FILENO newline)) Q l (Kid kt d).
Proof.
  intros HQ. apply kid_out; [by destruct HQ as [[-> _]|[-> _]]|]. intros x e Hx.
  assert (forall s, shown s (if x ==? -1 then s else s +:+ stake x newline)) as Hs.
  { intros s. destruct (Z.eqb_spec x (-1)) as [|Hne]; [by left|]. apply shown_newline. by destruct Hx. }
  destruct HQ as [[-> HQ]|[-> HQ]].
  - exists KLine, d. split_and!; [by intros c (H1 & H2 & H3 & _)|done|done|].
    intros st s v [-> Hst]. split; [|done]. pose proof (Hs (sout v)). by destruct (x ==? -1).
  - exists KErr, d. split_and!; [by intros c (H1 & H2 & H3 & _)|done|done|].
    intros st s v Hk. cbn in Hk. exists (sout v). split; [done|]. pose proof (Hs (sout v)). by destruct (x ==? -1).
Qed.

(** *** The child *)
Lemma kid_stops {R} kt d fmt args (Q : nat -> res R -> local -> ghost -> Prop) l :
  gh_alive (Kid kt d) = true ->
  (forall l', ended 1 (Stopped (Exited EXIT_FAILURE)) l' (Kid kt d) ->
     Q 1%nat (Stopped (Exited EXIT_FAILURE)) l' (Kid kt d)) ->
  fsafe 1 (e <- errno ;; fprintf stderr fmt (args e) ;; exit EXIT_FAILURE) Q l (Kid kt d).
Proof.
  intros Ha HQ. apply fsafe_bind, fsafe_errno, fsafe_bind, fsafe_fprintf; [done|].
  by apply fsafe_exit, HQ, kid_fails.
Qed.

Lemma relay_safe buffer d (Q : nat -> res Z -> local -> ghost -> Prop) l :
  (forall l' kt d', gh_alive (Kid kt d') = true -> ended 1 (Stopped (Exited EXIT_FAILURE)) l' (Kid kt d') ->
     Q 1%nat (Stopped (Exited EXIT_FAILURE)) l' (Kid kt d')) ->
  (forall l' d', Q 1%nat (Returned 0) l' (Kid KEof d')) ->
  (forall l' d', Q 1%nat (Returned (-1)) l' (Kid KBad d')) ->
  fsafe 1 (relay rfd buffer) Q l (Kid KRead d).
Proof.
  intros HQs HQ0 HQ1. unfold relay.
  apply (fsafe_iter (P := view_protocol (P := the_protocol)) _
    (fun j (_ : string) (_ : local) (g : gh) => j = 1%nat /\ exists d, g = Kid KRead d)); [|by eauto].
  clear l buffer d. intros j buffer l g [-> [d ->]]. apply fsafe_bind, kid_read; [done| | |].
  - intros d' e. cbn [negb Z.ltb Z.compare]. fs_steps. apply HQ1.
  - intros e. cbn [negb Z.ltb Z.compare]. fs_steps. apply HQ0.
  - intros d' e Hd. cbv zeta. rewrite (proj2 (Z.ltb_lt _ _) Hd), stake_overlay. cbn [negb].
    apply fsafe_bind, kid_write.
    + intros e'. rewrite Z.eqb_refl. cbn [negb]. fs_steps. by eauto.
    + intros x e' Hne. rewrite (proj2 (Z.eqb_neq _ _) Hne). cbn [negb].
      apply fsafe_bind, fsafe_when; [intros _|done].
      apply (kid_stops _ _ "CHILD: Failed to write() to pipe - %s\n" (fun e => [Str (strerror e)])); [done|].
      intros l'. by apply HQs.
Qed.

Ltac kid_stop := apply (kid_stops _ _ _ (fun e => [Str (strerror e)])); auto.

Lemma relay_child_safe buffer0 l : fsafe 1 (child rfd wfd buffer0) ended l (Kid KStart "").
Proof.
  unfold child. apply fsafe_bind, kid_close_wr.
  { intros e. cbn. apply fsafe_bind. kid_stop. }
  intros x e Hx. rewrite (proj2 (Z.eqb_neq _ _) Hx). do 3 fs_head. apply relay_safe; [auto| |].
  - intros l' d. fs_head. apply kid_line. left. split; [done|]. intros x' e'. cbn. do 3 fs_head.
    apply relay_close_rd; [done|]. intros x2 e2. apply fsafe_bind, fsafe_when; intros _; [kid_stop|].
    fs_steps. apply kid_done.
  - intros l' d. fs_head. apply kid_line. right. split; [done|]. intros x' e'. cbn. apply fsafe_bind. kid_stop.
Qed.
End Child.

(** *** The parent *)
Lemma relay_parent_stops {R} st s fmt args (Q : nat -> res R -> local -> ghost -> Prop) l :
  (forall l', ended 0 (Stopped (Exited EXIT_FAILURE)) l' (Par st s) ->
     Q 0%nat (Stopped (Exited EXIT_FAILURE)) l' (Par st s)) ->
  fsafe 0 (fprintf stderr fmt args ;; exit EXIT_FAILURE) Q l (Par st s).
Proof. intros HQ. apply fsafe_bind, fsafe_fprintf; [done|]. by apply fsafe_exit, HQ, relay_parent_fails. Qed.

Lemma par_known v gs st s :
  relay_inv a v gs -> gs !! 0%nat = Some (Par st s) ->
  par_ok a st s v /\ (st = S0 \/ st = S1 -> length gs = 1%nat) /\ (st = SFork -> length gs = 2%nat).
Proof.
  intros HI Hg. destruct (ri_pair _ _ _ HI); injection Hg as -> ->; (split; [done|]); split; try done.
  by intros [].
Qed.

Lemma relay_pipe_call (Q : nat -> res (Z * (Z * Z)) -> local -> ghost -> Prop) l :
  (forall x e, Q 0%nat (Returned (-1, x)) (answered e l) (Par S0 "")) ->
  (forall x e, x <> -1 -> NoDup [STDOUT_FILENO; rfd; wfd] ->
    Q 0%nat (Returned (x, (rfd, wfd))) (answered e l) (Par S1 "")) ->
  fsafe 0 (sys Pipe) Q l (Par S0 "").
Proof.
  intros HQ HQ1. apply fsafe_call; [done|]. intros v gs HI Hg. split; [by intros []|].
  intros [x ends] v' e Ha. cbn in Ha. destruct Ha as [[-> ->]|(Hx & Hends & Hnd & ->)].
  - exists (Par S0 ""). rewrite list_insert_id by done. auto.
  - subst ends. exists (Par S1 ""). destruct (par_known _ _ _ _ HI Hg) as (_ & Hlen & _).
    split_and!; [|done|done|by apply HQ1]. eapply relay_parent_move; [exact HI|exact Hg|done| | | | |done].
    + intros c (H1 & H2 & H3 & H4 & _). split_and!; try done. intros Hg1. cbn in Hg1, H1. congruence.
    + split; [by exists a|done].
    + done.
    + rewrite Hlen by auto. done.
Qed.

Lemma relay_fork_call (Q : nat -> res Z -> local -> ghost -> Prop) l :
  (forall e, Q 0%nat (Returned (-1)) (answered e l) (Par S1 "")) ->
  (forall x e, 0 < x -> Q 0%nat (Returned x) (answered e l) (Par SFork "")) ->
  Q 1%nat (Returned 0) (copied l) (Kid KStart "") ->
  fsafe 0 (sys Fork) Q l (Par S1 "").
Proof.
  intros HQ HQ1 HQ0. apply fsafe_fork. intros v gs HI Hg. split; [by intros []|].
  destruct (par_known _ _ _ _ HI Hg) as (_ & Hlen & _).
  intros x v' e [[-> ->]|[Hx ->]].
  - exists (Par S1 ""). rewrite list_insert_id by done. auto.
  - rewrite (proj2 (Z.ltb_lt _ _) Hx). exists (Par SFork ""), (Kid KStart "").
    replace (length gs) with 1%nat by (symmetry; apply Hlen; auto).
    split_and!; [by eapply fork_move|done|done|done|done|done|by apply HQ1].
Qed.

(** Nothing was in the pipe: the parent need not wait for room. *)
Lemma kid_ok_sent kt d v s :
  kid_ok SFork "" kt d v -> pbuf v = "" -> kid_ok SSent s kt d (set_pbuf (pbuf v +:+ s) v).
Proof.
  intros Hk Hb. destruct kt; cbn in *; rewrite ?Hb in *; try by destruct Hk.
  - by destruct (sout v).
  - by destruct (sout v).
  - by destruct (sout v), d.
  - destruct Hk as [r Hr]. destruct (sout v); [by exists s|done].
  - eapply part_more; [|exact Hk]. by exists s.
  - eapply part_more; [|exact Hk]. by exists s.
Qed.

Lemma par_write (Q : nat -> res Z -> local -> ghost -> Prop) l :
  (forall e, Q 0%nat (Returned (slen a)) (answered e l) (Par SSent a)) ->
  (forall x s e, x <> slen a -> Q 0%nat (Returned x) (answered e l) (Par SSent s)) ->
  fsafe 0 (sys (Write wfd a)) Q l (Par SFork "").
Proof.
  intros HQ HQ1. apply fsafe_call; [done|]. intros v gs HI Hg.
  destruct (par_known _ _ _ _ HI Hg) as ([_ [_ Hb]] & _ & Hlen). specialize (Hlen eq_refl).
  split; [by intros (_ & ? & _)|]. intros x v' e Hx.
  assert (exists s, relay_inv a v' (<[0%nat := Par SSent s]> gs) /\ (x = slen a -> s = a)) as (s & HI' & Hs).
  { destruct Hx as [[-> ->]|[Hx ->]].
    - exists "". split; [|intros Hl; pose proof (slen_nonneg a); lia].
      rewrite <- (on_proc_id 0 v). eapply relay_parent_move; [exact HI|exact Hg|done| | | | |done].
      + intros c (H1 & H2 & H3 & H4 & H5). by split_and!.
      + split; [by exists a|done].
      + by rewrite Hlen.
      + intros _. split_and!; [done|done|]. intros kt d Hk. eapply kid_ok_parent; [done|done|done|exact Hk].
    - rewrite Z.eqb_refl. exists (stake x a). split; [|intros ->; by rewrite stake_all].
      eapply (relay_parent_move a _ _ _ _ _ _ _ (fun c => c)); [exact HI|exact Hg| | | | | |done].
      + exact (eq_sym (f_equal procs (on_proc_id 0 v))).
      + intros c (H1 & H2 & H3 & H4 & H5). by split_and!.
      + split; [apply begins_stake|done].
      + by rewrite Hlen.
      + intros _. split_and!; [done|done|]. intros kt d Hk. by apply kid_ok_sent. }
  exists (Par SSent s). split_and!; [done|done|done|].
  destruct (Z.eq_dec x (slen a)) as [->|Hne]; [rewrite Hs by done; apply HQ|by apply HQ1].
Qed.
Lemma relay_close_wr (Q : nat -> res Z -> local -> ghost -> Prop) l :
  rfd <> wfd ->
  (forall e, Q 0%nat (Returned (-1)) (answered e l) (Par SErr a)) ->
  (forall x e, x <> -1 -> Q 0%nat (Returned x) (answered e l) (Par SShut a)) ->
  fsafe 0 (sys (Close wfd)) Q l (Par SSent a).
Proof.
  intros Hne HQ HQ1. apply fsafe_call; [done|]. intros v gs HI Hg. split; [by intros []|].
  intros x v' e Hx. cbn in Hx. rewrite Z.eqb_refl in Hx. apply not_eq_sym, Z.eqb_neq in Hne. rewrite Hne in Hx.
  assert (forall f st, (st = SErr \/ st = SShut) ->
    (forall c, proc_ok 0 c (Par SSent a) -> proc_ok 0 (f c) (Par st a)) ->
    relay_inv a (on_proc 0 f v) (<[0%nat := Par st a]> gs)) as Hmv.
  { intros f st Hst Hf. destruct (par_known _ _ _ _ HI Hg) as [[Hb _] _].
    eapply relay_parent_move; [exact HI|exact Hg|done|exact Hf| | | |by destruct Hst; subst].
    - split; [done|]. by destruct Hst; subst.
    - intros _ -> Ho. by destruct Hst; subst.
    - intros _. split_and!; try (by destruct Hst; subst). intros kt d Hk.
      eapply kid_ok_parent; [by destruct Hst; subst|done|done|exact Hk]. }
  destruct (Z.eq_dec x (-1)) as [->|Hx1].
  - exists (Par SErr a). split_and!; [|done|done|done].
    destruct Hx as [-> | [_ ->]]; [|rewrite <- (on_proc_id 0 v)];
      (apply Hmv; [by left|]; intros c (H1 & H2 & H3 & H4 & _); by split_and!).
  - destruct Hx as [-> | [? _]]; [|done]. exists (Par SShut a). split_and!; [|done|done|by apply HQ1].
    apply Hmv; [by right|]. intros c (H1 & H2 & H3 & H4 & _). by split_and!.
Qed.

(** The child waited for has ended. *)
Lemma relay_wait_call (Q : nat -> res Z -> local -> ghost -> Prop) l :
  (forall e, Q 0%nat (Returned (-1)) (answered e l) (Par SShut a)) ->
  (forall x e, 0 < x -> Q 0%nat (Returned x) (answered e l) (Par SReap a)) ->
  fsafe 0 (sys Wait) Q l (Par SShut a).
Proof.
  intros HQ HQ1. apply fsafe_call; [done|]. intros v gs HI Hg. split; [done|].
  destruct (par_known _ _ _ _ HI Hg) as [Hp _].
  intros x v' e [[-> ->]|(Hx & j & c & Hj & [Hwf _]%andb_true_iff & Hgone & ->)].
  - exists (Par SShut a). rewrite list_insert_id by done. auto.
  - exists (Par SReap a). split_and!; [|done|done|by apply HQ1].
    destruct (lookup_lt_is_Some_2 gs j) as [h Hh].
    { pose proof (lookup_lt_Some _ _ _ Hj) as Hlt. by rewrite (ri_len _ _ _ HI) in Hlt. }
    destruct (ri_procs _ _ _ HI _ _ _ Hj Hh) as (Hgh & _ & H3).
    assert (j = 1%nat) as ->.
    { destruct h as [st s|kt d]; [|by destruct H3]. destruct H3 as (_ & Hpar & _). by rewrite Hpar in Hwf. }
    assert (relay_inv a v (<[0%nat := Par SReap a]> gs)) as HI'; [|by apply relay_inv_on].
    rewrite <- (on_proc_id 0 v). eapply relay_parent_move; [exact HI|exact Hg|done| |exact Hp| | |].
    + intros c0 (H1 & H2 & H0 & H4 & H5). by split_and!.
    + intros _ -> Ho. done.
    + intros _. split_and!; [done|done|]. intros kt d. by apply kid_ok_parent.
    + intros _. right. exists h. split; [done|]. rewrite Hgone in Hgh. by destruct (gh_alive h).
Qed.

Lemma relay_main_safe buffer0 argv : argv.[1] = a -> fsafe 0 (main buffer0 argv) ended local0 (Par S0 "").
Proof.
  intros Ha. unfold main. rewrite Ha. fs_head. apply fsafe_when; intros _; [apply relay_parent_stops; auto|].
  fs_head. apply relay_pipe_call.
  { intros [rd wr] e. cbn. apply fsafe_bind, fsafe_bind, fsafe_errno, relay_parent_stops; auto. }
  intros x e Hx Hends. destruct (ends_distinct Hends) as [Hne _].
  rewrite (proj2 (Z.eqb_neq _ _) Hx). do 3 fs_head. apply relay_fork_call.
  { intros e1. cbn. apply fsafe_bind, fsafe_errno, relay_parent_stops; auto. }
  2:{ cbn. by apply relay_child_safe. }
  intros pid e1 Hpid. rewrite (proj2 (Z.eqb_neq pid (-1))), (proj2 (Z.eqb_neq pid 0)) by lia.
  fs_head. apply relay_close_rd; [done|]. intros x2 e2.
  fs_head. apply fsafe_when; intros _; [apply fsafe_bind, fsafe_errno, relay_parent_stops; auto|].
  fs_head. apply par_write.
  2:{ intros x3 s e3 Hx3. rewrite (proj2 (Z.eqb_neq _ _) Hx3). cbn [negb].
      apply fsafe_bind, fsafe_bind, fsafe_errno, relay_parent_stops; auto. }
  intros e3. rewrite Z.eqb_refl. cbn [negb]. do 3 fs_head. apply relay_close_wr; [done| |].
  { intros e4. apply fsafe_bind, fsafe_bind, fsafe_errno, relay_parent_stops; auto. }
  intros x4 e4 Hx4. rewrite (proj2 (Z.eqb_neq _ _) Hx4). do 3 fs_head. apply relay_wait_call.
  { intros e5. apply fsafe_bind, fsafe_bind, fsafe_errno, relay_parent_stops; auto. }
  intros x5 e5 Hx5. rewrite (proj2 (Z.eqb_neq x5 (-1))) by lia. do 2 fs_head.
  fs_head. apply relay_parent_done.
Qed.
End Safe.

(** ** What is delivered *)
Section Theorems.
Context {M : Machine} `{CText} (rfd wfd : Z) {HM : Pipes M rfd wfd}.

(** A process without a pipe, whose output is empty. *)
Definition alone (v : pipes) : Prop := procs v = [mkProc None false false false false] /\ sout v = "".

Lemma relay_reachable_ok buffer0 argv m sched p :
  alone (view m) -> exec no_threads sched (start [main buffer0 argv] m) = Some p ->
  forall k, pool_ok (P := view_protocol (P := relay_protocol argv.[1])) k p.
Proof.
  intros [Ha Ho] He.
  eapply (start_ok no_threads (P := view_protocol (P := relay_protocol argv.[1]))) with (gs := [Par S0 ""]);
    [done| | |exact He].
  - constructor; [by rewrite Ha| | |by intros st s [= <- <-]].
    + intros j c g Hc Hg. rewrite Ha in Hc. apply list_lookup_singleton_Some in Hc as [-> <-].
      injection Hg as <-. by split_and!.
    + constructor; [|done|done|done]. split; [by exists argv.[1]|done].
  - constructor; [|constructor]. split; [done|]. split; [done|].
    intros [|i] Hi _; [|done]. by apply relay_main_safe.
Qed.

Lemma relay_running buffer0 argv m sched p :
  exec no_threads sched (start [main buffer0 argv] m) = Some p -> p_over p = false.
Proof. apply never_over. intros i r. by rewrite (sp_end (S := pipe_spec rfd wfd)). Qed.

(** What is known of the tasks: which have ended, and how. *)
Lemma tasks_known buffer0 argv m sched p :
  alone (view m) -> exec no_threads sched (start [main buffer0 argv] m) = Some p ->
  exists gs, relay_inv argv.[1] (view (p_mach p)) gs /\ length gs = length (p_tasks p) /\
  forall j g, gs !! j = Some g ->
    if gh_alive g then outcome j p = None
    else exists r out, outcome j p = Some (r, out) /\ relay_done r g.
Proof.
  intros Ha He. destruct (relay_reachable_ok _ _ _ _ _ Ha He 0) as (gs & HI & Hl & Hok).
  exists gs. split; [apply HI; by eapply relay_running|]. split; [done|]. intros j g Hg.
  destruct (lookup_lt_is_Some_2 (p_tasks p) j) as [[[t|r] l] Ht].
  { rewrite <- Hl. by eapply lookup_lt_Some. }
  all: pose proof (Hok _ _ _ Ht Hg) as Ht'; cbn in Ht'; unfold outcome; rewrite Ht.
  - by destruct Ht' as (-> & _).
  - destruct Ht' as (-> & HD). by exists r, (l_out l).
Qed.

(** C4: Whatever the interleaving of simple_pipe and the child it makes, whatever
    part of the text each read and each write takes: the output they share never
    holds anything but a beginning of the argument, perhaps followed by a newline.
    When the parent has ended with success it has made one child, which has ended;
    and if the child has ended with success too, the output is the whole argument,
    followed by a newline unless that write failed. *)
Theorem simple_pipe_delivers buffer0 argv m sched p :
  alone (view m) -> exec no_threads sched (start [main buffer0 argv] m) = Some p ->
  part_shown argv.[1] (sout (view (p_mach p))) /\
  forall out, outcome 0 p = Some (Stopped (Exited EXIT_SUCCESS), out) ->
    length (p_tasks p) = 2%nat /\ exists r out', outcome 1 p = Some (r, out') /\
    (r = Stopped (ImmExited EXIT_SUCCESS) -> shown argv.[1] (sout (view (p_mach p)))).
Proof.
  intros Ha He. destruct (tasks_known _ _ _ _ _ Ha He) as (gs & HI & Hl & Hk). split.
  - destruct (ri_pair _ _ _ HI) as [st s _ _ _ ->|st s kt d [Hb _] _ _ Hkid].
    + exists "". split; [by exists argv.[1]|by left].
    + eapply part_more; [exact Hb|]. exact (kid_ok_fails _ _ _ _ _ Hkid).
  - intros out Ho. destruct (ri_pair _ _ _ HI) as [st s Hp Hst _ _|st s kt d [Hb Hp] _ _ Hkid].
    + pose proof (Hk 0%nat _ eq_refl) as H0. destruct st; cbn in H0; try congruence.
      * by destruct (ri_past _ _ _ HI SDone s eq_refl eq_refl) as (g & ? & _).
      * destruct H0 as (r & o & H0 & ->). by rewrite Ho in H0.
    + split; [by rewrite <- Hl|]. pose proof (Hk 0%nat _ eq_refl) as H0.
      destruct st; cbn in H0; try congruence; [|destruct H0 as (r & o & H0 & ->); by rewrite Ho in H0].
      destruct (ri_past _ _ _ HI SDone s eq_refl eq_refl) as (g & [= <-] & Hdead).
      pose proof (Hk 1%nat _ eq_refl) as H1. rewrite Hdead in H1. destruct H1 as (r & o & H1 & HD).
      exists r, o. split; [done|]. intros ->. destruct kt; try done. cbn in Hp, Hkid. subst. apply Hkid.
Qed.

(** Among the processes that run there is one that is not kept waiting. *)
Lemma free_process a v gs j g :
  relay_inv a v gs -> gs !! j = Some g -> gh_alive g = true ->
  exists i h, gs !! i = Some h /\ gh_alive h = true /\ ~ vwaits (VProtocol := relay_protocol a) i h v gs.
Proof.
  intros HI Hg Hal. pose proof (ri_procs _ _ _ HI) as Hps. pose proof (ri_len _ _ _ HI) as Hl.
  destruct (ri_pair _ _ _ HI) as [st s _ _ _ _|st s kt d _ _ _ _].
  - exists 0%nat, (Par st s). split; [done|]. apply list_lookup_singleton_Some in Hg as [-> <-]. split; [done|].
    destruct st; cbn; try tauto. intros (j & c & Hc & Hw & _).
    destruct j as [|j]; [|apply lookup_lt_Some in Hc; cbn in Hl; lia].
    destruct (Hps _ _ _ Hc eq_refl) as (_ & _ & _ & Hpar & _). unfold waited_for in Hw. by rewrite Hpar in Hw.
  - destruct (procs v) as [|c0 [|c1 [|]]] eqn:Ep; try done.
    pose proof (Hps 0%nat _ _ eq_refl eq_refl) as (_ & Hend0 & _ & Hpar0 & Hwr0).
    pose proof (Hps 1%nat _ _ eq_refl eq_refl) as (Hgone1 & _ & _ & Hwr1).
    pose proof (Hps 0%nat _ _ eq_refl eq_refl) as (Hgone0 & _).
    destruct (gh_alive (Kid kt d)) eqn:Ek.
    + destruct (decide (gh_alive (Par st s) = true /\ st <> SShut)) as [[E0 Hne]|Hpar].
      { exists 0%nat, (Par st s). split_and!; [done|done|]. destruct st; cbn; tauto. }
      exists 1%nat, (Kid kt d). split_and!; [done|done|]. destruct kt; try (cbn; tauto). cbn.
      enough (writers v = false) by congruence. apply writers_false. rewrite Ep.
      intros [|[|]] c; cbn; [|intros [= <-]; exact Hwr1|done]. intros [= <-].
      destruct (gh_alive (Par st s)) eqn:E0; [|apply Hend0; by rewrite Hgone0].
      destruct st; try exact Hwr0; by destruct Hpar.
    + exists 0%nat, (Par st s). split; [done|]. assert (gh_alive (Par st s) = true) as E0.
      { destruct j as [|[|]]; cbn in Hg; [by injection Hg as <-|injection Hg as <-; congruence|done]. }
      split; [done|]. destruct st; cbn; try tauto. rewrite Ep. intros ([|[|]] & c & Hc & Hw & Hng); [| |done].
      * injection Hc as <-. unfold waited_for in Hw. by rewrite Hpar0 in Hw.
      * injection Hc as <-. cbn in Hgone1. congruence.
Qed.

(** C32: simple_pipe does not deadlock: in every state an interleaving reaches, unless
    the parent and its child have ended, one of them can take a step. In particular
    the child meets the end of the pipe. *)
Theorem simple_pipe_progress buffer0 argv m sched p :
  alone (view m) -> exec no_threads sched (start [main buffer0 argv] m) = Some p ->
  (exists j, (j < length (p_tasks p))%nat /\ outcome j p = None) ->
  exists i p', step1 no_threads i p = Some p'.
Proof.
  intros Ha He (j & Hj & Hrun). eapply pool_progress; [by eapply (relay_reachable_ok buffer0 argv)|by eapply relay_running|].
  intros gs HI Hl Hdead. cbn [Inv view_protocol alive waits] in *.
  destruct (lookup_lt_is_Some_2 gs j) as [g Hg]; [by rewrite Hl|].
  apply (free_process argv.[1] _ _ j g HI Hg).
  destruct (gh_alive g) eqn:E; [done|]. destruct (Hdead _ _ Hg E) as (r & l & Ho & _). congruence.
Qed.
End Theorems.

(** ** A run *)
Definition alone0 : @mstate pipe_machine := mkPipes [mkProc None false false false false] "" "".
Definition relay_start : @pool pipe_machine :=
  let _ := plain_text in start (M := pipe_machine) [main "" ["simple_pipe"; "a text longer than ten"]] alone0.
Definition relay_end : @pool pipe_machine := round_robin (M := pipe_machine) no_threads 60 relay_start.

Lemma relay_run : exists sched, exec (M := pipe_machine) no_threads sched relay_start = Some relay_end.
Proof. apply round_robin_exec. Qed.

Example relay_outcomes :
  outcome (M := pipe_machine) 0 relay_end = Some (Stopped (Exited EXIT_SUCCESS), []) /\
  outcome (M := pipe_machine) 1 relay_end = Some (Stopped (ImmExited EXIT_SUCCESS), []) /\
  sout (p_mach (H := pipe_machine) relay_end) = "a text longer than ten" +:+ newline.
Proof. vm_compute. done. Qed.

Lemma simple_pipe_delivers_witness :
  outcome (M := pipe_machine) 0 relay_end = Some (Stopped (Exited EXIT_SUCCESS), []) /\
  shown "a text longer than ten" (sout (p_mach (H := pipe_machine) relay_end)).
Proof.
  assert (outcome (M := pipe_machine) 0 relay_end = Some (Stopped (Exited EXIT_SUCCESS), [])) as H0 by (vm_compute; reflexivity).
  assert (outcome (M := pipe_machine) 1 relay_end = Some (Stopped (ImmExited EXIT_SUCCESS), [])) as H1 by (vm_compute; reflexivity).
  split; [exact H0|]. destruct relay_run as [sched He].
  destruct (proj2 (@simple_pipe_delivers pipe_machine plain_text 3 4 pipe_machine_ok ""
    ["simple_pipe"; "a text longer than ten"] alone0 sched relay_end (conj eq_refl eq_refl) He) [] H0)
    as (_ & r & out & Ho & Hs).
  apply Hs. rewrite H1 in Ho. injection Ho as <- _. reflexivity.
Defined.

Lemma simple_pipe_progress_witness : exists i p', step1 (M := pipe_machine) no_threads i relay_start = Some p'.
Proof.
  apply (@simple_pipe_progress pipe_machine plain_text 3 4 pipe_machine_ok ""
    ["simple_pipe"; "a text longer than ten"] alone0 [] relay_start); [by split|reflexivity|].
  exists 0%nat. split; [cbn; lia|reflexivity].
Defined.
