(* ===== verification/HeapLogic.v ===== *)
(** * A separation logic over a heap of cells

    Assertions describe a part of a heap, a finite map from addresses to cells of
    a type [V]; they still hold when the part grows. They form an affine logic of
    bunched implications, so that the proof mode of Iris applies. Programs are
    functions from a world to an outcome and a world; a world is a heap and the
    variables outside it, which have a type [G] and are not owned: [wp] tracks
    their value. *)

From S2P Require Import Prelude.
From S2P Require Import CLib.
From S2P Require Import Sys.
From S2P Require Import Sem.
From iris.bi Require Import bi.
From iris.proofmode Require Import proofmode.
#[local] Open Scope Z_scope.

#[local] Set Warnings "-redundant-canonical-projection".

(** ** Assertions *)
Section Assertions.
Context {V : Type}.
Implicit Types h : gmap Z V.

Record hprop := Hprop {
  holds : gmap Z V -> Prop;
  holds_mono h1 h2 : h1 ⊆ h2 -> holds h1 -> holds h2 }.
#[local] Arguments holds_mono : clear implicits.

#[local] Instance hprop_equiv : Equiv hprop := fun P Q => forall h, holds P h <-> holds Q h.
#[local] Instance hprop_equivalence : Equivalence (≡@{hprop}).
Proof.
  split; [by intros P h|by intros P Q H h; symmetry|].
  intros P Q R H1 H2 h. by transitivity (holds Q h).
Qed.
Canonical Structure hpropO : ofe := Ofe hprop (discrete_ofe_mixin hprop_equivalence).

Record hentails (P Q : hprop) : Prop := HEntails { hentails_at : forall h, holds P h -> holds Q h }.

Program Definition hemp : hprop := Hprop (fun _ => True) _.
Next Obligation. done. Qed.
Program Definition hpure (φ : Prop) : hprop := Hprop (fun _ => φ) _.
Next Obligation. done. Qed.
Program Definition hand (P Q : hprop) : hprop := Hprop (fun h => holds P h /\ holds Q h) _.
Next Obligation. intros P Q h1 h2 Hs [HP HQ]. split; by eapply holds_mono. Qed.
Program Definition hor (P Q : hprop) : hprop := Hprop (fun h => holds P h \/ holds Q h) _.
Next Obligation. intros P Q h1 h2 Hs [HP|HQ]; [left|right]; by eapply holds_mono. Qed.
Program Definition himpl (P Q : hprop) : hprop :=
  Hprop (fun h => forall h', h ⊆ h' -> holds P h' -> holds Q h') _.
Next Obligation. intros P Q h1 h2 Hs H h' Hs' HP. apply H; [by etrans|done]. Qed.
Program Definition hforall (A : Type) (Ψ : A -> hprop) : hprop := Hprop (fun h => forall a, holds (Ψ a) h) _.
Next Obligation. intros A Ψ h1 h2 Hs H a. by eapply holds_mono. Qed.
Program Definition hexist (A : Type) (Ψ : A -> hprop) : hprop := Hprop (fun h => exists a, holds (Ψ a) h) _.
Next Obligation. intros A Ψ h1 h2 Hs [a H]. exists a. by eapply holds_mono. Qed.
Program Definition hsep (P Q : hprop) : hprop :=
  Hprop (fun h => exists h1 h2, h = h1 ∪ h2 /\ h1 ##ₘ h2 /\ holds P h1 /\ holds Q h2) _.
Next Obligation.
  intros P Q h h' Hs (h1 & h2 & -> & Hd & HP & HQ).
  exists h1, (h2 ∪ (h' ∖ (h1 ∪ h2))). split_and!; [|..|done|].
  - by rw (assoc_L (∪)) map_difference_union.
  - apply map_disjoint_union_r_2; [done|]. apply map_disjoint_difference_r1, map_union_subseteq_l.
  - eapply holds_mono; [|exact HQ]. apply map_union_subseteq_l.
Qed.
Program Definition hwand (P Q : hprop) : hprop :=
  Hprop (fun h => forall h', h ##ₘ h' -> holds P h' -> holds Q (h ∪ h')) _.
Next Obligation.
  intros P Q h1 h2 Hs H h' Hd HP. eapply holds_mono; [|apply H; [|exact HP]].
  - by apply map_union_mono_r.
  - by eapply map_disjoint_weaken_l.
Qed.
Definition hpersistently (P : hprop) : hprop := hpure (hentails hemp P).
Definition hlater (P : hprop) : hprop := P.

Lemma hprop_bi_mixin :
  BiMixin hentails hemp hpure hand hor himpl hforall hexist hsep hwand.
Proof.
  split.
  - split; [by intros P|]. intros P Q R [H1] [H2]. split. auto.
  - intros P Q. split; [intros H; split; split; intros h; apply H|]. intros [[H1] [H2]] h. by split; auto.
  - intros n φ ψ H h. exact H.
  - intros n P P' HP Q Q' HQ h. cbn. by rw (HP h) (HQ h).
  - intros n P P' HP Q Q' HQ h. cbn. by rw (HP h) (HQ h).
  - intros n P P' HP Q Q' HQ h. cbn. split; intros H h' Hs; specialize (H h' Hs); rw -?(HP h') -?(HQ h') in H |- *; naive_solver.
  - intros A n Ψ Ψ' H h. cbn. split; intros HP a; by apply (H a h).
  - intros A n Ψ Ψ' H h. cbn. split; intros [a HP]; exists a; by apply (H a h).
  - intros n P P' HP Q Q' HQ h. cbn. split; intros (h1 & h2 & ? & ? & H1 & H2); exists h1, h2; split_and!; [done|done|by apply HP|by apply HQ|done|done|by apply HP|by apply HQ].
  - intros n P P' HP Q Q' HQ h. cbn. split; intros H h' Hd Hp; apply HQ, H; [done|by apply HP|done|by apply HP].
  - intros φ P H. by split.
  - intros φ P H. split. intros h Hφ. by apply H.
  - intros P Q. split. by intros h [? _].
  - intros P Q. split. by intros h [_ ?].
  - intros P Q R [H1] [H2]. split. intros h HP. split; auto.
  - intros P Q. split. intros h HP. by left.
  - intros P Q. split. intros h HP. by right.
  - intros P Q R [H1] [H2]. split. intros h [HP|HP]; auto.
  - intros P Q R [H]. split. intros h HP h' Hs HQ. apply H. split; [by eapply holds_mono|done].
  - intros P Q R [H]. split. intros h [HP HQ]. by eapply H.
  - intros A P Ψ H. split. intros h HP a. by apply H.
  - intros A Ψ a. split. intros h H. apply H.
  - intros A Ψ a. split. intros h H. by exists a.
  - intros A Φ Q H. split. intros h [a Ha]. by apply (H a).
  - intros P P' Q Q' [H1] [H2]. split. intros h (h1 & h2 & -> & Hd & HP & HQ). exists h1, h2. auto.
  - intros P. split. intros h HP. exists ∅, h. rw left_id_L. split_and!; [done|apply map_disjoint_empty_l|done|done].
  - intros P. split. intros h (h1 & h2 & -> & Hd & _ & HP). eapply holds_mono; [|exact HP]. by apply map_union_subseteq_r.
  - intros P Q. split. intros h (h1 & h2 & -> & Hd & HP & HQ). exists h2, h1. split_and!; [by apply map_union_comm|done|done|done].
  - intros P Q R. split. intros h (hpq & h3 & -> & Hd & (h1 & h2 & -> & Hd' & HP & HQ) & HR).
    apply map_disjoint_union_l in Hd as [Hd1 Hd2]. exists h1, (h2 ∪ h3). split_and!; [by rw assoc_L|by apply map_disjoint_union_r_2|done|].
    by exists h2, h3.
  - intros P Q R [H]. split. intros h HP h' Hd HQ. apply H. by exists h, h'.
  - intros P Q R [H]. split. intros h (h1 & h2 & -> & Hd & HP & HQ). by apply H.
Qed.

Lemma hprop_bi_persistently_mixin : BiPersistentlyMixin hentails hemp hand hexist hsep hpersistently.
Proof.
  eapply bi_persistently_mixin_discrete; [by intros n P Q H| |done|exact hprop_bi_mixin].
  intros A Φ [H]. destruct (H ∅ I) as [a Ha]. exists a. split. intros h _.
  eapply holds_mono; [apply map_empty_subseteq|exact Ha].
Qed.

Lemma hprop_bi_later_mixin : BiLaterMixin hentails hpure hor himpl hforall hexist hsep hpersistently hlater.
Proof. eapply bi_later_mixin_id; [done|exact hprop_bi_mixin]. Qed.

Canonical Structure hpropI : bi := {|
  bi_ofe_mixin := ofe_mixin_of hprop;
  bi_bi_mixin := hprop_bi_mixin;
  bi_bi_persistently_mixin := hprop_bi_persistently_mixin;
  bi_bi_later_mixin := hprop_bi_later_mixin |}.

#[export] Instance hprop_affine : BiAffine hpropI.
Proof. intros P. split. done. Qed.
#[export] Instance hprop_pure_forall : BiPureForall hpropI.
Proof. intros A φ. split. intros h H a. exact (H a). Qed.
End Assertions.
Arguments hprop : clear implicits.
Arguments hpropI : clear implicits.

(** ** Programs *)

(** A program ends with a value, by a jump to the point a test is run from or to
    the one that expects a failed assertion, or with the process; [Fault] is an
    access to memory that is not there, [Spins] a loop that goes round for ever. *)
Inductive outcome (A : Type) :=
| Done (a : A) | LongJmp (v : Z) | AssertJmp (v : Z) | Ended (s : stop) | Fault | Spins.
Arguments Done {A} a.
Arguments LongJmp {A} v.
Arguments AssertJmp {A} v.
Arguments Ended {A} s.
Arguments Fault {A}.
Arguments Spins {A}.

Record world (V G : Type) := mkWorld { heap : gmap Z V; vars : G }.
Arguments mkWorld {V G} heap vars.
Arguments heap {V G} w.
Arguments vars {V G} w.

Definition cmd (V G A : Type) : Type := world V G -> outcome A * world V G.

Declare Scope cmd_scope.
Delimit Scope cmd_scope with cmd.
Bind Scope cmd_scope with cmd.

Section Programs.
Context {V G : Type}.
Abbreviation M := (cmd V G).

Definition ret {A} (a : A) : M A := fun w => (Done a, w).
Definition fails {A} (r : forall A, outcome A) : M A := fun w => (r A, w).
Definition bind {A B} (c : M A) (k : A -> M B) : M B := fun w =>
  match c w with
  | (Done a, w) => k a w
  | (LongJmp v, w) => (LongJmp v, w)
  | (AssertJmp v, w) => (AssertJmp v, w)
  | (Ended s, w) => (Ended s, w)
  | (Fault, w) => (Fault, w)
  | (Spins, w) => (Spins, w)
  end.

Definition get : M G := fun w => (Done (vars w), w).
Definition put (g : G) : M unit := fun w => (Done tt, mkWorld (heap w) g).
Definition modify (f : G -> G) : M unit := fun w => (Done tt, mkWorld (heap w) (f (vars w))).

(** Nothing is at null or below. *)
Definition lookup_cell (a : Z) (h : gmap Z V) : option V := if 0 <? a then h !! a else None.
Definition load (a : Z) : M V := fun w =>
  match lookup_cell a (heap w) with Some v => (Done v, w) | None => (Fault, w) end.
Definition store (a : Z) (v : V) : M unit := fun w =>
  match lookup_cell a (heap w) with
  | Some _ => (Done tt, mkWorld (<[a := v]> (heap w)) (vars w))
  | None => (Fault, w)
  end.

(** Addresses that no cell of the heap has, nor any address above; null is 0. *)
Definition fresh_base (h : gmap Z V) : Z := 16 * (1 + map_fold (fun k _ m => Z.max k m) 0 h).
Definition put_cells (base : Z) (cells : list (Z * V)) (h : gmap Z V) : gmap Z V :=
  foldr (fun c h => <[base + c.1 := c.2]> h) h cells.
Definition alloc (cells : list (Z * V)) : M Z := fun w =>
  let base := fresh_base (heap w) in (Done base, mkWorld (put_cells base cells (heap w)) (vars w)).
Definition dealloc (base : Z) (offsets : list Z) : M unit := fun w =>
  if forallb (fun o => bool_decide (is_Some (heap w !! (base + o)))) offsets
  then (Done tt, mkWorld (foldr (fun o => delete (base + o)) (heap w) offsets) (vars w))
  else (Fault, w).

(** [setjmp]: the jump comes back here. *)
Definition try {A} (c : M A) : M (A + Z) := fun w =>
  match c w with
  | (Done a, w) => (Done (inl a), w)
  | (LongJmp v, w) => (Done (inr v), w)
  | (AssertJmp v, w) => (AssertJmp v, w)
  | (Ended s, w) => (Ended s, w)
  | (Fault, w) => (Fault, w)
  | (Spins, w) => (Spins, w)
  end.

(** A loop that has gone round more often than the heap has cells goes round for
    ever. *)
Fixpoint loop {S R} (fuel : nat) (body : S -> M (S + R)) (s : S) : M R :=
  match fuel with
  | O => fun w => (Spins, w)
  | Datatypes.S fuel => bind (body s) (fun r => match r with inl s => loop fuel body s | inr r => ret r end)
  end.
Definition walk {S R} (body : S -> M (S + R)) (s : S) : M R := fun w =>
  loop (Datatypes.S (Datatypes.S (size (heap w)))) body s w.
End Programs.

Notation "' p <- c ;; k" := (bind c (fun x => match x with p => k end))
  (at level 100, p pattern, c at next level, right associativity) : cmd_scope.
Notation "x <- c ;; k" := (bind c (fun x => k))
  (at level 100, c at next level, right associativity) : cmd_scope.
Notation "c ;; k" := (bind c (fun _ => k))
  (at level 100, k at level 200, right associativity) : cmd_scope.

(** ** Rules *)
Section Rules.
Context {V G : Type}.
Abbreviation M := (cmd V G).
Abbreviation hProp := (hpropI V).

Program Definition pts (a : Z) (v : V) : hProp := Hprop (fun h => 0 < a /\ h !! a = Some v) _.
Next Obligation. intros a v h1 h2 Hs [Ha H]. split; [done|exact (lookup_weaken _ _ _ _ H Hs)]. Qed.

(** From the part of the heap that is owned and the variables [g], the program
    ends with an outcome and variables that satisfy [Q], and leaves the rest of
    the heap as it is. *)
Program Definition hwp {A} (c : M A) (g : G) (Q : outcome A -> G -> hProp) : hProp :=
  Hprop (fun h => forall hf, h ##ₘ hf -> exists r h' g',
    c (mkWorld (h ∪ hf) g) = (r, mkWorld (h' ∪ hf) g') /\ h' ##ₘ hf /\ holds (Q r g') h') _.
Next Obligation.
  intros A c g Q h1 h2 Hs H hf Hd.
  destruct (H ((h2 ∖ h1) ∪ hf)) as (r & h' & g' & Hc & Hd' & HQ).
  { apply map_disjoint_union_r_2; [apply map_disjoint_difference_r1; reflexivity|exact (map_disjoint_weaken_l _ _ _ Hd Hs)]. }
  rw (assoc_L (∪)) map_difference_union // in Hc.
  apply map_disjoint_union_r in Hd' as [Hd1 Hd2].
  exists r, (h' ∪ h2 ∖ h1), g'. split_and!; [by rw Hc (assoc_L (∪))| |].
  - apply map_disjoint_union_l_2; [done|]. eapply map_disjoint_weaken_l; [exact Hd|].
    by apply map_subseteq_difference_l.
  - eapply holds_mono; [|exact HQ]. apply map_union_subseteq_l.
Qed.

(** What a rule about the owned part says of a whole run. *)
Lemma hwp_run {A} (c : M A) g Q h (P : hProp) :
  holds P h -> (P ⊢ hwp c g Q) ->
  exists r h' g', c (mkWorld h g) = (r, mkWorld h' g') /\ holds (Q r g') h'.
Proof.
  intros HP [HQ]. destruct (HQ h HP ∅ (map_disjoint_empty_r _)) as (r & h' & g' & Hc & _ & H).
  exists r, h', g'. by rw !right_id_L in Hc.
Qed.

Lemma hwp_wand {A} (c : M A) g Q Q' :
  hwp c g Q ⊢ (∀ r g', Q r g' -∗ Q' r g') -∗ hwp c g Q'.
Proof.
  split=> h H h2 Hd HQ hf Hf. cbn in H. apply map_disjoint_union_l in Hf as [Hf1 Hf2].
  destruct (H (h2 ∪ hf)) as (r & h' & g' & Hc & Hd' & HQ').
  { by apply map_disjoint_union_r_2. }
  rw (assoc_L (∪)) in Hc. apply map_disjoint_union_r in Hd' as [Hd1 Hd2].
  exists r, (h' ∪ h2), g'. split_and!; [by rw Hc (assoc_L (∪))|by apply map_disjoint_union_l_2|].
  rw map_union_comm //. apply (HQ r g'); [by symmetry|exact HQ'].
Qed.

Lemma hwp_mono {A} (c : M A) g Q Q' :
  (forall r g', Q r g' ⊢ Q' r g') -> hwp c g Q ⊢ hwp c g Q'.
Proof. iIntros (H) "H". iApply (hwp_wand with "H"). iIntros (r g') "H". by iApply H. Qed.

(** Two programs that compute the same have the same rule. *)
Lemma hwp_ext {A} (c c' : M A) g Q : (forall w, c w = c' w) -> hwp c g Q ⊢ hwp c' g Q.
Proof. intros Hc. split=> h H hf Hd. destruct (H hf Hd) as (r & h' & g' & ? & ?). exists r, h', g'. by rw -Hc. Qed.

Lemma hwp_ret {A} (a : A) g Q : Q (Done a) g ⊢ hwp (ret a) g Q.
Proof. split=> h H hf Hd. by exists (Done a), h, g. Qed.

Lemma hwp_fails {A} (r : forall A, outcome A) g Q : Q (r A) g ⊢ hwp (fails r) g Q.
Proof. split=> h H hf Hd. by exists (r A), h, g. Qed.

Lemma hwp_get g Q : Q (Done g) g ⊢ hwp get g Q.
Proof. split=> h H hf Hd. by exists (Done g), h, g. Qed.

Lemma hwp_put g' g Q : Q (Done tt) g' ⊢ hwp (put g') g Q.
Proof. split=> h H hf Hd. by exists (Done tt), h, g'. Qed.

Lemma hwp_modify f g Q : Q (Done tt) (f g) ⊢ hwp (modify f) g Q.
Proof. split=> h H hf Hd. by exists (Done tt), h, (f g). Qed.

(** A jump or the end of the process leaves the rest out. *)
Definition cast {A B} (r : outcome A) : outcome B :=
  match r with
  | Done _ => Fault
  | LongJmp v => LongJmp v
  | AssertJmp v => AssertJmp v
  | Ended s => Ended s
  | Fault => Fault
  | Spins => Spins
  end.

Lemma hwp_bind {A B} (c : M A) (k : A -> M B) g Q :
  hwp c g (fun r g' => match r with Done a => hwp (k a) g' Q | r => Q (cast r) g' end) ⊢ hwp (bind c k) g Q.
Proof.
  split=> h H hf Hd. destruct (H hf Hd) as (r & h' & g' & Hc & Hd' & HQ). unfold bind. rw Hc.
  destruct r as [a|v|v|s| |]; [by apply HQ|by eexists _, h', g'..].
Qed.

Lemma bind_assoc {A B C} (c : M A) (k : A -> M B) (k' : B -> M C) w :
  bind (bind c k) k' w = bind c (fun a => bind (k a) k') w.
Proof. unfold bind. by destruct (c w) as [[a|v|v|s| |] w']. Qed.

Lemma hwp_assoc {A B C} (c : M A) (k : A -> M B) (k' : B -> M C) g Q :
  hwp (bind c (fun a => bind (k a) k')) g Q ⊢ hwp (bind (bind c k) k') g Q.
Proof. apply hwp_ext. intros w. by rw bind_assoc. Qed.

Lemma hwp_group {A B C} (c : M A) (k : A -> M B) (k' : B -> M C) g Q :
  hwp (bind (bind c k) k') g Q ⊢ hwp (bind c (fun a => bind (k a) k')) g Q.
Proof. apply hwp_ext. intros w. by rw bind_assoc. Qed.

Lemma hwp_try {A} (c : M A) g Q :
  hwp c g (fun r g' => match r with
                       | Done a => Q (Done (inl a)) g'
                       | LongJmp v => Q (Done (inr v)) g'
                       | r => Q (cast r) g'
                       end) ⊢ hwp (try c) g Q.
Proof.
  split=> h H hf Hd. destruct (H hf Hd) as (r & h' & g' & Hc & Hd' & HQ). unfold try. rw Hc.
  destruct r; by eexists _, h', g'.
Qed.

(** *** Cells *)
Lemma owned_only (h1 h2 : gmap Z V) a v : h1 ##ₘ h2 -> h1 !! a = Some v -> h2 !! a = None.
Proof. apply map_disjoint_Some_l. Qed.

Lemma pts_ne a b v w : pts a v -∗ pts b w -∗ ⌜a <> b⌝.
Proof.
  apply bi.entails_wand, bi.wand_intro_r. split. intros h (h1 & h2 & -> & Hd & H1 & H2). cbn. intros Hab. subst b.
  destruct H1 as [_ H1], H2 as [_ H2]. rw (owned_only _ _ _ _ Hd H1) in H2. done.
Qed.

Lemma pts_pos a v : pts a v ⊢ ⌜0 < a⌝.
Proof. split. intros h [Ha _]. exact Ha. Qed.

Lemma lookup_owned (h h' : gmap Z V) a v : 0 < a -> h !! a = Some v -> lookup_cell a (h ∪ h') = Some v.
Proof. intros Ha%Z.ltb_lt Hv. unfold lookup_cell. rw Ha. by apply lookup_union_Some_l. Qed.

Lemma hwp_load_null g Q : Q Fault g ⊢ hwp (load 0) g Q.
Proof. split=> h H hf Hd. by exists Fault, h, g. Qed.

Lemma hwp_load a v g Q : pts a v -∗ (pts a v -∗ Q (Done v) g) -∗ hwp (load a) g Q.
Proof.
  apply bi.entails_wand, bi.wand_intro_r. split. intros h (h1 & h2 & -> & Hd & [Ha H1] & HQ) hf Hf.
  unfold load. cbn [heap]. rw (lookup_owned _ _ _ v Ha); last by apply lookup_union_Some_l.
  exists (Done v), (h1 ∪ h2), g. split_and!; [done|done|].
  rw map_union_comm //. apply HQ; [by symmetry|by split].
Qed.

Lemma hwp_store a v v' g Q : pts a v -∗ (pts a v' -∗ Q (Done tt) g) -∗ hwp (store a v') g Q.
Proof.
  apply bi.entails_wand, bi.wand_intro_r. split. intros h (h1 & h2 & -> & Hd & [Ha H1] & HQ) hf Hf.
  apply map_disjoint_union_l in Hf as [Hf1 Hf2].
  unfold store. cbn [heap vars]. rw (lookup_owned _ _ _ v Ha); last by apply lookup_union_Some_l.
  assert (<[a:=v']> h1 ##ₘ h2) by (apply map_disjoint_insert_l_2; [exact (owned_only _ _ _ _ Hd H1)|done]).
  assert (<[a:=v']> h1 ##ₘ hf) by (apply map_disjoint_insert_l_2; [exact (owned_only _ _ _ _ Hf1 H1)|done]).
  exists (Done tt), (<[a:=v']> h1 ∪ h2), g. split_and!.
  - by rw -!insert_union_l.
  - by apply map_disjoint_union_l_2.
  - rw map_union_comm //. apply HQ; [by symmetry|]. cbn. by rw lookup_insert_eq.
Qed.

(** Fresh cells. *)
Lemma fresh_base_pos (h : gmap Z V) : 16 <= fresh_base h.
Proof.
  unfold fresh_base. enough (0 <= map_fold (fun k _ m => Z.max k m) 0 h) by lia.
  apply (map_fold_weak_ind (fun m _ => 0 <= m)); lia.
Qed.

Lemma max_key (h : gmap Z V) a v : h !! a = Some v -> a <= map_fold (fun k _ m => Z.max k m) 0 h.
Proof.
  revert v. apply (map_fold_weak_ind (fun m h => forall v, h !! a = Some v -> a <= m)); [done|].
  intros k x m r Hk IH v. rw lookup_insert. case_decide; [lia|]. intros Hv%IH. lia.
Qed.

Lemma fresh_base_above (h : gmap Z V) a : fresh_base h <= a -> h !! a = None.
Proof.
  intros Ha. destruct (h !! a) as [v|] eqn:E; [|done]. apply max_key in E.
  pose proof (fresh_base_pos h). unfold fresh_base in *. lia.
Qed.

Lemma put_cells_union base cells (h hf : gmap Z V) :
  put_cells base cells (h ∪ hf) = put_cells base cells h ∪ hf.
Proof. induction cells as [|[o v] cells IH]; [done|]. unfold put_cells in *. cbn. by rw IH insert_union_l. Qed.

Lemma put_cells_disjoint base cells (h hf : gmap Z V) :
  (forall o v, (o, v) ∈ cells -> hf !! (base + o) = None) -> h ##ₘ hf -> put_cells base cells h ##ₘ hf.
Proof.
  intros Hf Hd. induction cells as [|[o v] cells IH]; [done|]. cbn.
  apply map_disjoint_insert_l_2; [apply (Hf o v); left|]. apply IH. intros o' v' H. apply (Hf o' v'). by right.
Qed.

Lemma put_cells_owned base cells :
  0 < base -> Forall (fun c => 0 <= c.1) cells -> NoDup cells.*1 ->
  holds ([∗ list] c ∈ cells, pts (base + c.1) c.2)%I (put_cells base cells ∅).
Proof.
  intros Hb. induction cells as [|[o v] cells IH]; [done|]. cbn. intros [Ho Hpos]%Forall_cons [Hn Hnd]%NoDup_cons.
  cbn in Ho.
  exists {[base + o := v]}, (put_cells base cells ∅). split_and!.
  - by rw insert_union_singleton_l.
  - apply map_disjoint_singleton_l_2. clear -Hn. induction cells as [|[o' v'] cells IH]; [done|]. cbn in *.
    apply not_elem_of_cons in Hn as [H1 H2]. rw lookup_insert_ne; [by apply IH|lia].
  - cbn. rw lookup_singleton_eq. split; [lia|done].
  - by apply IH.
Qed.

Lemma hwp_alloc cells g Q :
  NoDup cells.*1 -> Forall (fun c => 0 <= c.1) cells ->
  (∀ a, ⌜0 < a⌝ -∗ ⌜a mod 16 = 0⌝ -∗ ([∗ list] c ∈ cells, pts (a + c.1) c.2) -∗ Q (Done a) g) ⊢ hwp (alloc cells) g Q.
Proof.
  intros Hnd Hpos. split=> h HQ hf Hf. unfold alloc. cbn [heap vars].
  set (base := fresh_base (h ∪ hf)). assert (16 <= base) as Hb by apply fresh_base_pos.
  assert (forall a, base <= a -> h !! a = None /\ hf !! a = None) as Hfree.
  { intros a Ha%fresh_base_above. by apply lookup_union_None in Ha. }
  assert (forall h0 : gmap Z V, (forall a, base <= a -> h0 !! a = None) -> forall o v, (o, v) ∈ cells -> h0 !! (base + o) = None) as Hcells.
  { intros h0 H0 o v Hin. apply H0. rw Forall_forall in Hpos. specialize (Hpos _ Hin). cbn in Hpos. lia. }
  exists (Done base), (put_cells base cells h), g. split_and!.
  - by rw put_cells_union.
  - apply put_cells_disjoint; [|done]. apply Hcells. apply Hfree.
  - assert (h ##ₘ put_cells base cells ∅) as Hd.
    { symmetry. apply put_cells_disjoint; [|apply map_disjoint_empty_l]. apply Hcells. apply Hfree. }
    assert (base mod 16 = 0) as Hmod by (unfold base, fresh_base; rw Z.mul_comm Z_mod_mult; done).
    assert (0 < base) as Hb0 by lia.
    pose proof (HQ base ∅ (map_disjoint_empty_r _) Hb0) as HQ1. rw right_id_L in HQ1.
    pose proof (HQ1 ∅ (map_disjoint_empty_r _) Hmod) as HQ2. rw right_id_L in HQ2.
    pose proof (HQ2 _ Hd (put_cells_owned _ _ Hb0 Hpos Hnd)) as HQ3.
    rw map_union_comm // -put_cells_union left_id_L in HQ3. exact HQ3.
Qed.
Definition owns (a : Z) : hProp := (∃ v, pts a v)%I.

Lemma owned_cells (l : list Z) h :
  holds ([∗ list] a ∈ l, owns a)%I h -> NoDup l /\ forall a, a ∈ l -> is_Some (h !! a).
Proof.
  revert h. induction l as [|a l IH]; intros h; cbn.
  { intros _. split; [constructor|]. by intros a ?%not_elem_of_nil. }
  intros (h1 & h2 & -> & Hd & [v Hv] & Hl). destruct (IH _ Hl) as [Hnd Hin]. destruct Hv as [_ Hv]. split.
  - constructor; [|done]. intros [w Hw]%Hin. rw (owned_only _ _ _ _ Hd Hv) in Hw. done.
  - intros b [->|Hb]%elem_of_cons; [by exists v; apply lookup_union_Some_l|].
    destruct (Hin _ Hb) as [w Hw]. exists w. by apply lookup_union_Some_r.
Qed.

Lemma owned_size (l : list Z) h : holds ([∗ list] a ∈ l, owns a)%I h -> (length l <= size h)%nat.
Proof.
  intros [Hnd Hin]%owned_cells. rw -size_dom -(size_list_to_set (C := gset Z)) //.
  apply subseteq_size. intros a Ha%elem_of_list_to_set. by apply elem_of_dom, Hin.
Qed.

Lemma foldr_delete_union base l (h hf : gmap Z V) :
  (forall o, o ∈ l -> hf !! (base + o) = None) ->
  foldr (fun o => delete (base + o)) (h ∪ hf) l = foldr (fun o => delete (base + o)) h l ∪ hf.
Proof.
  intros Hf. induction l as [|o l IH]; [done|]. cbn. rw IH; [|intros o' H; apply Hf; by right].
  rw delete_union (delete_id hf) //. apply Hf. left.
Qed.

Lemma foldr_delete_disjoint base l (h hf : gmap Z V) :
  h ##ₘ hf -> foldr (fun o => delete (base + o)) h l ##ₘ hf.
Proof. intros Hd. induction l as [|o l IH]; [done|]. cbn. by apply map_disjoint_delete_l. Qed.

Lemma hwp_dealloc base offsets g Q :
  ([∗ list] o ∈ offsets, owns (base + o)) -∗ Q (Done tt) g -∗ hwp (dealloc base offsets) g Q.
Proof.
  apply bi.entails_wand, bi.wand_intro_r. split. intros h (h1 & h2 & -> & Hd & H1 & HQ) hf Hf.
  apply map_disjoint_union_l in Hf as [Hf1 Hf2].
  assert (forall o, o ∈ offsets -> exists v, h1 !! (base + o) = Some v) as Hown.
  { intros o Ho. destruct (hentails_at _ _ (big_sepL_elem_of (fun o => owns (base + o)) _ _ Ho) _ H1) as (v & _ & Hv).
    by exists v. }
  unfold dealloc. cbn [heap vars].
  assert (forallb (fun o => bool_decide (is_Some ((h1 ∪ h2 ∪ hf) !! (base + o)))) offsets = true) as ->.
  { apply forallb_forall. intros o Ho%list_elem_of_In. apply bool_decide_eq_true. destruct (Hown _ Ho) as [v Hv].
    exists v. apply lookup_union_Some_l, lookup_union_Some_l, Hv. }
  exists (Done tt), (foldr (fun o => delete (base + o)) h1 offsets ∪ h2), g. split_and!.
  - rw -(assoc_L (∪)) foldr_delete_union; [by rw (assoc_L (∪))|].
    intros o Ho. destruct (Hown _ Ho) as [v Hv]. apply lookup_union_None.
    split; [exact (owned_only _ _ _ _ Hd Hv)|exact (owned_only _ _ _ _ Hf1 Hv)].
  - apply map_disjoint_union_l_2; [by apply foldr_delete_disjoint|done].
  - eapply holds_mono; [|exact HQ]. apply map_union_subseteq_r. by apply foldr_delete_disjoint.
Qed.

(** *** Loops

    A loop that ends goes round no more often than the heap has cells when every
    turn but the last two is for another cell. *)
Lemma loop_more {S R} (body : S -> M (S + R)) n m s w r w' :
  (n <= m)%nat -> loop n body s w = (r, w') -> r <> Spins -> loop m body s w = (r, w').
Proof.
  revert m s w. induction n as [|n IH]; intros [|m] s w Hm; cbn; try (by intros [= <- <-]); [lia|].
  unfold bind. destruct (body s w) as [[[s'|x]|v|v|st| |] w1]; try done. apply IH. lia.
Qed.

Lemma hwp_walk {S R} (body : S -> M (S + R)) s (l : list Z) g Q :
  ([∗ list] a ∈ l, owns a) ∧
    hwp (loop (Datatypes.S (Datatypes.S (length l))) body s) g (fun r g' => ⌜r <> Spins⌝ ∗ Q r g') ⊢
  hwp (walk body s) g Q.
Proof.
  split. intros h [Hl H] hf Hd. destruct (H hf Hd) as (r & h' & g' & Hc & Hd' & HQ).
  destruct HQ as (h1 & h2 & -> & Hd2 & Hr & HQ).
  exists r, (h1 ∪ h2), g'. split_and!; [|done|].
  - unfold walk. eapply loop_more; [|exact Hc|exact Hr].
    apply owned_size in Hl. cbn [heap]. rw map_size_disj_union //. lia.
  - eapply holds_mono; [|exact HQ]. by apply map_union_subseteq_r.
Qed.

Lemma hwp_loop {S R} n (body : S -> M (S + R)) s g Q :
  hwp (body s) g (fun r g' => match r with
                              | Done (inl s') => hwp (loop n body s') g' Q
                              | Done (inr x) => Q (Done x) g'
                              | r => Q (cast r) g'
                              end) ⊢ hwp (loop (Datatypes.S n) body s) g Q.
Proof.
  cbn [loop]. iIntros "H". iApply hwp_bind. iApply (hwp_wand with "H").
  iIntros ([[s'|x]|v|v|st| |] g') "H"; try done. by iApply hwp_ret.
Qed.

(** A loop with a bound [k] on the turns left that the cells of [l] justify. *)
Lemma hwp_walk_bounded {S R} (body : S -> M (S + R)) (I : nat -> S -> G -> hProp) (l : list Z) s g Q :
  (forall k s g, I k s g ⊢ hwp (body s) g (fun r g' =>
     match r with
     | Done (inl s') => ∃ k', ⌜k = Datatypes.S k'⌝ ∗ I k' s' g'
     | Done (inr x) => Q (Done x) g'
     | r => ⌜r <> Spins⌝ ∗ Q (cast r) g'
     end)) ->
  ([∗ list] a ∈ l, owns a) ∧ I (length l) s g ⊢ hwp (walk body s) g Q.
Proof.
  intros Hstep. rw -(hwp_walk _ _ l). apply bi.and_mono_r.
  assert (length l < Datatypes.S (Datatypes.S (length l)))%nat as Hn by lia. revert Hn.
  generalize (length l) at 1 3 as k. generalize (Datatypes.S (Datatypes.S (length l))) as n. clear l.
  intros n. revert s g. induction n as [|n IH]; intros s g k Hn; [lia|].
  rw -hwp_loop Hstep. apply hwp_mono. intros r g'. destruct r as [[s'|x]|v|v|st| |]; cbn.
  - iIntros "(%k' & -> & H)". iApply (IH with "H"). lia.
  - iIntros "$". done.
  - iIntros "[_ $]". done.
  - iIntros "[_ $]". done.
  - iIntros "[_ $]". done.
  - iIntros "[_ $]". done.
  - by iIntros "[%Hs _]".
Qed.
End Rules.
#[export] Hint Opaque hwp pts : typeclass_instances.
