(* ===== verification/Cmocka.v ===== *)
(** * The test framework: extern/cmocka/src/cmocka.c

    Lists, queues of mock values and of expectations, checks, guarded memory,
    and the runner of tests, as programs over a heap of cells (HeapLogic). A
    structure is one cell at its address, with the structures it embeds at their
    offset; a block of bytes is one cell per byte. [longjmp] back to the runner
    is an outcome. An access to memory that is not there raises SIGSEGV. Floating-point
    numbers are those of IEEE 754, binary32 and binary64, as the Standard Library
    specifies them. The environment is a parameter, as are the texts of durations and
    of floating-point numbers, which files may be opened, and the functions of a test
    that check a parameter. Assertions on what cannot be null in the model (a C array,
    the address of a variable) are left out. *)

From Stdlib Require Import SpecFloat.
From S2P Require Import Prelude.
From S2P Require Import CLib.
From S2P Require Import Sys.
From S2P Require Import Sem.
From S2P Require Import HeapLogic.
#[local] Open Scope Z_scope.
#[local] Open Scope cmd_scope.

Module cmocka.

(** ** Data *)
Definition MALLOC_GUARD_SIZE : Z := 16.
Definition MALLOC_GUARD_PATTERN : Z := 239.   (* 0xEF *)
Definition MALLOC_ALLOC_PATTERN : Z := 186.   (* 0xBA *)
Definition MALLOC_FREE_PATTERN : Z := 205.    (* 0xCD *)
Definition MALLOC_ALIGNMENT : Z := 8.
Definition WILL_RETURN_ALWAYS : Z := -1.
Definition WILL_RETURN_ONCE : Z := -2.
Definition __FILE__ : string := "cmocka.c".

Record SourceLocation := mkLoc { file : option string; line : Z }.

Record ListNode := mkListNode { value : Z; refcount : Z; next : Z; prev : Z }.

(** The functions that check the value of a parameter; [UserCheck] is one of the
    test's own. *)
Inductive CheckParameterValue :=
| CheckInSet | CheckNotInSet | CheckInRange | CheckNotInRange
| CheckValue | CheckNotValue | CheckString | CheckNotString
| CheckMemory | CheckNotMemory | CheckAny
| UserCheck (name : string).

Record CheckParameterEvent := mkCheck {
  ev_location : SourceLocation; parameter_name : string;
  check_value_fn : CheckParameterValue; check_value_data : Z }.

Record MallocBlockInfoData := mkBlockInfo {
  block : Z; allocated_size : Z; bi_size : Z; bi_location : SourceLocation }.
(** The offset of the node in it, and its size. *)
Definition node_offset : Z := 40.
Definition sizeof_MallocBlockInfoData : Z := 72.

Record SymbolValue := mkSymbolValue { sv_location : SourceLocation; sv_value : Z }.
Record FuncOrderingValue := mkFuncOrdering { fo_location : SourceLocation; function : string }.
(** The offset of the list of a [SymbolMapValue], whose name comes first. *)
Definition symbol_values_list_head : Z := 8.
(** The offset of what follows the event in the structures for checks. *)
Definition sizeof_CheckParameterEvent : Z := 40.

Inductive CMUnitTestStatus :=
| CM_TEST_NOT_STARTED | CM_TEST_PASSED | CM_TEST_FAILED | CM_TEST_ERROR | CM_TEST_SKIPPED.
Inductive cm_message_output := CM_OUTPUT_STDOUT | CM_OUTPUT_SUBUNIT | CM_OUTPUT_TAP | CM_OUTPUT_XML.

(** The state of a test in the array of the runner; its field [state] is a cell of
    its own, at an offset, and the test it is for is the one at its place. *)
Record CMUnitTestState := mkTestState {
  ts_check_point : Z; ts_error_message : option string;
  ts_status : CMUnitTestStatus; ts_runtime : list (Z * Z) }.
Definition sizeof_CMUnitTestState : Z := 48.
Definition state_offset : Z := 16.

Inductive cell :=
| CHeader (offsets : list Z)                   (* of a block of [malloc] *)
| CNode (n : ListNode)
| CSymbolMapValue (symbol_name : string)
| CSymbolValue (v : SymbolValue)
| CCheckParameterEvent (e : CheckParameterEvent)
| CCheckIntegerRange (minimum maximum : Z)
| CCheckIntegerSet (set : list Z)
| CCheckMemoryData (memory : list Z)           (* the bytes, with their number *)
| CFuncOrderingValue (f : FuncOrderingValue)
| CMallocBlockInfo (b : MallocBlockInfoData)
| CByte (b : Z)
| CString (s : string)
| CPtr (p : Z)
| CTest (t : CMUnitTestState).

(** The variables of the file, what has been written, the files there are and the
    readings of the clock to come. *)
Record globals := mkGlobals {
  cm_error_message : option string;
  global_running_test : Z;
  global_expecting_assert : Z;
  global_last_failed_assert : option string;
  global_skip_test : Z;
  global_last_mock_value_location : SourceLocation;
  global_last_parameter_location : SourceLocation;
  global_last_call_ordering_location : SourceLocation;
  global_msg_output : cm_message_output;
  global_test_filter_pattern : option string;
  global_skip_filter_pattern : option string;
  xml_printed : Z;
  file_append : Z;
  version_printed : bool;
  output : list event;
  files : gmap string string;
  clock : list (Z * Z) }.

(** *** Assignments *)
Definition set_error_message x (v : globals) : globals :=
  let '(mkGlobals _ b c d e f g h i j k l m n o p q) := v in
  mkGlobals x b c d e f g h i j k l m n o p q.
Definition set_running_test x (v : globals) : globals :=
  let '(mkGlobals a _ c d e f g h i j k l m n o p q) := v in
  mkGlobals a x c d e f g h i j k l m n o p q.
Definition set_expecting_assert x (v : globals) : globals :=
  let '(mkGlobals a b _ d e f g h i j k l m n o p q) := v in
  mkGlobals a b x d e f g h i j k l m n o p q.
Definition set_last_failed_assert x (v : globals) : globals :=
  let '(mkGlobals a b c _ e f g h i j k l m n o p q) := v in
  mkGlobals a b c x e f g h i j k l m n o p q.
Definition set_skip_test x (v : globals) : globals :=
  let '(mkGlobals a b c d _ f g h i j k l m n o p q) := v in
  mkGlobals a b c d x f g h i j k l m n o p q.
Definition set_mock_value_location x (v : globals) : globals :=
  let '(mkGlobals a b c d e _ g h i j k l m n o p q) := v in
  mkGlobals a b c d e x g h i j k l m n o p q.
Definition set_parameter_location x (v : globals) : globals :=
  let '(mkGlobals a b c d e f _ h i j k l m n o p q) := v in
  mkGlobals a b c d e f x h i j k l m n o p q.
Definition set_call_ordering_location x (v : globals) : globals :=
  let '(mkGlobals a b c d e f g _ i j k l m n o p q) := v in
  mkGlobals a b c d e f g x i j k l m n o p q.
Definition set_msg_output x (v : globals) : globals :=
  let '(mkGlobals a b c d e f g h _ j k l m n o p q) := v in
  mkGlobals a b c d e f g h x j k l m n o p q.
Definition set_test_filter x (v : globals) : globals :=
  let '(mkGlobals a b c d e f g h i _ k l m n o p q) := v in
  mkGlobals a b c d e f g h i x k l m n o p q.
Definition set_skip_filter x (v : globals) : globals :=
  let '(mkGlobals a b c d e f g h i j _ l m n o p q) := v in
  mkGlobals a b c d e f g h i j x l m n o p q.
Definition set_xml_printed x (v : globals) : globals :=
  let '(mkGlobals a b c d e f g h i j k _ m n o p q) := v in
  mkGlobals a b c d e f g h i j k x m n o p q.
Definition set_file_append x (v : globals) : globals :=
  let '(mkGlobals a b c d e f g h i j k l _ n o p q) := v in
  mkGlobals a b c d e f g h i j k l x n o p q.
Definition set_version_printed x (v : globals) : globals :=
  let '(mkGlobals a b c d e f g h i j k l m _ o p q) := v in
  mkGlobals a b c d e f g h i j k l m x o p q.
Definition set_output x (v : globals) : globals :=
  let '(mkGlobals a b c d e f g h i j k l m n _ p q) := v in
  mkGlobals a b c d e f g h i j k l m n x p q.
Definition set_files x (v : globals) : globals :=
  let '(mkGlobals a b c d e f g h i j k l m n o _ q) := v in
  mkGlobals a b c d e f g h i j k l m n o x q.
Definition set_clock x (v : globals) : globals :=
  let '(mkGlobals a b c d e f g h i j k l m n o p _) := v in
  mkGlobals a b c d e f g h i j k l m n o p x.

Abbreviation M := (cmd cell globals).
Definition when (b : bool) (c : M unit) : M unit := if b then c else ret tt.
Definition faults {A} : M A := fails (@Fault).
Definition longjmp {A} (v : Z) : M A := fails (fun A => LongJmp v).
Definition exit {A} (status : Z) : M A := fails (fun A => Ended (Exited status)).
Definition abort {A} : M A := fails (fun A => Ended Aborted).

(** The fields of a structure are read and written through its cell. *)
Definition load_node (p : Z) : M ListNode :=
  c <- load p ;; match c with CNode n => ret n | _ => faults end.
Definition set_next (p q : Z) : M unit :=
  n <- load_node p ;; store p (CNode (mkListNode (value n) (refcount n) q (prev n))).
Definition set_prev (p q : Z) : M unit :=
  n <- load_node p ;; store p (CNode (mkListNode (value n) (refcount n) (next n) q)).
Definition set_refcount (p r : Z) : M unit :=
  n <- load_node p ;; store p (CNode (mkListNode (value n) r (next n) (prev n))).

(** [malloc] keeps the shape of a block in a header below it, for [free]. It does
    not run out of memory. *)
Definition malloc (cells : list (Z * cell)) : M Z :=
  b <- alloc ((0, CHeader cells.*1) :: map (fun c => (16 + c.1, c.2)) cells) ;;
  ret (b + 16).
Definition free (p : Z) : M unit :=
  if p ==? 0 then ret tt else
  c <- load (p - 16) ;;
  match c with CHeader offsets => dealloc (p - 16) (0 :: map (Z.add 16) offsets) | _ => faults end.

(** The environment of the process, and what the model does not compute. *)
Class Env := {
  getenv : string -> option string;
  runtime_text : list (Z * Z) -> string;   (* the sum of durations, in the format %.3f *)
  float_text : spec_float -> string;       (* a number in the format %f *)
  writable : string -> bool;               (* [fopen] for writing succeeds *)
  user_check : string -> Z -> Z -> M Z }.

Definition tolower (c : ascii) : ascii :=
  if (65 <=? ord c) && (ord c <=? 90) then chr (ord c + 32) else c.
(** [strcasecmp (a, b) == 0] *)
Definition strcaseeq (a b : string) : bool := streq (smap tolower a) (smap tolower b).

(** ** Messages *)
Definition print_to (f : stream) (text : string) : M unit :=
  modify (fun g => set_output (output g ++ [EPrint f text; EFlush f]) g).
Definition print_message (fmt : string) (args : list farg) : M unit :=
  print_to stdout (stake 4095 (format fmt args)).
Definition print_error (fmt : string) (args : list farg) : M unit :=
  print_to stderr (stake 4095 (format fmt args)).

Definition cm_error_message_enabled : Z := 1.
Definition sizeof_buffer : Z := 1024.

(** The message grows by the text; a text that does not fit the buffer is printed
    again into the message itself, with its length as the size. *)
Definition vcm_print_error (text : string) : M unit :=
  g <- get ;;
  let len := slen text in
  let msg := default "" (cm_error_message g) in
  put (set_error_message (Some (msg +:+ if len <? sizeof_buffer then text else stake (len - 1) text)) g).

Definition cm_print_error (fmt : string) (args : list farg) : M unit :=
  if cm_error_message_enabled !=? 0 then vcm_print_error (format fmt args) else print_error fmt args.

Definition null_text (s : option string) : string := default "(null)" s.

Section Framework.
Context `{CText} `{Env}.

(** ** Ends of a test *)
Definition cm_get_output : M cm_message_output :=
  g <- get ;;
  ret match getenv "CMOCKA_MESSAGE_OUTPUT" with
      | None => global_msg_output g
      | Some env =>
          if strcaseeq env "STDOUT" then CM_OUTPUT_STDOUT
          else if strcaseeq env "SUBUNIT" then CM_OUTPUT_SUBUNIT
          else if strcaseeq env "TAP" then CM_OUTPUT_TAP
          else if strcaseeq env "XML" then CM_OUTPUT_XML
          else global_msg_output g
      end.

Definition exit_test (quit_application : bool) : M unit :=
  let abort_test := match getenv "CMOCKA_TEST_ABORT" with
                    | Some env => (slen env ==? 1) && streq (stake 1 env) "1"
                    | None => false
                    end in
  g <- get ;;
  if (global_skip_test g ==? 0) && abort_test then
    print_error "%s" [Str (null_text (cm_error_message g))] ;;
    abort
  else if global_running_test g !=? 0 then longjmp 1
  else when quit_application (exit (-1)).

Definition _skip (file : string) (line : Z) : M unit :=
  cm_print_error "%s:%u: Skipped!\n" [Str file; Int line] ;;
  modify (set_skip_test 1) ;;
  exit_test true ;;
  exit (-1).

Definition _fail (file : string) (line : Z) : M unit :=
  output <- cm_get_output ;;
  match output with
  | CM_OUTPUT_STDOUT => cm_print_error "[   LINE   ] --- %s:%u: error: Failure!" [Str file; Int line]
  | _ => cm_print_error "%s:%u: error: Failure!" [Str file; Int line]
  end ;;
  exit_test true ;;
  exit (-1).

(** The handler of the signals that a fault in a test raises. *)
Definition SIGSEGV : Z := 11.
Definition exception_handler (sig : Z) : M unit :=
  cm_print_error "Test failed with exception: %s(%d)" [Str (strsignal sig); Int sig] ;;
  exit_test true ;;
  exit (-1).
(** The handler is called where the program faults, and does not return. *)
Definition handle_exceptions {A} (c : M A) : M A := fun w =>
  match c w with
  | (Fault, w) => (exception_handler SIGSEGV ;; faults) w
  | r => r
  end.

Definition _assert_true (result : Z) (expression file : string) (line : Z) : M unit :=
  when (result ==? 0) (
    cm_print_error "%s\n" [Str expression] ;;
    _fail file line).

(** The macros, for the file itself. *)
Definition assert_non_null (p : Z) (expression : string) (line : Z) : M unit :=
  _assert_true p expression __FILE__ line.
Definition assert_true (b : bool) (expression : string) (line : Z) : M unit :=
  _assert_true (if b then 1 else 0) expression __FILE__ line.

(** ** Locations *)
Definition initialize_source_location : SourceLocation := mkLoc None 0.
Definition source_location_is_set (location : SourceLocation) : bool :=
  match file location with Some _ => line location !=? 0 | None => false end.
Definition set_source_location (file : string) (line : Z) : SourceLocation := mkLoc (Some file) line.

(** ** Patterns *)
Fixpoint c_strmatch (str pattern : string) {struct pattern} : bool :=
  match pattern with
  | EmptyString => streq str ""
  | String p pattern =>
      if Ascii.eqb p "*" then
        match pattern with
        | EmptyString => true
        | _ => (fix each (str : string) : bool :=
                  match str with
                  | EmptyString => false
                  | String _ rest => c_strmatch str pattern || each rest
                  end) str
        end
      else match str with
           | EmptyString => false
           | String c str =>
               if negb (Ascii.eqb p "?") && negb (Ascii.eqb c p) then false else c_strmatch str pattern
           end
  end.

(** ** Lists *)
Definition list_initialize (node : Z) : M Z :=
  n <- load_node node ;;
  store node (CNode (mkListNode 0 1 node node)) ;;
  ret node.

Definition list_add (head new_node : Z) : M Z :=
  assert_non_null head "head" 641 ;;
  assert_non_null new_node "new_node" 642 ;;
  set_next new_node head ;;
  h <- load_node head ;;
  set_prev new_node (prev h) ;;
  set_next (prev h) new_node ;;
  set_prev head new_node ;;
  ret new_node.

(** The node is a structure of its own on the heap. *)
Definition list_add_value (head value refcount : Z) : M Z :=
  new_node <- malloc [(0, CNode (mkListNode 0 0 0 0))] ;;
  assert_non_null head "head" 631 ;;
  assert_non_null value "value" 632 ;;
  store new_node (CNode (mkListNode value refcount 0 0)) ;;
  list_add head new_node.

(** What is done with the value of a node that goes, if anything. *)
Definition CleanupListValue : Type := option (Z -> M unit).

Definition list_remove (node : Z) (cleanup_value : CleanupListValue) : M Z :=
  assert_non_null node "node" 655 ;;
  n <- load_node node ;;
  set_next (prev n) (next n) ;;
  n <- load_node node ;;
  set_prev (next n) (prev n) ;;
  match cleanup_value with
  | Some cleanup_value => n <- load_node node ;; cleanup_value (value n)
  | None => ret tt
  end ;;
  ret node.

Definition list_remove_free (node : Z) (cleanup_value : CleanupListValue) : M unit :=
  assert_non_null node "node" 669 ;;
  node <- list_remove node cleanup_value ;;
  free node.

Definition list_empty (head : Z) : M bool :=
  assert_non_null head "head" 693 ;;
  h <- load_node head ;;
  ret (next h ==? head).

Definition list_free (head : Z) (cleanup_value : CleanupListValue) : M Z :=
  assert_non_null head "head" 683 ;;
  walk (fun _ =>
    empty <- list_empty head ;;
    if empty : bool then ret (inr tt) else
    h <- load_node head ;;
    list_remove_free (next h) cleanup_value ;;
    ret (inl tt)) tt ;;
  ret head.

(** The node found, if any. *)
Definition list_find (head : Z) (equal_func : Z -> M bool) : M (option Z) :=
  assert_non_null head "head" 705 ;;
  h <- load_node head ;;
  walk (fun current =>
    if current ==? head then ret (inr None) else
    n <- load_node current ;;
    equal <- equal_func (value n) ;;
    if equal : bool then ret (inr (Some current)) else ret (inl (next n))) (next h).

Definition list_first (head : Z) : M (option Z) :=
  assert_non_null head "head" 718 ;;
  empty <- list_empty head ;;
  if empty : bool then ret None else
  h <- load_node head ;;
  ret (Some (next h)).

Definition free_value (value : Z) : M unit :=
  assert_non_null value "value" 731 ;;
  free value.

Fixpoint free_symbol_map_value (children : nat) (value : Z) : M unit :=
  assert_non_null value "value" 741 ;;
  list_free (value + symbol_values_list_head)
    (Some match children with O => free_value | S n => free_symbol_map_value n end) ;;
  free value.

(** ** Values by symbol *)
Definition load_symbol_name (map_value : Z) : M string :=
  c <- load map_value ;; match c with CSymbolMapValue s => ret s | _ => faults end.

Definition symbol_names_match (symbol : string) (map_value : Z) : M bool :=
  name <- load_symbol_name map_value ;; ret (streq name symbol).

Fixpoint add_symbol_value (symbol_map_head : Z) (symbol_names : list string) (number_of_symbol_names : nat)
    (value refcount : Z) : M unit :=
  assert_non_null symbol_map_head "symbol_map_head" 776 ;;
  assert_true (negb (number_of_symbol_names =? 0)%nat) "number_of_symbol_names" 778 ;;
  match number_of_symbol_names, symbol_names with
  | S n, symbol_name :: symbol_names =>
      found <- list_find symbol_map_head (symbol_names_match symbol_name) ;;
      target_node <- match found with
                     | Some target_node => ret target_node
                     | None =>
                         new_symbol_map_value <- malloc [(0, CSymbolMapValue symbol_name);
                           (symbol_values_list_head, CNode (mkListNode 0 0 0 0))] ;;
                         list_initialize (new_symbol_map_value + symbol_values_list_head) ;;
                         list_add_value symbol_map_head new_symbol_map_value 1
                     end ;;
      t <- load_node target_node ;;
      let child_list := cmocka.value t + symbol_values_list_head in
      if (n =? 0)%nat then list_add_value child_list value refcount ;; ret tt
      else add_symbol_value child_list symbol_names n value refcount
  | _, _ => faults
  end.

(** The [refcount] the value had, and the value; 0 when there is none. *)
Fixpoint get_symbol_value (head : Z) (symbol_names : list string) (number_of_symbol_names : nat) : M (Z * Z) :=
  assert_non_null head "head" 814 ;;
  assert_true (negb (number_of_symbol_names =? 0)%nat) "number_of_symbol_names" 816 ;;
  match number_of_symbol_names, symbol_names with
  | S n, symbol_name :: symbol_names =>
      found <- list_find head (symbol_names_match symbol_name) ;;
      match found with
      | Some target_node =>
          assert_non_null target_node "target_node" 824 ;;
          t <- load_node target_node ;;
          assert_non_null (cmocka.value t) "target_node->value" 825 ;;
          let child_list := cmocka.value t + symbol_values_list_head in
          r <- (if (n =? 0)%nat then
                  value_node <- list_first child_list ;;
                  assert_true (bool_decide (is_Some value_node)) "return_value" 833 ;;
                  match value_node with
                  | None => faults
                  | Some value_node =>
                      v <- load_node value_node ;;
                      (if refcount v - 1 ==? 0 then list_remove_free value_node None
                       else when (WILL_RETURN_ONCE <? refcount v) (set_refcount value_node (refcount v - 1))) ;;
                      ret (refcount v, cmocka.value v)
                  end
                else get_symbol_value child_list symbol_names n) ;;
          empty <- list_empty child_list ;;
          when empty (list_remove_free target_node (Some (free_symbol_map_value 0))) ;;
          ret r
      | None =>
          cm_print_error "No entries for symbol %s.\n" [Str symbol_name] ;;
          ret (0, 0)
      end
  | _, _ => faults
  end.

Definition remove_always_return_values_from_list (map_head : Z) : M unit :=
  assert_non_null map_head "map_head" 870 ;;
  h <- load_node map_head ;;
  walk (fun current =>
    if current ==? map_head then ret (inr tt) else
    c <- load_node current ;;
    when (refcount c <? -1) (list_remove_free current (Some free_value)) ;;
    ret (inl (next c))) (next h).

Fixpoint remove_always_return_values (map_head : Z) (number_of_symbol_names : nat) : M unit :=
  assert_non_null map_head "map_head" 889 ;;
  assert_true (negb (number_of_symbol_names =? 0)%nat) "number_of_symbol_names" 890 ;;
  match number_of_symbol_names with
  | O => faults
  | S n =>
      h <- load_node map_head ;;
      walk (fun current =>
        if current ==? map_head then ret (inr tt) else
        c <- load_node current ;;
        let next := next c in
        assert_non_null (value c) "value" 896 ;;
        let child_list := value c + symbol_values_list_head in
        empty <- list_empty child_list ;;
        when (negb empty) (
          if (n =? 0)%nat then
            l <- load_node child_list ;;
            child_node <- load_node (cmocka.next l) ;;
            when (refcount child_node <? -1) (list_remove_free (cmocka.next l) (Some free_value))
          else remove_always_return_values child_list n) ;;
        empty <- list_empty child_list ;;
        when empty (list_remove_free current (Some free_value)) ;;
        ret (inl next)) (next h)
  end.

(** The location is the first field of a value. *)
Definition load_location (p : Z) : M SourceLocation :=
  c <- load p ;;
  match c with
  | CSymbolValue v => ret (sv_location v)
  | CCheckParameterEvent e => ret (ev_location e)
  | CFuncOrderingValue f => ret (fo_location f)
  | _ => faults
  end.
Definition print_remaining (location : SourceLocation) : M unit :=
  cm_print_error "%s:%u: note: remaining item was declared here\n"
    [Str (null_text (file location)); Int (line location)].

Definition load_ordering (p : Z) : M FuncOrderingValue :=
  c <- load p ;; match c with CFuncOrderingValue f => ret f | _ => faults end.

Definition check_for_leftover_values_list (head : Z) (error_message : string) : M Z :=
  empty <- list_empty head ;;
  if empty : bool then ret 0 else
  h <- load_node head ;;
  walk (fun '(child_node, leftover_count) =>
    if child_node ==? head then ret (inr leftover_count) else
    c <- load_node child_node ;;
    o <- load_ordering (value c) ;;
    cm_print_error "%s: %s\n" [Str error_message; Str (function o)] ;;
    print_remaining (fo_location o) ;;
    ret (inl (next c, leftover_count + 1))) (next h, 0).

Fixpoint check_for_leftover_values (map_head : Z) (error_message : string) (number_of_symbol_names : nat) : M Z :=
  assert_non_null map_head "map_head" 948 ;;
  assert_true (negb (number_of_symbol_names =? 0)%nat) "number_of_symbol_names" 949 ;;
  match number_of_symbol_names with
  | O => faults
  | S n =>
      h <- load_node map_head ;;
      walk (fun '(current, symbols_with_leftover_values) =>
        if current ==? map_head then ret (inr symbols_with_leftover_values) else
        c <- load_node current ;;
        assert_non_null (value c) "value" 956 ;;
        let child_list := value c + symbol_values_list_head in
        empty <- list_empty child_list ;;
        if empty : bool then ret (inl (next c, symbols_with_leftover_values)) else
        name <- load_symbol_name (value c) ;;
        (if (n =? 0)%nat then
           cm_print_error "%s: %s\n" [Str error_message; Str name] ;;
           l <- load_node child_list ;;
           walk (fun child_node =>
             if child_node ==? child_list then ret (inr tt) else
             c <- load_node child_node ;;
             location <- load_location (value c) ;;
             print_remaining location ;;
             ret (inl (next c))) (next l)
         else
           cm_print_error "%s: " [Str name] ;;
           check_for_leftover_values child_list error_message n ;;
           ret tt) ;;
        ret (inl (next c, symbols_with_leftover_values + 1))) (next h, 0)
  end.

(** ** Mock functions

    The heads of the lists are variables of the file. *)
Definition global_function_result_map_head : Z := 1.
Definition global_function_parameter_map_head : Z := 2.
Definition global_call_ordering_head : Z := 3.
Definition global_allocated_blocks : Z := 4.

Definition _mock (function file : string) (line : Z) : M Z :=
  '(rc, result) <- get_symbol_value global_function_result_map_head [function] 1 ;;
  if rc !=? 0 then
    c <- load result ;;
    match c with
    | CSymbolValue symbol =>
        modify (set_mock_value_location (sv_location symbol)) ;;
        when (rc ==? 1) (free result) ;;
        ret (sv_value symbol)
    | _ => faults
    end
  else
    cm_print_error "%s:%u: error: Could not get value to mock function %s\n"
      [Str file; Int line; Str function] ;;
    g <- get ;;
    let last := global_last_mock_value_location g in
    (if source_location_is_set last then
       cm_print_error "%s:%u: note: Previously returned mock value was declared here\n"
         [Str (null_text (cmocka.file last)); Int (cmocka.line last)]
     else cm_print_error "There were no previously returned mock values for this test.\n" []) ;;
    exit_test true ;;
    ret 0.

(** [strcmp (expected_call->function, function) == 0] *)
Definition call_matches (expected_call : Z) (function : string) : M bool :=
  o <- load_ordering expected_call ;; ret (streq (cmocka.function o) function).

(** The search past the calls that may come any number of times: the node, its
    value and whether it is for the function. *)
Definition search_call (function : string) (first_value_node : Z) : Z * Z * bool -> M (Z * Z * bool) :=
  walk (fun '(value_node, expected_call, equal) =>
    v <- load_node value_node ;;
    first <- load_node first_value_node ;;
    if (refcount v <? -1) && negb equal && negb (value_node ==? prev first) then
      let value_node := next v in
      if value_node ==? 0 then ret (inr (value_node, expected_call, equal)) else
      v <- load_node value_node ;;
      let expected_call := value v in
      if expected_call ==? 0 then ret (inl (value_node, expected_call, equal)) else
      equal <- call_matches expected_call function ;;
      ret (inl (value_node, expected_call, equal))
    else ret (inr (value_node, expected_call, equal))).

Definition _function_called (function file : string) (line : Z) : M unit :=
  rc <- list_first global_call_ordering_head ;;
  match rc with
  | Some first_value_node =>
      v <- load_node first_value_node ;;
      equal <- call_matches (value v) function ;;
      '(value_node, expected_call, equal) <-
        (if (refcount v <? -1) && negb equal then
           let value_node := next v in
           v <- load_node value_node ;;
           equal <- call_matches (value v) function ;;
           '(value_node, expected_call, equal) <-
             search_call function first_value_node (value_node, value v, equal) ;;
           first <- load_node first_value_node ;;
           when ((expected_call ==? 0) || (value_node ==? prev first)) (
             cm_print_error "%s:%u: error: No expected mock calls matching called() invocation in %s"
               [Str file; Int line; Str function] ;;
             exit_test true) ;;
           ret (value_node, expected_call, equal)
         else ret (first_value_node, value v, equal)) ;;
      if equal : bool then
        v <- load_node value_node ;;
        when (-2 <? refcount v) (
          set_refcount value_node (refcount v - 1) ;;
          when (refcount v - 1 ==? 0) (list_remove_free value_node (Some free_value)))
      else
        o <- load_ordering expected_call ;;
        cm_print_error "%s:%u: error: Expected call to %s but received called() in %s\n"
          [Str file; Int line; Str (cmocka.function o); Str function] ;;
        exit_test true
  | None =>
      cm_print_error "%s:%u: error: No mock calls expected but called() was invoked in %s\n"
        [Str file; Int line; Str function] ;;
      exit_test true
  end.

Definition _will_return (function_name file : string) (line value count : Z) : M unit :=
  return_value <- malloc [(0, CSymbolValue (mkSymbolValue (mkLoc None 0) 0))] ;;
  assert_true (count !=? 0) "count != 0" 1097 ;;
  store return_value (CSymbolValue (mkSymbolValue (set_source_location file line) value)) ;;
  add_symbol_value global_function_result_map_head [function_name] 1 return_value count.

(** [event] is the address of one allocated by the caller, or 0. *)
Definition _expect_check (function parameter file : string) (line : Z)
    (check_function : CheckParameterValue) (check_data event count : Z) : M unit :=
  let blank := CCheckParameterEvent (mkCheck (mkLoc None 0) "" CheckAny 0) in
  check <- (if event !=? 0 then ret event else malloc [(0, blank)]) ;;
  store check (CCheckParameterEvent
    (mkCheck (set_source_location file line) parameter check_function check_data)) ;;
  add_symbol_value global_function_parameter_map_head [function; parameter] 2 check count.

Definition _expect_function_call (function_name file : string) (line count : Z) : M unit :=
  assert_true (count !=? 0) "count != 0" 1144 ;;
  ordering <- malloc [(0, CFuncOrderingValue (mkFuncOrdering (mkLoc None 0) ""))] ;;
  store ordering (CFuncOrderingValue (mkFuncOrdering (set_source_location file line) function_name)) ;;
  list_add_value global_call_ordering_head ordering count ;;
  ret tt.

(** ** Checks

    They answer whether the values pass, and say why when they do not. *)
Definition uintmax_text (v : Z) : farg :=   (* %#lx *)
  Str (if v ==? 0 then "0" else "0x" +:+ show_base 16 v).

Definition values_equal_display_error (left right : Z) : M bool :=
  let equal := left ==? right in
  when (negb equal) (cm_print_error "%s != %s\n" [uintmax_text left; uintmax_text right]) ;;
  ret equal.

Definition values_not_equal_display_error (left right : Z) : M bool :=
  let not_equal := left !=? right in
  when (negb not_equal) (cm_print_error "%s == %s\n" [uintmax_text left; uintmax_text right]) ;;
  ret not_equal.

(** Floating point: [prec] bits of mantissa, exponents below [emax]. *)
Definition float_zero : spec_float := S754_zero false.
Definition fp_compare (prec emax : Z) (FLT_EPSILON left right epsilon : spec_float) : bool :=
  let diff := SFsub prec emax left right in
  let diff := if SFleb float_zero diff then diff else SFopp diff in
  if SFleb diff epsilon then true else
  let absLeft := if SFleb float_zero left then left else SFopp left in
  let absRight := if SFleb float_zero right then right else SFopp right in
  let largest := if SFltb absLeft absRight then absRight else absLeft in
  let relDiff := SFmul prec emax largest FLT_EPSILON in
  if SFltb relDiff diff then false else true.

(** FLT_EPSILON is 2^-23; as a double in the second. *)
Definition float_compare : spec_float -> spec_float -> spec_float -> bool :=
  fp_compare 24 128 (S754_finite false 8388608 (-46)).
Definition double_compare : spec_float -> spec_float -> spec_float -> bool :=
  fp_compare 53 1024 (S754_finite false 4503599627370496 (-75)).

Definition float_values_equal_display_error (left right epsilon : spec_float) : M bool :=
  let equal := float_compare left right epsilon in
  when (negb equal) (cm_print_error "%s != %s\n" [Str (float_text left); Str (float_text right)]) ;;
  ret equal.
Definition float_values_not_equal_display_error (left right epsilon : spec_float) : M bool :=
  let not_equal := negb (float_compare left right epsilon) in
  when (negb not_equal) (cm_print_error "%s == %s\n" [Str (float_text left); Str (float_text right)]) ;;
  ret not_equal.
Definition double_values_equal_display_error (left right epsilon : spec_float) : M bool :=
  let equal := double_compare left right epsilon in
  when (negb equal) (cm_print_error "%s != %s\n" [Str (float_text left); Str (float_text right)]) ;;
  ret equal.
Definition double_values_not_equal_display_error (left right epsilon : spec_float) : M bool :=
  let not_equal := negb (double_compare left right epsilon) in
  when (negb not_equal) (cm_print_error "%s == %s\n" [Str (float_text left); Str (float_text right)]) ;;
  ret not_equal.

Fixpoint for_each {A} (l : list A) (body : A -> M unit) : M unit :=
  match l with [] => ret tt | x :: l => body x ;; for_each l body end.

Definition value_in_set_display_error (value : Z) (set : list Z) (invert : bool) : M bool :=
  let found := existsb (fun v => v ==? value) set in
  let succeeded := if found then negb invert else invert in
  if succeeded then ret true else
  cm_print_error "%lu is %sin the set (" [Int value; Str (if invert then "" else "not ")] ;;
  for_each set (fun v => cm_print_error "%s, " [uintmax_text v]) ;;
  cm_print_error ")\n" [] ;;
  ret false.

Definition integer_in_range_display_error (value range_min range_max : Z) : M bool :=
  if (range_min <=? value) && (value <=? range_max) then ret true else
  cm_print_error "%lu is not within the range %lu-%lu\n" [Int value; Int range_min; Int range_max] ;;
  ret false.

Definition integer_not_in_range_display_error (value range_min range_max : Z) : M bool :=
  if (value <? range_min) || (range_max <? value) then ret true else
  cm_print_error "%lu is within the range %lu-%lu\n" [Int value; Int range_min; Int range_max] ;;
  ret false.

Definition string_equal_display_error (left right : string) : M bool :=
  if streq left right then ret true else
  cm_print_error "\042%s\042 != \042%s\042\n" [Str left; Str right] ;;
  ret false.

Definition string_not_equal_display_error (left right : string) : M bool :=
  if negb (streq left right) then ret true else
  cm_print_error "\042%s\042 == \042%s\042\n" [Str left; Str right] ;;
  ret false.

Definition load_byte (p : Z) : M Z :=
  c <- load p ;; match c with CByte b => ret b | _ => faults end.
Fixpoint load_bytes (p : Z) (n : nat) : M (list Z) :=
  match n with O => ret [] | S n => b <- load_byte p ;; bs <- load_bytes (p + 1) n ;; ret (b :: bs) end.
Definition load_string (p : Z) : M string :=
  c <- load p ;; match c with CString s => ret s | _ => faults end.

(** [a] and [b] are the addresses, for the message, with the bytes there. Up to
    sixteen differences are shown; a byte above 0x7f is shown sign-extended. *)
Definition memory_equal_display_error (a b : Z) (la lb : list Z) : M bool :=
  let diffs := filter (fun '(i, (l, r)) => l <> r) (imap (fun i p => (Z.of_nat i, p)) (zip la lb)) in
  let differences := Z.of_nat (length diffs) in
  for_each (take 16 diffs) (fun '(i, (l, r)) =>
    cm_print_error "difference at offset %zd 0x%02x 0x%02x\n" [Int i; Int (u32 (i8 l)); Int (u32 (i8 r))]) ;;
  if 0 <? differences then
    when (16 <=? differences) (cm_print_error "...\n" []) ;;
    cm_print_error "%zd bytes of %p and %p differ\n" [Int differences; Int a; Int b] ;;
    ret false
  else ret true.

Definition memory_not_equal_display_error (a b : Z) (la lb : list Z) : M bool :=
  let same := Z.of_nat (length (filter (fun '(l, r) => l = r) (zip la lb))) in
  if same ==? Z.of_nat (length la) then
    cm_print_error "%zdbytes of %p and %p the same\n" [Int same; Int a; Int b] ;;
    ret false
  else ret true.

(** ** Expected parameters

    [check_value_data] is the value to compare with, the address of a string, or
    the address of the structure of the check, whose fields follow the event. *)
Definition load_set (p : Z) : M (list Z) :=
  c <- load (p + sizeof_CheckParameterEvent) ;;
  match c with CCheckIntegerSet set => ret set | _ => faults end.
Definition load_range (p : Z) : M (Z * Z) :=
  c <- load (p + sizeof_CheckParameterEvent) ;;
  match c with CCheckIntegerRange minimum maximum => ret (minimum, maximum) | _ => faults end.
Definition load_memory_data (p : Z) : M (list Z) :=
  c <- load (p + sizeof_CheckParameterEvent) ;;
  match c with CCheckMemoryData memory => ret memory | _ => faults end.

Definition check_in_set (value check_value_data : Z) : M bool :=
  set <- load_set check_value_data ;; value_in_set_display_error value set false.
Definition check_not_in_set (value check_value_data : Z) : M bool :=
  set <- load_set check_value_data ;; value_in_set_display_error value set true.
Definition check_in_range (value check_value_data : Z) : M bool :=
  assert_non_null check_value_data "check_integer_range" 1538 ;;
  '(minimum, maximum) <- load_range check_value_data ;;
  integer_in_range_display_error value minimum maximum.
Definition check_not_in_range (value check_value_data : Z) : M bool :=
  assert_non_null check_value_data "check_integer_range" 1550 ;;
  '(minimum, maximum) <- load_range check_value_data ;;
  integer_not_in_range_display_error value minimum maximum.
Definition check_value (value check_value_data : Z) : M bool := values_equal_display_error value check_value_data.
Definition check_not_value (value check_value_data : Z) : M bool := values_not_equal_display_error value check_value_data.
Definition check_string (value check_value_data : Z) : M bool :=
  s <- load_string value ;; t <- load_string check_value_data ;; string_equal_display_error s t.
Definition check_not_string (value check_value_data : Z) : M bool :=
  s <- load_string value ;; t <- load_string check_value_data ;; string_not_equal_display_error s t.
Definition check_memory (value check_value_data : Z) : M bool :=
  assert_non_null check_value_data "check" 1679 ;;
  memory <- load_memory_data check_value_data ;;
  bytes <- load_bytes value (length memory) ;;
  memory_equal_display_error value (check_value_data + sizeof_CheckParameterEvent + 16) bytes memory.
Definition check_not_memory (value check_value_data : Z) : M bool :=
  assert_non_null check_value_data "check" 1723 ;;
  memory <- load_memory_data check_value_data ;;
  bytes <- load_bytes value (length memory) ;;
  memory_not_equal_display_error value (check_value_data + sizeof_CheckParameterEvent + 16) bytes memory.
Definition check_any (value check_value_data : Z) : M bool := ret true.

(** The call of the function. *)
Definition run_check (check : CheckParameterValue) : Z -> Z -> M bool :=
  match check with
  | CheckInSet => check_in_set | CheckNotInSet => check_not_in_set
  | CheckInRange => check_in_range | CheckNotInRange => check_not_in_range
  | CheckValue => check_value | CheckNotValue => check_not_value
  | CheckString => check_string | CheckNotString => check_not_string
  | CheckMemory => check_memory | CheckNotMemory => check_not_memory
  | CheckAny => check_any
  | UserCheck name => fun value check_value_data => r <- user_check name value check_value_data ;; ret (r !=? 0)
  end.

Definition blank_event : cell := CCheckParameterEvent (mkCheck (mkLoc None 0) "" CheckAny 0).

Definition expect_set (function parameter file : string) (line : Z) (values : list Z)
    (check_function : CheckParameterValue) (count : Z) : M unit :=
  check_integer_set <- malloc [(0, blank_event); (sizeof_CheckParameterEvent, CCheckIntegerSet [])] ;;
  assert_true (negb (length values =? 0)%nat) "number_of_values" 1500 ;;
  store (check_integer_set + sizeof_CheckParameterEvent) (CCheckIntegerSet values) ;;
  _expect_check function parameter file line check_function check_integer_set check_integer_set count.
Definition _expect_in_set (function parameter file : string) (line : Z) (values : list Z) (count : Z) : M unit :=
  expect_set function parameter file line values CheckInSet count.
Definition _expect_not_in_set (function parameter file : string) (line : Z) (values : list Z) (count : Z) : M unit :=
  expect_set function parameter file line values CheckNotInSet count.

Definition expect_range (function parameter file : string) (line minimum maximum : Z)
    (check_function : CheckParameterValue) (count : Z) : M unit :=
  check_integer_range <- malloc [(0, blank_event); (sizeof_CheckParameterEvent, CCheckIntegerRange 0 0)] ;;
  store (check_integer_range + sizeof_CheckParameterEvent) (CCheckIntegerRange minimum maximum) ;;
  _expect_check function parameter file line check_function check_integer_range check_integer_range count.
Definition _expect_in_range (function parameter file : string) (line minimum maximum count : Z) : M unit :=
  expect_range function parameter file line minimum maximum CheckInRange count.
Definition _expect_not_in_range (function parameter file : string) (line minimum maximum count : Z) : M unit :=
  expect_range function parameter file line minimum maximum CheckNotInRange count.

Definition _expect_value (function parameter file : string) (line value count : Z) : M unit :=
  _expect_check function parameter file line CheckValue value 0 count.
Definition _expect_not_value (function parameter file : string) (line value count : Z) : M unit :=
  _expect_check function parameter file line CheckNotValue value 0 count.
Definition _expect_string (function parameter file : string) (line string count : Z) : M unit :=
  _expect_check function parameter file line CheckString string 0 count.
Definition _expect_not_string (function parameter file : string) (line string count : Z) : M unit :=
  _expect_check function parameter file line CheckNotString string 0 count.

Definition expect_memory_setup (function parameter file : string) (line memory : Z) (size : nat)
    (check_function : CheckParameterValue) (count : Z) : M unit :=
  check_data <- malloc [(0, blank_event); (sizeof_CheckParameterEvent, CCheckMemoryData [])] ;;
  assert_non_null memory "memory" 1697 ;;
  assert_true (negb (size =? 0)%nat) "size" 1698 ;;
  bytes <- load_bytes memory size ;;
  store (check_data + sizeof_CheckParameterEvent) (CCheckMemoryData bytes) ;;
  _expect_check function parameter file line check_function check_data check_data count.
Definition _expect_memory (function parameter file : string) (line memory : Z) (size : nat) (count : Z) : M unit :=
  expect_memory_setup function parameter file line memory size CheckMemory count.
Definition _expect_not_memory (function parameter file : string) (line memory : Z) (size : nat) (count : Z) : M unit :=
  expect_memory_setup function parameter file line memory size CheckNotMemory count.

Definition _expect_any (function parameter file : string) (line count : Z) : M unit :=
  _expect_check function parameter file line CheckAny 0 0 count.

Definition _check_expected (function_name parameter_name file : string) (line value : Z) : M unit :=
  '(rc, result) <- get_symbol_value global_function_parameter_map_head [function_name; parameter_name] 2 ;;
  if rc !=? 0 then
    c <- load result ;;
    match c with
    | CCheckParameterEvent check =>
        modify (set_parameter_location (ev_location check)) ;;
        check_succeeded <- run_check (check_value_fn check) value (check_value_data check) ;;
        when (rc ==? 1) (free result) ;;
        when (negb check_succeeded) (
          g <- get ;;
          let last := global_last_parameter_location g in
          cm_print_error "%s:%u: error: Check of parameter %s, function %s failed\n%s:%u: note: Expected parameter declared here\n"
            [Str file; Int line; Str parameter_name; Str function_name;
             Str (null_text (cmocka.file last)); Int (cmocka.line last)] ;;
          _fail file line)
    | _ => faults
    end
  else
    cm_print_error "%s:%u: error: Could not get value to check parameter %s of function %s\n"
      [Str file; Int line; Str parameter_name; Str function_name] ;;
    g <- get ;;
    let last := global_last_parameter_location g in
    (if source_location_is_set last then
       cm_print_error "%s:%u: note: Previously declared parameter value was declared here\n"
         [Str (null_text (cmocka.file last)); Int (cmocka.line last)]
     else cm_print_error "There were no previously declared parameter values for this test.\n" []) ;;
    exit_test true.

(** ** Assertions *)
Definition mock_assert (result : Z) (expression file : string) (line : Z) : M unit :=
  when (result ==? 0) (
    g <- get ;;
    if global_expecting_assert g !=? 0 then
      modify (set_last_failed_assert (Some expression)) ;;
      fails (fun A => AssertJmp result)
    else
      cm_print_error "ASSERT: %s\n" [Str expression] ;;
      _fail file line).

(** The macro: a jump with 0 arrives as 1. *)
Definition expect_assert_failure (function_call : M unit) (text file : string) (line : Z) : M unit :=
  modify (set_expecting_assert 1) ;;
  result <- (fun w => match function_call w with
                      | (AssertJmp v, w) => (Done (if v ==? 0 then 1 else v), w)
                      | (Done _, w) => (Done 0, w)
                      | (r, w) => (cast r, w)
                      end) ;;
  if result !=? 0 then
    modify (set_expecting_assert 1) ;;
    g <- get ;;
    print_message "Expected assertion %s occurred\n" [Str (null_text (global_last_failed_assert g))] ;;
    modify (set_expecting_assert 0)
  else
    modify (set_expecting_assert 0) ;;
    print_error "Expected assert in %s\n" [Str text] ;;
    _fail file line.

Definition _assert_return_code (result error : Z) (expression file : string) (line : Z) : M unit :=
  when (result <? 0) (
    (if 0 <? error then
       cm_print_error "%s < 0, errno(%d): %s\n" [Str expression; Int error; Str (strerror error)]
     else cm_print_error "%s < 0\n" [Str expression]) ;;
    _fail file line).

Definition fails_unless (check : M bool) (file : string) (line : Z) : M unit :=
  passed <- check ;; when (negb passed) (_fail file line).

Definition _assert_float_equal (a b epsilon : spec_float) (file : string) (line : Z) : M unit :=
  fails_unless (float_values_equal_display_error a b epsilon) file line.
Definition _assert_float_not_equal (a b epsilon : spec_float) (file : string) (line : Z) : M unit :=
  fails_unless (float_values_not_equal_display_error a b epsilon) file line.
Definition _assert_double_equal (a b epsilon : spec_float) (file : string) (line : Z) : M unit :=
  fails_unless (double_values_equal_display_error a b epsilon) file line.
Definition _assert_double_not_equal (a b epsilon : spec_float) (file : string) (line : Z) : M unit :=
  fails_unless (double_values_not_equal_display_error a b epsilon) file line.
Definition _assert_int_equal (a b : Z) (file : string) (line : Z) : M unit :=
  fails_unless (values_equal_display_error a b) file line.
Definition _assert_int_not_equal (a b : Z) (file : string) (line : Z) : M unit :=
  fails_unless (values_not_equal_display_error a b) file line.
Definition _assert_string_equal (a b file : string) (line : Z) : M unit :=
  fails_unless (string_equal_display_error a b) file line.
Definition _assert_string_not_equal (a b file : string) (line : Z) : M unit :=
  fails_unless (string_not_equal_display_error a b) file line.
Definition _assert_memory_equal (a b : Z) (size : nat) (file : string) (line : Z) : M unit :=
  la <- load_bytes a size ;; lb <- load_bytes b size ;;
  fails_unless (memory_equal_display_error a b la lb) file line.
Definition _assert_memory_not_equal (a b : Z) (size : nat) (file : string) (line : Z) : M unit :=
  la <- load_bytes a size ;; lb <- load_bytes b size ;;
  fails_unless (memory_not_equal_display_error a b la lb) file line.
Definition _assert_in_range (value minimum maximum : Z) (file : string) (line : Z) : M unit :=
  fails_unless (integer_in_range_display_error value minimum maximum) file line.
Definition _assert_not_in_range (value minimum maximum : Z) (file : string) (line : Z) : M unit :=
  fails_unless (integer_not_in_range_display_error value minimum maximum) file line.
Definition _assert_in_set (value : Z) (values : list Z) (file : string) (line : Z) : M unit :=
  fails_unless (value_in_set_display_error value values false) file line.
Definition _assert_not_in_set (value : Z) (values : list Z) (file : string) (line : Z) : M unit :=
  fails_unless (value_in_set_display_error value values true) file line.

(** ** Guarded memory

    A block of [malloc] has one byte per cell; the structure that describes it and
    its node are written over some of them. *)
Definition get_allocated_blocks_list : M Z :=
  n <- load_node global_allocated_blocks ;;
  when (value n ==? 0) (
    list_initialize global_allocated_blocks ;;
    n <- load_node global_allocated_blocks ;;
    store global_allocated_blocks (CNode (mkListNode 1 (refcount n) (next n) (prev n)))) ;;
  ret global_allocated_blocks.

Definition bytes (n : Z) : list Z := map Z.of_nat (seq 0 (Z.to_nat n)).
Definition malloc_bytes (n : Z) : M Z := malloc (map (fun i => (i, CByte 0)) (bytes n)).
Definition memset (p c n : Z) : M unit := for_each (bytes n) (fun i => store (p + i) (CByte c)).
Definition memcpy (dst src n : Z) : M unit :=
  data <- load_bytes src (Z.to_nat n) ;;
  for_each (imap (fun i b => (Z.of_nat i, b)) data) (fun '(i, b) => store (dst + i) (CByte b)).

Definition load_block_info (p : Z) : M MallocBlockInfoData :=
  c <- load p ;; match c with CMallocBlockInfo b => ret b | _ => faults end.
(** Where the description of the block of [ptr] is. *)
Definition block_info (ptr : Z) : Z := ptr - (MALLOC_GUARD_SIZE + sizeof_MallocBlockInfoData).

Definition allocate_size (size : Z) : Z :=
  u64 (size + MALLOC_GUARD_SIZE * 2 + sizeof_MallocBlockInfoData + MALLOC_ALIGNMENT).
(** The address returned, for the block at [block]. *)
Definition returned_address (block : Z) : Z :=
  Z.land (block + MALLOC_GUARD_SIZE + sizeof_MallocBlockInfoData + MALLOC_ALIGNMENT)
         (Z.lnot (MALLOC_ALIGNMENT - 1)).

Definition _test_malloc (size : Z) (file : string) (line : Z) : M Z :=
  block_list <- get_allocated_blocks_list ;;
  let allocate_size := allocate_size size in
  assert_true (size <? allocate_size) "allocate_size > size" 2080 ;;
  block <- malloc_bytes allocate_size ;;
  assert_non_null block "block" 2083 ;;
  let ptr := returned_address block in
  memset (ptr - MALLOC_GUARD_SIZE) MALLOC_GUARD_PATTERN MALLOC_GUARD_SIZE ;;
  memset (ptr + size) MALLOC_GUARD_PATTERN MALLOC_GUARD_SIZE ;;
  memset ptr MALLOC_ALLOC_PATTERN size ;;
  let block_info := block_info ptr in
  store block_info (CMallocBlockInfo (mkBlockInfo block allocate_size size (set_source_location file line))) ;;
  store (block_info + node_offset) (CNode (mkListNode block_info 0 0 0)) ;;
  list_add block_list (block_info + node_offset) ;;
  ret ptr.

Definition _test_calloc (number_of_elements size : Z) (file : string) (line : Z) : M Z :=
  let n := u64 (number_of_elements * size) in
  ptr <- _test_malloc n file line ;;
  when (ptr !=? 0) (memset ptr 0 n) ;;
  ret ptr.

(** One byte of a guard. *)
Definition check_guard (ptr guard : Z) (info : MallocBlockInfoData) (file : string) (line j : Z) : M unit :=
  b <- load_byte (guard + j) ;;
  when (i8 (b - MALLOC_GUARD_PATTERN) !=? 0) (
    cm_print_error "%s:%u: error: Guard block of %p size=%lu is corrupt\n%s:%u: note: allocated here at %p\n"
      [Str file; Int line; Int ptr; Int (bi_size info);
       Str (null_text (cmocka.file (bi_location info))); Int (cmocka.line (bi_location info)); Int (guard + j)] ;;
    _fail file line).

Definition _test_free (ptr : Z) (file : string) (line : Z) : M unit :=
  if ptr ==? 0 then ret tt else
  _assert_true ptr "ptr" file line ;;
  info <- load_block_info (block_info ptr) ;;
  for_each [ptr - MALLOC_GUARD_SIZE; ptr + bi_size info] (fun guard =>
    for_each (bytes MALLOC_GUARD_SIZE) (check_guard ptr guard info file line)) ;;
  list_remove (block_info ptr + node_offset) None ;;
  info <- load_block_info (block_info ptr) ;;
  memset (block info) MALLOC_FREE_PATTERN (allocated_size info) ;;
  free (block info).

Definition _test_realloc (ptr size : Z) (file : string) (line : Z) : M Z :=
  if ptr ==? 0 then _test_malloc size file line
  else if size ==? 0 then _test_free ptr file line ;; ret 0
  else
  new_block <- _test_malloc size file line ;;
  if new_block ==? 0 then ret 0 else
  info <- load_block_info (block_info ptr) ;;
  memcpy new_block ptr (if bi_size info <? size then bi_size info else size) ;;
  _test_free ptr file line ;;
  ret new_block.

Definition check_point_allocated_blocks : M Z :=
  head <- get_allocated_blocks_list ;; n <- load_node head ;; ret (prev n).

Definition display_allocated_blocks (check_point : Z) : M Z :=
  head <- get_allocated_blocks_list ;;
  assert_non_null check_point "check_point" 2219 ;;
  c <- load_node check_point ;;
  assert_non_null (next c) "check_point->next" 2220 ;;
  walk (fun '(node, allocated_blocks) =>
    if node ==? head then ret (inr allocated_blocks) else
    n <- load_node node ;;
    assert_non_null (value n) "block_info.ptr" 2226 ;;
    info <- load_block_info (value n) ;;
    when (allocated_blocks ==? 0) (cm_print_error "Blocks allocated...\n" []) ;;
    cm_print_error "%s:%u: note: block %p allocated here\n"
      [Str (null_text (file (bi_location info))); Int (line (bi_location info)); Int (block info)] ;;
    ret (inl (next n, allocated_blocks + 1))) (next c, 0).

(** [free] is the macro for [_test_free] by now. *)
Definition free_allocated_blocks (check_point : Z) : M unit :=
  head <- get_allocated_blocks_list ;;
  assert_non_null check_point "check_point" 2245 ;;
  c <- load_node check_point ;;
  assert_non_null (next c) "node" 2248 ;;
  walk (fun node =>
    if node ==? head then ret (inr tt) else
    n <- load_node node ;;
    _test_free (value n + sizeof_MallocBlockInfoData + MALLOC_GUARD_SIZE) __FILE__ 2255 ;;
    ret (inl (next n))) (next c).

Definition fail_if_blocks_allocated (check_point : Z) (test_name : string) : M unit :=
  allocated_blocks <- display_allocated_blocks check_point ;;
  when (0 <? allocated_blocks) (
    free_allocated_blocks check_point ;;
    cm_print_error "ERROR: %s leaked %zu block(s)\n" [Str test_name; Int allocated_blocks] ;;
    exit_test true).

(** ** Reports *)
Record CMUnitTest := mkUnitTest {
  name : option string;
  test_func : option (Z -> M unit);
  setup_func : option (Z -> M Z);
  teardown_func : option (Z -> M Z);
  initial_state : Z }.
Definition test_name (t : CMUnitTest) : string := null_text (name t).

Inductive cm_printf_type :=
| PRINTF_TEST_START | PRINTF_TEST_SUCCESS | PRINTF_TEST_FAILURE | PRINTF_TEST_ERROR | PRINTF_TEST_SKIPPED.

Definition status_is (s : CMUnitTestStatus) (r : CMUnitTest * CMUnitTestState) : bool :=
  match s, ts_status r.2 with
  | CM_TEST_NOT_STARTED, CM_TEST_NOT_STARTED | CM_TEST_PASSED, CM_TEST_PASSED | CM_TEST_FAILED, CM_TEST_FAILED
  | CM_TEST_ERROR, CM_TEST_ERROR | CM_TEST_SKIPPED, CM_TEST_SKIPPED => true
  | _, _ => false
  end.

Definition cmprintf_group_start_standard (group_name : string) (num_tests : Z) : M unit :=
  print_message "[==========] %s: Running %zu test(s).\n" [Str group_name; Int num_tests].

(** The tests executed, with their states. *)
Definition cmprintf_group_finish_standard (group_name : string)
    (total_executed total_passed total_failed total_errors total_skipped : Z)
    (cm_tests : list (CMUnitTest * CMUnitTestState)) : M unit :=
  print_message "[==========] %s: %zu test(s) run.\n" [Str group_name; Int total_executed] ;;
  print_error "[  PASSED  ] %u test(s).\n" [Int (u32 total_passed)] ;;
  when (total_skipped !=? 0) (
    print_error "[  SKIPPED ] %s: %zu test(s), listed below:\n" [Str group_name; Int total_skipped] ;;
    for_each cm_tests (fun t =>
      when (status_is CM_TEST_SKIPPED t) (print_error "[  SKIPPED ] %s\n" [Str (test_name t.1)])) ;;
    print_error "\n %zu SKIPPED TEST(S)\n" [Int total_skipped]) ;;
  when (total_failed !=? 0) (
    print_error "[  FAILED  ] %s: %zu test(s), listed below:\n" [Str group_name; Int total_failed] ;;
    for_each cm_tests (fun t =>
      when (status_is CM_TEST_FAILED t) (print_error "[  FAILED  ] %s\n" [Str (test_name t.1)])) ;;
    print_error "\n %zu FAILED TEST(S)\n" [Int (total_failed + total_errors)]).

Definition cmprintf_standard (type : cm_printf_type) (test_name : string) (error_message : option string) : M unit :=
  match type with
  | PRINTF_TEST_START => print_message "[ RUN      ] %s\n" [Str test_name]
  | PRINTF_TEST_SUCCESS => print_message "[       OK ] %s\n" [Str test_name]
  | PRINTF_TEST_FAILURE =>
      match error_message with Some m => print_error "[  ERROR   ] --- %s\n" [Str m] | None => ret tt end ;;
      print_message "[  FAILED  ] %s\n" [Str test_name]
  | PRINTF_TEST_SKIPPED => print_message "[  SKIPPED ] %s\n" [Str test_name]
  | PRINTF_TEST_ERROR =>
      match error_message with Some m => print_error "%s\n" [Str m] | None => ret tt end ;;
      print_error "[  ERROR   ] %s\n" [Str test_name]
  end.

Definition cmprintf_group_start_tap (num_tests : Z) : M unit :=
  g <- get ;;
  when (negb (version_printed g)) (
    print_message "TAP version 13\n" [] ;;
    modify (set_version_printed true)) ;;
  print_message "1..%u\n" [Int (u32 num_tests)].

Definition cmprintf_group_finish_tap (group_name : string)
    (total_executed total_passed total_skipped : Z) : M unit :=
  let status := if total_passed + total_skipped ==? total_executed then "ok" else "not ok" in
  print_message "# %s - %s\n" [Str status; Str group_name].

(** The lines of a text; what follows the last newline is a line when it is not
    empty. *)
Fixpoint split_lines (line text : string) : list string :=
  match text with
  | EmptyString => if streq line "" then [] else [line]
  | String c rest =>
      if Ascii.eqb c "010" then line :: split_lines "" rest else split_lines (line +:+ String c "") rest
  end.

Definition cmprintf_tap (type : cm_printf_type) (test_number : Z) (test_name : string)
    (error_message : option string) : M unit :=
  match type with
  | PRINTF_TEST_START => ret tt
  | PRINTF_TEST_SUCCESS => print_message "ok %u - %s\n" [Int (u32 test_number); Str test_name]
  | PRINTF_TEST_FAILURE =>
      print_message "not ok %u - %s\n" [Int (u32 test_number); Str test_name] ;;
      match error_message with
      | Some m => for_each (split_lines "" m) (fun q => print_message "# %s\n" [Str q])
      | None => ret tt
      end
  | PRINTF_TEST_SKIPPED => print_message "ok %u # SKIP %s\n" [Int (u32 test_number); Str test_name]
  | PRINTF_TEST_ERROR =>
      print_message "not ok %u - %s %s\n"
        [Int (u32 test_number); Str test_name; Str (null_text error_message)]
  end.

Definition cmprintf_subunit (type : cm_printf_type) (test_name : string) (error_message : option string) : M unit :=
  match type with
  | PRINTF_TEST_START => print_message "test: %s\n" [Str test_name]
  | PRINTF_TEST_SUCCESS => print_message "success: %s\n" [Str test_name]
  | PRINTF_TEST_FAILURE =>
      print_message "failure: %s" [Str test_name] ;;
      match error_message with Some m => print_message " [\n%s\n]\n" [Str m] | None => ret tt end
  | PRINTF_TEST_SKIPPED => print_message "skip: %s\n" [Str test_name]
  | PRINTF_TEST_ERROR =>
      print_message "error: %s [ %s ]\n" [Str test_name; Str (null_text error_message)]
  end.

(** *** XML, on a stream or in a file *)
Inductive sink := Stream (f : stream) | File (path : string).

Fixpoint strstr (s pattern : string) : option Z :=
  if String.prefix pattern s then Some 0 else
  match s with EmptyString => None | String _ s => Z.succ <$> strstr s pattern end.

(** The result, the text and whether something was replaced. *)
Definition c_strreplace (src : string) (src_len : Z) (pattern repl : string) : M (Z * string * bool) :=
  match strstr src pattern with
  | None => ret (-1, src, false)
  | Some p =>
      loop (Z.to_nat (src_len * src_len)) (fun '(src, p, str_replaced) =>
        let pl := slen pattern in
        let rl := slen repl in
        if src_len <=? slen src + Z.max pl rl + 1 then ret (inr (-1, src, str_replaced)) else
        let src := stake p src +:+ repl +:+ sdrop (p + pl) src in
        match strstr src pattern with
        | Some p => ret (inl (src, p, true))
        | None => ret (inr (0, src, true))
        end) (src, p, false)
  end.

Definition fprintf (fp : sink) (fmt : string) (args : list farg) : M unit :=
  modify (fun g =>
    match fp with
    | Stream f => set_output (output g ++ [EPrint f (format fmt args)]) g
    | File path => set_files (<[path := default "" (files g !! path) +:+ format fmt args]> (files g)) g
    end).

(** The stream of the report, and whether it is a file opened for it. *)
Definition open_xml (group_name : string) : M (sink * bool) :=
  match getenv "CMOCKA_XML_FILE" with
  | None => ret (Stream stdout, false)
  | Some env =>
      '(rc, buf, _) <- c_strreplace (stake 1023 env) 1024 "%g" group_name ;;
      let buf := if rc <? 0 then stake 1023 env else buf in
      g <- get ;;
      match files g !! buf with
      | None =>
          if writable buf then
            put (set_files (<[buf := ""]> (files g)) (set_file_append 1 g)) ;;
            ret (File buf, true)
          else ret (Stream stderr, false)
      | Some _ =>
          if (file_append g !=? 0) && writable buf then
            put (set_xml_printed 1 g) ;;
            ret (File buf, true)
          else ret (Stream stderr, false)
      end
  end.

Definition xml_testcase (fp : sink) (t : CMUnitTest * CMUnitTestState) : M unit :=
  fprintf fp "    <testcase name=\042%s\042 time=\042%s\042 >\n"
    [Str (test_name t.1); Str (runtime_text (ts_runtime t.2))] ;;
  match ts_status t.2 with
  | CM_TEST_ERROR | CM_TEST_FAILED =>
      match ts_error_message t.2 with
      | Some m => fprintf fp "      <failure><![CDATA[%s]]></failure>\n" [Str m]
      | None => fprintf fp "      <failure message=\042Unknown error\042 />\n" []
      end
  | CM_TEST_SKIPPED => fprintf fp "      <skipped/>\n" []
  | CM_TEST_PASSED | CM_TEST_NOT_STARTED => ret tt
  end ;;
  fprintf fp "    </testcase>\n" [].

Definition cmprintf_group_finish_xml (group_name : string)
    (total_executed total_failed total_errors total_skipped : Z) (total_runtime : list (Z * Z))
    (cm_tests : list (CMUnitTest * CMUnitTestState)) : M unit :=
  '(fp, file_opened) <- open_xml group_name ;;
  g <- get ;;
  when ((xml_printed g ==? 0) || (file_opened && (file_append g ==? 0))) (
    fprintf fp "<?xml version=\0421.0\042 encoding=\042UTF-8\042 ?>\n" [] ;;
    when (negb file_opened) (modify (set_xml_printed 1))) ;;
  fprintf fp "<testsuites>\n" [] ;;
  fprintf fp "  <testsuite name=\042%s\042 time=\042%s\042 tests=\042%u\042 failures=\042%u\042 errors=\042%u\042 skipped=\042%u\042 >\n"
    [Str group_name; Str (runtime_text total_runtime); Int (u32 total_executed); Int (u32 total_failed);
     Int (u32 total_errors); Int (u32 total_skipped)] ;;
  for_each cm_tests (xml_testcase fp) ;;
  fprintf fp "  </testsuite>\n" [] ;;
  fprintf fp "</testsuites>\n" [].

Definition cmprintf_group_start (group_name : string) (num_tests : Z) : M unit :=
  output <- cm_get_output ;;
  match output with
  | CM_OUTPUT_STDOUT => cmprintf_group_start_standard group_name num_tests
  | CM_OUTPUT_TAP => cmprintf_group_start_tap num_tests
  | CM_OUTPUT_SUBUNIT | CM_OUTPUT_XML => ret tt
  end.

Definition cmprintf_group_finish (group_name : string)
    (total_executed total_passed total_failed total_errors total_skipped : Z) (total_runtime : list (Z * Z))
    (cm_tests : list (CMUnitTest * CMUnitTestState)) : M unit :=
  output <- cm_get_output ;;
  match output with
  | CM_OUTPUT_STDOUT =>
      cmprintf_group_finish_standard group_name total_executed total_passed total_failed total_errors
        total_skipped cm_tests
  | CM_OUTPUT_SUBUNIT => ret tt
  | CM_OUTPUT_TAP => cmprintf_group_finish_tap group_name total_executed total_passed total_skipped
  | CM_OUTPUT_XML =>
      cmprintf_group_finish_xml group_name total_executed total_failed total_errors total_skipped
        total_runtime cm_tests
  end.

Definition cmprintf (type : cm_printf_type) (test_number : Z) (test_name : string)
    (error_message : option string) : M unit :=
  output <- cm_get_output ;;
  match output with
  | CM_OUTPUT_STDOUT => cmprintf_standard type test_name error_message
  | CM_OUTPUT_SUBUNIT => cmprintf_subunit type test_name error_message
  | CM_OUTPUT_TAP => cmprintf_tap type test_number test_name error_message
  | CM_OUTPUT_XML => ret tt
  end.

Definition cmocka_set_message_output (output : cm_message_output) : M unit := modify (set_msg_output output).
Definition cmocka_set_test_filter (pattern : option string) : M unit := modify (set_test_filter pattern).
Definition cmocka_set_skip_filter (pattern : option string) : M unit := modify (set_skip_filter pattern).

(** ** Time *)
Definition cm_tspecdiff (time1 time0 : Z * Z) : Z * Z :=
  let E9 := 1000000000 in
  let time0 :=
    if time1.2 <? time0.2 then
      let xsec := Z.quot (time0.2 - time1.2) (E9 + 1) in (time0.1 + xsec, time0.2 - E9 * xsec)
    else time0 in
  let time0 :=
    if E9 <? time1.2 - time0.2 then
      let xsec := Z.quot (time1.2 - time0.2) E9 in (time0.1 - xsec, time0.2 + E9 * xsec)
    else time0 in
  let sign := if time1.1 <? time0.1 then -1 else 1 in
  ((time1.1 - time0.1) * sign, time1.2 - time0.2).

(** The next reading of the clock, the last again when there is no other. *)
Definition clock_gettime : M (Z * Z) :=
  g <- get ;;
  match clock g with
  | [] => ret (0, 0)
  | t :: rest => put (set_clock (match rest with [] => [t] | _ => rest end) g) ;; ret t
  end.

(** ** The runner *)
Definition initialize_testing (test_name : string) : M unit :=
  list_initialize global_function_result_map_head ;;
  modify (set_mock_value_location initialize_source_location) ;;
  list_initialize global_function_parameter_map_head ;;
  modify (set_parameter_location initialize_source_location) ;;
  list_initialize global_call_ordering_head ;;
  modify (set_parameter_location initialize_source_location).

Definition fail_if_leftover_values (test_name : string) : M unit :=
  remove_always_return_values global_function_result_map_head 1 ;;
  results <- check_for_leftover_values global_function_result_map_head "Has remaining non-returned values" 1 ;;
  remove_always_return_values global_function_parameter_map_head 2 ;;
  parameters <- check_for_leftover_values global_function_parameter_map_head
    "Parameter still has values that haven't been checked" 2 ;;
  remove_always_return_values_from_list global_call_ordering_head ;;
  calls <- check_for_leftover_values_list global_call_ordering_head
    "Function was expected to be called but was not" ;;
  let error_occurred := (results !=? 0) || (parameters !=? 0) || (calls !=? 0) in
  when error_occurred (exit_test true).

Definition teardown_testing (test_name : string) : M unit :=
  list_free global_function_result_map_head (Some (free_symbol_map_value 0)) ;;
  modify (set_mock_value_location initialize_source_location) ;;
  list_free global_function_parameter_map_head (Some (free_symbol_map_value 1)) ;;
  modify (set_parameter_location initialize_source_location) ;;
  list_free global_call_ordering_head (Some free_value) ;;
  modify (set_call_ordering_location initialize_source_location).

(** [state] is the address of the state of the test, or 0 for one of its own. The
    handlers are installed from the preparation of the test to its end. *)
Definition cmocka_run_one_test_or_fixture (function_name : string)
    (test_func : option (Z -> M unit)) (setup_func teardown_func : option (Z -> M Z))
    (state heap_check_point : Z) : M Z :=
  check_point <- (if heap_check_point !=? 0 then ret heap_check_point else check_point_allocated_blocks) ;;
  current_state <- alloc [(0, CPtr 0)] ;;
  let state := if state !=? 0 then state else current_state in
  rc <- handle_exceptions (
    initialize_testing function_name ;;
    modify (set_running_test 1) ;;
    r <- try (handle_exceptions (
      rc <- match test_func, setup_func, teardown_func with
            | Some test_func, _, _ =>
                test_func state ;;
                fail_if_blocks_allocated check_point function_name ;;
                ret 0
            | None, Some setup_func, _ => setup_func state
            | None, None, Some teardown_func =>
                rc <- teardown_func state ;;
                fail_if_blocks_allocated check_point function_name ;;
                ret rc
            | None, None, None => ret 0
            end ;;
      fail_if_leftover_values function_name ;;
      modify (set_running_test 0) ;;
      ret rc)) ;;
    rc <- match r with
          | inl rc => ret rc
          | inr _ => modify (set_running_test 0) ;; ret (-1)
          end ;;
    teardown_testing function_name ;;
    ret rc) ;;
  dealloc current_state [0] ;;
  ret rc.

Definition cmocka_run_group_fixture (function_name : string) (setup_func teardown_func : option (Z -> M Z))
    (state heap_check_point : Z) : M Z :=
  match setup_func with
  | Some _ => cmocka_run_one_test_or_fixture function_name None setup_func None state heap_check_point
  | None => cmocka_run_one_test_or_fixture function_name None None teardown_func state heap_check_point
  end.

Definition load_test (p : Z) : M CMUnitTestState :=
  c <- load p ;; match c with CTest t => ret t | _ => faults end.
Definition set_status (p : Z) (status : CMUnitTestStatus) : M unit :=
  t <- load_test p ;;
  store p (CTest (mkTestState (ts_check_point t) (ts_error_message t) status (ts_runtime t))).
Definition set_check_point (p check_point : Z) : M unit :=
  t <- load_test p ;;
  store p (CTest (mkTestState check_point (ts_error_message t) (ts_status t) (ts_runtime t))).
Definition set_runtime (p : Z) (runtime : list (Z * Z)) : M unit :=
  t <- load_test p ;;
  store p (CTest (mkTestState (ts_check_point t) (ts_error_message t) (ts_status t) runtime)).
Definition set_error (p : Z) (error_message : option string) : M unit :=
  t <- load_test p ;;
  store p (CTest (mkTestState (ts_check_point t) error_message (ts_status t) (ts_runtime t))).

(** [test_state] is the address of the state, [test] the test it refers to. *)
Definition cmocka_run_one_tests (test : CMUnitTest) (test_state : Z) : M Z :=
  rc <- match setup_func test with
        | Some _ =>
            check_point <- check_point_allocated_blocks ;;
            set_check_point test_state check_point ;;
            rc <- cmocka_run_one_test_or_fixture (test_name test) None (setup_func test) None
                    (test_state + state_offset) check_point ;;
            when (rc !=? 0) (
              set_status test_state CM_TEST_ERROR ;;
              cm_print_error "Test setup failed" []) ;;
            ret rc
        | None => ret 0
        end ;;
  start <- clock_gettime ;;
  rc <- (if rc ==? 0 then
           rc <- cmocka_run_one_test_or_fixture (test_name test) (test_func test) None None
                   (test_state + state_offset) 0 ;;
           (if rc ==? 0 then set_status test_state CM_TEST_PASSED
            else
              g <- get ;;
              if global_skip_test g !=? 0 then
                set_status test_state CM_TEST_SKIPPED ;;
                modify (set_skip_test 0)
              else set_status test_state CM_TEST_FAILED) ;;
           ret 0
         else ret rc) ;;
  finish <- clock_gettime ;;
  set_runtime test_state [cm_tspecdiff finish start] ;;
  rc <- match teardown_func test with
        | Some _ =>
            if rc ==? 0 then
              t <- load_test test_state ;;
              rc <- cmocka_run_one_test_or_fixture (test_name test) None None (teardown_func test)
                      (test_state + state_offset) (ts_check_point t) ;;
              when (rc !=? 0) (
                set_status test_state CM_TEST_ERROR ;;
                cm_print_error "Test teardown failed" []) ;;
              ret rc
            else ret rc
        | None => ret rc
        end ;;
  g <- get ;;
  set_error test_state (cm_error_message g) ;;
  put (set_error_message None g) ;;
  ret rc.

(** Whether the test is run: it has a name and something to run, and its name
    passes the filters. *)
Definition selected (g : globals) (t : CMUnitTest) : bool :=
  match name t with
  | None => false
  | Some name =>
      (bool_decide (is_Some (test_func t)) || bool_decide (is_Some (setup_func t)) ||
       bool_decide (is_Some (teardown_func t))) &&
      match global_test_filter_pattern g with Some p => c_strmatch name p | None => true end &&
      match global_skip_filter_pattern g with Some p => negb (c_strmatch name p) | None => true end
  end.

Record totals := mkTotals {
  total_failed : Z; total_passed : Z; total_executed : Z; total_errors : Z; total_skipped : Z;
  total_runtime : list (Z * Z) }.

(** One test of the group, number [i] from 0. *)
Definition execute_test (cm_tests group_state : Z) (i : Z) (test : CMUnitTest) (s : totals) : M totals :=
  let cmtest := cm_tests + sizeof_CMUnitTestState * i in
  let test_number := i + 1 in
  cmprintf PRINTF_TEST_START test_number (test_name test) None ;;
  gs <- load group_state ;;
  (match gs with
   | CPtr p =>
       if p !=? 0 then store (cmtest + state_offset) (CPtr p)
       else when (initial_state test !=? 0) (store (cmtest + state_offset) (CPtr (initial_state test)))
   | _ => faults
   end) ;;
  rc <- cmocka_run_one_tests test cmtest ;;
  t <- load_test cmtest ;;
  let s := mkTotals (total_failed s) (total_passed s) (total_executed s + 1) (total_errors s)
             (total_skipped s) (total_runtime s ++ ts_runtime t) in
  if rc ==? 0 then
    match ts_status t with
    | CM_TEST_PASSED =>
        cmprintf PRINTF_TEST_SUCCESS test_number (test_name test) (ts_error_message t) ;;
        ret (mkTotals (total_failed s) (total_passed s + 1) (total_executed s) (total_errors s)
               (total_skipped s) (total_runtime s))
    | CM_TEST_SKIPPED =>
        cmprintf PRINTF_TEST_SKIPPED test_number (test_name test) (ts_error_message t) ;;
        ret (mkTotals (total_failed s) (total_passed s) (total_executed s) (total_errors s)
               (total_skipped s + 1) (total_runtime s))
    | CM_TEST_FAILED =>
        cmprintf PRINTF_TEST_FAILURE test_number (test_name test) (ts_error_message t) ;;
        ret (mkTotals (total_failed s + 1) (total_passed s) (total_executed s) (total_errors s)
               (total_skipped s) (total_runtime s))
    | _ =>
        cmprintf PRINTF_TEST_ERROR test_number (test_name test) (Some "Internal cmocka error") ;;
        ret (mkTotals (total_failed s) (total_passed s) (total_executed s) (total_errors s + 1)
               (total_skipped s) (total_runtime s))
    end
  else
    let err_msg := snprintf 2048 "Could not run test: %s" [Str (null_text (ts_error_message t))] in
    cmprintf PRINTF_TEST_ERROR test_number (test_name test) (Some err_msg) ;;
    ret (mkTotals (total_failed s) (total_passed s) (total_executed s) (total_errors s + 1)
           (total_skipped s) (total_runtime s)).

Fixpoint execute_tests (cm_tests group_state : Z) (i : Z) (tests : list CMUnitTest) (s : totals) : M totals :=
  match tests with
  | [] => ret s
  | test :: tests =>
      s <- execute_test cm_tests group_state i test s ;;
      execute_tests cm_tests group_state (i + 1) tests s
  end.

(** The message of a fixture that failed. *)
Definition report_fixture : M unit :=
  g <- get ;;
  match cm_error_message g with
  | Some m => print_error "[  ERROR   ] --- %s\n" [Str m] ;; modify (set_error_message None)
  | None => ret tt
  end.

Fixpoint load_tests (cm_tests : Z) (i : Z) (tests : list CMUnitTest) : M (list (CMUnitTest * CMUnitTestState)) :=
  match tests with
  | [] => ret []
  | test :: tests =>
      t <- load_test (cm_tests + sizeof_CMUnitTestState * i) ;;
      ts <- load_tests cm_tests (i + 1) tests ;;
      ret ((test, t) :: ts)
  end.

Definition _cmocka_run_group_tests (group_name : string) (tests : list CMUnitTest)
    (group_setup group_teardown : option (Z -> M Z)) : M Z :=
  group_check_point <- check_point_allocated_blocks ;;
  group_state <- alloc [(0, CPtr 0)] ;;
  let blank := mkTestState 0 None CM_TEST_NOT_STARTED [] in
  cm_tests <- malloc (concat (map (fun i =>
    [(sizeof_CMUnitTestState * i, CTest blank); (sizeof_CMUnitTestState * i + state_offset, CPtr 0)])
    (bytes (Z.of_nat (length tests))))) ;;
  g <- get ;;
  let tests := filter (fun t => selected g t = true) tests in
  cmprintf_group_start group_name (Z.of_nat (length tests)) ;;
  rc <- match group_setup with
        | Some _ => cmocka_run_group_fixture "cmocka_group_setup" group_setup None group_state group_check_point
        | None => ret 0
        end ;;
  let none := mkTotals 0 0 0 0 0 [] in
  s <- (if rc ==? 0 then execute_tests cm_tests group_state 0 tests none
        else
          report_fixture ;;
          cmprintf PRINTF_TEST_ERROR 0 group_name (Some "[  FAILED  ] GROUP SETUP") ;;
          ret (mkTotals 0 0 0 1 0 [])) ;;
  match group_teardown with
  | Some _ =>
      rc <- cmocka_run_group_fixture "cmocka_group_teardown" None group_teardown group_state group_check_point ;;
      when (rc !=? 0) (
        report_fixture ;;
        cmprintf PRINTF_TEST_ERROR 0 group_name (Some "[  FAILED  ] GROUP TEARDOWN"))
  | None => ret tt
  end ;;
  executed <- load_tests cm_tests 0 (take (Z.to_nat (total_executed s)) tests) ;;
  cmprintf_group_finish group_name (total_executed s) (total_passed s) (total_failed s) (total_errors s)
    (total_skipped s) (total_runtime s) executed ;;
  free cm_tests ;;
  dealloc group_state [0] ;;
  fail_if_blocks_allocated group_check_point "cmocka_group_tests" ;;
  ret (i32 (total_failed s + total_errors s)).

(** ** The start of the process *)
Definition initial_heap : gmap Z cell :=
  list_to_map (map (fun a => (a, CNode (mkListNode 0 0 0 0)))
    [global_function_result_map_head; global_function_parameter_map_head;
     global_call_ordering_head; global_allocated_blocks]).
Definition initial_globals (times : list (Z * Z)) (existing : gmap string string) : globals :=
  mkGlobals None 0 0 None 0 (mkLoc None 0) (mkLoc None 0) (mkLoc None 0) CM_OUTPUT_STDOUT None None 0 0 false
    [] existing times.

End Framework.
End cmocka.
