(* ===== verification/CmBase.v ===== *)
(** * Rules for the programs of the test framework

    Single cells and fields, blocks of [malloc], messages, and the ways a test
    ends; the tactics that step through a program. *)

From S2P Require Import Prelude.
From S2P Require Import CLib.
From S2P Require Import Sys.
From S2P Require Import Sem.
From S2P Require Import HeapLogic.
From S2P Require Import Cmocka.
From iris.bi Require Import bi.
From iris.proofmode Require Import proofmode.
#[local] Open Scope Z_scope.
#[local] Open Scope cmd_scope.
Import cmocka.

#[local] Abbreviation hProp := (hpropI cell).

(** ** Programs *)

(** The value of [c] goes to the rest. *)
Ltac wp_bind := iApply hwp_bind.
(** One step by a rule for it, which gives back what it owns. *)
Tactic Notation "wp_use" open_constr(rule) "as" constr(pat) :=
  iApply hwp_bind; iApply rule; iIntros pat; cbn beta iota.
Tactic Notation "wp_last" open_constr(rule) "as" constr(pat) :=
  iApply rule; iIntros pat; cbn beta iota.

Definition with_text (text : string) (g : globals) : globals :=
  set_error_message (Some (default "" (cm_error_message g) +:+
    if slen text <? sizeof_buffer then text else stake (slen text - 1) text)) g.

(** What the calls of a test leave as it is: the runner's variables. *)
Definition steady (g g' : globals) : Prop :=
  global_running_test g' = global_running_test g /\ global_skip_test g' = global_skip_test g /\
  global_expecting_assert g' = global_expecting_assert g /\
  global_test_filter_pattern g' = global_test_filter_pattern g /\
  global_skip_filter_pattern g' = global_skip_filter_pattern g /\ global_msg_output g' = global_msg_output g.

#[export] Instance steady_preorder : PreOrder steady.
Proof. split; [by intros g|]. intros g1 g2 g3 (? & ? & ? & ? & ? & ?) (? & ? & ? & ? & ? & ?). unfold steady. split_and!; congruence. Qed.

Lemma steady_text t g g' : steady g g' -> steady g (with_text t g').
Proof. by destruct g'. Qed.
Lemma steady_error e g g' : steady g g' -> steady g (set_error_message e g').
Proof. by destruct g'. Qed.
Lemma steady_mock_location x g g' : steady g g' -> steady g (set_mock_value_location x g').
Proof. by destruct g'. Qed.
Lemma steady_parameter_location x g g' : steady g g' -> steady g (set_parameter_location x g').
Proof. by destruct g'. Qed.
Lemma steady_call_location x g g' : steady g g' -> steady g (set_call_ordering_location x g').
Proof. by destruct g'. Qed.
Lemma steady_output x g g' : steady g g' -> steady g (set_output x g').
Proof. by destruct g'. Qed.
Lemma steady_failed_assert x g g' : steady g g' -> steady g (set_last_failed_assert x g').
Proof. by destruct g'. Qed.
Lemma steady_clock x g g' : steady g g' -> steady g (set_clock x g').
Proof. by destruct g'. Qed.
#[export] Hint Resolve steady_text steady_error steady_mock_location steady_parameter_location steady_call_location
  steady_output steady_failed_assert steady_clock : core.
#[export] Hint Extern 2 (steady _ _) => reflexivity : core.
#[export] Hint Extern 3 (steady _ ?g) => match goal with H : steady _ g |- _ => etransitivity; [|exact H] end : core.

Lemma steady_running g g' : steady g g' -> global_running_test g <> 0 -> global_running_test g' <> 0.
Proof. intros (-> & _). done. Qed.
#[export] Hint Resolve steady_running : core.

(** Where a failure goes: back to the runner, or out of the process when no test
    is running. *)
Definition stop_of (g : globals) (A : Type) : outcome A :=
  if global_running_test g ==? 0 then Ended (Exited (-1)) else LongJmp 1.

Lemma steady_stop g g' : steady g g' -> stop_of g' = stop_of g.
Proof. intros (E & _). unfold stop_of. by rw E. Qed.

(** The rest of a program is not run where it stops. *)
Ltac stops g := unfold stop_of; by destruct (global_running_test g ==? 0).

Section Basics.
Context `{CText} `{Env}.

Definition node_at (p : Z) (n : ListNode) : hProp := pts p (CNode n).

Lemma hwp_assert_true r e f l g (Q : outcome unit -> globals -> hProp) :
  r <> 0 -> Q (Done tt) g ⊢ hwp (_assert_true r e f l) g Q.
Proof. intros Hr%Z.eqb_neq. unfold _assert_true, when. rw Hr. apply hwp_ret. Qed.

Lemma hwp_assert b e l g (Q : outcome unit -> globals -> hProp) :
  b = true -> Q (Done tt) g ⊢ hwp (assert_true b e l) g Q.
Proof. intros ->. by apply hwp_assert_true. Qed.

Lemma hwp_non_null p e l g (Q : outcome unit -> globals -> hProp) :
  p <> 0 -> Q (Done tt) g ⊢ hwp (assert_non_null p e l) g Q.
Proof. apply hwp_assert_true. Qed.

Lemma hwp_load_node p n g Q :
  node_at p n -∗ (node_at p n -∗ Q (Done n) g) -∗ hwp (load_node p) g Q.
Proof. iIntros "H HQ". unfold load_node. wp_use (hwp_load with "H") as "H". iApply hwp_ret. by iApply "HQ". Qed.

Lemma hwp_store_node p n n' g Q :
  node_at p n -∗ (node_at p n' -∗ Q (Done tt) g) -∗ hwp (G := globals) (store p (CNode n')) g Q.
Proof. apply hwp_store. Qed.

Lemma hwp_set_next p n q g Q :
  node_at p n -∗ (node_at p (mkListNode (value n) (refcount n) q (prev n)) -∗ Q (Done tt) g) -∗ hwp (set_next p q) g Q.
Proof. iIntros "H HQ". unfold set_next. wp_use (hwp_load_node with "H") as "H". iApply (hwp_store with "H HQ"). Qed.

Lemma hwp_set_prev p n q g Q :
  node_at p n -∗ (node_at p (mkListNode (value n) (refcount n) (next n) q) -∗ Q (Done tt) g) -∗ hwp (set_prev p q) g Q.
Proof. iIntros "H HQ". unfold set_prev. wp_use (hwp_load_node with "H") as "H". iApply (hwp_store with "H HQ"). Qed.

Lemma hwp_set_refcount p n r g Q :
  node_at p n -∗ (node_at p (mkListNode (value n) r (next n) (prev n)) -∗ Q (Done tt) g) -∗ hwp (set_refcount p r) g Q.
Proof. iIntros "H HQ". unfold set_refcount. wp_use (hwp_load_node with "H") as "H". iApply (hwp_store with "H HQ"). Qed.

(** *** Blocks *)

(** The header of the block at [p], which [free] needs. *)
Definition block_of (p : Z) (offsets : list Z) : hProp := pts (p - 16) (CHeader offsets).

Lemma hwp_malloc cells g Q :
  NoDup cells.*1 -> Forall (fun c => 0 <= c.1) cells ->
  (∀ p, ⌜0 < p⌝ -∗ ⌜p mod 16 = 0⌝ -∗ block_of p cells.*1 -∗ ([∗ list] c ∈ cells, pts (p + c.1) c.2) -∗ Q (Done p) g) ⊢
  hwp (malloc cells) g Q.
Proof.
  iIntros (Hnd Hpos) "HQ". unfold malloc. wp_bind. iApply hwp_alloc.
  - cbn. assert ((map (fun c : Z * cell => (16 + c.1, c.2)) cells).*1 = map (Z.add 16) cells.*1) as ->.
    { clear. induction cells as [|c cells IH]; [done|]. cbn. by rw IH. }
    apply NoDup_cons. split; [|apply NoDup_fmap_2; [intros x y; lia|done]].
    intros (x & Hx & (c & -> & Hc)%list_elem_of_fmap)%list_elem_of_fmap.
    rw Forall_forall in Hpos. specialize (Hpos _ Hc). lia.
  - constructor; [done|]. apply Forall_map. eapply Forall_impl; [exact Hpos|]. cbn. lia.
  - iIntros (b Hb Hmod) "[Hh Hcs]". cbn. iApply hwp_ret. iApply ("HQ" $! (b + 16) with "[%] [%] [Hh] [Hcs]").
    + lia.
    + rw -Hmod. replace (b + 16) with (b + 1 * 16) by lia. apply Z_mod_plus_full.
    + unfold block_of. replace (b + 16 - 16) with (b + 0) by lia. iExact "Hh".
    + rw big_sepL_fmap. iApply (big_sepL_mono with "Hcs"). intros k c _. cbn.
      by replace (b + (16 + c.1)) with (b + 16 + c.1) by lia.
Qed.

Lemma hwp_free p offsets g Q :
  p <> 0 -> block_of p offsets -∗ ([∗ list] o ∈ offsets, owns (p + o)) -∗ Q (Done tt) g -∗ hwp (free p) g Q.
Proof.
  iIntros (Hp%Z.eqb_neq) "Hb Ho HQ". unfold free. rw Hp. wp_use (hwp_load with "Hb") as "Hb".
  iApply (hwp_dealloc with "[Hb Ho] HQ"). cbn. iSplitL "Hb".
  - rw Z.add_0_r. iExists _. iExact "Hb".
  - rw big_sepL_fmap. iApply (big_sepL_mono with "Ho"). intros k o _. cbn.
    by replace (p - 16 + (16 + o)) with (p + o) by lia.
Qed.
Lemma hwp_cm_print_error fmt args g (Q : outcome unit -> globals -> hProp) :
  Q (Done tt) (with_text (format fmt args) g) ⊢ hwp (cm_print_error fmt args) g Q.
Proof. iIntros "HQ". unfold cm_print_error, vcm_print_error. cbn. wp_bind. iApply hwp_get. iApply hwp_put. iExact "HQ". Qed.


(** *** Ends of a test *)

Lemma hwp_exit_any g (Q : outcome unit -> globals -> hProp) :
  getenv "CMOCKA_TEST_ABORT" = None -> Q (stop_of g unit) g ⊢ hwp (exit_test true) g Q.
Proof.
  intros Ha. iIntros "HQ". unfold exit_test. rw Ha. wp_bind. iApply hwp_get. cbn beta iota.
  rw andb_false_r. unfold stop_of, when. destruct (global_running_test g ==? 0); by iApply hwp_fails.
Qed.

Lemma hwp_fail_any file line g (Q : outcome unit -> globals -> hProp) :
  getenv "CMOCKA_TEST_ABORT" = None ->
  (∀ g', ⌜steady g g'⌝ -∗ Q (stop_of g unit) g') ⊢ hwp (_fail file line) g Q.
Proof.
  intros Ha. iIntros "HQ". unfold _fail, cm_get_output. wp_bind. wp_bind. iApply hwp_get. cbn beta iota. iApply hwp_ret.
  match goal with |- context [match ?o with CM_OUTPUT_STDOUT => _ | _ => _ end] => generalize o as out end.
  intros out. wp_bind.
  assert (forall t, (∀ g', ⌜steady g g'⌝ -∗ Q (stop_of g unit) g') ⊢ hwp (exit_test true ;; exit (-1)) (with_text t g) Q) as Hend.
  { intros t. iIntros "HQ". wp_bind. iApply hwp_exit_any; [done|].
    assert (steady g (with_text t g)) as Hg by auto. rw (steady_stop _ _ Hg).
    iSpecialize ("HQ" with "[//]"). unfold stop_of. by destruct (global_running_test g ==? 0). }
  destruct out; iApply hwp_cm_print_error; by iApply Hend.
Qed.

(** In a test. *)
Lemma running_stop g A : global_running_test g <> 0 -> stop_of g A = LongJmp 1.
Proof. intros Hr%Z.eqb_neq. unfold stop_of. by rw Hr. Qed.

Lemma hwp_exit_test g (Q : outcome unit -> globals -> hProp) :
  getenv "CMOCKA_TEST_ABORT" = None -> global_running_test g <> 0 -> Q (LongJmp 1) g ⊢ hwp (exit_test true) g Q.
Proof. intros Ha Hr. rw -(running_stop g unit) //. by apply hwp_exit_any. Qed.

Lemma hwp_fail file line g (Q : outcome unit -> globals -> hProp) :
  getenv "CMOCKA_TEST_ABORT" = None -> global_running_test g <> 0 ->
  (∀ g', ⌜steady g g'⌝ -∗ Q (LongJmp 1) g') ⊢ hwp (_fail file line) g Q.
Proof. intros Ha Hr. rw -(running_stop g unit) //. by apply hwp_fail_any. Qed.

(** A fault is for the handler, which ends the test too. *)
Lemma hwp_handle_exceptions {A} (c : M A) g (Q : outcome A -> globals -> hProp) :
  getenv "CMOCKA_TEST_ABORT" = None ->
  hwp c g (fun r g' => match r with Fault => ∀ g2, ⌜steady g' g2⌝ -∗ Q (stop_of g' A) g2 | r => Q r g' end) ⊢
  hwp (handle_exceptions c) g Q.
Proof.
  intros Ha. split=> h H1 hf Hd. destruct (H1 hf Hd) as (r & h' & g' & Hc & Hd' & HQ). unfold handle_exceptions. rw Hc.
  destruct r as [a|v|v|st| |]; try by (eexists _, h', g'; split_and!; [reflexivity|done|exact HQ]).
  assert (((∀ g2, ⌜steady g' g2⌝ -∗ Q (stop_of g' A) g2) ⊢
    hwp (exception_handler SIGSEGV ;; faults) g' Q)%I) as [Hh]; [|exact (Hh h' HQ hf Hd')].
  iIntros "HQ". unfold exception_handler. do 2 wp_bind. iApply hwp_cm_print_error. wp_bind. iApply hwp_exit_any; [done|].
  match goal with |- context [stop_of ?gt unit] => assert (steady g' gt) as Hg by auto end. rw (steady_stop _ _ Hg).
  iSpecialize ("HQ" with "[//]"). stops g'.
Qed.
End Basics.
