(* ===== verification/CmLists.v ===== *)
(** * The lists of the test framework

    Ownership of a circular doubly-linked list of cmocka.c, and what each of its
    list_ functions does to one. *)

From S2P Require Import Prelude.
From S2P Require Import CLib.
From S2P Require Import Sys.
From S2P Require Import Sem.
From S2P Require Import HeapLogic.
From S2P Require Import Cmocka.
From S2P Require Import CmBase.
From iris.bi Require Import bi.
From iris.proofmode Require Import proofmode.
#[local] Open Scope Z_scope.
#[local] Open Scope cmd_scope.
Import cmocka.

#[local] Abbreviation hProp := (hpropI cell).

(** ** Lists *)

(** What a node of a list holds, and where it is. *)
Record entry := mkEntry { place : Z; held : Z; count : Z }.

Definition first_of (l : list entry) (e : Z) : Z := match l with [] => e | x :: _ => place x end.
Fixpoint last_of (p : Z) (l : list entry) : Z := match l with [] => p | x :: l => last_of (place x) l end.

Lemma first_of_app l1 l2 e : first_of (l1 ++ l2) e = first_of l1 (first_of l2 e).
Proof. by destruct l1. Qed.
Lemma last_of_app p l1 l2 : last_of p (l1 ++ l2) = last_of (last_of p l1) l2.
Proof. revert p. induction l1 as [|x l1 IH]; intros p; [done|apply IH]. Qed.
Lemma last_of_snoc p l x : last_of p (l ++ [x]) = place x.
Proof. by rw last_of_app. Qed.

(** The nodes of [l], linked; the first comes after [p] and the last before [e]. *)
Fixpoint nodes (p : Z) (l : list entry) (e : Z) : hProp :=
  match l with
  | [] => emp
  | x :: l => ⌜0 < place x⌝ ∗ node_at (place x) (mkListNode (held x) (count x) (first_of l e) p) ∗ nodes (place x) l e
  end%I.

Lemma nodes_app p l1 l2 e : nodes p (l1 ++ l2) e ⊣⊢ nodes p l1 (first_of l2 e) ∗ nodes (last_of p l1) l2 e.
Proof.
  revert p. induction l1 as [|x l1 IH]; intros p; cbn; [by rw left_id|].
  by rw IH first_of_app -!bi.sep_assoc.
Qed.

Lemma nodes_owned p l e : nodes p l e ⊢ ([∗ list] a ∈ (place <$> l), owns a).
Proof.
  revert p. induction l as [|x l IH]; intros p; cbn; [done|]. iIntros "(_ & H & Hl)".
  iSplitL "H"; [by iExists _|by iApply IH].
Qed.

(** The ring of [head], of the value and reference count [hv] and [hr]: the nodes
    [l1], then [l2], with a link [n] from the first part and a link [p] back from
    the second. *)
Definition ring (head : Z) (hv hr : Z) (l1 : list entry) (n p : Z) (l2 : list entry) : hProp :=
  (node_at head (mkListNode hv hr (first_of l1 n) (last_of p l2)) ∗ nodes head l1 n ∗ nodes p l2 head)%I.

(** A list: its ring is closed. *)
Definition dlist (head : Z) (hv hr : Z) (l : list entry) : hProp :=
  (node_at head (mkListNode hv hr (first_of l head) (last_of head l)) ∗ nodes head l head)%I.

Lemma dlist_ring head hv hr l1 l2 :
  dlist head hv hr (l1 ++ l2) ⊣⊢ ring head hv hr l1 (first_of l2 head) (last_of head l1) l2.
Proof. unfold dlist, ring. by rw nodes_app first_of_app last_of_app. Qed.

Lemma dlist_ring_at head hv hr l1 x l2 :
  dlist head hv hr (l1 ++ x :: l2) ⊣⊢
  (ring head hv hr l1 (place x) (place x) l2 ∗ ⌜0 < place x⌝ ∗
  node_at (place x) (mkListNode (held x) (count x) (first_of l2 head) (last_of head l1)))%I.
Proof.
  unfold dlist, ring. rw nodes_app first_of_app last_of_app. cbn.
  iSplit; [iIntros "($ & $ & $ & $ & $)"|iIntros "(($ & $ & $) & $ & $)"].
Qed.

Lemma dlist_at head hv hr l1 x l2 : dlist head hv hr (l1 ++ x :: l2) ⊢ ⌜0 < place x /\ place x <> head⌝.
Proof.
  rw dlist_ring_at. iIntros "((Hh & _) & %Hp & Hx)". iDestruct (pts_ne with "Hh Hx") as %Hne. iPureIntro. by split.
Qed.

Section Lists.
Context `{CText} `{Env}.

Lemma hwp_ring_head head hv hr l1 n p l2 g Q :
  ring head hv hr l1 n p l2 -∗
  (ring head hv hr l1 n p l2 -∗ Q (Done (mkListNode hv hr (first_of l1 n) (last_of p l2))) g) -∗
  hwp (load_node head) g Q.
Proof.
  iIntros "(Hh & H1 & H2) HQ". iApply (hwp_load_node with "Hh"). iIntros "Hh". iApply "HQ". iFrame.
Qed.

Lemma hwp_ring_next head hv hr l1 n p l2 n' g Q :
  ring head hv hr l1 n p l2 -∗ (ring head hv hr l1 n' p l2 -∗ Q (Done tt) g) -∗
  hwp (set_next (last_of head l1) n') g Q.
Proof.
  iIntros "(Hh & H1 & H2) HQ". destruct l1 as [|x l1 _] using rev_ind.
  - cbn. iApply (hwp_set_next with "Hh"). iIntros "Hh". iApply "HQ". iFrame.
  - rw last_of_snoc nodes_app. cbn. iDestruct "H1" as "(H1 & Hp & Hx & _)".
    iApply (hwp_set_next with "Hx"). iIntros "Hx". iApply "HQ". unfold ring. rw nodes_app !first_of_app. cbn. iFrame.
Qed.

Lemma hwp_ring_prev head hv hr l1 n p l2 p' g Q :
  ring head hv hr l1 n p l2 -∗ (ring head hv hr l1 n p' l2 -∗ Q (Done tt) g) -∗
  hwp (set_prev (first_of l2 head) p') g Q.
Proof.
  iIntros "(Hh & H1 & H2) HQ". destruct l2 as [|x l2]; cbn.
  - iApply (hwp_set_prev with "Hh"). iIntros "Hh". iApply "HQ". iFrame.
  - iDestruct "H2" as "(Hp & Hx & H2)".
    iApply (hwp_set_prev with "Hx"). iIntros "Hx". iApply "HQ". unfold ring. cbn. iFrame.
Qed.

(** *** The operations *)
Lemma hwp_list_initialize head n g Q :
  node_at head n -∗ (dlist head 0 1 [] -∗ Q (Done head) g) -∗ hwp (list_initialize head) g Q.
Proof.
  iIntros "Hh HQ". unfold list_initialize. wp_use (hwp_load_node with "Hh") as "Hh".
  wp_use (hwp_store_node with "Hh") as "Hh". iApply hwp_ret. iApply "HQ". by iFrame.
Qed.

Lemma hwp_list_empty head hv hr l g Q :
  0 < head -> dlist head hv hr l -∗ (dlist head hv hr l -∗ Q (Done (bool_decide (l = []))) g) -∗ hwp (list_empty head) g Q.
Proof.
  iIntros (Hh) "Hl HQ". unfold list_empty. wp_bind. iApply hwp_non_null; [lia|]. cbn.
  iDestruct "Hl" as "[Hn Hl]". iAssert (⌜first_of l head = head -> l = []⌝)%I as %Hne.
  { destruct l as [|x l]; [done|]. iIntros (Hx). cbn in Hx. cbn. rw Hx. iDestruct "Hl" as "(_ & Hx & _)".
    iDestruct (pts_ne with "Hn Hx") as %[]. done. }
  wp_use (hwp_load_node with "Hn") as "Hn". cbn. iApply hwp_ret.
  assert ((first_of l head ==? head) = bool_decide (l = [])) as ->.
  { destruct l as [|x l]; [by rw Z.eqb_refl|]. rw bool_decide_false //. apply Z.eqb_neq. intros E. by specialize (Hne E). }
  iApply "HQ". iFrame.
Qed.

Lemma hwp_list_add head hv hr l x n g Q :
  0 < head -> 0 < place x ->
  dlist head hv hr l -∗ node_at (place x) (mkListNode (held x) (count x) n n) -∗
  (dlist head hv hr (l ++ [x]) -∗ Q (Done (place x)) g) -∗ hwp (list_add head (place x)) g Q.
Proof.
  iIntros (Hh Hp) "Hl Hx HQ". unfold list_add. do 2 (wp_bind; iApply hwp_non_null; [lia|]; cbn).
  rw -{1}(app_nil_r l) dlist_ring. cbn.
  wp_use (hwp_set_next with "Hx") as "Hx". wp_use (hwp_ring_head with "Hl") as "Hl". cbn.
  wp_use (hwp_set_prev with "Hx") as "Hx". wp_use (hwp_ring_next with "Hl") as "Hl".
  wp_use (hwp_ring_prev head _ _ l _ _ [] with "Hl") as "Hl".
  iApply hwp_ret. iApply "HQ". rw dlist_ring_at. by iFrame.
Qed.

Definition node_block (x : entry) : hProp := block_of (place x) [0].

Lemma hwp_list_add_value head hv hr l v c g Q :
  0 < head -> 0 < v ->
  dlist head hv hr l -∗
  (∀ p, ⌜0 < p⌝ -∗ node_block (mkEntry p v c) -∗ dlist head hv hr (l ++ [mkEntry p v c]) -∗ Q (Done p) g) -∗
  hwp (list_add_value head v c) g Q.
Proof.
  iIntros (Hh Hv) "Hl HQ". unfold list_add_value. wp_bind. iApply hwp_malloc.
  { repeat constructor. intros Hn%elem_of_nil. done. } { by repeat constructor. }
  iIntros (p Hp Hmod) "Hb [Hn _]". cbn. rw Z.add_0_r.
  do 2 (wp_bind; iApply hwp_non_null; [lia|]; cbn). wp_use (hwp_store_node with "Hn") as "Hn".
  iApply (hwp_list_add _ _ _ _ (mkEntry p v c) with "Hl Hn"); [done..|]. iIntros "Hl". by iApply ("HQ" with "[//] Hb Hl").
Qed.

(** The node goes out of the ring; what becomes of its value is the cleanup's. *)
Lemma hwp_list_remove head hv hr l1 x l2 cleanup g Q :
  dlist head hv hr (l1 ++ x :: l2) -∗
  (dlist head hv hr (l1 ++ l2) -∗ owns (place x) -∗
   hwp (match cleanup with Some f => f (held x) | None => ret tt end) g (fun r g' =>
     match r with Done _ => Q (Done (place x)) g' | r => Q (cast r) g' end)) -∗
  hwp (list_remove (place x) cleanup) g Q.
Proof.
  iIntros "Hl HQ". rw dlist_ring_at. iDestruct "Hl" as "(Hl & %Hx & Hx)". unfold list_remove.
  wp_bind. iApply hwp_non_null; [lia|]. cbn.
  wp_use (hwp_load_node with "Hx") as "Hx". cbn. wp_use (hwp_ring_next with "Hl") as "Hl".
  wp_use (hwp_load_node with "Hx") as "Hx". cbn. wp_use (hwp_ring_prev with "Hl") as "Hl".
  rw -dlist_ring. wp_bind. destruct cleanup as [f|].
  - wp_use (hwp_load_node with "Hx") as "Hx". cbn.
    iApply (hwp_wand with "[HQ Hl Hx]"); [iApply ("HQ" with "Hl"); by iExists _|].
    iIntros ([[]|v|v|s| |] g') "HQ"; try done. by iApply hwp_ret.
  - iApply (hwp_wand with "[HQ Hl Hx]"); [iApply ("HQ" with "Hl"); by iExists _|].
    iIntros ([[]|v|v|s| |] g') "HQ"; try done. by iApply hwp_ret.
Qed.

Lemma hwp_list_remove_free head hv hr l1 x l2 cleanup g Q :
  dlist head hv hr (l1 ++ x :: l2) -∗ node_block x -∗
  (dlist head hv hr (l1 ++ l2) -∗
   hwp (match cleanup with Some f => f (held x) | None => ret tt end) g (fun r g' =>
     match r with Done _ => Q (Done tt) g' | r => Q (cast r) g' end)) -∗
  hwp (list_remove_free (place x) cleanup) g Q.
Proof.
  iIntros "Hl Hb HQ". iAssert (⌜0 < place x⌝)%I as %Hx.
  { rw dlist_ring_at. by iDestruct "Hl" as "(_ & % & _)". }
  unfold list_remove_free. wp_bind. iApply hwp_non_null; [lia|]. cbn. wp_bind.
  iApply (hwp_list_remove with "Hl"). iIntros "Hl Hx".
  iApply (hwp_wand with "[HQ Hl]"); [by iApply "HQ"|].
  iIntros ([[]|v|v|s| |] g') "HQ"; try done. iApply (hwp_free with "Hb [Hx] HQ"); [lia|]. cbn.
  rw Z.add_0_r. by iFrame.
Qed.

(** A cleanup that is given a part [R] of what is owned for each value, and ends. *)
Lemma hwp_list_free head hv hr l cleanup (R : entry -> hProp) g Q :
  0 < head ->
  (forall x Q, R x -∗ Q (Done tt) g -∗ hwp (match cleanup with Some f => f (held x) | None => ret tt end) g Q) ->
  dlist head hv hr l -∗ ([∗ list] x ∈ l, node_block x ∗ R x) -∗
  (dlist head hv hr [] -∗ Q (Done head) g) -∗ hwp (list_free head cleanup) g Q.
Proof.
  iIntros (Hh Hc) "Hl HR HQ". unfold list_free. wp_bind. iApply hwp_non_null; [lia|]. cbn. wp_bind.
  iApply (hwp_walk_bounded _ (fun k _ g' => ∃ l, ⌜length l = k⌝ ∗ ⌜g' = g⌝ ∗ dlist head hv hr l ∗
    ([∗ list] x ∈ l, node_block x ∗ R x) ∗ (dlist head hv hr [] -∗ Q (Done head) g))%I (place <$> l)).
  - iIntros (k s g') "(%l' & <- & -> & Hl & HR & HQ)".
    wp_use (hwp_list_empty _ _ _ _ _ _ Hh with "Hl") as "Hl". destruct l' as [|x l']; cbn.
    { iApply hwp_ret. iApply hwp_ret. by iApply "HQ". }
    iDestruct "Hl" as "[Hh Hl]". wp_use (hwp_load_node with "Hh") as "Hh". cbn.
    iDestruct "HR" as "[[Hb Hx] HR]". wp_bind. iApply (hwp_list_remove_free head _ _ [] with "[$Hh $Hl] Hb").
    iIntros "Hl". iApply (Hc with "Hx"). iApply hwp_ret. iExists _. iFrame. done.
  - iSplit; [iDestruct "Hl" as "[_ Hl]"; by iApply nodes_owned|]. rw length_fmap. iExists l. by iFrame.
Qed.

(** The first node whose value passes the test [f], which is about what [t] says
    of the values; [R] is what the test looks at. *)
Lemma hwp_list_find {T} head hv hr l (t : list T) equal (f : T -> bool) (R : hProp) g Q :
  0 < head -> length l = length t ->
  (forall k x y Q, l !! k = Some x -> t !! k = Some y -> R -∗ (R -∗ Q (Done (f y)) g) -∗ hwp (equal (held x)) g Q) ->
  dlist head hv hr l -∗ R -∗
  (dlist head hv hr l -∗ R -∗
    (∀ l1 x l2 t1 y t2, ⌜l = l1 ++ x :: l2⌝ -∗ ⌜t = t1 ++ y :: t2⌝ -∗ ⌜length l1 = length t1⌝ -∗
       ⌜Forall (fun y => f y = false) t1⌝ -∗ ⌜f y = true⌝ -∗ Q (Done (Some (place x))) g) ∧
    (⌜Forall (fun y => f y = false) t⌝ -∗ Q (Done None) g)) -∗
  hwp (list_find head equal) g Q.
Proof.
  iIntros (Hh Hlt Hf) "Hl HR HQ". unfold list_find. wp_bind. iApply hwp_non_null; [lia|]. cbn.
  iDestruct "Hl" as "[Hh Hl]". wp_use (hwp_load_node with "Hh") as "Hh". cbn.
  iApply (hwp_walk_bounded _ (fun k a g' => ∃ l1 l2 t1 t2, ⌜l = l1 ++ l2⌝ ∗ ⌜t = t1 ++ t2⌝ ∗
    ⌜length l1 = length t1⌝ ∗ ⌜length l2 = k⌝ ∗ ⌜a = first_of l2 head⌝ ∗ ⌜g' = g⌝ ∗
    ⌜Forall (fun y => f y = false) t1⌝ ∗ dlist head hv hr l ∗ R ∗
    (dlist head hv hr l -∗ R -∗
      (∀ l1 x l2 t1 y t2, ⌜l = l1 ++ x :: l2⌝ -∗ ⌜t = t1 ++ y :: t2⌝ -∗ ⌜length l1 = length t1⌝ -∗
         ⌜Forall (fun y => f y = false) t1⌝ -∗ ⌜f y = true⌝ -∗ Q (Done (Some (place x))) g) ∧
      (⌜Forall (fun y => f y = false) t⌝ -∗ Q (Done None) g)))%I (place <$> l)).
  - iIntros (k a g') "(%l1 & %l2 & %t1 & %t2 & -> & -> & %H12 & <- & -> & -> & %Ht1 & [Hh Hl] & HR & HQ)".
    rw !length_app in Hlt. destruct l2 as [|x l2], t2 as [|y t2]; try (cbn in Hlt; lia); cbn.
    { rw Z.eqb_refl. iApply hwp_ret. iDestruct ("HQ" with "[$Hh $Hl] HR") as "[_ HQ]". iApply "HQ". by rw app_nil_r. }
    rw nodes_app. cbn. iDestruct "Hl" as "(H1 & Hp & Hx & H2)".
    iDestruct (pts_ne with "Hh Hx") as %Hne. assert ((place x ==? head) = false) as -> by (apply Z.eqb_neq; lia).
    wp_use (hwp_load_node with "Hx") as "Hx". cbn. wp_bind. iApply (Hf (length l1) x y with "HR").
    { by rw list_lookup_middle. } { by rw H12 list_lookup_middle. }
    iIntros "HR". iAssert (dlist head hv hr (l1 ++ x :: l2)) with "[Hh H1 Hp Hx H2]" as "Hl".
    { unfold dlist. rw nodes_app. iFrame. }
    destruct (f y) eqn:E; cbn; iApply hwp_ret.
    + iDestruct ("HQ" with "Hl HR") as "[HQ _]". by iApply "HQ".
    + iExists (length l2). iSplit; [done|]. iExists (l1 ++ [x]), l2, (t1 ++ [y]), t2. rw -!app_assoc. cbn [app].
      iFrame. rw !length_app Forall_app. iPureIntro. split_and!; try done; [cbn; lia|by constructor].
  - iSplit; [by iApply nodes_owned|]. rw length_fmap. iExists [], l, [], t. by iFrame.
Qed.

Lemma hwp_list_first head hv hr l g Q :
  0 < head -> dlist head hv hr l -∗ (dlist head hv hr l -∗ Q (Done (option_map place (hd_error l))) g) -∗
  hwp (list_first head) g Q.
Proof.
  iIntros (Hh) "Hl HQ". unfold list_first. wp_bind. iApply hwp_non_null; [lia|]. cbn.
  wp_use (hwp_list_empty _ _ _ _ _ _ Hh with "Hl") as "Hl". destruct l as [|x l]; cbn; [iApply hwp_ret; by iApply "HQ"|].
  iDestruct "Hl" as "[Hh Hl]". wp_use (hwp_load_node with "Hh") as "Hh". iApply hwp_ret. iApply "HQ". iFrame.
Qed.

Lemma hwp_load_head head hv hr l g Q :
  dlist head hv hr l -∗ (dlist head hv hr l -∗ Q (Done (mkListNode hv hr (first_of l head) (last_of head l))) g) -∗
  hwp (load_node head) g Q.
Proof. iIntros "[Hh Hl] HQ". iApply (hwp_load_node with "Hh"). iIntros "Hh". iApply "HQ". iFrame. Qed.

(** A node in the middle of a list is read and counted down in its place. *)
Lemma hwp_load_entry head hv hr l1 x l2 g Q :
  dlist head hv hr (l1 ++ x :: l2) -∗
  (dlist head hv hr (l1 ++ x :: l2) -∗
   Q (Done (mkListNode (held x) (count x) (first_of l2 head) (last_of head l1))) g) -∗
  hwp (load_node (place x)) g Q.
Proof.
  iIntros "Hl HQ". iEval (rw dlist_ring_at) in "Hl". iDestruct "Hl" as "(Hl & Hp & Hx)".
  iApply (hwp_load_node with "Hx"). iIntros "Hx". iApply "HQ". rw dlist_ring_at. iFrame.
Qed.

Lemma hwp_count_entry head hv hr l1 x l2 c g Q :
  dlist head hv hr (l1 ++ x :: l2) -∗
  (dlist head hv hr (l1 ++ mkEntry (place x) (held x) c :: l2) -∗ Q (Done tt) g) -∗
  hwp (set_refcount (place x) c) g Q.
Proof.
  iIntros "Hl HQ". iEval (rw dlist_ring_at) in "Hl". iDestruct "Hl" as "(Hl & Hp & Hx)".
  iApply (hwp_set_refcount with "Hx"). iIntros "Hx". iApply "HQ". rw dlist_ring_at. iFrame.
Qed.
End Lists.
