(* ===== verification/CmMock.v ===== *)
(** * The values of mock functions

    The maps of cmocka.c from names to queues of values: what they hold, as trees
    of a fixed depth, and what adding, taking and freeing values does to one. *)

From S2P Require Import Prelude.
From S2P Require Import CLib.
From S2P Require Import Sys.
From S2P Require Import Sem.
From S2P Require Import HeapLogic.
From S2P Require Import Cmocka.
From S2P Require Import CmBase.
From S2P Require Import CmLists.
From iris.bi Require Import bi.
From iris.proofmode Require Import proofmode.
#[local] Open Scope Z_scope.
#[local] Open Scope cmd_scope.
Import cmocka.

#[local] Abbreviation hProp := (hpropI cell).

(** ** What a map holds

    A queue has values and how often each is to be taken; a map of depth [S n] has
    names, each with a map of depth [n]. *)
Section Trees.
Context {X : Type}.

Fixpoint tree (n : nat) : Type :=
  match n with O => list (X * Z) | S n => list (string * tree n) end.
Definition empty_tree (n : nat) : tree n := match n with O => [] | S n => [] end.
Definition is_empty (n : nat) : tree n -> bool :=
  match n with O => fun q => match q with [] => true | _ => false end
             | S n => fun m => match m with [] => true | _ => false end end.

(** The entry of a name, by [f] of what it has. *)
Fixpoint alter_entry {T} (s : string) (f : T -> T) (m : list (string * T)) : list (string * T) :=
  match m with
  | [] => []
  | (s', t) :: m => if streq s' s then (s', f t) :: m else (s', t) :: alter_entry s f m
  end.
Fixpoint find_entry {T} (s : string) (m : list (string * T)) : option T :=
  match m with [] => None | (s', t) :: m => if streq s' s then Some t else find_entry s m end.
Fixpoint remove_entry {T} (s : string) (m : list (string * T)) : list (string * T) :=
  match m with [] => [] | (s', t) :: m => if streq s' s then m else (s', t) :: remove_entry s m end.

(** A value goes to the end of its queue. *)
Fixpoint add_value (n : nat) : tree n -> list string -> X * Z -> tree n :=
  match n with
  | O => fun q _ v => q ++ [v]
  | S n => fun m names v =>
      match names with
      | [] => m
      | s :: names =>
          match find_entry s m with
          | Some _ => alter_entry s (fun t => add_value n t names v) m
          | None => m ++ [(s, add_value n (empty_tree n) names v)]
          end
      end
  end.

(** The head of a queue is taken: for the last time, or one time of many; a
    negative count is for as often as wanted, and stays once it is -2. *)
Definition take_head (q : list (X * Z)) : list (X * Z) :=
  match q with
  | [] => []
  | (x, c) :: q => if c ==? 1 then q else if -2 <? c then (x, c - 1) :: q else (x, c) :: q
  end.

(** The name that is missing, or the value with its count; and what is left. *)
Fixpoint take_value (n : nat) : tree n -> list string -> (string + X * Z) * tree n :=
  match n with
  | O => fun q _ => (match q with [] => inl "" | v :: _ => inr v end, take_head q)
  | S n => fun m names =>
      match names with
      | [] => (inl "", m)
      | s :: names =>
          match find_entry s m with
          | None => (inl s, m)
          | Some t =>
              let '(r, t') := take_value n t names in
              (r, if is_empty n t' then remove_entry s m else alter_entry s (fun _ => t') m)
          end
      end
  end.

(** No queue is empty below a name. *)
Fixpoint stocked (n : nat) : tree n -> Prop :=
  match n with
  | O => fun _ => True
  | S n => fun m => Forall (fun e => is_empty n e.2 = false /\ stocked n e.2) m
  end.
End Trees.
Arguments tree : clear implicits.

Section Entries.
Context {T : Type}.
Implicit Types m : list (string * T).

Lemma find_middle s m1 s' t m2 :
  Forall (fun y => streq y.1 s = false) m1 -> streq s' s = true -> find_entry s (m1 ++ (s', t) :: m2) = Some t.
Proof. induction 1 as [|[s1 t1] m1 H1 _ IH]; intros E; cbn [find_entry app fst] in *; [by rw E|rw H1; by apply IH]. Qed.
Lemma alter_middle s f m1 s' (t : T) m2 :
  Forall (fun y => streq y.1 s = false) m1 -> streq s' s = true ->
  alter_entry s f (m1 ++ (s', t) :: m2) = m1 ++ (s', f t) :: m2.
Proof. induction 1 as [|[s1 t1] m1 H1 _ IH]; intros E; cbn [alter_entry remove_entry app fst] in *; [by rw E|rw H1; by rw IH]. Qed.
Lemma remove_middle s m1 s' (t : T) m2 :
  Forall (fun y => streq y.1 s = false) m1 -> streq s' s = true -> remove_entry s (m1 ++ (s', t) :: m2) = m1 ++ m2.
Proof. induction 1 as [|[s1 t1] m1 H1 _ IH]; intros E; cbn [alter_entry remove_entry app fst] in *; [by rw E|rw H1; by rw IH]. Qed.
Lemma find_none s m : Forall (fun y => streq y.1 s = false) m -> find_entry s m = None.
Proof. induction 1 as [|[s1 t1] m H1 _ IH]; [done|]. cbn [find_entry fst] in *. by rw H1. Qed.
End Entries.

Section Stocked.
Context {X : Type}.

Lemma add_not_empty n (t : tree X n) names v : length names = n -> is_empty n (add_value n t names v) = false.
Proof.
  destruct n as [|n]; [by destruct t|]. destruct names as [|s names]; [done|]. intros _. cbn.
  destruct (find_entry s t) eqn:E; [|by destruct t]. destruct t as [|[s' t'] m]; [done|]. cbn in *. by destruct (streq s' s).
Qed.

Lemma alter_forall {T} (Q : string * T -> Prop) s f (m : list (string * T)) :
  Forall Q m -> (forall s' t, find_entry s m = Some t -> Q (s', t) -> Q (s', f t)) -> Forall Q (alter_entry s f m).
Proof.
  induction 1 as [|[s' t] m Ht Hm IH]; intros Hf; [by constructor|]. cbn [alter_entry find_entry] in *.
  destruct (streq s' s) eqn:E; constructor; auto.
Qed.
Lemma remove_forall {T} (Q : string * T -> Prop) s (m : list (string * T)) : Forall Q m -> Forall Q (remove_entry s m).
Proof. induction 1 as [|[s' t] m Ht Hm IH]; [by constructor|]. cbn. destruct (streq s' s); [done|by constructor]. Qed.
Lemma find_forall {T} (Q : string * T -> Prop) s t (m : list (string * T)) :
  Forall Q m -> find_entry s m = Some t -> exists s', Q (s', t).
Proof.
  induction 1 as [|[s' t'] m Ht Hm IH]; [done|]. cbn [find_entry]. destruct (streq s' s); [|done].
  intros [= ->]. by exists s'.
Qed.

Lemma stocked_empty n : stocked n (empty_tree (X := X) n).
Proof. by destruct n; constructor. Qed.

Lemma stocked_add n (t : tree X n) names v : length names = n -> stocked n t -> stocked n (add_value n t names v).
Proof.
  revert t names. induction n as [|n IH]; intros t [|s names] Hl Ht; try done. injection Hl as Hl. cbn.
  destruct (find_entry s t) as [sub|] eqn:E.
  - apply alter_forall; [done|]. intros s' t' _ [_ Hs]. split; [by apply add_not_empty|by apply IH].
  - apply Forall_app. split; [done|]. constructor; [|done]. split; [by apply add_not_empty|]. apply IH; [done|apply stocked_empty].
Qed.

Lemma stocked_take n (t : tree X n) names r t' : stocked n t -> take_value n t names = (r, t') -> stocked n t'.
Proof.
  revert t names r t'. induction n as [|n IH]; intros t names r t'; [done|].
  cbn [take_value]. intros Ht. destruct names as [|s names]; [by intros [= _ <-]|].
  destruct (find_entry s t) as [sub|] eqn:E; [|by intros [= _ <-]].
  destruct (take_value n sub names) as [r' sub'] eqn:Es. intros [= _ <-].
  destruct (find_forall _ _ _ _ Ht E) as (s' & _ & Hsub). cbn [snd] in Hsub. specialize (IH _ _ _ _ Hsub Es).
  destruct (is_empty n sub') eqn:Ee; [by apply remove_forall|]. by apply alter_forall.
Qed.

(** A value that is there to be taken, and what is left. *)
Definition obtain (n : nat) (t : tree X n) (names : list string) : option X * tree X n :=
  match take_value n t names with
  | (inl _, _) => (None, t)
  | (inr (x, c), t') => (if c ==? 0 then None else Some x, t')
  end.

Lemma stocked_taken n (t : tree X n) names r t' : stocked n t -> obtain n t names = (r, t') -> stocked n t'.
Proof.
  unfold obtain. destruct (take_value n t names) as [[s|[x c]] t1] eqn:E; intros Ht [= _ <-]; [done|].
  by eapply stocked_take.
Qed.
End Stocked.

(** ** Its ownership *)
Section Owned.
Context {X : Type} (P : Z -> X -> hProp).

Definition value_entry (e : entry) (v : X * Z) : hProp :=
  (⌜0 < held e⌝ ∗ ⌜count e = v.2⌝ ∗ node_block e ∗ P (held e) v.1)%I.
(** A name's entry, with [T] for what it leads to. *)
Definition name_entry {T} (owned : Z -> T -> hProp) (e : entry) (s : string * T) : hProp :=
  (⌜0 < held e⌝ ∗ ⌜count e = 1⌝ ∗ node_block e ∗ pts (held e) (CSymbolMapValue s.1) ∗
   block_of (held e) [0; symbol_values_list_head] ∗ owned (held e + symbol_values_list_head) s.2)%I.

Fixpoint owned_tree (n : nat) : Z -> tree X n -> hProp :=
  match n with
  | O => fun h q => ∃ l, dlist h 0 1 l ∗ [∗ list] e; v ∈ l; q, value_entry e v
  | S n => fun h m => ∃ l, dlist h 0 1 l ∗ [∗ list] e; s ∈ l; m, name_entry (owned_tree n) e s
  end%I.
End Owned.

(** ** The operations *)
Section Operations.
Context `{CText} `{Env} {X : Type} (P : Z -> X -> hProp).

Lemma hwp_symbol_names_match {T} (owned : Z -> T -> hProp) s l m g k e y (Q : outcome bool -> globals -> hProp) :
  l !! k = Some e -> m !! k = Some y ->
  ([∗ list] e; s ∈ l; m, name_entry owned e s) -∗
  (([∗ list] e; s ∈ l; m, name_entry owned e s) -∗ Q (Done (streq y.1 s)) g) -∗
  hwp (symbol_names_match s (held e)) g Q.
Proof.
  iIntros (Hl Hm) "Hn HQ". iDestruct (big_sepL2_lookup_acc _ _ _ _ _ _ Hl Hm with "Hn") as "[He Hn]".
  iDestruct "He" as "(Hp & Hc & Hb & Hs & He)". unfold symbol_names_match, load_symbol_name.
  wp_bind. wp_use (hwp_load with "Hs") as "Hs". iApply hwp_ret. iApply hwp_ret. iApply "HQ". iApply "Hn". iFrame.
Qed.

Lemma owned_empty n h : dlist h 0 1 [] ⊢ owned_tree P n h (empty_tree n).
Proof. destruct n; iIntros "Hl"; iExists []; by iFrame. Qed.

Lemma owned_names n h (m : tree X (S n)) :
  owned_tree P (S n) h m ⊣⊢ (∃ l, dlist h 0 1 l ∗ [∗ list] e; s ∈ l; m, name_entry (owned_tree P n) e s).
Proof. done. Qed.

Lemma hwp_new_symbol n h l (m : tree X (S n)) s g (Q : outcome Z -> globals -> hProp) :
  0 < h -> dlist h 0 1 l -∗ ([∗ list] e; s ∈ l; m, name_entry (owned_tree P n) e s) -∗
  (∀ e, dlist h 0 1 (l ++ [e]) -∗
     ([∗ list] e; s ∈ (l ++ [e]); (m ++ [(s, empty_tree n)]), name_entry (owned_tree P n) e s) -∗ Q (Done (place e)) g) -∗
  hwp (p <- malloc [(0, CSymbolMapValue s); (symbol_values_list_head, CNode (mkListNode 0 0 0 0))] ;;
       list_initialize (p + symbol_values_list_head) ;; list_add_value h p 1) g Q.
Proof.
  iIntros (Hh) "Hl Hm HQ". wp_bind. iApply hwp_malloc.
  { apply NoDup_cons. split; [|apply NoDup_singleton]. by intros Hx%list_elem_of_singleton. }
  { by repeat constructor. }
  iIntros (p Hp Hmod) "Hb (Hs & Hn & _)". cbn [fst snd]. rw Z.add_0_r.
  wp_use (hwp_list_initialize with "Hn") as "Hn". rw owned_empty.
  iApply (hwp_list_add_value with "Hl"); [done..|]. iIntros (q Hq) "Hqb Hl". iApply ("HQ" with "Hl").
  iFrame. cbn. by iFrame.
Qed.

Lemma hwp_add_to_queue h (q : tree X 0) v x c g (Q : outcome unit -> globals -> hProp) :
  0 < h -> 0 < v -> owned_tree P 0 h q -∗ P v x -∗
  (owned_tree P 0 h (q ++ [(x, c)]) -∗ Q (Done tt) g) -∗ hwp (list_add_value h v c ;; ret tt) g Q.
Proof.
  iIntros (Hh Hv) "(%l & Hl & Hq) Hx HQ". wp_bind. iApply (hwp_list_add_value with "Hl"); [done..|].
  iIntros (p Hp) "Hb Hl". iApply hwp_ret. iApply "HQ". iExists _. iFrame. cbn. by iFrame.
Qed.

Lemma hwp_add_symbol_value n h (t : tree X n) names v x c g (Q : outcome unit -> globals -> hProp) :
  0 < h -> 0 < v -> n <> O -> length names = n ->
  owned_tree P n h t -∗ P v x -∗ (owned_tree P n h (add_value n t names (x, c)) -∗ Q (Done tt) g) -∗
  hwp (add_symbol_value h names n v c) g Q.
Proof.
  intros Hh Hv. revert h t names Q Hh.
  induction n as [|n IH]; intros h t [|s names] Q Hh Hn Hlen; try done. cbn [length] in Hlen. injection Hlen as Hlen.
  assert (forall child (sub : tree X n) (Q : outcome unit -> globals -> hProp), 0 < child ->
    owned_tree P n child sub -∗ P v x -∗ (owned_tree P n child (add_value n sub names (x, c)) -∗ Q (Done tt) g) -∗
    hwp (if (n =? 0)%nat then list_add_value child v c ;; ret tt else add_symbol_value child names n v c) g Q) as Hsub.
  { intros child sub Q' Hc. destruct n as [|n]; [by apply hwp_add_to_queue|]. apply IH; [done|lia|done]. }
  iIntros "(%l & Hl & Hm) Hx HQ". iDestruct (big_sepL2_length with "Hm") as %Hlt.
  cbn [add_symbol_value]. wp_bind. iApply hwp_non_null; [lia|]. cbn beta iota.
  wp_bind. iApply hwp_assert; [done|]. cbn beta iota. wp_bind.
  iApply (hwp_list_find _ _ _ l t _ (fun y => streq y.1 s) with "Hl Hm"); [done|done|by intros *; apply hwp_symbol_names_match|].
  iIntros "Hl Hm". iSplit.
  - iIntros (l1 e l2 t1 [s' sub] t2 -> -> Hl12 Ht1 Hs). cbn [fst] in Hs. wp_bind. iApply hwp_ret. cbn beta iota.
    wp_bind. iApply (hwp_load_entry with "Hl"). iIntros "Hl". cbn beta iota zeta. cbn [cmocka.value].
    iDestruct (big_sepL2_app_inv with "Hm") as "[H1 [He H2]]"; [by left|].
    iDestruct "He" as "(%Hp & Hc & Hb & Hs & Hbs & He)". iApply (Hsub with "He Hx"); [unfold symbol_values_list_head; lia|].
    iIntros "He". iApply "HQ". cbn. rw find_middle // alter_middle //. iExists _. iFrame. by iFrame.
  - iIntros (Ht). wp_bind. iApply (hwp_new_symbol with "Hl Hm"); [done|]. iIntros (e) "Hl Hm".
    wp_bind. iApply (hwp_load_entry with "Hl"). iIntros "Hl". cbn beta iota zeta. cbn [cmocka.value].
    iDestruct (big_sepL2_app_inv with "Hm") as "[H1 [He _]]"; [by left|].
    iDestruct "He" as "(%Hp & Hc & Hb & Hs & Hbs & He)". iApply (Hsub with "He Hx"); [unfold symbol_values_list_head; lia|].
    iIntros "He". iApply "HQ". cbn. rw find_none //. iExists _. iFrame "Hl". iApply (big_sepL2_app with "H1"). cbn. by iFrame.
Qed.

(** What is left of the map at [h] once a value [x] at [v] that counted [c] has
    been taken: the value itself is the taker's when it was the last time. *)
Definition rest_of (n : nat) (h : Z) (t : tree X n) (v : Z) (x : X) (c : Z) : hProp :=
  if c ==? 1 then owned_tree P n h t else (P v x -∗ owned_tree P n h t)%I.
(** The same, with the nodes of its list to be looked at. *)
Definition taken (n : nat) (h : Z) (t : tree X n) (v : Z) (x : X) (c : Z) : hProp :=
  (∃ l, ⌜bool_decide (l = []) = is_empty n t⌝ ∗ dlist h 0 1 l ∗ (dlist h 0 1 l -∗ rest_of n h t v x c))%I.

Lemma taken_rest n h t v x c : taken n h t v x c ⊢ rest_of n h t v x c.
Proof. iIntros "(%l & _ & Hl & H)". by iApply "H". Qed.

Lemma hwp_take_from_queue h (q : tree X 0) x c g (Q : outcome (Z * Z) -> globals -> hProp) :
  0 < h -> owned_tree P 0 h ((x, c) :: q) -∗
  (∀ v, ⌜0 < v⌝ -∗ P v x -∗ taken 0 h (take_head ((x, c) :: q)) v x c -∗ Q (Done (c, v)) g) -∗
  hwp (value_node <- list_first h ;;
       assert_true (bool_decide (is_Some value_node)) "return_value" 833 ;;
       match value_node with
       | None => faults
       | Some value_node =>
           v <- load_node value_node ;;
           (if refcount v - 1 ==? 0 then list_remove_free value_node None
            else when (WILL_RETURN_ONCE <? refcount v) (set_refcount value_node (refcount v - 1))) ;;
           ret (refcount v, cmocka.value v)
       end) g Q.
Proof.
  iIntros (Hh) "(%l & Hl & Hq) HQ". iDestruct (big_sepL2_cons_inv_r with "Hq") as (e l' ->) "[(%Hp & %Hc & Hb & Hv) Hq]".
  cbn in Hc. wp_use (hwp_list_first _ _ _ _ _ _ Hh with "Hl") as "Hl". cbn [hd_error option_map].
  wp_bind. iApply hwp_assert; [done|]. cbn beta iota. wp_bind. iApply (hwp_load_entry _ _ _ [] with "Hl").
  iIntros "Hl". cbn beta iota. cbn [refcount cmocka.value app]. rw Hc. wp_bind.
  assert ((c - 1 ==? 0) = (c ==? 1)) as -> by (destruct (Z.eqb_spec (c - 1) 0), (Z.eqb_spec c 1); lia).
  unfold taken, rest_of, take_head. destruct (c ==? 1).
  - iApply (hwp_list_remove_free _ _ _ [] with "Hl Hb"). iIntros "Hl". iApply hwp_ret. iApply hwp_ret.
    iApply ("HQ" with "[//] Hv"). iDestruct (big_sepL2_length with "Hq") as %Hlen. iExists l'. iFrame "Hl".
    iSplit; [by destruct l', q|]. iIntros "Hl". iExists l'. by iFrame.
  - unfold when, WILL_RETURN_ONCE. destruct (-2 <? c).
    + iApply (hwp_count_entry _ _ _ [] with "Hl"). iIntros "Hl". iApply hwp_ret. iApply ("HQ" with "[//] Hv").
      iExists _. iFrame "Hl". iSplit; [done|]. iIntros "Hl Hv". iExists _. iFrame "Hl". cbn. by iFrame.
    + iApply hwp_ret. iApply hwp_ret. iApply ("HQ" with "[//] Hv").
      iExists (e :: l'). iFrame "Hl". iSplit; [done|]. iIntros "Hl Hv". iExists _. iFrame "Hl". cbn. by iFrame.
Qed.

(** The last value of a name gone, the name goes. *)
Lemma hwp_free_no_values v s g (Q : outcome unit -> globals -> hProp) :
  0 < v -> pts v (CSymbolMapValue s) -∗ block_of v [0; symbol_values_list_head] -∗
  dlist (v + symbol_values_list_head) 0 1 [] -∗ Q (Done tt) g -∗ hwp (free_symbol_map_value 0 v) g Q.
Proof.
  iIntros (Hv) "Hs Hb Hl HQ". cbn [free_symbol_map_value]. wp_bind. iApply hwp_non_null; [lia|]. cbn beta iota. wp_bind.
  iApply (hwp_list_free _ _ _ _ _ (fun _ => False)%I with "Hl").
  { unfold symbol_values_list_head. lia. } { by iIntros (x Q') "[]". } { done. }
  iIntros "[Hn _]". iApply (hwp_free with "Hb [Hs Hn] HQ"); [lia|]. cbn. rw Z.add_0_r. iSplitL "Hs"; [by iExists _|].
  iSplit; [by iExists _|done].
Qed.

Definition missing (s : string) : string := format "No entries for symbol %s.\n" [Str s].

(** What the taker of a value goes on with. *)
Definition take_post (n : nat) (h : Z) (t : tree X n) (names : list string) (g : globals)
    (Q : outcome (Z * Z) -> globals -> hProp) : hProp :=
  match take_value n t names with
  | (inl s, _) => owned_tree P n h t -∗ Q (Done (0, 0)) (with_text (missing s) g)
  | (inr (x, c), t') => ∀ v, ⌜0 < v⌝ -∗ P v x -∗ taken n h t' v x c -∗ Q (Done (c, v)) g
  end%I.

(** The entry of a name after a value was taken below it. *)
Lemma hwp_retire n h (m1 m2 : tree X (S n)) s t' l1 e l2 v x c r g (Q : outcome (Z * Z) -> globals -> hProp) :
  0 < h -> 0 < held e -> count e = 1 ->
  dlist h 0 1 (l1 ++ e :: l2) -∗ ([∗ list] e; s ∈ l1; m1, name_entry (owned_tree P n) e s) -∗
  ([∗ list] e; s ∈ l2; m2, name_entry (owned_tree P n) e s) -∗
  node_block e -∗ pts (held e) (CSymbolMapValue s) -∗ block_of (held e) [0; symbol_values_list_head] -∗
  taken n (held e + symbol_values_list_head) t' v x c -∗
  (taken (S n) h (if is_empty n t' then m1 ++ m2 else m1 ++ (s, t') :: m2) v x c -∗ Q (Done r) g) -∗
  hwp (empty <- list_empty (held e + symbol_values_list_head) ;;
       when empty (list_remove_free (place e) (Some (free_symbol_map_value 0))) ;; ret r) g Q.
Proof.
  iIntros (Hh He Hc) "Hl H1 H2 Hb Hs Hbs (%l & %Hlt & Hc & Hrest) HQ".
  assert (0 < held e + symbol_values_list_head) as Hh' by (unfold symbol_values_list_head; lia).
  iDestruct (big_sepL2_length with "H1") as %H1. iDestruct (big_sepL2_length with "H2") as %H2.
  wp_use (hwp_list_empty _ _ _ _ _ _ Hh' with "Hc") as "Hc". rw Hlt. wp_bind. destruct (is_empty n t') eqn:E; unfold when.
  - apply bool_decide_eq_true in Hlt as ->. iApply (hwp_list_remove_free with "Hl Hb"). iIntros "Hl".
    iApply (hwp_free_no_values with "Hs Hbs Hc"); [done|]. iApply hwp_ret. iApply "HQ". iExists _. iFrame "Hl".
    iSplit. { iPureIntro. destruct l1, m1; try done. destruct l2, m2; done. }
    unfold rest_of. iIntros "Hl". iAssert (owned_tree P (S n) h (m1 ++ m2)) with "[Hl H1 H2]" as "Ht".
    { iExists _. iFrame "Hl". iApply (big_sepL2_app with "H1 H2"). }
    destruct (c ==? 1); [done|]. iIntros "_". done.
  - iApply hwp_ret. iApply hwp_ret. iApply "HQ". iExists _. iFrame "Hl". iSplit; [by destruct l1, m1|]. iIntros "Hl".
    iDestruct ("Hrest" with "Hc") as "Hrest". unfold rest_of.
    iAssert (owned_tree P n (held e + symbol_values_list_head) t' -∗ owned_tree P (S n) h (m1 ++ (s, t') :: m2))%I
      with "[Hl H1 H2 Hb Hs Hbs]" as "Ht".
    { iIntros "Ht". iExists _. iFrame "Hl". iApply (big_sepL2_app with "H1"). cbn. iFrame. by iFrame. }
    destruct (c ==? 1); [by iApply "Ht"|]. iIntros "Hv". iApply "Ht". by iApply "Hrest".
Qed.

Lemma owned_open n h (t : tree X n) :
  owned_tree P n h t ⊢ ∃ l, ⌜bool_decide (l = []) = is_empty n t⌝ ∗ dlist h 0 1 l ∗ (dlist h 0 1 l -∗ owned_tree P n h t).
Proof.
  destruct n as [|n]; iIntros "(%l & Hl & Hm)"; iDestruct (big_sepL2_length with "Hm") as %Hlt; iExists l; iFrame "Hl";
    (iSplit; [by destruct l, t|]); iIntros "Hl"; iExists l; iFrame.
Qed.

Lemma hwp_get_symbol_value n h (t : tree X n) names g (Q : outcome (Z * Z) -> globals -> hProp) :
  0 < h -> n <> O -> length names = n -> stocked n t ->
  owned_tree P n h t -∗ take_post n h t names g Q -∗ hwp (get_symbol_value h names n) g Q.
Proof.
  revert h t names Q.
  induction n as [|n IH]; intros h t [|s names] Q Hh Hn Hlen Hst; try done. cbn [length] in Hlen. injection Hlen as Hlen.
  assert (forall child (sub : tree X n) Q, 0 < child -> is_empty n sub = false -> stocked n sub ->
    owned_tree P n child sub -∗ take_post n child sub names g Q -∗
    hwp (if (n =? 0)%nat then
           value_node <- list_first child ;;
           assert_true (bool_decide (is_Some value_node)) "return_value" 833 ;;
           match value_node with
           | None => faults
           | Some value_node =>
               v <- load_node value_node ;;
               (if refcount v - 1 ==? 0 then list_remove_free value_node None
                else when (WILL_RETURN_ONCE <? refcount v) (set_refcount value_node (refcount v - 1))) ;;
               ret (refcount v, cmocka.value v)
           end
         else get_symbol_value child names n) g Q) as Hsub.
  { intros child sub Q' Hc He Hs. destruct n as [|n]; [|by apply IH].
    destruct sub as [|[x c] q]; [done|]. by apply hwp_take_from_queue. }
  iIntros "(%l & Hl & Hm) HQ". iDestruct (big_sepL2_length with "Hm") as %Hlt.
  cbn [get_symbol_value]. wp_bind. iApply hwp_non_null; [lia|]. cbn beta iota.
  wp_bind. iApply hwp_assert; [done|]. cbn beta iota. wp_bind.
  iApply (hwp_list_find _ _ _ l t _ (fun y => streq y.1 s) with "Hl Hm"); [done|done|by intros *; apply hwp_symbol_names_match|].
  iIntros "Hl Hm". iSplit.
  - iIntros (l1 e l2 t1 [s' sub] t2 -> -> Hl12 Ht1 Hs). cbn [fst] in Hs. unfold take_post. cbn [take_value].
    apply Forall_app in Hst as [_ [[Hne Hst] _]%Forall_cons]. cbn [snd] in Hne, Hst.
    rw find_middle //.
    iDestruct (big_sepL2_app_inv with "Hm") as "[H1 [He H2]]"; [by left|].
    iDestruct "He" as "(%Hp & %Hc & Hb & Hs & Hbs & He)".
    assert (0 < held e + symbol_values_list_head) as Hh' by (unfold symbol_values_list_head; lia).
    iAssert (⌜0 < place e⌝)%I as %Hpl. { rw dlist_ring_at. by iDestruct "Hl" as "(_ & % & _)". }
    wp_bind. iApply hwp_non_null; [lia|]. cbn beta iota. wp_bind. iApply (hwp_load_entry with "Hl").
    iIntros "Hl". cbn beta iota zeta. cbn [cmocka.value]. wp_bind. iApply hwp_non_null; [lia|]. cbn beta iota.
    wp_bind. iApply (Hsub with "He"); [done..|]. unfold take_post. cbn [snd].
    destruct (take_value n sub names) as [[s0|[x c]] t'] eqn:E.
    + iIntros "He". iDestruct (owned_open with "He") as "(%lc & %Hlc & Hlc & He)".
      wp_use (hwp_list_empty _ _ _ _ _ _ Hh' with "Hlc") as "Hlc". rw Hlc Hne. wp_bind. iApply hwp_ret. iApply hwp_ret.
      iApply "HQ". iDestruct ("He" with "Hlc") as "He". iExists _. iFrame "Hl". iApply (big_sepL2_app with "H1").
      cbn. iFrame. by iFrame.
    + iIntros (v Hv) "Hv Ht". iApply (hwp_retire with "Hl H1 H2 Hb Hs Hbs Ht"); [done..|].
      iIntros "Ht". rw alter_middle // remove_middle //. iApply ("HQ" with "[//] Hv Ht").
  - iIntros (Ht). unfold take_post. cbn [take_value]. rw find_none //. wp_bind. iApply hwp_cm_print_error. iApply hwp_ret.
    iApply "HQ". iExists _. iFrame.
Qed.

(** A value is had, or there is none. *)
Lemma hwp_take n h (t : tree X n) names g (Q : outcome (Z * Z) -> globals -> hProp) :
  0 < h -> n <> O -> length names = n -> stocked n t ->
  owned_tree P n h t -∗
  (∀ v x c t', ⌜obtain n t names = (Some x, t')⌝ -∗ ⌜0 < v⌝ -∗ ⌜c <> 0⌝ -∗ P v x -∗ rest_of n h t' v x c -∗ Q (Done (c, v)) g) ∧
  (∀ v t' g', ⌜obtain n t names = (None, t')⌝ -∗ ⌜steady g g'⌝ -∗ owned_tree P n h t' -∗ Q (Done (0, v)) g') -∗
  hwp (get_symbol_value h names n) g Q.
Proof.
  iIntros (Hh Hn Hl Hs) "Ht HQ". iApply (hwp_get_symbol_value with "Ht"); [done..|]. unfold take_post, obtain.
  destruct (take_value n t names) as [[s|[x c]] t'].
  - iIntros "Ht". iDestruct "HQ" as "[_ HQ]". iApply ("HQ" with "[//] [%] Ht"). auto.
  - iIntros (v Hv) "Hv Ht". rw taken_rest. destruct (Z.eqb_spec c 0) as [->|Hc].
    + iDestruct "HQ" as "[_ HQ]". iApply ("HQ" with "[//] [//] [Ht Hv]"). unfold rest_of. by iApply "Ht".
    + iDestruct "HQ" as "[HQ _]". by iApply ("HQ" with "[//] [//] [//] Hv Ht").
Qed.
End Operations.
