(* ===== verification/CmOps.v ===== *)
(** * What a test asks of the framework

    The values and expectations a test sets up are an abstract state; the calls of
    cmocka.c that a test makes are specified on it. *)

From Stdlib Require Import SpecFloat.
From S2P Require Import Prelude.
From S2P Require Import CLib.
From S2P Require Import Sys.
From S2P Require Import Sem.
From S2P Require Import HeapLogic.
From S2P Require Import Cmocka.
From S2P Require Import CmBase.
From S2P Require Import CmLists.
From S2P Require Import CmMock.
From iris.bi Require Import bi.
From iris.proofmode Require Import proofmode.
#[local] Open Scope Z_scope.
#[local] Open Scope cmd_scope.
Import cmocka.

#[local] Abbreviation hProp := (hpropI cell).

(** ** The abstract state *)

(** An expected parameter. *)
Inductive expectation :=
| Value (v : Z) | NotValue (v : Z) | InRange (minimum maximum : Z) | NotInRange (minimum maximum : Z)
| InSet (set : list Z) | NotInSet (set : list Z) | AnyValue.

Definition accepts (e : expectation) (value : Z) : bool :=
  match e with
  | Value v => value ==? v
  | NotValue v => value !=? v
  | InRange a b => (a <=? value) && (value <=? b)
  | NotInRange a b => (value <? a) || (b <? value)
  | InSet s => existsb (fun v => v ==? value) s
  | NotInSet s => negb (existsb (fun v => v ==? value) s)
  | AnyValue => true
  end.

(** The values to return, by function; the parameters to check, by function and
    name; the calls to come. *)
Record mocks := mkMocks { results : tree Z 1; params : tree expectation 2; calls : tree string 0 }.
Definition no_mocks : mocks := mkMocks [] [] [].

(** ** Its ownership *)
Definition result_at (v x : Z) : hProp :=
  (∃ location, pts v (CSymbolValue (mkSymbolValue location x)) ∗ block_of v [0])%I.

Definition kind_of (e : expectation) : CheckParameterValue :=
  match e with
  | Value _ => CheckValue | NotValue _ => CheckNotValue
  | InRange _ _ => CheckInRange | NotInRange _ _ => CheckNotInRange
  | InSet _ => CheckInSet | NotInSet _ => CheckNotInSet | AnyValue => CheckAny
  end.
(** The data of a check at [v]: itself, or what follows it. *)
Definition data_of (e : expectation) (v : Z) : Z :=
  match e with Value n | NotValue n => n | AnyValue => 0 | _ => v end.
Definition extra_of (e : expectation) : list (Z * cell) :=
  match e with
  | InRange a b | NotInRange a b => [(sizeof_CheckParameterEvent, CCheckIntegerRange a b)]
  | InSet s | NotInSet s => [(sizeof_CheckParameterEvent, CCheckIntegerSet s)]
  | Value _ | NotValue _ | AnyValue => []
  end.
Definition expectation_at (v : Z) (x : expectation) : hProp :=
  (∃ location s, pts v (CCheckParameterEvent (mkCheck location s (kind_of x) (data_of x v))) ∗
    ([∗ list] c ∈ extra_of x, pts (v + c.1) c.2) ∗ block_of v (0 :: (extra_of x).*1))%I.

Definition call_at (v : Z) (f : string) : hProp :=
  (∃ location, pts v (CFuncOrderingValue (mkFuncOrdering location f)) ∗ block_of v [0])%I.

Definition owned_results (t : tree Z 1) : hProp :=
  (⌜stocked 1 t⌝ ∗ owned_tree result_at 1 global_function_result_map_head t)%I.
Definition owned_params (t : tree expectation 2) : hProp :=
  (⌜stocked 2 t⌝ ∗ owned_tree expectation_at 2 global_function_parameter_map_head t)%I.
Definition owned_calls (t : tree string 0) : hProp := owned_tree call_at 0 global_call_ordering_head t.
Definition owned_mocks (m : mocks) : hProp :=
  (owned_results (results m) ∗ owned_params (params m) ∗ owned_calls (calls m))%I.

(** ** Values of mock functions *)
Section Operations.
Context `{CText} `{Env} (Habort : getenv "CMOCKA_TEST_ABORT" = None).

(** The test goes on, or fails here. *)
Definition test_post {A} (passed : option A) (g : globals) (Q : outcome A -> globals -> hProp) : hProp :=
  (∀ g', ⌜steady g g'⌝ -∗ Q (match passed with Some a => Done a | None => LongJmp 1 end) g')%I.

Lemma hwp_assertion (b : bool) e l g (Q : outcome unit -> globals -> hProp) :
  global_running_test g <> 0 ->
  test_post (if b then Some tt else None) g Q ⊢ hwp (assert_true b e l) g Q.
Proof.
  iIntros (Hr) "HQ". destruct b; [iApply hwp_assert; [done|]; iApply "HQ"; auto|].
  unfold assert_true, _assert_true, when. cbn. wp_bind. iApply hwp_cm_print_error.
  iApply hwp_fail; [done|by eauto|]. iIntros (g' Hg). iApply "HQ". auto.
Qed.

Lemma hwp_malloc_cell c g (Q : outcome Z -> globals -> hProp) :
  (∀ p, ⌜0 < p⌝ -∗ pts p c -∗ block_of p [0] -∗ Q (Done p) g) ⊢ hwp (malloc [(0, c)]) g Q.
Proof.
  iIntros "HQ". iApply hwp_malloc; [by apply NoDup_singleton|by repeat constructor|].
  iIntros (p Hp Hm) "Hb [Hc _]". cbn. rw Z.add_0_r. iApply ("HQ" with "[//] Hc Hb").
Qed.

Lemma hwp_will_return f file line v c t g (Q : outcome unit -> globals -> hProp) :
  global_running_test g <> 0 ->
  owned_results t -∗
  (owned_results (if c ==? 0 then t else add_value 1 t [f] (v, c)) -∗
   test_post (if c ==? 0 then None else Some tt) g Q) -∗
  hwp (_will_return f file line v c) g Q.
Proof.
  iIntros (Hr) "[%Ht Ho] HQ". unfold _will_return. wp_bind. iApply hwp_malloc_cell. iIntros (p Hp) "Hv Hb".
  wp_bind. iApply hwp_assertion; [done|]. iIntros (g' Hg). destruct (c ==? 0); cbn beta iota.
  { by iApply ("HQ" with "[$Ho]"). }
  wp_use (hwp_store with "Hv") as "Hv". iApply (hwp_add_symbol_value _ _ _ _ _ _ v with "Ho [Hv Hb]"); [done..|by iExists _; iFrame|].
  iIntros "Ho". iApply ("HQ" with "[Ho]"); [|done]. iSplit; [iPureIntro; by apply stocked_add|done].
Qed.

Lemma hwp_mock f file line t g (Q : outcome Z -> globals -> hProp) :
  global_running_test g <> 0 ->
  owned_results t -∗ (owned_results (obtain 1 t [f]).2 -∗ test_post (obtain 1 t [f]).1 g Q) -∗ hwp (_mock f file line) g Q.
Proof.
  iIntros (Hr) "[%Ht Ho] HQ". unfold _mock. wp_bind. iApply (hwp_take with "Ho"); [done..|]. iSplit.
  - iIntros (v x c t' E Hv Hc) "Hv Ho". rw E. cbn beta iota zeta. cbn [fst snd].
    assert ((c !=? 0) = true) as -> by (by apply negb_true_iff, Z.eqb_neq).
    iDestruct "Hv" as "(%location & Hv & Hb)". wp_use (hwp_load with "Hv") as "Hv". wp_bind. iApply hwp_modify.
    wp_bind. unfold when, rest_of. destruct (c ==? 1).
    + iApply (hwp_free with "Hb [Hv]"); [lia|cbn; rw Z.add_0_r; iSplit; [by iExists _|done]|]. iApply hwp_ret.
      iApply ("HQ" with "[Ho]"); [|auto]. iFrame "Ho". iPureIntro. by eapply stocked_taken.
    + iApply hwp_ret. iApply hwp_ret. iApply ("HQ" with "[Ho Hv Hb]"); [|auto].
      iSplit; [iPureIntro; by eapply stocked_taken|]. iApply "Ho". iExists _. iFrame.
  - iIntros (v t' g' E Hg) "Ho". rw E. cbn beta iota zeta. cbn [fst snd].
    iSpecialize ("HQ" with "[Ho]"); [iFrame "Ho"; iPureIntro; by eapply stocked_taken|].
    wp_bind. iApply hwp_cm_print_error. wp_bind. iApply hwp_get. cbn beta iota zeta. wp_bind.
    destruct (source_location_is_set _); iApply hwp_cm_print_error; wp_bind;
      (iApply hwp_exit_test; [done|by eauto|]); iApply "HQ"; auto.
Qed.

(** ** Expected parameters *)

(** Which function sets an expectation up. *)
Definition expect (x : expectation) (f parameter file : string) (line c : Z) : M unit :=
  match x with
  | Value v => _expect_value f parameter file line v c
  | NotValue v => _expect_not_value f parameter file line v c
  | InRange a b => _expect_in_range f parameter file line a b c
  | NotInRange a b => _expect_not_in_range f parameter file line a b c
  | InSet s => _expect_in_set f parameter file line s c
  | NotInSet s => _expect_not_in_set f parameter file line s c
  | AnyValue => _expect_any f parameter file line c
  end.
(** A set must have values. *)
Definition expectable (x : expectation) : bool :=
  match x with InSet s | NotInSet s => negb (length s =? 0)%nat | _ => true end.

Lemma hwp_expect_check x v e f p file line c t g (Q : outcome unit -> globals -> hProp) :
  0 < v -> owned_params t -∗ pts v (CCheckParameterEvent e) -∗ ([∗ list] c ∈ extra_of x, pts (v + c.1) c.2) -∗
  block_of v (0 :: (extra_of x).*1) -∗ (owned_params (add_value 2 t [f; p] (x, c)) -∗ test_post (Some tt) g Q) -∗
  hwp (store v (CCheckParameterEvent (mkCheck (set_source_location file line) p (kind_of x) (data_of x v))) ;;
       add_symbol_value global_function_parameter_map_head [f; p] 2 v c) g Q.
Proof.
  iIntros (Hv) "[%Ht Ho] He Hx Hb HQ". wp_use (hwp_store with "He") as "He".
  iApply (hwp_add_symbol_value _ _ _ _ _ _ x with "Ho [He Hx Hb]"); [done..|by iExists _, _; iFrame|].
  iIntros "Ho". iApply ("HQ" with "[Ho]"); [|done]. iSplit; [iPureIntro; by apply stocked_add|done].
Qed.

(** A check that is a block of its own, with what follows the event. *)
Lemma hwp_malloc_check c g (Q : outcome Z -> globals -> hProp) :
  (∀ p, ⌜0 < p⌝ -∗ pts p blank_event -∗ pts (p + sizeof_CheckParameterEvent) c -∗
    block_of p [0; sizeof_CheckParameterEvent] -∗ Q (Done p) g) ⊢
  hwp (malloc [(0, blank_event); (sizeof_CheckParameterEvent, c)]) g Q.
Proof.
  iIntros "HQ". iApply hwp_malloc.
  { apply NoDup_cons. split; [|apply NoDup_singleton]. by intros Hx%list_elem_of_singleton. } { by repeat constructor. }
  iIntros (p Hp Hm) "Hb (He & Hc & _)". cbn. rw Z.add_0_r. iApply ("HQ" with "[//] He Hc Hb").
Qed.

Ltac plain_check x :=
  let v := fresh "v" in let Hv := fresh "Hv" in unfold _expect_check; cbn; wp_bind; iApply hwp_malloc_cell; iIntros (v Hv) "He Hb";
  iApply (hwp_expect_check x v with "Ho He [//] Hb HQ"); done.
(** The block is there; what follows the event is written, and it is added. *)
Ltac block_check x v :=
  let g2 := fresh "g2" in let Hg2 := fresh "Hg2" in wp_use (hwp_store with "Hx") as "Hx"; unfold _expect_check;
  assert ((v !=? 0) = true) as -> by (apply negb_true_iff, Z.eqb_neq; lia);
  wp_bind; iApply hwp_ret; iApply (hwp_expect_check x v with "Ho He [Hx] Hb [HQ]"); [done|cbn; by iFrame|];
  iIntros "Ho"; iIntros (g2 Hg2); iApply ("HQ" with "Ho"); auto.
Ltac range_check x := let v := fresh "v" in let Hv := fresh "Hv" in iApply hwp_malloc_check; iIntros (v Hv) "He Hx Hb"; block_check x v.
Ltac set_check x :=
  let v := fresh "v" in let Hv := fresh "Hv" in let g' := fresh "g'" in let Hg := fresh "Hg" in wp_bind; iApply hwp_malloc_check; iIntros (v Hv) "He Hx Hb"; wp_bind; iApply hwp_assertion; [done|];
  iIntros (g' Hg); cbn [expectable]; destruct (length _ =? 0)%nat; cbn [negb]; [iApply ("HQ" with "Ho"); auto|];
  block_check x v.

Lemma hwp_expect x f p file line c t g (Q : outcome unit -> globals -> hProp) :
  global_running_test g <> 0 ->
  owned_params t -∗
  (owned_params (if expectable x then add_value 2 t [f; p] (x, c) else t) -∗
   test_post (if expectable x then Some tt else None) g Q) -∗
  hwp (expect x f p file line c) g Q.
Proof.
  iIntros (Hr) "Ho HQ". destruct x as [n|n|a b|a b|s|s|]; cbn [expect];
    unfold _expect_value, _expect_not_value, _expect_in_range, _expect_not_in_range, _expect_in_set, _expect_not_in_set,
      _expect_any, expect_range, expect_set.
  - plain_check (Value n).
  - plain_check (NotValue n).
  - wp_bind; range_check (InRange a b).
  - wp_bind; range_check (NotInRange a b).
  - set_check (InSet s).
  - set_check (NotInSet s).
  - plain_check AnyValue.
Qed.

(** A check answers as it should, whatever it writes. *)
Definition answers (c : M bool) (b : bool) : Prop :=
  forall g (Q : outcome bool -> globals -> hProp), (∀ g', ⌜steady g g'⌝ -∗ Q (Done b) g') ⊢ hwp c g Q.

Lemma answers_ret b : answers (ret b) b.
Proof. iIntros (g Q) "HQ". iApply hwp_ret. by iApply "HQ". Qed.
Lemma answers_print fmt args c b : answers c b -> answers (cm_print_error fmt args ;; c) b.
Proof.
  iIntros (Hc g Q) "HQ". wp_bind. iApply hwp_cm_print_error. iApply Hc. iIntros (g' Hg). iApply "HQ".
  iPureIntro. etransitivity; [|exact Hg]. auto.
Qed.
Lemma answers_each {A} fmt (args : A -> list farg) l c b :
  answers c b -> answers (for_each l (fun x => cm_print_error fmt (args x)) ;; c) b.
Proof.
  intros Hc g Q. revert g. induction l as [|x l IH]; iIntros (g) "HQ"; cbn [for_each].
  - wp_bind. iApply hwp_ret. by iApply Hc.
  - iApply hwp_assoc. wp_bind. iApply hwp_cm_print_error. cbn beta iota. iApply IH. iIntros (g' Hg). iApply "HQ".
    iPureIntro. etransitivity; [|exact Hg]. auto.
Qed.
#[local] Hint Resolve answers_ret answers_print answers_each : core.

Lemma answers_say fmt args b : answers (when (negb b) (cm_print_error fmt args) ;; ret b) b.
Proof.
  unfold when. destruct b; cbn [negb]; [|by auto]. intros g Q. iIntros "HQ". wp_bind. iApply hwp_ret. iApply hwp_ret.
  by iApply "HQ".
Qed.

Lemma answers_equal a b : answers (values_equal_display_error a b) (a ==? b).
Proof. apply answers_say. Qed.
Lemma answers_not_equal a b : answers (values_not_equal_display_error a b) (a !=? b).
Proof. apply answers_say. Qed.
Lemma answers_in_set v s : answers (value_in_set_display_error v s false) (existsb (fun x => x ==? v) s).
Proof. unfold value_in_set_display_error. destruct (existsb _ s); cbn [negb]; auto. Qed.
Lemma answers_not_in_set v s : answers (value_in_set_display_error v s true) (negb (existsb (fun x => x ==? v) s)).
Proof. unfold value_in_set_display_error. destruct (existsb _ s); cbn [negb]; auto. Qed.
Lemma answers_in_range v a b : answers (integer_in_range_display_error v a b) ((a <=? v) && (v <=? b)).
Proof. unfold integer_in_range_display_error. destruct (_ && _); auto. Qed.
Lemma answers_not_in_range v a b : answers (integer_not_in_range_display_error v a b) ((v <? a) || (b <? v)).
Proof. unfold integer_not_in_range_display_error. destruct (_ || _); auto. Qed.

Lemma answers_float_equal a b e : answers (float_values_equal_display_error a b e) (float_compare a b e).
Proof. apply answers_say. Qed.
Lemma answers_float_not_equal a b e : answers (float_values_not_equal_display_error a b e) (negb (float_compare a b e)).
Proof. apply answers_say. Qed.
Lemma answers_double_equal a b e : answers (double_values_equal_display_error a b e) (double_compare a b e).
Proof. apply answers_say. Qed.
Lemma answers_double_not_equal a b e : answers (double_values_not_equal_display_error a b e) (negb (double_compare a b e)).
Proof. apply answers_say. Qed.

Lemma answers_string_equal a b : answers (string_equal_display_error a b) (streq a b).
Proof. unfold string_equal_display_error. destruct (streq a b); auto. Qed.
Lemma answers_string_not_equal a b : answers (string_not_equal_display_error a b) (negb (streq a b)).
Proof. unfold string_not_equal_display_error. destruct (negb (streq a b)); auto. Qed.

Lemma hwp_run_check x value v g (Q : outcome bool -> globals -> hProp) :
  0 < v -> ([∗ list] c ∈ extra_of x, pts (v + c.1) c.2) -∗
  (∀ g', ⌜steady g g'⌝ -∗ ([∗ list] c ∈ extra_of x, pts (v + c.1) c.2) -∗ Q (Done (accepts x value)) g') -∗
  hwp (run_check (kind_of x) value (data_of x v)) g Q.
Proof.
  iIntros (Hv) "Hx HQ". destruct x as [n|n|a b|a b|s|s|]; cbn [kind_of data_of run_check accepts extra_of];
    unfold check_value, check_not_value, check_in_range, check_not_in_range, check_in_set, check_not_in_set, check_any.
  - iApply answers_equal. iIntros (g' Hg). by iApply "HQ".
  - iApply answers_not_equal. iIntros (g' Hg). by iApply "HQ".
  - wp_bind. iApply hwp_non_null; [lia|]. unfold load_range. cbn. iDestruct "Hx" as "[Hx _]". wp_bind.
    wp_use (hwp_load with "Hx") as "Hx". iApply hwp_ret. cbn beta iota. iApply answers_in_range.
    iIntros (g' Hg). iApply "HQ"; [done|]. by iFrame.
  - wp_bind. iApply hwp_non_null; [lia|]. unfold load_range. cbn. iDestruct "Hx" as "[Hx _]". wp_bind.
    wp_use (hwp_load with "Hx") as "Hx". iApply hwp_ret. cbn beta iota. iApply answers_not_in_range.
    iIntros (g' Hg). iApply "HQ"; [done|]. by iFrame.
  - unfold load_set. cbn. iDestruct "Hx" as "[Hx _]". wp_bind. wp_use (hwp_load with "Hx") as "Hx".
    iApply hwp_ret. cbn beta iota. iApply answers_in_set. iIntros (g' Hg).
    iApply "HQ"; [done|]. by iFrame.
  - unfold load_set. cbn. iDestruct "Hx" as "[Hx _]". wp_bind. wp_use (hwp_load with "Hx") as "Hx".
    iApply hwp_ret. cbn beta iota. iApply answers_not_in_set. iIntros (g' Hg).
    iApply "HQ"; [done|]. by iFrame.
  - iApply hwp_ret. by iApply "HQ".
Qed.

Lemma expectation_cells v x location s :
  pts v (CCheckParameterEvent (mkCheck location s (kind_of x) (data_of x v))) -∗
  ([∗ list] c ∈ extra_of x, pts (v + c.1) c.2) -∗ [∗ list] o ∈ (0 :: (extra_of x).*1), owns (v + o).
Proof.
  iIntros "He Hx". cbn. iSplitL "He"; [rw Z.add_0_r; by iExists _|]. rw big_sepL_fmap.
  iApply (big_sepL_mono with "Hx"). iIntros (k c Hc) "Hc". by iExists _.
Qed.

Lemma hwp_check_expected f p file line value t g (Q : outcome unit -> globals -> hProp) :
  global_running_test g <> 0 ->
  owned_params t -∗
  (owned_params (obtain 2 t [f; p]).2 -∗
   test_post (match (obtain 2 t [f; p]).1 with
              | Some x => if accepts x value then Some tt else None
              | None => None
              end) g Q) -∗
  hwp (_check_expected f p file line value) g Q.
Proof.
  iIntros (Hr) "[%Ht Ho] HQ". unfold _check_expected. wp_bind. iApply (hwp_take with "Ho"); [done..|]. iSplit.
  - iIntros (v x c t' E Hv Hc) "Hv Ho". rw E. cbn beta iota zeta. cbn [fst snd].
    assert ((c !=? 0) = true) as -> by (by apply negb_true_iff, Z.eqb_neq).
    iDestruct "Hv" as "(%location & %s & Hv & Hx & Hb)". wp_use (hwp_load with "Hv") as "Hv". wp_bind. iApply hwp_modify.
    cbn beta iota. cbn [ev_location check_value_fn check_value_data].
    wp_bind. iApply (hwp_run_check with "Hx"); [done|]. iIntros (g' Hg) "Hx". wp_bind.
    iApply (hwp_wand _ _ (fun r g'' => ⌜r = Done tt⌝ ∗ ⌜g'' = g'⌝ ∗ owned_params t')%I with "[Ho Hv Hb Hx]").
    { unfold when, rest_of. destruct (c ==? 1).
      - iApply (hwp_free with "Hb [Hv Hx]"); [lia|iApply (expectation_cells with "Hv Hx")|]. iFrame "Ho".
        iPureIntro. split_and!; [done..|]. by eapply stocked_taken.
      - iApply hwp_ret. iSplit; [done|]. iSplit; [done|]. iSplit; [iPureIntro; by eapply stocked_taken|].
        iApply "Ho". iExists _, _. iFrame. }
    iIntros (r g'') "(-> & -> & Ho)". iSpecialize ("HQ" with "Ho"). unfold when.
    destruct (accepts x value); cbn [negb]; [iApply hwp_ret; iApply "HQ"; by auto|].
    wp_bind. iApply hwp_get. cbn beta iota zeta. wp_bind. iApply hwp_cm_print_error. iApply hwp_fail; [done|by eauto|].
    iIntros (g'' Hg''). iApply "HQ". auto 10.
  - iIntros (v t' g' E Hg) "Ho". rw E. cbn beta iota zeta. cbn [fst snd].
    iSpecialize ("HQ" with "[Ho]"); [iFrame "Ho"; iPureIntro; by eapply stocked_taken|].
    wp_bind. iApply hwp_cm_print_error. wp_bind. iApply hwp_get. cbn beta iota zeta. wp_bind.
    destruct (source_location_is_set _); iApply hwp_cm_print_error;
      (iApply hwp_exit_test; [done|by eauto|]); iApply "HQ"; auto.
Qed.

(** ** Ordered calls *)

(** What a call does to the calls to come: with a count below -1 they come any
    number of times, or not at all, and do not hold up those after them. *)
Inductive call_result := Called (q : tree string 0) | Wrong | Crash.

Definition count_call (f : string) (c : Z) (q : tree string 0) : tree string 0 :=
  if -2 <? c then if c - 1 ==? 0 then q else (f, c - 1) :: q else (f, c) :: q.
(** The search behind a call that need not come. *)
Fixpoint find_call (f : string) (q : tree string 0) : option (tree string 0) :=
  match q with
  | [] => None
  | (s, c) :: q =>
      if streq s f then Some (count_call s c q)
      else if c <? -1 then (cons (s, c)) <$> find_call f q
      else None
  end.
Definition call (f : string) (q : tree string 0) : call_result :=
  match q with
  | [] => Wrong
  | (s, c) :: q =>
      if streq s f then Called (count_call s c q)
      else if c <? -1 then
        match q with
        | [] => Crash
        | _ => match find_call f q with Some q => Called ((s, c) :: q) | None => Wrong end
        end
      else Wrong
  end.

Definition skipped (f : string) (y : string * Z) : Prop := streq y.1 f = false /\ y.2 < -1.
Lemma find_call_skip f t1 t2 : Forall (skipped f) t1 -> find_call f (t1 ++ t2) = app t1 <$> find_call f t2.
Proof.
  induction 1 as [|[s c] t1 [Hs Hc%Z.ltb_lt] _ IH]; cbn [app find_call].
  - by destruct (find_call f t2).
  - cbn [fst snd] in *. rw Hs Hc IH. by destruct (find_call f t2).
Qed.

Lemma hwp_free_value v offsets g (Q : outcome unit -> globals -> hProp) :
  0 < v -> block_of v offsets -∗ ([∗ list] o ∈ offsets, owns (v + o)) -∗ Q (Done tt) g -∗ hwp (free_value v) g Q.
Proof.
  iIntros (Hv) "Hb Ho HQ". unfold free_value. wp_bind. iApply hwp_non_null; [lia|]. cbn beta iota.
  iApply (hwp_free with "Hb Ho HQ"). lia.
Qed.

Abbreviation entries l t := ([∗ list] e; v ∈ l; t, value_entry call_at e v)%I.

Lemma hwp_call_matches v s f g (Q : outcome bool -> globals -> hProp) :
  call_at v s -∗ (call_at v s -∗ Q (Done (streq s f)) g) -∗ hwp (call_matches v f) g Q.
Proof.
  iIntros "(%location & Hv & Hb) HQ". unfold call_matches, load_ordering. wp_bind. wp_use (hwp_load with "Hv") as "Hv".
  iApply hwp_ret. iApply hwp_ret. iApply "HQ". iExists _. iFrame.
Qed.

(** The count of the call found goes down. *)
Lemma hwp_count_call l1 e l2 t1 s c t2 g (Q : outcome unit -> globals -> hProp) :
  dlist global_call_ordering_head 0 1 (l1 ++ e :: l2) -∗ entries l1 t1 -∗ value_entry call_at e (s, c) -∗ entries l2 t2 -∗
  (owned_calls (t1 ++ count_call s c t2) -∗ Q (Done tt) g) -∗
  hwp (v <- load_node (place e) ;;
       when (-2 <? refcount v) (
         set_refcount (place e) (refcount v - 1) ;;
         when (refcount v - 1 ==? 0) (list_remove_free (place e) (Some free_value)))) g Q.
Proof.
  iIntros "Hl H1 (%Hp & %Hc & Hb & Hv) H2 HQ". cbn in Hc. wp_bind. iApply (hwp_load_entry with "Hl"). iIntros "Hl".
  cbn beta iota. cbn [refcount]. rw Hc. unfold count_call, when. destruct (-2 <? c).
  - wp_bind. iApply (hwp_count_entry with "Hl"). iIntros "Hl". cbn beta iota. destruct (c - 1 ==? 0).
    + iApply (hwp_list_remove_free _ _ _ _ (mkEntry (place e) (held e) (c - 1)) with "Hl Hb"). iIntros "Hl".
      iDestruct "Hv" as "(%location & Hv & Hb)". iApply (hwp_free_value with "Hb [Hv]"); [done|cbn; rw Z.add_0_r; iSplit; [by iExists _|done]|].
      iApply "HQ". iExists _. iFrame "Hl". iApply (big_sepL2_app with "H1 H2").
    + iApply hwp_ret. iApply "HQ". iExists _. iFrame "Hl". iApply (big_sepL2_app with "H1"). cbn. by iFrame.
  - iApply hwp_ret. iApply "HQ". iExists _. iFrame "Hl". iApply (big_sepL2_app with "H1"). cbn. by iFrame.
Qed.

(** Where the search is: before the nodes [l] of the calls [t] that are left. *)
Definition search_state (f : string) (l : list entry) (t : list (string * Z)) : Z * Z * bool :=
  (first_of l global_call_ordering_head, match l with [] => 0 | e :: _ => held e end,
   match t with [] => false | (s, _) :: _ => streq s f end).

(** The search ends behind calls that are skipped, at one that is not. *)
Lemma hwp_search_call f e0 l t g (Q : outcome (Z * Z * bool) -> globals -> hProp) :
  dlist global_call_ordering_head 0 1 (e0 :: l) -∗ entries l t -∗
  (∀ l1 l2 t1 t2, ⌜l = l1 ++ l2⌝ -∗ ⌜t = t1 ++ t2⌝ -∗ ⌜Forall (skipped f) t1⌝ -∗
     ⌜match t2 with [] => True | y :: _ => ~ skipped f y end⌝ -∗
     dlist global_call_ordering_head 0 1 (e0 :: l1 ++ l2) -∗ entries l1 t1 -∗ entries l2 t2 -∗
     Q (Done (search_state f l2 t2)) g) -∗
  hwp (search_call f (place e0) (search_state f l t)) g Q.
Proof.
  iIntros "Hl He HQ". unfold search_call.
  iApply (hwp_walk_bounded _ (fun k st g' => ∃ l1 l2 t1 t2, ⌜l = l1 ++ l2⌝ ∗ ⌜t = t1 ++ t2⌝ ∗ ⌜length l2 = k⌝ ∗
    ⌜st = search_state f l2 t2⌝ ∗ ⌜g' = g⌝ ∗ ⌜Forall (skipped f) t1⌝ ∗
    dlist global_call_ordering_head 0 1 (e0 :: l1 ++ l2) ∗ entries l1 t1 ∗ entries l2 t2 ∗
    (∀ l1 l2 t1 t2, ⌜l = l1 ++ l2⌝ -∗ ⌜t = t1 ++ t2⌝ -∗ ⌜Forall (skipped f) t1⌝ -∗
     ⌜match t2 with [] => True | y :: _ => ~ skipped f y end⌝ -∗
     dlist global_call_ordering_head 0 1 (e0 :: l1 ++ l2) -∗ entries l1 t1 -∗ entries l2 t2 -∗
     Q (Done (search_state f l2 t2)) g))%I (place <$> l)).
  - iIntros (k st g') "(%l1 & %l2 & %t1 & %t2 & %Hl & %Ht & <- & -> & -> & %Hsk & Hd & H1 & H2 & HQ)".
    iDestruct (big_sepL2_length with "H2") as %Hlen.
    destruct l2 as [|e l2], t2 as [|[s c] t2]; try done; cbn [search_state first_of].
    + wp_use (hwp_load_head with "Hd") as "Hd". wp_bind. iApply (hwp_load_entry _ _ _ [] with "Hd"). iIntros "Hd".
      cbn beta iota. iApply hwp_ret. by iApply ("HQ" $! l1 [] t1 [] with "[//] [//] [//] [//] Hd H1 H2").
    + iDestruct (dlist_at _ _ _ (e0 :: l1) with "Hd") as %[_ Hne].
      wp_bind. iApply (hwp_load_entry _ _ _ (e0 :: l1) with "Hd"). iIntros "Hd". cbn beta iota. cbn [app refcount next].
      wp_bind. iApply (hwp_load_entry _ _ _ [] with "Hd"). iIntros "Hd". cbn beta iota. cbn [prev last_of].
      iDestruct "H2" as "[(%Hp & %Hc & Hb & Hv) H2]". cbn in Hc. rw Hc.
      assert ((place e ==? global_call_ordering_head) = false) as ->.
      { by apply Z.eqb_neq. }
      cbn [negb]. rw andb_true_r. destruct ((c <? -1) && negb (streq s f)) eqn:E.
      * apply andb_true_iff in E as [Hskip%Z.ltb_lt Hs%negb_true_iff]. cbn [next].
        iAssert (entries (l1 ++ [e]) (t1 ++ [(s, c)])) with "[H1 Hb Hv]" as "H1".
        { iApply (big_sepL2_app with "H1"). cbn. by iFrame. }
        assert (Forall (skipped f) (t1 ++ [(s, c)])) as Hsk'.
        { apply Forall_app. split; [done|]. by repeat constructor. }
        assert (l = (l1 ++ [e]) ++ l2) as Hl' by by rw -app_assoc.
        assert (t = (t1 ++ [(s, c)]) ++ t2) as Ht' by by rw -app_assoc.
        iEval (cbn [app]; rw (app_assoc l1 [e] l2)) in "Hd".
        destruct l2 as [|e' l2], t2 as [|[s' c'] t2]; try done; cbn [first_of].
        -- cbn. wp_use (hwp_load_head with "Hd") as "Hd". cbn. iApply hwp_ret.
           iExists O. iSplit; [done|]. iExists (l1 ++ [e]), [], (t1 ++ [(s, c)]), []. rw Hs. by iFrame.
        -- iDestruct (dlist_at _ _ _ (e0 :: l1 ++ [e]) with "Hd") as %[Hp' _].
           assert ((place e' ==? 0) = false) as -> by (apply Z.eqb_neq; lia).
           wp_bind. iApply (hwp_load_entry _ _ _ (e0 :: l1 ++ [e]) with "Hd"). iIntros "Hd". cbn beta iota zeta. cbn [cmocka.value].
           iDestruct "H2" as "[(%Hp2 & %Hc' & Hb & Hv) H2]". assert ((held e' ==? 0) = false) as -> by (apply Z.eqb_neq; lia).
           wp_bind. iApply (hwp_call_matches with "Hv"). iIntros "Hv". iApply hwp_ret.
           iExists (S (length l2)). iSplit; [done|]. iExists (l1 ++ [e]), (e' :: l2), (t1 ++ [(s, c)]), ((s', c') :: t2).
           cbn. by iFrame.
      * iApply hwp_ret. iApply ("HQ" $! l1 (e :: l2) t1 ((s, c) :: t2) with "[//] [//] [//] [%] Hd H1 [$H2 $Hb $Hv //]").
        unfold skipped. cbn. intros [Hs Hn%Z.ltb_lt]. cbn [snd] in Hn. change (streq s f = false) in Hs. by rw Hs Hn in E.
  - iSplit; [|iExists [], l, [], t; rw length_fmap; cbn; iFrame; by iPureIntro].
    iDestruct "Hl" as "[_ (_ & _ & Hl)]". by iApply nodes_owned.
Qed.

(** The end of a call: the node is counted, or it is the wrong one. *)
Lemma hwp_called f file line l1 e l2 t1 s c t2 g (Q : outcome unit -> globals -> hProp) :
  global_running_test g <> 0 ->
  dlist global_call_ordering_head 0 1 (l1 ++ e :: l2) -∗ entries l1 t1 -∗ value_entry call_at e (s, c) -∗ entries l2 t2 -∗
  (if streq s f then owned_calls (t1 ++ count_call s c t2) -∗ test_post (Some tt) g Q
   else owned_calls (t1 ++ (s, c) :: t2) -∗ test_post None g Q) -∗
  hwp (if streq s f then
         v <- load_node (place e) ;;
         when (-2 <? refcount v) (
           set_refcount (place e) (refcount v - 1) ;;
           when (refcount v - 1 ==? 0) (list_remove_free (place e) (Some free_value)))
       else
         o <- load_ordering (held e) ;;
         cm_print_error "%s:%u: error: Expected call to %s but received called() in %s\n"
           [Str file; Int line; Str (cmocka.function o); Str f] ;;
         exit_test true) g Q.
Proof.
  iIntros (Hr) "Hl H1 He H2 HQ". destruct (streq s f).
  - iApply (hwp_count_call with "Hl H1 He H2"). iIntros "Hl". by iApply ("HQ" with "Hl").
  - iDestruct "He" as "(%Hp & Hc & Hb & (%location & Hv & Hvb))". cbn [fst]. unfold load_ordering. wp_bind.
    wp_use (hwp_load with "Hv") as "Hv". iApply hwp_ret. wp_bind. iApply hwp_cm_print_error.
    iApply hwp_exit_test; [done|by eauto|]. iApply ("HQ" with "[-]"); [|by auto].
    iExists _. iFrame "Hl". iApply (big_sepL2_app with "H1"). cbn. iFrame. by iFrame.
Qed.

(** The search, behind a first call that need not come. *)
Lemma hwp_function_searched f file line e0 l t g (Q : outcome (Z * Z * bool) -> globals -> hProp) :
  global_running_test g <> 0 ->
  dlist global_call_ordering_head 0 1 (e0 :: l) -∗ entries l t -∗
  (match t with
   | [] => dlist global_call_ordering_head 0 1 (e0 :: l) -∗ Q Fault g
   | _ => (∀ l1 e l2 t1 s c t2, ⌜l = l1 ++ e :: l2⌝ -∗ ⌜t = t1 ++ (s, c) :: t2⌝ -∗ ⌜Forall (skipped f) t1⌝ -∗
             ⌜~ skipped f (s, c)⌝ -∗ dlist global_call_ordering_head 0 1 (e0 :: l1 ++ e :: l2) -∗
             entries l1 t1 -∗ value_entry call_at e (s, c) -∗ entries l2 t2 -∗ Q (Done (place e, held e, streq s f)) g) ∧
          (∀ g', ⌜Forall (skipped f) t⌝ -∗ ⌜steady g g'⌝ -∗ dlist global_call_ordering_head 0 1 (e0 :: l) -∗
             entries l t -∗ Q (LongJmp 1) g')
   end) -∗
  hwp (let value_node := first_of l global_call_ordering_head in
       v <- load_node value_node ;;
       equal <- call_matches (value v) f ;;
       ' (value_node, expected_call, equal) <- search_call f (place e0) (value_node, value v, equal) ;;
       first <- load_node (place e0) ;;
       when ((expected_call ==? 0) || (value_node ==? prev first)) (
         cm_print_error "%s:%u: error: No expected mock calls matching called() invocation in %s"
           [Str file; Int line; Str f] ;;
         exit_test true) ;;
       ret (value_node, expected_call, equal)) g Q.
Proof.
  iIntros (Hr) "Hl He HQ". cbn zeta. iDestruct (big_sepL2_length with "He") as %Hlen.
  destruct l as [|e l], t as [|[s c] t]; try done; cbn [first_of].
  - wp_use (hwp_load_head with "Hl") as "Hl". cbn [cmocka.value]. wp_bind. unfold call_matches, load_ordering.
    do 2 wp_bind. iApply hwp_load_null. by iApply "HQ".
  - wp_bind. iApply (hwp_load_entry _ _ _ [e0] with "Hl"). iIntros "Hl". cbn beta iota. cbn [cmocka.value].
    iDestruct "He" as "[(%Hp & Hc & Hb & Hv) He]". wp_bind. iApply (hwp_call_matches with "Hv"). iIntros "Hv".
    wp_bind. iApply (hwp_search_call f e0 (e :: l) ((s, c) :: t) with "Hl [$He $Hc $Hb $Hv //]").
    iIntros (l1 l2 t1 t2 Hl Ht Hsk Hstop) "Hl H1 H2". iDestruct (big_sepL2_length with "H2") as %Hlen2.
    unfold search_state. cbn beta iota. wp_bind. iApply (hwp_load_entry _ _ _ [] with "Hl"). iIntros "Hl".
    cbn beta iota. cbn [prev last_of]. destruct l2 as [|e' l2], t2 as [|[s' c'] t2]; try done; cbn [first_of].
    + cbn [Z.eqb orb]. unfold when. do 2 wp_bind. iApply hwp_cm_print_error. iApply hwp_exit_test; [done|by eauto|].
      iDestruct "HQ" as "[_ HQ]". rw !app_nil_r in Hl Ht. rw Hl Ht app_nil_r. iApply ("HQ" with "[//] [%] Hl H1"). auto.
    + iDestruct (dlist_at _ _ _ (e0 :: l1) with "Hl") as %[_ Hne]. iDestruct "H2" as "[(%Hp' & Hc & Hb & Hv) H2]".
      assert ((held e' ==? 0) || (place e' ==? global_call_ordering_head) = false) as ->.
      { apply orb_false_iff. split; apply Z.eqb_neq; [lia|done]. }
      wp_bind. iApply hwp_ret. iApply hwp_ret. iDestruct "HQ" as "[HQ _]".
      iApply ("HQ" with "[//] [//] [//] [//] Hl H1 [$Hc $Hb $Hv //] H2").
Qed.

Lemma hwp_function_called f file line q g (Q : outcome unit -> globals -> hProp) :
  global_running_test g <> 0 ->
  owned_calls q -∗
  match call f q with
  | Called q' => owned_calls q' -∗ test_post (Some tt) g Q
  | Wrong => owned_calls q -∗ test_post None g Q
  | Crash => owned_calls q -∗ Q Fault g
  end -∗
  hwp (_function_called f file line) g Q.
Proof.
  iIntros (Hr) "(%l & Hl & He) HQ". unfold _function_called. iDestruct (big_sepL2_length with "He") as %Hlen.
  assert (0 < global_call_ordering_head) as Hh by done.
  wp_use (hwp_list_first _ _ _ _ _ _ Hh with "Hl") as "Hl". destruct l as [|e l], q as [|[s c] q]; try done; cbn [hd_error option_map].
  { wp_bind. iApply hwp_cm_print_error. iApply hwp_exit_test; [done|by eauto|].
    iApply ("HQ" with "[Hl]"); [|by auto]. iExists []. by iFrame. }
  wp_bind. iApply (hwp_load_entry _ _ _ [] with "Hl"). iIntros "Hl". cbn beta iota. cbn [cmocka.value refcount next app].
  iDestruct "He" as "[(%Hp & %Hc & Hb & Hv) He]". cbn in Hc. rw Hc.
  wp_bind. iApply (hwp_call_matches with "Hv"). iIntros "Hv". cbn beta iota. cbn [fst]. wp_bind.
  unfold call. destruct (streq s f) eqn:E; cbn [negb]; [|destruct (c <? -1) eqn:Ec].
  - rw andb_false_r. iApply hwp_ret.
    iPoseProof (hwp_called f file line [] e l [] s c q g Q Hr with "Hl") as "H". rw E.
    iApply ("H" with "[//] [$Hb $Hv //] He HQ").
  - cbn [andb]. iApply (hwp_function_searched with "Hl He"); [done|].
    destruct q as [|y q].
    { destruct l; [|done]. iIntros "Hl". iApply "HQ". iExists [e]. iFrame "Hl". cbn. by iFrame. }
    remember (y :: q) as t eqn:Et. clear Et Hlen. iSplit.
    + iIntros (l1 e' l2 t1 s' c' t2 -> -> Hsk Hstop) "Hl H1 He H2". rw find_call_skip //. cbn [find_call].
      iApply (hwp_called f file line (e :: l1) e' l2 ((s, c) :: t1) with "Hl [$H1 $Hb $Hv //] He H2"); [done|].
      destruct (streq s' f) eqn:E'; [done|]. assert ((c' <? -1) = false) as ->; [|done].
      apply Z.ltb_ge. destruct (Z.lt_ge_cases c' (-1)) as [Hlt|]; [|done]. by destruct Hstop.
    + iIntros (g' Hsk Hg) "Hl He". rw -(app_nil_r t) find_call_skip // app_nil_r. cbn [find_call fmap option_fmap option_map].
      iApply ("HQ" with "[-] [//]"). iExists _. iFrame "Hl". iFrame. by iFrame.
  - cbn [andb]. iApply hwp_ret.
    iPoseProof (hwp_called f file line [] e l [] s c q g Q Hr with "Hl") as "H". rw E.
    iApply ("H" with "[//] [$Hb $Hv //] He HQ").
Qed.

Lemma hwp_expect_function_call f file line c q g (Q : outcome unit -> globals -> hProp) :
  global_running_test g <> 0 ->
  owned_calls q -∗
  (owned_calls (if c ==? 0 then q else q ++ [(f, c)]) -∗ test_post (if c ==? 0 then None else Some tt) g Q) -∗
  hwp (_expect_function_call f file line c) g Q.
Proof.
  iIntros (Hr) "Ho HQ". unfold _expect_function_call. wp_bind. iApply hwp_assertion; [done|]. iIntros (g' Hg).
  destruct (c ==? 0); cbn beta iota; [by iApply ("HQ" with "Ho")|].
  wp_bind. iApply hwp_malloc_cell. iIntros (p Hp) "Hv Hb". wp_use (hwp_store with "Hv") as "Hv".
  iApply (hwp_add_to_queue call_at _ _ _ f with "Ho [Hv Hb]"); [done..|by iExists _; iFrame|].
  iIntros "Ho". by iApply ("HQ" with "Ho").
Qed.

(** ** Assertions *)
Inductive assertion :=
| IsTrue (result : Z) (expression : string) | Failure
| IntEqual (a b : Z) | IntNotEqual (a b : Z)
| StringEqual (a b : string) | StringNotEqual (a b : string)
| Within (value minimum maximum : Z) | NotWithin (value minimum maximum : Z)
| Among (value : Z) (set : list Z) | NotAmong (value : Z) (set : list Z)
| FloatEqual (a b epsilon : spec_float) | FloatNotEqual (a b epsilon : spec_float)
| DoubleEqual (a b epsilon : spec_float) | DoubleNotEqual (a b epsilon : spec_float)
| ReturnCode (result error : Z) (expression : string).

Definition assertion_holds (a : assertion) : bool :=
  match a with
  | IsTrue r _ => r !=? 0
  | Failure => false
  | IntEqual a b => a ==? b
  | IntNotEqual a b => a !=? b
  | StringEqual a b => streq a b
  | StringNotEqual a b => negb (streq a b)
  | Within v a b => (a <=? v) && (v <=? b)
  | NotWithin v a b => (v <? a) || (b <? v)
  | Among v s => existsb (fun x => x ==? v) s
  | NotAmong v s => negb (existsb (fun x => x ==? v) s)
  | FloatEqual a b e => float_compare a b e
  | FloatNotEqual a b e => negb (float_compare a b e)
  | DoubleEqual a b e => double_compare a b e
  | DoubleNotEqual a b e => negb (double_compare a b e)
  | ReturnCode r _ _ => 0 <=? r
  end.

Definition assert_that (a : assertion) (file : string) (line : Z) : M unit :=
  match a with
  | IsTrue r e => _assert_true r e file line
  | Failure => _fail file line
  | IntEqual a b => _assert_int_equal a b file line
  | IntNotEqual a b => _assert_int_not_equal a b file line
  | StringEqual a b => _assert_string_equal a b file line
  | StringNotEqual a b => _assert_string_not_equal a b file line
  | Within v a b => _assert_in_range v a b file line
  | NotWithin v a b => _assert_not_in_range v a b file line
  | Among v s => _assert_in_set v s file line
  | NotAmong v s => _assert_not_in_set v s file line
  | FloatEqual a b e => _assert_float_equal a b e file line
  | FloatNotEqual a b e => _assert_float_not_equal a b e file line
  | DoubleEqual a b e => _assert_double_equal a b e file line
  | DoubleNotEqual a b e => _assert_double_not_equal a b e file line
  | ReturnCode r n e => _assert_return_code r n e file line
  end.

Lemma hwp_fails_unless c b file line g (Q : outcome unit -> globals -> hProp) :
  global_running_test g <> 0 -> answers c b -> test_post (if b then Some tt else None) g Q ⊢ hwp (fails_unless c file line) g Q.
Proof.
  iIntros (Hr Hc) "HQ". unfold fails_unless. wp_bind. iApply Hc. iIntros (g' Hg). unfold when.
  destruct b; cbn [negb]; [iApply hwp_ret; by iApply "HQ"|].
  iApply hwp_fail; [done|by eauto|]. iIntros (g2 Hg2). iApply "HQ". auto.
Qed.

(** Words, and then the failure. *)
Lemma hwp_say_fail fmt args file line g (Q : outcome unit -> globals -> hProp) :
  global_running_test g <> 0 -> test_post None g Q ⊢ hwp (cm_print_error fmt args ;; _fail file line) g Q.
Proof.
  iIntros (Hr) "HQ". wp_bind. iApply hwp_cm_print_error. iApply hwp_fail; [done|by eauto|].
  iIntros (g' Hg). iApply "HQ". auto.
Qed.

Lemma hwp_assert_that a file line g (Q : outcome unit -> globals -> hProp) :
  global_running_test g <> 0 ->
  test_post (if assertion_holds a then Some tt else None) g Q ⊢ hwp (assert_that a file line) g Q.
Proof.
  intros Hr. destruct a as [r e| |a b|a b|a b|a b|v a b|v a b|v s|v s|a b e|a b e|a b e|a b e|r n e]; cbn [assertion_holds assert_that].
  3-14: apply hwp_fails_unless; [done|auto using answers_equal, answers_not_equal, answers_string_equal,
    answers_string_not_equal, answers_in_range, answers_not_in_range, answers_in_set, answers_not_in_set,
    answers_float_equal, answers_float_not_equal, answers_double_equal, answers_double_not_equal].
  - unfold _assert_true, when. iIntros "HQ". destruct (r ==? 0); cbn [negb]; [by iApply hwp_say_fail|].
    iApply hwp_ret. by iApply "HQ".
  - iIntros "HQ". by iApply hwp_fail.
  - unfold _assert_return_code, when. iIntros "HQ". rw Z.leb_antisym. destruct (r <? 0); cbn [negb].
    + destruct (0 <? n); by iApply hwp_say_fail.
    + iApply hwp_ret. by iApply "HQ".
Qed.
End Operations.
