(* ===== verification/CmLeft.v ===== *)
(** * What a test leaves behind

    At the end of a test cmocka.c forgives the values that were for any number of
    uses, looks for others that were not used, and frees all. *)

From S2P Require Import Prelude.
From S2P Require Import CLib.
From S2P Require Import Sys.
From S2P Require Import Sem.
From S2P Require Import HeapLogic.
From S2P Require Import Cmocka.
From S2P Require Import CmBase.
From S2P Require Import CmLists.
From S2P Require Import CmMock.
From S2P Require Import CmOps.
From iris.bi Require Import bi.
From iris.proofmode Require Import proofmode.
#[local] Open Scope Z_scope.
#[local] Open Scope cmd_scope.
Import cmocka.

#[local] Abbreviation hProp := (hpropI cell).

(** ** Values for any number of uses *)

(** The first value of a queue goes when it counts below -1, and a name with
    nothing left. *)
Fixpoint remove_used {X} (n : nat) : tree X n -> tree X n :=
  match n with
  | O => fun q => match q with (x, c) :: q => if c <? -1 then q else (x, c) :: q | [] => [] end
  | S n => fun m =>
      omap (fun e => let t := remove_used n e.2 in if is_empty n t then None else Some (e.1, t)) m
  end.

Lemma remove_used_empty {X} n (t : tree X n) : is_empty n t = true -> remove_used n t = t.
Proof. by destruct n, t. Qed.

Section Leftovers.
Context `{CText} `{Env} (Habort : getenv "CMOCKA_TEST_ABORT" = None).
Context {X : Type} (P : Z -> X -> hProp).
(** What is owned for a value makes up its block. *)
Context (HP : forall v x, P v x ⊢ ∃ offsets, block_of v offsets ∗ [∗ list] o ∈ offsets, owns (v + o)).

Lemma hwp_free_payload v x g (Q : outcome unit -> globals -> hProp) :
  0 < v -> P v x -∗ Q (Done tt) g -∗ hwp (free_value v) g Q.
Proof. iIntros (Hv) "Hv HQ". rw HP. iDestruct "Hv" as "(%os & Hb & Ho)". by iApply (hwp_free_value with "Hb Ho HQ"). Qed.

(** The first value of a queue that is not empty. *)
Lemma hwp_remove_first h x c (q : tree X 0) g (Q : outcome unit -> globals -> hProp) :
  owned_tree P 0 h ((x, c) :: q) -∗
  (owned_tree P 0 h (remove_used 0 ((x, c) :: q)) -∗ Q (Done tt) g) -∗
  hwp (l <- load_node h ;;
       child_node <- load_node (next l) ;;
       when (refcount child_node <? -1) (list_remove_free (next l) (Some free_value))) g Q.
Proof.
  iIntros "(%l & Hl & Hq) HQ". iDestruct (big_sepL2_cons_inv_r with "Hq") as (e l' ->) "[(%Hp & %Hc & Hb & Hv) Hq]".
  cbn in Hc. wp_use (hwp_load_head with "Hl") as "Hl". cbn [next first_of]. wp_bind.
  iApply (hwp_load_entry _ _ _ [] with "Hl"). iIntros "Hl". cbn beta iota. cbn [refcount app remove_used]. rw Hc.
  unfold when. destruct (c <? -1).
  - iApply (hwp_list_remove_free _ _ _ [] with "Hl Hb"). iIntros "Hl". iApply (hwp_free_payload with "Hv"); [done|].
    iApply "HQ". iExists _. iFrame "Hl". iFrame.
  - iApply hwp_ret. iApply "HQ". iExists _. iFrame "Hl". cbn. by iFrame.
Qed.

Abbreviation names n l m := ([∗ list] e; s ∈ l; m, name_entry (owned_tree P n) e s)%I.

(** The entry of a name with nothing left goes, by the cleanup of a plain value. *)
Lemma hwp_drop_if_empty n h l1 e l2 s t (R : Z + unit) g (Q : outcome (Z + unit) -> globals -> hProp) :
  dlist h 0 1 (l1 ++ e :: l2) -∗ name_entry (owned_tree P n) e (s, t) -∗
  (∀ l, ⌜l = if is_empty n t then [] else [e]⌝ -∗ dlist h 0 1 (l1 ++ l ++ l2) -∗
     names n l (if is_empty n t then [] else [(s, t)]) -∗ Q (Done R) g) -∗
  hwp (empty <- list_empty (held e + symbol_values_list_head) ;;
       when empty (list_remove_free (place e) (Some free_value)) ;; ret R) g Q.
Proof.
  iIntros "Hl (%Hp & %Hc & Hb & Hs & Hbs & He) HQ". cbn [snd fst].
  assert (0 < held e + symbol_values_list_head) as Hh by (unfold symbol_values_list_head; lia).
  iDestruct (owned_open with "He") as "(%lc & %Hlc & Hlc & He)".
  wp_use (hwp_list_empty _ _ _ _ _ _ Hh with "Hlc") as "Hlc". rw Hlc. wp_bind. unfold when. destruct (is_empty n t).
  - apply bool_decide_eq_true in Hlc as ->. iApply (hwp_list_remove_free with "Hl Hb"). iIntros "Hl".
    iApply (hwp_free_value with "Hbs [Hs Hlc]"); [done| |].
    { cbn. rw Z.add_0_r. iSplitL "Hs"; [by iExists _|]. iDestruct "Hlc" as "[Hn _]". iSplit; [by iExists _|done]. }
    iApply hwp_ret. by iApply ("HQ" with "[//] Hl").
  - iApply hwp_ret. iApply hwp_ret. iApply ("HQ" with "[//] Hl"). cbn. iDestruct ("He" with "Hlc") as "He". by iFrame.
Qed.

Lemma remove_used_snoc n (m : tree X (S n)) s t :
  remove_used (S n) (m ++ [(s, t)]) =
  remove_used (S n) m ++ (if is_empty n (remove_used n t) then [] else [(s, remove_used n t)]).
Proof. cbn [remove_used]. rw omap_app. cbn. by destruct (is_empty n (remove_used n t)). Qed.

Lemma hwp_remove_always n h (t : tree X n) g (Q : outcome unit -> globals -> hProp) :
  0 < h -> n <> O -> owned_tree P n h t -∗
  (owned_tree P n h (remove_used n t) -∗ Q (Done tt) g) -∗ hwp (remove_always_return_values h n) g Q.
Proof.
  revert h t Q. induction n as [|n IH]; intros h t Q Hh Hn; [done|]. clear Hn.
  assert (forall child (sub : tree X n) (Q : outcome unit -> globals -> hProp), 0 < child -> owned_tree P n child sub -∗
    (owned_tree P n child (remove_used n sub) -∗ Q (Done tt) g) -∗
    hwp (empty <- list_empty child ;;
         when (negb empty)
           (if (n =? 0)%nat then
              l <- load_node child ;;
              child_node <- load_node (next l) ;;
              when (refcount child_node <? -1) (list_remove_free (next l) (Some free_value))
            else remove_always_return_values child n)) g Q) as Hsub.
  { intros child sub Q' Hc. iIntros "He HQ". iDestruct (owned_open with "He") as "(%lc & %Hlc & Hlc & He)".
    wp_use (hwp_list_empty _ _ _ _ _ _ Hc with "Hlc") as "Hlc". rw Hlc. iDestruct ("He" with "Hlc") as "He".
    destruct (is_empty n sub) eqn:E; cbn [negb when].
    - iApply hwp_ret. iApply "HQ". by rw remove_used_empty.
    - destruct n as [|n]; [|by iApply (IH with "He")]. destruct sub as [|[x c] q]; [done|].
      iApply (hwp_remove_first with "He HQ"). }
  iIntros "(%l & Hl & Hm) HQ". cbn [remove_always_return_values]. wp_bind. iApply hwp_non_null; [lia|]. cbn beta iota.
  wp_bind. iApply hwp_assert; [done|]. cbn beta iota. wp_use (hwp_load_head with "Hl") as "Hl". cbn [next].
  iApply (hwp_walk_bounded _ (fun k a g' => ∃ l1 l2 m1 m2, ⌜t = m1 ++ m2⌝ ∗ ⌜length l2 = k⌝ ∗ ⌜a = first_of l2 h⌝ ∗
    ⌜g' = g⌝ ∗ dlist h 0 1 (l1 ++ l2) ∗ names n l1 (remove_used (S n) m1) ∗ names n l2 m2 ∗
    (owned_tree P (S n) h (remove_used (S n) t) -∗ Q (Done tt) g))%I (place <$> l)).
  - iIntros (k a g') "(%l1 & %l2 & %m1 & %m2 & -> & <- & -> & -> & Hl & H1 & H2 & HQ)".
    iDestruct (big_sepL2_length with "H2") as %Hlen. destruct l2 as [|e l2], m2 as [|[s sub] m2]; try done; cbn [first_of].
    { rw Z.eqb_refl. iApply hwp_ret. iApply "HQ". iExists _. iFrame "Hl". rw !app_nil_r. iFrame. }
    iDestruct (dlist_at with "Hl") as %[_ Hne%Z.eqb_neq]. rw Hne. clear Hne.
    wp_bind. iApply (hwp_load_entry with "Hl"). iIntros "Hl". cbn beta iota zeta. cbn [cmocka.value next].
    iDestruct "H2" as "[(%Hp & Hc & Hb & Hs & Hbs & He) H2]". cbn [snd fst]. wp_bind. iApply hwp_non_null; [lia|]. cbn beta iota.
    assert (0 < held e + symbol_values_list_head) as Hh' by (unfold symbol_values_list_head; lia).
    iApply hwp_group. wp_bind. iApply (Hsub with "He"); [done|]. iIntros "He".
    iApply (hwp_drop_if_empty with "Hl [$Hc $Hb $Hs $Hbs $He //]"). iIntros (le ->) "Hl He".
    iExists (length l2). iSplit; [done|]. iExists (l1 ++ (if is_empty n (remove_used n sub) then [] else [e])), l2, (m1 ++ [(s, sub)]), m2.
    rw remove_used_snoc -!app_assoc. cbn [app]. iFrame "Hl H2 HQ". repeat (iSplit; [done|]). iApply (big_sepL2_app with "H1 He").
  - iSplit; [iDestruct "Hl" as "[_ Hl]"; by iApply nodes_owned|]. rw length_fmap. iExists [], l, [], t.
    iFrame "Hl Hm HQ". cbn. by iPureIntro.
Qed.

(** ** All is freed *)
Lemma big_sepL2_forget {A B} (Φ : A -> B -> hProp) (Ψ : A -> hProp) l m :
  (forall a b, Φ a b ⊢ Ψ a) -> ([∗ list] a; b ∈ l; m, Φ a b) ⊢ [∗ list] a ∈ l, Ψ a.
Proof.
  intros HΦ. rw (big_sepL2_mono _ (fun _ a _ => Ψ a)); [|by intros]. rw big_sepL2_const_sepL_l. by iIntros "[_ $]".
Qed.

Lemma hwp_free_queue h (q : tree X 0) g (Q : outcome Z -> globals -> hProp) :
  0 < h -> owned_tree P 0 h q -∗ (dlist h 0 1 [] -∗ Q (Done h) g) -∗ hwp (list_free h (Some free_value)) g Q.
Proof.
  iIntros (Hh) "(%l & Hl & Hq) HQ".
  iApply (hwp_list_free _ _ _ _ _ (fun e => ⌜0 < held e⌝ ∗ ∃ x, P (held e) x)%I with "Hl [Hq] HQ"); [done| |].
  - iIntros (e Q') "(%Hp & %x & Hv) HQ". by iApply (hwp_free_payload with "Hv").
  - iApply (big_sepL2_forget with "Hq"). iIntros (e x) "(%Hp & _ & $ & Hv)". iSplit; [done|]. by iExists _.
Qed.

(** A name with all it leads to, and a whole map. *)
Definition named (n : nat) (v : Z) : hProp :=
  (⌜0 < v⌝ ∗ ∃ s t, pts v (CSymbolMapValue s) ∗ block_of v [0; symbol_values_list_head] ∗
    owned_tree P n (v + symbol_values_list_head) t)%I.

Lemma hwp_free_map n h (t : tree X (S n)) g (Q : outcome Z -> globals -> hProp) :
  0 < h ->
  (forall v Q, named n v -∗ Q (Done tt) g -∗ hwp (free_symbol_map_value n v) g Q) ->
  owned_tree P (S n) h t -∗ (dlist h 0 1 [] -∗ Q (Done h) g) -∗
  hwp (list_free h (Some (free_symbol_map_value n))) g Q.
Proof.
  iIntros (Hh Hf) "(%l & Hl & Hm) HQ".
  iApply (hwp_list_free _ _ _ _ _ (fun e => named n (held e)) with "Hl [Hm] HQ"); [done| |].
  - iIntros (e Q') "Hv HQ". iApply (Hf with "Hv HQ").
  - iApply (big_sepL2_forget with "Hm"). iIntros (e s) "(%Hp & _ & $ & Hs & Hb & He)". iSplit; [done|]. iExists _, _. iFrame.
Qed.

Lemma hwp_free_symbol_map_value n v g (Q : outcome unit -> globals -> hProp) :
  named n v -∗ Q (Done tt) g -∗ hwp (free_symbol_map_value n v) g Q.
Proof.
  revert v Q. induction n as [|n IH]; intros v Q; iIntros "(%Hv & %s & %t & Hs & Hb & Ht) HQ"; cbn [free_symbol_map_value];
    assert (0 < v + symbol_values_list_head) as Hv' by (unfold symbol_values_list_head; lia);
    wp_bind; (iApply hwp_non_null; [lia|]); cbn beta iota; wp_bind.
  1: iApply (hwp_free_queue with "Ht"); [done|].
  2: iApply (hwp_free_map with "Ht"); [done|exact IH|].
  all: iIntros "[Hn _]"; iApply (hwp_free with "Hb [Hs Hn] HQ"); [lia|]; cbn; rw Z.add_0_r; iSplitL "Hs"; [by iExists _|];
    (iSplit; [by iExists _|done]).
Qed.

(** ** Values left over *)
Context (HL : forall v x g (Q : outcome SourceLocation -> globals -> hProp),
  P v x -∗ (∀ location, P v x -∗ Q (Done location) g) -∗ hwp (load_location v) g Q).

(** The declarations left in a queue are shown. *)
Lemma hwp_show_queue h (q : tree X 0) g (Q : outcome unit -> globals -> hProp) :
  owned_tree P 0 h q -∗ (∀ g', ⌜steady g g'⌝ -∗ owned_tree P 0 h q -∗ Q (Done tt) g') -∗
  hwp (l <- load_node h ;;
       walk (fun child_node =>
         if child_node ==? h then ret (inr tt) else
         c <- load_node child_node ;;
         location <- load_location (value c) ;;
         print_remaining location ;;
         ret (inl (next c))) (next l)) g Q.
Proof.
  iIntros "(%l & Hl & Hq) HQ". wp_use (hwp_load_head with "Hl") as "Hl". cbn [next].
  iApply (hwp_walk_bounded _ (fun k a g' => ∃ l1 l2 q1 q2, ⌜l = l1 ++ l2⌝ ∗ ⌜q = q1 ++ q2⌝ ∗ ⌜length l2 = k⌝ ∗ ⌜a = first_of l2 h⌝ ∗
    ⌜steady g g'⌝ ∗ dlist h 0 1 (l1 ++ l2) ∗ ([∗ list] e; v ∈ l1; q1, value_entry P e v) ∗
    ([∗ list] e; v ∈ l2; q2, value_entry P e v) ∗
    (∀ g', ⌜steady g g'⌝ -∗ owned_tree P 0 h q -∗ Q (Done tt) g'))%I (place <$> l)).
  - iIntros (k a g') "(%l1 & %l2 & %q1 & %q2 & -> & -> & <- & -> & %Hg & Hl & H1 & H2 & HQ)".
    iDestruct (big_sepL2_length with "H2") as %Hlen. destruct l2 as [|e l2], q2 as [|[x c] q2]; try done; cbn [first_of].
    { rw Z.eqb_refl. iApply hwp_ret. iApply ("HQ" with "[//]"). iExists _. iFrame "Hl". iApply (big_sepL2_app with "H1 H2"). }
    iDestruct (dlist_at with "Hl") as %[_ Hne%Z.eqb_neq]. rw Hne. clear Hne.
    wp_bind. iApply (hwp_load_entry with "Hl"). iIntros "Hl". cbn beta iota. cbn [cmocka.value next].
    iDestruct "H2" as "[(%Hp & Hc & Hb & Hv) H2]". wp_bind. iApply (HL with "Hv"). iIntros (location) "Hv". cbn beta iota.
    wp_bind. unfold print_remaining. iApply hwp_cm_print_error. iApply hwp_ret.
    iExists (length l2). iSplit; [done|]. iExists (l1 ++ [e]), l2, (q1 ++ [(x, c)]), q2. rw -!app_assoc. cbn [app]. iFrame "Hl H2 HQ".
    repeat (iSplit; [by auto|]). iApply (big_sepL2_app with "H1"). cbn. by iFrame.
  - iSplit; [iDestruct "Hl" as "[_ Hl]"; by iApply nodes_owned|]. rw length_fmap. iExists [], l, [], q.
    iFrame "Hl Hq HQ". cbn. by iPureIntro.
Qed.

(** The names with something left are counted. *)
Definition leftovers (n : nat) : tree X n -> Z :=
  match n with
  | O => fun _ => 0
  | S n => fun m => Z.of_nat (length (List.filter (fun e => negb (is_empty n e.2)) m))
  end.

Lemma leftovers_snoc n (m : tree X (S n)) s t :
  leftovers (S n) (m ++ [(s, t)]) = leftovers (S n) m + if is_empty n t then 0 else 1.
Proof. cbn [leftovers]. rw List.filter_app length_app Nat2Z.inj_add. cbn. by destruct (is_empty n t). Qed.

Lemma hwp_check_for_leftover_values n h (t : tree X n) message g (Q : outcome Z -> globals -> hProp) :
  0 < h -> n <> O -> owned_tree P n h t -∗
  (∀ g', ⌜steady g g'⌝ -∗ owned_tree P n h t -∗ Q (Done (leftovers n t)) g') -∗
  hwp (check_for_leftover_values h message n) g Q.
Proof.
  revert h t g Q. induction n as [|n IH]; intros h t g Q Hh Hn; [done|]. clear Hn.
  assert (forall child s (sub : tree X n) g (Q : outcome unit -> globals -> hProp), 0 < child -> owned_tree P n child sub -∗
    (∀ g', ⌜steady g g'⌝ -∗ owned_tree P n child sub -∗ Q (Done tt) g') -∗
    hwp (if (n =? 0)%nat then
           cm_print_error "%s: %s\n" [Str message; Str s] ;;
           l <- load_node child ;;
           walk (fun child_node =>
             if child_node ==? child then ret (inr tt) else
             c <- load_node child_node ;;
             location <- load_location (value c) ;;
             print_remaining location ;;
             ret (inl (next c))) (next l)
         else
           cm_print_error "%s: " [Str s] ;;
           check_for_leftover_values child message n ;;
           ret tt) g Q) as Hsub.
  { intros child s sub g0 Q' Hc. iIntros "He HQ". destruct n as [|n]; wp_bind; iApply hwp_cm_print_error.
    - iApply (hwp_show_queue with "He"). iIntros (g' Hg) "He". iApply ("HQ" with "[%] He"). etransitivity; [|exact Hg]. auto.
    - wp_bind. iApply (IH with "He"); [done..|]. iIntros (g' Hg) "He". iApply hwp_ret. iApply ("HQ" with "[%] He").
      etransitivity; [|exact Hg]. auto. }
  iIntros "(%l & Hl & Hm) HQ". cbn [check_for_leftover_values]. wp_bind. iApply hwp_non_null; [lia|]. cbn beta iota.
  wp_bind. iApply hwp_assert; [done|]. cbn beta iota. wp_use (hwp_load_head with "Hl") as "Hl". cbn [next].
  iApply (hwp_walk_bounded _ (fun k st g' => ∃ l1 l2 m1 m2, ⌜t = m1 ++ m2⌝ ∗ ⌜length l2 = k⌝ ∗
    ⌜st = (first_of l2 h, leftovers (S n) m1)⌝ ∗ ⌜steady g g'⌝ ∗ dlist h 0 1 (l1 ++ l2) ∗ names n l1 m1 ∗ names n l2 m2 ∗
    (∀ g', ⌜steady g g'⌝ -∗ owned_tree P (S n) h t -∗ Q (Done (leftovers (S n) t)) g'))%I (place <$> l)).
  - iIntros (k st g') "(%l1 & %l2 & %m1 & %m2 & -> & <- & -> & %Hg & Hl & H1 & H2 & HQ)".
    iDestruct (big_sepL2_length with "H2") as %Hlen. destruct l2 as [|e l2], m2 as [|[s sub] m2]; try done; cbn [first_of].
    { rw Z.eqb_refl. iApply hwp_ret. rw !app_nil_r. iApply ("HQ" with "[//]"). iExists _. iFrame "Hl". iFrame. }
    iDestruct (dlist_at with "Hl") as %[_ Hne%Z.eqb_neq]. rw Hne. clear Hne.
    wp_bind. iApply (hwp_load_entry with "Hl"). iIntros "Hl". cbn beta iota zeta. cbn [cmocka.value next].
    iDestruct "H2" as "[(%Hp & Hc & Hb & Hs & Hbs & He) H2]". cbn [snd fst]. wp_bind. iApply hwp_non_null; [lia|]. cbn beta iota.
    assert (0 < held e + symbol_values_list_head) as Hh' by (unfold symbol_values_list_head; lia).
    iDestruct (owned_open with "He") as "(%lc & %Hlc & Hlc & He)".
    wp_use (hwp_list_empty _ _ _ _ _ _ Hh' with "Hlc") as "Hlc". rw Hlc. iDestruct ("He" with "Hlc") as "He".
    destruct (is_empty n sub) eqn:E.
    + iApply hwp_ret. iExists (length l2). iSplit; [done|]. iExists (l1 ++ [e]), l2, (m1 ++ [(s, sub)]), m2.
      rw leftovers_snoc E -!app_assoc Z.add_0_r. cbn [app]. iFrame "Hl H2 HQ". repeat (iSplit; [done|]).
      iApply (big_sepL2_app with "H1"). cbn. by iFrame.
    + unfold load_symbol_name. wp_bind. wp_use (hwp_load with "Hs") as "Hs". iApply hwp_ret. cbn beta iota.
      wp_bind. iApply (Hsub with "He"); [done|]. iIntros (g2 Hg2) "He". iApply hwp_ret.
      iExists (length l2). iSplit; [done|]. iExists (l1 ++ [e]), l2, (m1 ++ [(s, sub)]), m2.
      rw leftovers_snoc E -!app_assoc. cbn [app]. iFrame "Hl H2 HQ". iSplit; [done|]. iSplit; [done|]. iSplit; [done|].
      iSplit; [by auto|]. iApply (big_sepL2_app with "H1"). cbn. by iFrame.
  - iSplit; [iDestruct "Hl" as "[_ Hl]"; by iApply nodes_owned|]. rw length_fmap. iExists [], l, [], t.
    iFrame "Hl Hm HQ". cbn. destruct n; by iPureIntro.
Qed.
End Leftovers.

(** ** The calls to come *)
Section Calls.
Context `{CText} `{Env} (Habort : getenv "CMOCKA_TEST_ABORT" = None).
Abbreviation entries l t := ([∗ list] e; v ∈ l; t, value_entry call_at e v)%I.

Lemma call_block v f : call_at v f ⊢ ∃ offsets, block_of v offsets ∗ [∗ list] o ∈ offsets, owns (v + o).
Proof. iIntros "(%location & Hv & Hb)". iExists [0]. iFrame. cbn. rw Z.add_0_r. iSplit; [by iExists _|done]. Qed.

(** All that need not come are forgiven, wherever they are. *)
Definition required_calls (q : tree string 0) : tree string 0 := List.filter (fun y => negb (y.2 <? -1)) q.

Lemma required_snoc q s c : required_calls (q ++ [(s, c)]) = required_calls q ++ if c <? -1 then [] else [(s, c)].
Proof. unfold required_calls. rw List.filter_app. cbn. by destruct (c <? -1). Qed.

Lemma hwp_remove_calls q g (Q : outcome unit -> globals -> hProp) :
  owned_calls q -∗ (owned_calls (required_calls q) -∗ Q (Done tt) g) -∗
  hwp (remove_always_return_values_from_list global_call_ordering_head) g Q.
Proof.
  iIntros "(%l & Hl & Hm) HQ". unfold remove_always_return_values_from_list. wp_bind. iApply hwp_non_null; [done|]. cbn beta iota.
  wp_use (hwp_load_head with "Hl") as "Hl". cbn [next].
  iApply (hwp_walk_bounded _ (fun k a g' => ∃ l1 l2 q1 q2, ⌜q = q1 ++ q2⌝ ∗ ⌜length l2 = k⌝ ∗
    ⌜a = first_of l2 global_call_ordering_head⌝ ∗ ⌜g' = g⌝ ∗ dlist global_call_ordering_head 0 1 (l1 ++ l2) ∗
    entries l1 (required_calls q1) ∗ entries l2 q2 ∗
    (owned_calls (required_calls q) -∗ Q (Done tt) g))%I (place <$> l)).
  - iIntros (k a g') "(%l1 & %l2 & %q1 & %q2 & -> & <- & -> & -> & Hl & H1 & H2 & HQ)".
    iDestruct (big_sepL2_length with "H2") as %Hlen. destruct l2 as [|e l2], q2 as [|[s c] q2]; try done; cbn [first_of].
    { rw Z.eqb_refl. iApply hwp_ret. rw !app_nil_r. iApply "HQ". iExists _. iFrame "Hl". iFrame. }
    iDestruct (dlist_at with "Hl") as %[_ Hne%Z.eqb_neq]. rw Hne. clear Hne.
    wp_bind. iApply (hwp_load_entry with "Hl"). iIntros "Hl". cbn beta iota. cbn [refcount next].
    iDestruct "H2" as "[(%Hp & %Hc & Hb & Hv) H2]". cbn in Hc. rw Hc. wp_bind. unfold when. destruct (c <? -1) eqn:E.
    + iApply (hwp_list_remove_free with "Hl Hb"). iIntros "Hl".
      iApply (hwp_free_payload call_at call_block with "Hv"); [done|]. iApply hwp_ret.
      iExists (length l2). iSplit; [done|]. iExists l1, l2, (q1 ++ [(s, c)]), q2. rw required_snoc E app_nil_r -!app_assoc. by iFrame.
    + iApply hwp_ret. iApply hwp_ret. iExists (length l2). iSplit; [done|]. iExists (l1 ++ [e]), l2, (q1 ++ [(s, c)]), q2.
      rw required_snoc E -!app_assoc. cbn [app]. iFrame "Hl H2 HQ". repeat (iSplit; [done|]).
      iApply (big_sepL2_app with "H1"). cbn. by iFrame.
  - iSplit; [iDestruct "Hl" as "[_ Hl]"; by iApply nodes_owned|]. rw length_fmap. iExists [], l, [], q.
    iFrame "Hl Hm HQ". cbn. by iPureIntro.
Qed.

Lemma hwp_check_calls q message g (Q : outcome Z -> globals -> hProp) :
  owned_calls q -∗ (∀ g', ⌜steady g g'⌝ -∗ owned_calls q -∗ Q (Done (Z.of_nat (length q))) g') -∗
  hwp (check_for_leftover_values_list global_call_ordering_head message) g Q.
Proof.
  iIntros "(%l & Hl & Hm) HQ". unfold check_for_leftover_values_list. iDestruct (big_sepL2_length with "Hm") as %Hlm.
  assert (0 < global_call_ordering_head) as Hh by done.
  wp_use (hwp_list_empty _ _ _ _ _ _ Hh with "Hl") as "Hl". destruct (bool_decide (l = [])) eqn:E.
  { apply bool_decide_eq_true in E as ->. destruct q; [|done]. iApply hwp_ret. iApply "HQ"; [by auto|]. iExists []. by iFrame. }
  clear E Hlm. wp_use (hwp_load_head with "Hl") as "Hl". cbn [next].
  iApply (hwp_walk_bounded _ (fun k st g' => ∃ l1 l2 q1 q2, ⌜q = q1 ++ q2⌝ ∗ ⌜length l2 = k⌝ ∗
    ⌜st = (first_of l2 global_call_ordering_head, Z.of_nat (length q1))⌝ ∗ ⌜steady g g'⌝ ∗
    dlist global_call_ordering_head 0 1 (l1 ++ l2) ∗ entries l1 q1 ∗ entries l2 q2 ∗
    (∀ g', ⌜steady g g'⌝ -∗ owned_calls q -∗ Q (Done (Z.of_nat (length q))) g'))%I (place <$> l)).
  - iIntros (k st g') "(%l1 & %l2 & %q1 & %q2 & -> & <- & -> & %Hg & Hl & H1 & H2 & HQ)".
    iDestruct (big_sepL2_length with "H2") as %Hlen. destruct l2 as [|e l2], q2 as [|[s c] q2]; try done; cbn [first_of].
    { rw Z.eqb_refl. iApply hwp_ret. rw !app_nil_r. iApply ("HQ" with "[//]"). iExists _. iFrame "Hl". iFrame. }
    iDestruct (dlist_at with "Hl") as %[_ Hne%Z.eqb_neq]. rw Hne. clear Hne.
    wp_bind. iApply (hwp_load_entry with "Hl"). iIntros "Hl". cbn beta iota. cbn [cmocka.value next].
    iDestruct "H2" as "[(%Hp & Hc & Hb & (%location & Hv & Hvb)) H2]". cbn [fst]. unfold load_ordering, print_remaining.
    wp_bind. wp_use (hwp_load with "Hv") as "Hv". iApply hwp_ret. cbn beta iota.
    wp_bind. iApply hwp_cm_print_error. wp_bind. iApply hwp_cm_print_error. iApply hwp_ret.
    iExists (length l2). iSplit; [done|]. iExists (l1 ++ [e]), l2, (q1 ++ [(s, c)]), q2.
    rw -!app_assoc. cbn [app]. iFrame "Hl H2 HQ". iSplit; [done|]. iSplit; [done|].
    iSplit; [iPureIntro; rw length_app; f_equal; cbn; lia|]. iSplit; [by auto 10|].
    iApply (big_sepL2_app with "H1"). cbn. iFrame. by iFrame.
  - iSplit; [iDestruct "Hl" as "[_ Hl]"; by iApply nodes_owned|]. rw length_fmap. iExists [], l, [], q.
    iFrame "Hl Hm HQ". cbn. by iPureIntro.
Qed.
End Calls.

(** ** The end of a test *)
Section Removed.
Context {X : Type}.

Lemma remove_used_kept n (m : tree X (S n)) e :
  e ∈ remove_used (S n) m -> is_empty n e.2 = false /\ exists e0, e0 ∈ m /\ e.2 = remove_used n e0.2.
Proof.
  cbn [remove_used]. intros (e0 & He0 & H)%list_elem_of_omap. cbn in H. destruct (is_empty n (remove_used n e0.2)) eqn:E; [done|].
  injection H as <-. split; [done|]. by exists e0.
Qed.

Lemma stocked_removed n (t : tree X n) : stocked n t -> stocked n (remove_used n t).
Proof.
  induction n as [|n IH]; [done|]. intros Ht. change (Forall (fun e => is_empty n e.2 = false /\ stocked n e.2) (remove_used (S n) t)).
  apply Forall_forall. intros e (He & e0 & He0 & Heq)%remove_used_kept. split; [done|].
  rw Heq. apply IH. cbn in Ht. rw Forall_forall in Ht. by apply (Ht e0).
Qed.

Lemma leftovers_removed n (t : tree X n) :
  n <> O -> (leftovers n (remove_used n t) !=? 0) = negb (is_empty n (remove_used n t)).
Proof.
  destruct n as [|n]; [done|]. intros _. destruct (remove_used (S n) t) as [|e m] eqn:E; [done|].
  assert (is_empty n e.2 = false) as He. { apply (remove_used_kept n t). rw E. left. }
  cbn. rw He. cbn. done.
Qed.
End Removed.

Section Ends.
Context `{CText} `{Env} (Habort : getenv "CMOCKA_TEST_ABORT" = None).

Lemma result_block v x : result_at v x ⊢ ∃ offsets, block_of v offsets ∗ [∗ list] o ∈ offsets, owns (v + o).
Proof. iIntros "(%location & Hv & Hb)". iExists [0]. iFrame. cbn. rw Z.add_0_r. iSplit; [by iExists _|done]. Qed.
Lemma expectation_block v x : expectation_at v x ⊢ ∃ offsets, block_of v offsets ∗ [∗ list] o ∈ offsets, owns (v + o).
Proof. iIntros "(%location & %s & He & Hx & Hb)". iExists _. iFrame "Hb". iApply (expectation_cells with "He Hx"). Qed.

Lemma result_location v x g (Q : outcome SourceLocation -> globals -> hProp) :
  result_at v x -∗ (∀ location, result_at v x -∗ Q (Done location) g) -∗ hwp (load_location v) g Q.
Proof.
  iIntros "(%location & Hv & Hb) HQ". unfold load_location. wp_use (hwp_load with "Hv") as "Hv". iApply hwp_ret.
  iApply "HQ". iExists _. iFrame.
Qed.
Lemma expectation_location v x g (Q : outcome SourceLocation -> globals -> hProp) :
  expectation_at v x -∗ (∀ location, expectation_at v x -∗ Q (Done location) g) -∗ hwp (load_location v) g Q.
Proof.
  iIntros "(%location & %s & Hv & Hb) HQ". unfold load_location. wp_use (hwp_load with "Hv") as "Hv". iApply hwp_ret.
  iApply "HQ". iExists _, _. iFrame.
Qed.

(** What is left at the end, and whether that is nothing. *)
Definition forgiven (m : mocks) : mocks :=
  mkMocks (remove_used 1 (results m)) (remove_used 2 (params m)) (required_calls (calls m)).
Definition satisfied (m : mocks) : bool :=
  is_empty 1 (results (forgiven m)) && is_empty 2 (params (forgiven m)) && is_empty 0 (calls (forgiven m)).

Lemma hwp_fail_if_leftover_values name m g (Q : outcome unit -> globals -> hProp) :
  global_running_test g <> 0 -> owned_mocks m -∗
  (owned_mocks (forgiven m) -∗ test_post (if satisfied m then Some tt else None) g Q) -∗
  hwp (fail_if_leftover_values name) g Q.
Proof.
  iIntros (Hr) "([%Hr1 H1] & [%Hr2 H2] & H3) HQ". unfold fail_if_leftover_values.
  wp_bind. iApply (hwp_remove_always _ result_block with "H1"); [done..|]. iIntros "H1".
  wp_bind. iApply (hwp_check_for_leftover_values _ result_location with "H1"); [done..|]. iIntros (g1 Hg1) "H1".
  wp_bind. iApply (hwp_remove_always _ expectation_block with "H2"); [done..|]. iIntros "H2".
  wp_bind. iApply (hwp_check_for_leftover_values _ expectation_location with "H2"); [done..|]. iIntros (g2 Hg2) "H2".
  wp_bind. iApply (hwp_remove_calls with "H3"). iIntros "H3".
  wp_bind. iApply (hwp_check_calls with "H3"). iIntros (g3 Hg3) "H3". rw !leftovers_removed //.
  assert ((Z.of_nat (length (required_calls (calls m))) !=? 0) = negb (is_empty 0 (required_calls (calls m)))) as ->
    by by destruct (required_calls (calls m)).
  iSpecialize ("HQ" with "[H1 H2 H3]").
  { iSplitL "H1"; [iFrame "H1"; iPureIntro; by apply stocked_removed|]. iSplitL "H2"; [iFrame "H2"; iPureIntro; by apply stocked_removed|].
    iExact "H3". }
  unfold satisfied, forgiven. cbn [results params calls].
  destruct (is_empty 1 _), (is_empty 2 _), (is_empty 0 _); cbn [negb orb andb when];
    first [iApply hwp_ret|iApply hwp_exit_test; [done|by eauto 10|]]; iApply "HQ"; iPureIntro; by auto 10.
Qed.

(** The lists are empty afterwards, whatever was in them. *)
Lemma hwp_teardown_testing name m g (Q : outcome unit -> globals -> hProp) :
  owned_mocks m -∗ (∀ g', ⌜steady g g'⌝ -∗ owned_mocks no_mocks -∗ Q (Done tt) g') -∗ hwp (teardown_testing name) g Q.
Proof.
  iIntros "([_ H1] & [_ H2] & H3) HQ". unfold teardown_testing.
  wp_bind. iApply (hwp_free_map result_at with "H1"); [done|intros; by apply hwp_free_symbol_map_value, result_block|]. iIntros "H1".
  wp_bind. iApply hwp_modify.
  wp_bind. iApply (hwp_free_map expectation_at with "H2"); [done|intros; by apply hwp_free_symbol_map_value, expectation_block|]. iIntros "H2".
  wp_bind. iApply hwp_modify. wp_bind. iApply (hwp_free_queue call_at call_block with "H3"); [done|]. iIntros "H3".
  iApply hwp_modify. iApply ("HQ" with "[%]"); [by auto 10|].
  iSplitL "H1"; [iSplit; [by iPureIntro; constructor|by iExists []; iFrame]|].
  iSplitL "H2"; [iSplit; [by iPureIntro; constructor|by iExists []; iFrame]|]. iExists []. by iFrame.
Qed.
End Ends.
