(* ===== verification/CmHeap.v ===== *)
(** * Guarded memory

    The blocks that _test_malloc of cmocka.c gives out, between guards, and what
    the functions on them do. *)

From S2P Require Import Prelude.
From S2P Require Import CLib.
From S2P Require Import Sys.
From S2P Require Import Sem.
From S2P Require Import HeapLogic.
From S2P Require Import Cmocka.
From S2P Require Import CmBase.
From S2P Require Import CmLists.
From S2P Require Import CmMock.
From S2P Require Import CmOps.
From iris.bi Require Import bi.
From iris.proofmode Require Import proofmode.
#[local] Open Scope Z_scope.
#[local] Open Scope cmd_scope.
Import cmocka.

#[local] Abbreviation hProp := (hpropI cell).

(** ** Bytes *)
Definition bytes_at (p : Z) (l : list Z) : hProp := ([∗ list] k ↦ b ∈ l, pts (p + Z.of_nat k) (CByte b))%I.
(** Cells to write over. *)
Definition raw (p : Z) (n : nat) : hProp := ([∗ list] k ∈ seq 0 n, owns (p + Z.of_nat k))%I.

Lemma raw_from p m n : ([∗ list] k ∈ seq m n, owns (p + Z.of_nat k)) ⊣⊢ raw (p + Z.of_nat m) n.
Proof.
  assert (seq m n = Nat.add m <$> seq 0 n) as -> by by rw fmap_add_seq Nat.add_0_r.
  unfold raw. rw big_sepL_fmap. apply big_sepL_proper. intros k x _.
  by replace (p + Z.of_nat (m + x)) with (p + Z.of_nat m + Z.of_nat x) by lia.
Qed.
Lemma raw_app p m n : raw p (m + n) ⊣⊢ raw p m ∗ raw (p + Z.of_nat m) n.
Proof. unfold raw at 1. rw seq_app big_sepL_app (raw_from p (0 + m) n). reflexivity. Qed.
Lemma raw_one p : raw p 1 ⊣⊢ owns p.
Proof. unfold raw. cbn. by rw Z.add_0_r right_id. Qed.

Lemma bytes_app p l1 l2 : bytes_at p (l1 ++ l2) ⊣⊢ bytes_at p l1 ∗ bytes_at (p + Z.of_nat (length l1)) l2.
Proof.
  unfold bytes_at. rw big_sepL_app. apply bi.sep_proper; [done|]. apply big_sepL_proper. intros k x _.
  by replace (p + Z.of_nat (length l1 + k)) with (p + Z.of_nat (length l1) + Z.of_nat k) by lia.
Qed.
Lemma bytes_cons p b l : bytes_at p (b :: l) ⊣⊢ pts p (CByte b) ∗ bytes_at (p + 1) l.
Proof. rw (bytes_app p [b] l). unfold bytes_at at 1. cbn. by rw Z.add_0_r right_id. Qed.
Lemma raw_S p n : raw p (S n) ⊣⊢ owns p ∗ raw (p + 1) n.
Proof. rw (raw_app p 1 n) raw_one. done. Qed.

Lemma bytes_raw p l : bytes_at p l ⊢ raw p (length l).
Proof.
  revert p. induction l as [|b l IH]; intros p; [done|]. rw bytes_cons raw_S IH. iIntros "[H $]". by iExists _.
Qed.

Lemma raw_intro p n : ([∗ list] k ∈ seq 0 n, owns (p + Z.of_nat k)) ⊢ raw p n.
Proof. done. Qed.
Lemma raw_elim p n : raw p n ⊢ [∗ list] k ∈ seq 0 n, owns (p + Z.of_nat k).
Proof. done. Qed.

Lemma bytes_acc p l k b : l !! k = Some b ->
  bytes_at p l ⊢ pts (p + Z.of_nat k) (CByte b) ∗ (∀ c, pts (p + Z.of_nat k) (CByte c) -∗ bytes_at p (<[k:=c]> l)).
Proof. intros Hk. unfold bytes_at. rw {1}(big_sepL_insert_acc _ l k b Hk). done. Qed.

Section Memory.
Context `{CText} `{Env} (Habort : getenv "CMOCKA_TEST_ABORT" = None).

Lemma bytes_seq n : bytes (Z.of_nat n) = map Z.of_nat (seq 0 n).
Proof. unfold bytes. by rw Nat2Z.id. Qed.

(** A loop over the cells of a block. *)
Lemma hwp_memset_from p c m n g (Q : outcome unit -> globals -> hProp) :
  raw (p + Z.of_nat m) n -∗ (bytes_at (p + Z.of_nat m) (repeat c n) -∗ Q (Done tt) g) -∗
  hwp (for_each (map Z.of_nat (seq m n)) (fun i => store (p + i) (CByte c))) g Q.
Proof.
  revert m Q. induction n as [|n IH]; iIntros (m Q) "Hr HQ"; cbn [seq map for_each repeat].
  - iApply hwp_ret. by iApply "HQ".
  - iEval (rw raw_S) in "Hr". iDestruct "Hr" as "[(%v & Hv) Hr]". wp_use (hwp_store with "Hv") as "Hv".
    replace (p + Z.of_nat m + 1) with (p + Z.of_nat (S m)) by lia. iApply (IH with "Hr"). iIntros "Hb".
    iApply "HQ". rw bytes_cons. replace (p + Z.of_nat m + 1) with (p + Z.of_nat (S m)) by lia. iFrame.
Qed.

Lemma hwp_memset p c n z g (Q : outcome unit -> globals -> hProp) :
  z = Z.of_nat n -> raw p n -∗ (bytes_at p (repeat c n) -∗ Q (Done tt) g) -∗ hwp (memset p c z) g Q.
Proof.
  intros ->. unfold memset. rw bytes_seq. iIntros "Hr HQ". iApply (hwp_memset_from p c 0 with "[Hr]"); rw Z.add_0_r; [done|].
  iExact "HQ".
Qed.

Lemma hwp_load_bytes p l g (Q : outcome (list Z) -> globals -> hProp) :
  bytes_at p l -∗ (bytes_at p l -∗ Q (Done l) g) -∗ hwp (load_bytes p (length l)) g Q.
Proof.
  revert p Q. induction l as [|b l IH]; iIntros (p Q) "Hb HQ"; cbn [length load_bytes].
  - iApply hwp_ret. by iApply "HQ".
  - iEval (rw bytes_cons) in "Hb". iDestruct "Hb" as "[H Hb]". unfold load_byte. wp_bind. wp_use (hwp_load with "H") as "H".
    iApply hwp_ret. wp_bind. iApply (IH with "Hb"). iIntros "Hb". iApply hwp_ret. iApply "HQ". rw bytes_cons. iFrame.
Qed.

Lemma hwp_copy_from dst m l g (Q : outcome unit -> globals -> hProp) :
  raw (dst + Z.of_nat m) (length l) -∗ (bytes_at (dst + Z.of_nat m) l -∗ Q (Done tt) g) -∗
  hwp (for_each (imap (fun i b => (Z.of_nat (m + i), b)) l) (fun '(i, b) => store (dst + i) (CByte b))) g Q.
Proof.
  revert m Q. induction l as [|b l IH]; iIntros (m Q) "Hr HQ"; cbn [length imap for_each].
  - iApply hwp_ret. by iApply "HQ".
  - iEval (rw raw_S) in "Hr". iDestruct "Hr" as "[(%v & Hv) Hr]". rw Nat.add_0_r. wp_use (hwp_store with "Hv") as "Hv".
    replace (dst + Z.of_nat m + 1) with (dst + Z.of_nat (S m)) by lia.
    rw (imap_ext _ (fun i b => (Z.of_nat (S m + i), b))); [|by intros i x _; cbn; rw Nat.add_succ_r].
    iApply (IH with "Hr"). iIntros "Hb".
    iApply "HQ". rw bytes_cons. replace (dst + Z.of_nat m + 1) with (dst + Z.of_nat (S m)) by lia. iFrame.
Qed.

Lemma hwp_memcpy dst src l n g (Q : outcome unit -> globals -> hProp) :
  n = Z.of_nat (length l) -> raw dst (length l) -∗ bytes_at src l -∗
  (bytes_at dst l -∗ bytes_at src l -∗ Q (Done tt) g) -∗ hwp (memcpy dst src n) g Q.
Proof.
  iIntros (->) "Hr Hb HQ". unfold memcpy. rw Nat2Z.id. wp_bind. iApply (hwp_load_bytes with "Hb"). iIntros "Hb". cbn beta iota.
  iApply (hwp_copy_from dst 0 with "[Hr]"); rw Z.add_0_r; [done|]. iIntros "Hd". iApply ("HQ" with "Hd Hb").
Qed.


#[local] Opaque raw bytes_at.
#[local] Hint Opaque raw bytes_at block_of : typeclass_instances.

(** ** Guards *)
Definition is_byte (b : Z) : Prop := 0 <= b < 256.
Definition unchanged (guard : list Z) : bool := forallb (fun b => b ==? MALLOC_GUARD_PATTERN) guard.

Lemma guard_byte b : is_byte b -> (i8 (b - MALLOC_GUARD_PATTERN) !=? 0) = negb (b ==? MALLOC_GUARD_PATTERN).
Proof.
  intros Hb. unfold is_byte in Hb. unfold MALLOC_GUARD_PATTERN, swrap. f_equal.
  change (2 ^ (8 - 1)) with 128. change (2 ^ 8) with 256.
  destruct (Z.eqb_spec b 239) as [->|Hne]; [done|]. apply Z.eqb_neq. Z.to_euclidean_division_equations. lia.
Qed.

(** The program goes on, or stops here. *)
Definition goes_on (passed : bool) (g : globals) (Q : outcome unit -> globals -> hProp) : hProp :=
  (∀ g', ⌜steady g g'⌝ -∗ Q (if passed then Done tt else stop_of g unit) g')%I.

Lemma goes_steady passed g g' Q : steady g g' -> goes_on passed g Q ⊢ goes_on passed g' Q.
Proof.
  iIntros (Hg) "HQ %g2 %Hg2". rw (steady_stop _ _ Hg). iApply "HQ". iPureIntro. by etransitivity.
Qed.

Lemma hwp_check_guard_from ptr guard info file line m l g (Q : outcome unit -> globals -> hProp) :
  Forall is_byte l -> bytes_at (guard + Z.of_nat m) l -∗
  (bytes_at (guard + Z.of_nat m) l -∗ goes_on (unchanged l) g Q) -∗
  hwp (for_each (map Z.of_nat (seq m (length l))) (check_guard ptr guard info file line)) g Q.
Proof.
  intros Hl. revert m Q. induction Hl as [|b l Hb _ IH]; iIntros (m Q) "Hb HQ"; cbn [length seq map for_each].
  - iApply hwp_ret. by iApply ("HQ" with "Hb").
  - iEval (rw bytes_cons) in "Hb". iDestruct "Hb" as "[H Hb]". unfold check_guard at 1, load_byte. wp_bind. do 2 wp_bind.
    iApply (hwp_load with "H"). iIntros "H". cbn beta iota. iApply hwp_ret. cbn beta iota. rw guard_byte //. unfold unchanged. cbn [forallb].
    destruct (b ==? MALLOC_GUARD_PATTERN) eqn:E; cbn [negb andb when].
    + iApply hwp_ret. replace (guard + Z.of_nat m + 1) with (guard + Z.of_nat (S m)) by lia. iApply (IH with "Hb").
      iIntros "Hb". iApply "HQ". rw bytes_cons. replace (guard + Z.of_nat m + 1) with (guard + Z.of_nat (S m)) by lia.
      iSplitL "H"; [iExact "H"|iExact "Hb"].
    + wp_bind. iApply hwp_cm_print_error. iApply hwp_fail_any; [done|]. iIntros (g' Hg).
      match type of Hg with steady ?gt _ => assert (steady g gt) as Hgt by auto end. rw (steady_stop _ _ Hgt).
      iSpecialize ("HQ" with "[H Hb]"); [rw bytes_cons; iSplitL "H"; [iExact "H"|iExact "Hb"]|].
      iSpecialize ("HQ" $! g' with "[%]"); [by etransitivity|]. stops g.
Qed.

Lemma hwp_check_guard ptr guard info file line l g (Q : outcome unit -> globals -> hProp) :
  Forall is_byte l -> length l = 16%nat -> bytes_at guard l -∗
  (bytes_at guard l -∗ goes_on (unchanged l) g Q) -∗
  hwp (for_each (bytes MALLOC_GUARD_SIZE) (check_guard ptr guard info file line)) g Q.
Proof.
  iIntros (Hl Hn) "Hb HQ". change (bytes MALLOC_GUARD_SIZE) with (map Z.of_nat (seq 0 16)). rw -Hn.
  iApply (hwp_check_guard_from _ _ _ _ _ 0 with "[Hb]"); rw ?Z.add_0_r; done.
Qed.

(** ** Blocks *)

(** What the test may touch of a block of [room] bytes: the bytes of the guard
    below, of the block and of the guard above. *)
Record region := mkRegion { room : nat; content : list Z }.
Definition lower (r : region) : list Z := take 16 (content r).
Definition own (r : region) : list Z := take (room r) (drop 16 (content r)).
Definition upper (r : region) : list Z := drop (16 + room r) (content r).
Definition shaped (r : region) : Prop := length (content r) = (16 + (room r + 16))%nat /\ Forall is_byte (content r).
(** Both guards are as they were made. *)
Definition intact (r : region) : bool := unchanged (lower r) && unchanged (upper r).

Definition touchable (r : region) (off : Z) : bool := (-16 <=? off) && (off <? Z.of_nat (room r) + 16).
Definition byte_at (r : region) (off : Z) : Z := nth (Z.to_nat (off + 16)) (content r) 0.
Definition set_byte (r : region) (off b : Z) : region := mkRegion (room r) (<[Z.to_nat (off + 16) := b]> (content r)).
Definition fresh_region (n : nat) (bytes : list Z) : region :=
  mkRegion n (repeat MALLOC_GUARD_PATTERN 16 ++ bytes ++ repeat MALLOC_GUARD_PATTERN 16).

(** A block: its address, where it was asked for, and its region. *)
Record gblock := mkBlock { base : Z; asked : SourceLocation; inside : region }.
(** The address the test has. *)
Definition given (x : gblock) : Z := base x + 96.
Definition block_size (x : gblock) : Z := Z.of_nat (room (inside x)).
Definition info_of (x : gblock) : MallocBlockInfoData :=
  mkBlockInfo (base x) (block_size x + 112) (block_size x) (asked x).
Definition with_region (x : gblock) (r : region) : gblock := mkBlock (base x) (asked x) r.

Lemma region_split r : content r = lower r ++ own r ++ upper r.
Proof. unfold lower, own, upper. by rw -drop_drop !take_drop. Qed.
Lemma lower_length r : shaped r -> length (lower r) = 16%nat.
Proof. intros [Hl _]. unfold lower. rw length_take. lia. Qed.
Lemma own_length r : shaped r -> length (own r) = room r.
Proof. intros [Hl _]. unfold own. rw length_take length_drop. lia. Qed.
Lemma upper_length r : shaped r -> length (upper r) = 16%nat.
Proof. intros [Hl _]. unfold upper. rw length_drop. lia. Qed.

Lemma guard_bytes : Forall is_byte (repeat MALLOC_GUARD_PATTERN 16).
Proof. rw Forall_forall. intros x Hx%list_elem_of_In%repeat_spec. by subst x. Qed.
Lemma fresh_shaped n l : length l = n -> Forall is_byte l -> shaped (fresh_region n l).
Proof.
  intros Hn Hl. split; unfold fresh_region; cbn [content room].
  - rw !length_app !repeat_length. lia.
  - rw !Forall_app. split_and!; [apply guard_bytes|done|apply guard_bytes].
Qed.
Lemma fresh_own n l : length l = n -> own (fresh_region n l) = l.
Proof.
  intros <-. unfold own, fresh_region. cbn [content room]. rw drop_app_length' //. by rw take_app_length.
Qed.
Lemma fresh_intact n l : length l = n -> intact (fresh_region n l) = true.
Proof.
  intros <-. unfold intact, lower, upper, fresh_region. cbn [content room].
  rw take_app_length' // -drop_drop drop_app_length' // drop_app_length. done.
Qed.
Lemma set_shaped r off b : shaped r -> is_byte b -> shaped (set_byte r off b).
Proof. intros [H1 H2] Hb. split; cbn [content room set_byte]; [by rw length_insert|by apply Forall_insert]. Qed.

Lemma touch_lookup r off : shaped r -> touchable r off = true ->
  content r !! Z.to_nat (off + 16) = Some (byte_at r off) /\ Z.of_nat (Z.to_nat (off + 16)) = off + 16.
Proof.
  intros [Hl _] [H1%Z.leb_le H2%Z.ltb_lt]%andb_true_iff. split; [|lia]. unfold byte_at.
  destruct (nth_lookup_or_length (content r) (Z.to_nat (off + 16)) 0) as [E|Hn]; [exact E|]. rw Hl in Hn. lia.
Qed.
Lemma returned_floor b : returned_address b = (b + 96) / 8 * 8.
Proof.
  unfold returned_address, MALLOC_GUARD_SIZE, sizeof_MallocBlockInfoData, MALLOC_ALIGNMENT.
  replace (b + 16 + 72 + 8) with (b + 96) by lia. change (Z.lnot (8 - 1)) with (Z.lnot (Z.ones 3)).
  by rw -Z.ldiff_land Z.ldiff_ones_r // Z.shiftr_div_pow2 // Z.shiftl_mul_pow2.
Qed.

Lemma returned_aligned b : b mod 16 = 0 -> returned_address b = b + 96.
Proof.
  intros Hb. rw returned_floor. pose proof (Z.div_mod b 16 ltac:(done)) as E. rw Hb Z.add_0_r in E. rw E.
  replace (16 * (b / 16) + 96) with ((2 * (b / 16) + 12) * 8) by lia. by rw Z_div_mult.
Qed.

(** *** A block on the heap *)
Definition placed (e : entry) (x : gblock) : Prop :=
  held e = base x + 8 /\ place e = base x + 48 /\ 0 < base x /\ base x mod 16 = 0.

(** Its node is in the list; the rest is here. *)
Definition owned_block (e : entry) (x : gblock) : hProp :=
  (⌜placed e x /\ shaped (inside x)⌝ ∗
   block_of (base x) (bytes (block_size x + 112)) ∗
   raw (base x) 8 ∗ pts (base x + 8) (CMallocBlockInfo (info_of x)) ∗ raw (base x + 9) 39 ∗ raw (base x + 49) 31 ∗
   bytes_at (base x + 80) (content (inside x)))%I.

Lemma raw_split p n m k : n = (m + k)%nat -> raw p n ⊣⊢ raw p m ∗ raw (p + Z.of_nat m) k.
Proof. intros ->. apply raw_app. Qed.

(** The pieces of a block of bytes. *)
Lemma raw_pieces b n :
  raw b (n + 112) ⊣⊢ raw b 8 ∗ owns (b + 8) ∗ raw (b + 9) 39 ∗ owns (b + 48) ∗ raw (b + 49) 31 ∗
    raw (b + 80) (16 + (n + 16)).
Proof.
  rw (raw_split b (n + 112) 8 (n + 104)); [|lia]. rw (raw_split _ (n + 104) 1 (n + 103)); [|lia].
  rw (raw_split _ (n + 103) 39 (n + 64)); [|lia]. rw (raw_split _ (n + 64) 1 (n + 63)); [|lia].
  rw (raw_split _ (n + 63) 31 (16 + (n + 16))); [|lia]. rw !raw_one.
  replace (b + Z.of_nat 8 + Z.of_nat 1) with (b + 9) by lia. replace (b + 9 + Z.of_nat 39) with (b + 48) by lia.
  replace (b + 48 + Z.of_nat 1) with (b + 49) by lia. by replace (b + 49 + Z.of_nat 31) with (b + 80) by lia.
Qed.

Lemma hwp_malloc_bytes n g (Q : outcome Z -> globals -> hProp) :
  (∀ p, ⌜0 < p⌝ -∗ ⌜p mod 16 = 0⌝ -∗ block_of p (bytes (Z.of_nat n)) -∗ raw p n -∗ Q (Done p) g) ⊢
  hwp (malloc_bytes (Z.of_nat n)) g Q.
Proof.
  iIntros "HQ". unfold malloc_bytes. rw bytes_seq.
  assert ((map (fun i => (i, CByte 0)) (map Z.of_nat (seq 0 n))).*1 = map Z.of_nat (seq 0 n)) as E.
  { rw -{2}(list_fmap_id (map Z.of_nat (seq 0 n))). generalize (map Z.of_nat (seq 0 n)) as l.
    intros l. induction l as [|x l IH]; [done|]. cbn. by rw IH. }
  iApply hwp_malloc; rw ?E.
  - apply NoDup_fmap_2; [intros x y; lia|apply NoDup_seq].
  - apply Forall_map, Forall_map. apply Forall_true. intros x. cbn. lia.
  - iIntros (p Hp Hm) "Hb Hc". iApply ("HQ" with "[//] [//] Hb"). iApply raw_intro. rw !big_sepL_fmap.
    iApply (big_sepL_mono with "Hc"). intros k x _. cbn. by iIntros "H"; iExists _.
Qed.

(** *** The list of blocks *)
Definition owned_blocks (xs : list gblock) : hProp :=
  ((∃ n, node_at global_allocated_blocks n ∗ ⌜value n = 0 /\ xs = []⌝) ∨
   (∃ v r l, ⌜v <> 0⌝ ∗ dlist global_allocated_blocks v r l ∗ [∗ list] e; x ∈ l; xs, owned_block e x))%I.
Definition listed_blocks (xs : list gblock) : hProp :=
  (∃ v r l, ⌜v <> 0⌝ ∗ dlist global_allocated_blocks v r l ∗ [∗ list] e; x ∈ l; xs, owned_block e x)%I.

Lemma listed_owned xs : listed_blocks xs ⊢ owned_blocks xs.
Proof. iIntros "H". by iRight. Qed.

Lemma hwp_blocks_list xs g (Q : outcome Z -> globals -> hProp) :
  owned_blocks xs -∗ (listed_blocks xs -∗ Q (Done global_allocated_blocks) g) -∗ hwp get_allocated_blocks_list g Q.
Proof.
  iIntros "[(%n & Hn & [%Hv ->])|(%v & %r & %l & %Hv & Hl & Hx)] HQ"; unfold get_allocated_blocks_list, when.
  - wp_use (hwp_load_node with "Hn") as "Hn". rw Hv. cbn [Z.eqb]. wp_bind.
    wp_use (hwp_list_initialize with "Hn") as "[Hn _]". wp_use (hwp_load_node with "Hn") as "Hn".
    wp_last (hwp_store_node with "Hn") as "Hn". iApply hwp_ret. iApply "HQ". iExists 1, _, []. unfold dlist. iSplit; [done|]. by iFrame.
  - wp_use (hwp_load_head with "Hl") as "Hl". cbn [value]. rw (proj2 (Z.eqb_neq v 0) Hv). wp_bind. iApply hwp_ret. iApply hwp_ret.
    iApply "HQ". iExists v, r, l. by iFrame.
Qed.

(** *** Allocation *)
Definition fresh_block (b : Z) (file : string) (line : Z) (l : list Z) : gblock :=
  mkBlock b (set_source_location file line) (fresh_region (length l) l).
Definition unset (n : nat) : list Z := repeat MALLOC_ALLOC_PATTERN n.

(** The requests that do not wrap around. *)
Definition requestable (n : nat) : Prop := Z.of_nat n + 112 < 2 ^ 64.

Lemma allocate_size_exact n : requestable n -> allocate_size (Z.of_nat n) = Z.of_nat n + 112.
Proof.
  intros Hn. unfold requestable in Hn. unfold allocate_size, MALLOC_GUARD_SIZE, sizeof_MallocBlockInfoData, MALLOC_ALIGNMENT, uwrap.
  replace (Z.of_nat n + 16 * 2 + 72 + 8) with (Z.of_nat n + 112) by lia. apply Z.mod_small. lia.
Qed.

Lemma unset_bytes n : Forall is_byte (unset n).
Proof. rw Forall_forall. intros x Hx%list_elem_of_In%repeat_spec. by subst x. Qed.

Lemma listed_snoc v r l xs e x :
  v <> 0 -> dlist global_allocated_blocks v r (l ++ [e]) -∗ ([∗ list] e; x ∈ l; xs, owned_block e x) -∗
  owned_block e x -∗ listed_blocks (xs ++ [x]).
Proof.
  iIntros (Hv) "Hl Hx Hb". iExists v, r, (l ++ [e]). iSplit; [done|]. iSplitL "Hl"; [iExact "Hl"|].
  iApply (big_sepL2_app with "Hx"). cbn. iSplit; [iExact "Hb"|done].
Qed.

Lemma hwp_test_malloc n file line xs g (Q : outcome Z -> globals -> hProp) :
  requestable n -> owned_blocks xs -∗
  (∀ b, listed_blocks (xs ++ [fresh_block b file line (unset n)]) -∗ Q (Done (b + 96)) g) -∗
  hwp (_test_malloc (Z.of_nat n) file line) g Q.
Proof.
  iIntros (Hn) "Hx HQ". unfold _test_malloc. wp_bind. iApply (hwp_blocks_list with "Hx"). iIntros "(%v & %r & %l & %Hv & Hl & Hx)".
  cbn beta iota zeta. rw allocate_size_exact //. wp_bind. iApply hwp_assert; [apply Z.ltb_lt; lia|]. cbn beta iota.
  replace (Z.of_nat n + 112) with (Z.of_nat (n + 112)) by lia. wp_bind. iApply hwp_malloc_bytes. iIntros (b Hb Hm) "Hbl Hr". cbn beta iota.
  wp_bind. iApply hwp_non_null; [lia|]. cbn beta iota zeta. rw returned_aligned //. unfold block_info, MALLOC_GUARD_SIZE, sizeof_MallocBlockInfoData, node_offset.
  rw raw_pieces !raw_app. iDestruct "Hr" as "(H0 & (%c1 & Hi) & H9 & (%c2 & Hn) & H49 & Hlo & Hd & Hhi)".
  replace (b + 96 - 16) with (b + 80) by lia. replace (b + 80 + Z.of_nat 16) with (b + 96) by lia.
  wp_bind. iApply (hwp_memset with "Hlo"); [done|]. iIntros "Hlo". cbn beta iota.
  wp_bind. iApply (hwp_memset with "Hhi"); [done|]. iIntros "Hhi". cbn beta iota.
  wp_bind. iApply (hwp_memset with "Hd"); [done|]. iIntros "Hd". cbn beta iota.
  replace (b + 96 - (16 + 72)) with (b + 8) by lia. wp_use (hwp_store with "Hi") as "Hi".
  replace (b + 8 + 40) with (b + 48) by lia. wp_use (hwp_store with "Hn") as "Hn".
  wp_bind. iApply (hwp_list_add _ _ _ _ (mkEntry (b + 48) (b + 8) 0) with "Hl Hn"); [done|cbn; lia|]. iIntros "Hl". cbn beta iota.
  iApply hwp_ret. iApply "HQ". iApply (listed_snoc with "Hl Hx"); [done|].
  unfold owned_block, info_of, block_size, fresh_block, fresh_region. cbn [base asked inside room content]. unfold unset. rw repeat_length.
  replace (Z.of_nat n + 112) with (Z.of_nat (n + 112)) by lia.
  iSplit.
  { iPureIntro. split; [by split_and!|]. apply fresh_shaped; [apply repeat_length|apply unset_bytes]. }
  iSplitL "Hbl"; [iExact "Hbl"|]. iSplitL "H0"; [iExact "H0"|]. iSplitL "Hi"; [iExact "Hi"|]. iSplitL "H9"; [iExact "H9"|].
  iSplitL "H49"; [iExact "H49"|]. rw !bytes_app !repeat_length. replace (b + 80 + Z.of_nat 16) with (b + 96) by lia.
  iSplitL "Hlo"; [iExact "Hlo"|]. iSplitL "Hd"; [iExact "Hd"|iExact "Hhi"].
Qed.

(** A request that wraps around is refused. *)
Lemma hwp_test_malloc_wraps size file line xs g (Q : outcome Z -> globals -> hProp) :
  (size <? allocate_size size) = false -> owned_blocks xs -∗
  (listed_blocks xs -∗ ∀ g', ⌜steady g g'⌝ -∗ Q (stop_of g Z) g') -∗
  hwp (_test_malloc size file line) g Q.
Proof.
  iIntros (Hs) "Hx HQ". unfold _test_malloc. wp_bind. iApply (hwp_blocks_list with "Hx"). iIntros "Hx". cbn beta iota zeta.
  wp_bind. unfold assert_true, _assert_true, when. rw Hs. cbn [Z.eqb]. wp_bind. iApply hwp_cm_print_error.
  iApply hwp_fail_any; [done|]. iIntros (g' Hg).
  match type of Hg with steady ?gt _ => assert (steady g gt) as Hgt by auto end. rw (steady_stop _ _ Hgt).
  iSpecialize ("HQ" with "Hx [%]"); [by etransitivity|]. stops g.
Qed.
(** *** Release *)
Lemma region_at p r : shaped r ->
  bytes_at p (content r) ⊣⊢ bytes_at p (lower r) ∗ bytes_at (p + 16) (own r) ∗ bytes_at (p + 16 + Z.of_nat (room r)) (upper r).
Proof. intros Hr. rw {1}(region_split r) !bytes_app lower_length // own_length //. Qed.

Lemma hwp_check_guards x file line g (Q : outcome unit -> globals -> hProp) :
  shaped (inside x) -> bytes_at (base x + 80) (content (inside x)) -∗
  (bytes_at (base x + 80) (content (inside x)) -∗ goes_on (intact (inside x)) g Q) -∗
  hwp (for_each [given x - MALLOC_GUARD_SIZE; given x + bi_size (info_of x)] (fun guard =>
    for_each (bytes MALLOC_GUARD_SIZE) (check_guard (given x) guard (info_of x) file line))) g Q.
Proof.
  iIntros (Hs) "Hb HQ". rw (region_at _ _ Hs). iDestruct "Hb" as "(Hlo & Hd & Hhi)".
  assert (Forall is_byte (lower (inside x)) /\ Forall is_byte (upper (inside x))) as [Bl Bh].
  { destruct Hs as [_ Hb]. rw (region_split (inside x)) !Forall_app in Hb. tauto. }
  cbn [for_each]. change (bi_size (info_of x)) with (block_size x).
  replace (given x - MALLOC_GUARD_SIZE) with (base x + 80) by (unfold given, MALLOC_GUARD_SIZE; lia).
  replace (given x + block_size x) with (base x + 80 + 16 + Z.of_nat (room (inside x))) by (unfold given, block_size; lia).
  wp_bind. iApply (hwp_check_guard with "Hlo"); [done|by apply lower_length|]. iIntros "Hlo" (g1 Hg1). unfold intact.
  destruct (unchanged (lower (inside x))); cbn [andb].
  - cbn beta iota. wp_bind. iApply (hwp_check_guard with "Hhi"); [done|by apply upper_length|]. iIntros "Hhi" (g2 Hg2).
    iSpecialize ("HQ" with "[Hlo Hd Hhi]"); [iSplitL "Hlo"; [iExact "Hlo"|]; iSplitL "Hd"; [iExact "Hd"|iExact "Hhi"]|].
    iSpecialize ("HQ" $! g2 with "[%]"); [by etransitivity|]. rw (steady_stop _ _ Hg1).
    destruct (unchanged (upper (inside x))); [by iApply hwp_ret|]. stops g.
  - iSpecialize ("HQ" with "[Hlo Hd Hhi]"); [iSplitL "Hlo"; [iExact "Hlo"|]; iSplitL "Hd"; [iExact "Hd"|iExact "Hhi"]|].
    iSpecialize ("HQ" $! g1 with "[//]"). stops g.
Qed.

(** All the cells of a block, for the last [memset] and [free]. *)
Lemma block_raw e x :
  owned_block e x -∗ owns (place e) -∗
  block_of (base x) (bytes (block_size x + 112)) ∗ raw (base x) (room (inside x) + 112) ∗ ⌜0 < base x⌝.
Proof.
  iIntros "([%Hp %Hs] & Hbl & H0 & Hi & H9 & H49 & Hb) Hn". destruct Hp as (_ & Hp & Hb & _). destruct Hs as [Hl _].
  iSplitL "Hbl"; [iExact "Hbl"|]. iSplitL; [|done]. rw raw_pieces bytes_raw Hl -Hp.
  iSplitL "H0"; [iExact "H0"|]. iSplitL "Hi"; [by iExists _|]. iSplitL "H9"; [iExact "H9"|].
  iSplitL "Hn"; [iExact "Hn"|]. iSplitL "H49"; [iExact "H49"|iExact "Hb"].
Qed.

Lemma hwp_load_info e x g (Q : outcome MallocBlockInfoData -> globals -> hProp) :
  owned_block e x -∗ (owned_block e x -∗ Q (Done (info_of x)) g) -∗ hwp (load_block_info (base x + 8)) g Q.
Proof.
  iIntros "(Hp & Hbl & H0 & Hi & H9 & H49 & Hb) HQ". unfold load_block_info. wp_use (hwp_load with "Hi") as "Hi".
  iApply hwp_ret. iApply "HQ". iSplitL "Hp"; [iExact "Hp"|]. iSplitL "Hbl"; [iExact "Hbl"|]. iSplitL "H0"; [iExact "H0"|].
  iSplitL "Hi"; [iExact "Hi"|]. iSplitL "H9"; [iExact "H9"|]. iSplitL "H49"; [iExact "H49"|iExact "Hb"].
Qed.

(** One block among the others. *)
Definition block_among (v r : Z) (l1 : list entry) (e : entry) (l2 : list entry) (xs1 xs2 : list gblock) : hProp :=
  (dlist global_allocated_blocks v r (l1 ++ e :: l2) ∗ ([∗ list] e; x ∈ l1; xs1, owned_block e x) ∗
   ([∗ list] e; x ∈ l2; xs2, owned_block e x))%I.

Lemma listed_at xs1 x xs2 :
  listed_blocks (xs1 ++ x :: xs2) ⊢ ∃ v r l1 e l2, ⌜v <> 0⌝ ∗ block_among v r l1 e l2 xs1 xs2 ∗ owned_block e x.
Proof.
  iIntros "(%v & %r & %l & %Hv & Hl & Hx)". iDestruct (big_sepL2_app_inv_r with "Hx") as (l1 l2) "(-> & H1 & H2)".
  iDestruct (big_sepL2_cons_inv_r with "H2") as (e l2') "(-> & He & H2)". iExists v, r, l1, e, l2'. iSplit; [done|].
  iSplitR "He"; [|iExact "He"]. iSplitL "Hl"; [iExact "Hl"|]. iSplitL "H1"; [iExact "H1"|iExact "H2"].
Qed.
Lemma listed_again v r l1 e l2 xs1 x xs2 :
  v <> 0 -> block_among v r l1 e l2 xs1 xs2 -∗ owned_block e x -∗ listed_blocks (xs1 ++ x :: xs2).
Proof.
  iIntros (Hv) "(Hl & H1 & H2) Hb". iExists v, r, (l1 ++ e :: l2). iSplit; [done|]. iSplitL "Hl"; [iExact "Hl"|].
  iApply (big_sepL2_app with "H1"). iSplitL "Hb"; [iExact "Hb"|iExact "H2"].
Qed.

Lemma listed_one xs1 x xs2 :
  listed_blocks (xs1 ++ x :: xs2) ⊢
  ∃ e, owned_block e x ∗ (∀ x', owned_block e x' -∗ listed_blocks (xs1 ++ x' :: xs2)).
Proof.
  rw listed_at. iIntros "(%v & %r & %l1 & %e & %l2 & %Hv & Hl & Hb)". iExists e. iSplitL "Hb"; [iExact "Hb"|].
  iIntros (x') "Hb". by iApply (listed_again with "Hl Hb").
Qed.
Lemma listed_two xs1 x xs2 y :
  listed_blocks (xs1 ++ x :: xs2 ++ [y]) ⊢
  ∃ e f, owned_block e x ∗ owned_block f y ∗
    (∀ x' y', owned_block e x' -∗ owned_block f y' -∗ listed_blocks (xs1 ++ x' :: xs2 ++ [y'])).
Proof.
  rw listed_at. iIntros "(%v & %r & %l1 & %e & %l2 & %Hv & (Hl & H1 & H2) & Hb)".
  iDestruct (big_sepL2_app_inv_r with "H2") as (l3 l4) "(-> & H3 & H4)".
  iDestruct (big_sepL2_cons_inv_r with "H4") as (f l5) "(-> & Hf & H5)". iExists e, f.
  iSplitL "Hb"; [iExact "Hb"|]. iSplitL "Hf"; [iExact "Hf"|]. iIntros (x' y') "Hb Hf".
  iApply (listed_again with "[Hl H1 H3 H5 Hf] Hb"); [done|]. iSplitL "Hl"; [iExact "Hl"|]. iSplitL "H1"; [iExact "H1"|].
  iApply (big_sepL2_app with "H3"). iSplitL "Hf"; [iExact "Hf"|iExact "H5"].
Qed.

Lemma hwp_test_free xs1 x xs2 file line g (Q : outcome unit -> globals -> hProp) :
  listed_blocks (xs1 ++ x :: xs2) -∗
  (listed_blocks (xs1 ++ (if intact (inside x) then [] else [x]) ++ xs2) -∗ goes_on (intact (inside x)) g Q) -∗
  hwp (_test_free (given x) file line) g Q.
Proof.
  iIntros "Hx HQ". rw listed_at. iDestruct "Hx" as "(%v & %r & %l1 & %e & %l2 & %Hv & Hl & Hb)".
  iAssert (⌜placed e x /\ shaped (inside x)⌝)%I as %[Hp Hs]; [iDestruct "Hb" as "[$ _]"|].
  unfold _test_free. assert (given x <> 0) as Hg0 by (destruct Hp as (_ & _ & ? & _); unfold given; lia).
  rw (proj2 (Z.eqb_neq _ _) Hg0). wp_bind. iApply hwp_assert_true; [done|]. cbn beta iota.
  assert (block_info (given x) = base x + 8) as -> by (unfold block_info, given, MALLOC_GUARD_SIZE, sizeof_MallocBlockInfoData; lia).
  wp_bind. iApply (hwp_load_info with "Hb"). iIntros "(Hpl & Hbl & H0 & Hi & H9 & H49 & Hb)". cbn beta iota.
  wp_bind. iApply (hwp_check_guards with "Hb"); [done|]. iIntros "Hb" (g1 Hg1).
  iAssert (owned_block e x) with "[Hpl Hbl H0 Hi H9 H49 Hb]" as "Hb".
  { iSplitL "Hpl"; [iExact "Hpl"|]. iSplitL "Hbl"; [iExact "Hbl"|]. iSplitL "H0"; [iExact "H0"|].
    iSplitL "Hi"; [iExact "Hi"|]. iSplitL "H9"; [iExact "H9"|]. iSplitL "H49"; [iExact "H49"|iExact "Hb"]. }
  destruct (intact (inside x)).
  - iDestruct "Hl" as "(Hl & H1 & H2)". cbn beta iota. wp_bind.
    assert (base x + 8 + node_offset = place e) as -> by (destruct Hp as (_ & -> & _); unfold node_offset; lia).
    iApply (hwp_list_remove with "Hl"). iIntros "Hl Hn". iApply hwp_ret. cbn beta iota.
    wp_bind. iApply (hwp_load_info with "Hb"). iIntros "Hb". cbn beta iota.
    iDestruct (block_raw with "Hb Hn") as "(Hbl & Hr & %Hb0)". wp_bind. cbn [allocated_size block info_of].
    iApply (hwp_memset with "Hr"); [unfold block_size; lia|]. iIntros "Hr". cbn beta iota.
    iApply (hwp_free with "Hbl [Hr]"); [lia| |].
    { unfold block_size. replace (Z.of_nat (room (inside x)) + 112) with (Z.of_nat (room (inside x) + 112)) by lia.
      rw bytes_seq bytes_raw repeat_length raw_elim. by rw big_sepL_fmap. }
    iApply ("HQ" with "[Hl H1 H2]"); [|done]. iExists v, r, (l1 ++ l2). iSplit; [done|]. iSplitL "Hl"; [iExact "Hl"|].
    iApply (big_sepL2_app with "H1 H2").
  - cbn [app]. iSpecialize ("HQ" with "[Hl Hb]"); [iApply (listed_again with "Hl Hb"); done|].
    iSpecialize ("HQ" $! g1 with "[//]"). stops g.
Qed.
(** *** Use *)

(** The bytes of a region, one of them or those between the guards. *)
Definition refill (r : region) (l : list Z) : region := mkRegion (room r) (lower r ++ l ++ upper r).

Lemma owned_region e x :
  owned_block e x ⊢ bytes_at (base x + 80) (content (inside x)) ∗ ⌜shaped (inside x) /\ 0 < base x⌝ ∗
    (∀ r, ⌜shaped r /\ room r = room (inside x)⌝ -∗ bytes_at (base x + 80) (content r) -∗ owned_block e (with_region x r)).
Proof.
  iIntros "([%Hp %Hs] & Hbl & H0 & Hi & H9 & H49 & Hb)". iSplitL "Hb"; [iExact "Hb"|].
  iSplit; [iPureIntro; split; [done|by destruct Hp as (_ & _ & ? & _)]|]. iIntros (r [Hr Hroom]) "Hb".
  unfold owned_block, info_of, block_size, with_region, placed in *. cbn [base inside asked]. rw Hroom.
  iSplit; [done|]. iSplitL "Hbl"; [iExact "Hbl"|]. iSplitL "H0"; [iExact "H0"|].
  iSplitL "Hi"; [iExact "Hi"|]. iSplitL "H9"; [iExact "H9"|]. iSplitL "H49"; [iExact "H49"|iExact "Hb"].
Qed.

Lemma owned_byte e x off : touchable (inside x) off = true ->
  owned_block e x ⊢ pts (given x + off) (CByte (byte_at (inside x) off)) ∗
    (∀ b, ⌜is_byte b⌝ -∗ pts (given x + off) (CByte b) -∗ owned_block e (with_region x (set_byte (inside x) off b))).
Proof.
  intros Ht. rw owned_region. iIntros "(Hb & [%Hs _] & Hclose)". destruct (touch_lookup _ _ Hs Ht) as [Hl Ho].
  iDestruct (bytes_acc _ _ _ _ Hl with "Hb") as "[H Hb]". rw Ho.
  replace (base x + 80 + (off + 16)) with (given x + off) by (unfold given; lia). iSplitL "H"; [iExact "H"|].
  iIntros (b Hb) "H". iApply ("Hclose" with "[%]"); [split; [by apply set_shaped|done]|]. by iApply "Hb".
Qed.

Lemma set_same r off : shaped r -> touchable r off = true -> set_byte r off (byte_at r off) = r.
Proof. intros Hs Ht. unfold set_byte. rw list_insert_id; [by destruct r|]. by destruct (touch_lookup _ _ Hs Ht). Qed.
Lemma with_inside x : with_region x (inside x) = x.
Proof. by destruct x. Qed.

Lemma hwp_read_byte xs1 x xs2 off g (Q : outcome Z -> globals -> hProp) :
  touchable (inside x) off = true -> listed_blocks (xs1 ++ x :: xs2) -∗
  (listed_blocks (xs1 ++ x :: xs2) -∗ Q (Done (byte_at (inside x) off)) g) -∗ hwp (load_byte (given x + off)) g Q.
Proof.
  iIntros (Ht) "Hx HQ". rw {1}listed_one. iDestruct "Hx" as "(%e & Hb & Hclose)".
  iAssert (⌜shaped (inside x)⌝)%I as %Hs; [iDestruct "Hb" as "[[_ %Hs] _]"; done|].
  rw (owned_byte _ _ _ Ht). iDestruct "Hb" as "[H Hb]". unfold load_byte. wp_use (hwp_load with "H") as "H". iApply hwp_ret.
  iApply "HQ". iSpecialize ("Hb" with "[%] H").
  { destruct Hs as [Hl Hbs]. rw Forall_lookup in Hbs. eapply Hbs. by destruct (touch_lookup _ _ (conj Hl (proj2 (Forall_lookup _ _) Hbs)) Ht). }
  rw set_same // with_inside. by iApply "Hclose".
Qed.

Lemma hwp_write_byte xs1 x xs2 off b g (Q : outcome unit -> globals -> hProp) :
  touchable (inside x) off = true -> is_byte b -> listed_blocks (xs1 ++ x :: xs2) -∗
  (listed_blocks (xs1 ++ with_region x (set_byte (inside x) off b) :: xs2) -∗ Q (Done tt) g) -∗
  hwp (store (given x + off) (CByte b)) g Q.
Proof.
  iIntros (Ht Hbyte) "Hx HQ". rw listed_one. iDestruct "Hx" as "(%e & Hb & Hclose)". rw (owned_byte _ _ _ Ht).
  iDestruct "Hb" as "[H Hb]". iApply (hwp_store with "H"). iIntros "H". iApply "HQ". iApply "Hclose". by iApply ("Hb" with "[%]").
Qed.
(** *** Cleared and resized blocks *)
Lemma refill_shaped r l : shaped r -> length l = room r -> Forall is_byte l -> shaped (refill r l).
Proof.
  intros Hs Hl Hb. split; cbn [content room refill].
  - rw !length_app lower_length // upper_length // Hl. done.
  - destruct Hs as [_ Hs]. rw (region_split r) !Forall_app in Hs. rw !Forall_app. tauto.
Qed.
Lemma refill_fresh n l l' : length l = n -> refill (fresh_region n l) l' = fresh_region n l'.
Proof.
  intros <-. unfold refill, lower, upper, fresh_region. cbn [content room]. rw take_app_length' //.
  by rw -drop_drop drop_app_length' // drop_app_length.
Qed.

Lemma owned_own e x :
  owned_block e x ⊢ bytes_at (given x) (own (inside x)) ∗ ⌜shaped (inside x) /\ 0 < base x⌝ ∗
    (∀ l, ⌜length l = room (inside x) /\ Forall is_byte l⌝ -∗ bytes_at (given x) l -∗
       owned_block e (with_region x (refill (inside x) l))).
Proof.
  rw owned_region. iIntros "(Hb & %Hs & Hclose)". rw (region_at _ _ (proj1 Hs)). iDestruct "Hb" as "(Hlo & Hd & Hhi)".
  replace (base x + 80 + 16) with (given x) by (unfold given; lia). iSplitL "Hd"; [iExact "Hd"|]. iSplit; [done|].
  iIntros (l [Hl Hb]) "Hd". iApply ("Hclose" with "[%]"); [split; [by apply refill_shaped; [apply Hs|..]|done]|].
  cbn [content refill]. rw !bytes_app lower_length; [|by destruct Hs]. replace (base x + 80 + Z.of_nat 16) with (given x) by (unfold given; lia).
  rw Hl. iSplitL "Hlo"; [iExact "Hlo"|]. iSplitL "Hd"; [iExact "Hd"|iExact "Hhi"].
Qed.

Lemma fresh_with b file line n l : length l = n ->
  with_region (fresh_block b file line (unset n)) (refill (inside (fresh_block b file line (unset n))) l) = fresh_block b file line l.
Proof.
  intros Hl. unfold with_region, fresh_block. cbn [base asked inside]. rw refill_fresh // /unset repeat_length Hl. done.
Qed.
Lemma fresh_room b file line n : room (inside (fresh_block b file line (unset n))) = n.
Proof. apply repeat_length. Qed.
Lemma fresh_unset b file line n : own (inside (fresh_block b file line (unset n))) = unset n.
Proof. by apply fresh_own. Qed.

Lemma hwp_test_calloc count size n file line xs g (Q : outcome Z -> globals -> hProp) :
  u64 (count * size) = Z.of_nat n -> requestable n -> owned_blocks xs -∗
  (∀ b, listed_blocks (xs ++ [fresh_block b file line (repeat 0 n)]) -∗ Q (Done (b + 96)) g) -∗
  hwp (_test_calloc count size file line) g Q.
Proof.
  iIntros (Hu Hn) "Hx HQ". unfold _test_calloc. rw Hu. cbn zeta. wp_bind. iApply (hwp_test_malloc with "Hx"); [done|].
  iIntros (b) "Hx". cbn beta iota. rw listed_one. iDestruct "Hx" as "(%e & Hb & Hclose)". rw owned_own.
  iDestruct "Hb" as "(Hd & [%Hs %Hb0] & Hb)". change (given _) with (b + 96). change (base _) with b in Hb0. wp_bind. unfold when.
  assert ((b + 96 !=? 0) = true) as -> by (apply negb_true_iff, Z.eqb_neq; lia).
  rw fresh_unset bytes_raw /unset repeat_length. iApply (hwp_memset with "Hd"); [done|]. iIntros "Hd". cbn beta iota.
  iApply hwp_ret. iApply "HQ". iSpecialize ("Hb" with "[%] Hd").
  { split; [by rw repeat_length fresh_room|]. apply Forall_forall. intros x Hx%list_elem_of_In%repeat_spec. by subst x. }
  fold (unset n). rw fresh_with; [|apply repeat_length]. by iApply "Hclose".
Qed.

(** The bytes of a block of another size that starts as [l] does. *)
Definition resized (l : list Z) (n : nat) : list Z := take n l ++ drop (length l) (unset n).

Lemma resized_length l n : length (resized l n) = n.
Proof. unfold resized, unset. rw length_app length_take length_drop repeat_length. lia. Qed.
Lemma resized_bytes l n : Forall is_byte l -> Forall is_byte (resized l n).
Proof. intros Hl. unfold resized. apply Forall_app. split; [by apply Forall_take|]. apply Forall_drop, unset_bytes. Qed.

Lemma shaped_own r : shaped r -> Forall is_byte (own r).
Proof. intros [_ Hs]. rw (region_split r) !Forall_app in Hs. tauto. Qed.

(** The common part is copied from block to block. *)
Lemma hwp_copy_block e x f y n g (Q : outcome unit -> globals -> hProp) :
  room (inside y) = n -> own (inside y) = unset n ->
  owned_block e x -∗ owned_block f y -∗
  (owned_block e x -∗ owned_block f (with_region y (refill (inside y) (resized (own (inside x)) n))) -∗ Q (Done tt) g) -∗
  hwp (memcpy (given y) (given x) (if block_size x <? Z.of_nat n then block_size x else Z.of_nat n)) g Q.
Proof.
  iIntros (Hroom Hown) "Hx Hy HQ". iDestruct (owned_own with "Hx") as "(Hxd & [%Hxs _] & Hx)".
  iDestruct (owned_own with "Hy") as "(Hyd & [%Hys _] & Hy)".
  set (l := own (inside x)). assert (length l = room (inside x)) as Hl by by apply own_length.
  iEval (rw -(take_drop n l) bytes_app) in "Hxd". iDestruct "Hxd" as "[Hx1 Hx2]".
  iEval (rw Hown -(take_drop (length l) (unset n)) bytes_app (bytes_raw _ (take _ (unset n)))) in "Hyd". iDestruct "Hyd" as "[Hy1 Hy2]".
  assert (length (take (length l) (unset n)) = length (take n l)) as Hlen.
  { rw !length_take /unset repeat_length. lia. }
  rw Hlen. iApply (hwp_memcpy with "Hy1 Hx1").
  { rw length_take. unfold block_size. rw -Hl. destruct (Z.ltb_spec (Z.of_nat (length l)) (Z.of_nat n)); lia. }
  iIntros "Hy1 Hx1". iApply ("HQ" with "[Hx Hx1 Hx2] [Hy Hy1 Hy2]").
  - iSpecialize ("Hx" $! l with "[%] [Hx1 Hx2]"); [split; [done|by apply shaped_own]| |].
    + iEval (rw -(take_drop n l) bytes_app). iSplitL "Hx1"; [iExact "Hx1"|iExact "Hx2"].
    + unfold refill, l. rw -region_split. destruct x as [bx ax [rx cx]]. iExact "Hx".
  - iApply ("Hy" with "[%] [Hy1 Hy2]").
    + rw Hroom. split; [apply resized_length|]. by apply resized_bytes, shaped_own.
    + unfold resized. rw bytes_app. iSplitL "Hy1"; [iExact "Hy1"|iExact "Hy2"].
Qed.

Lemma hwp_test_realloc n file line xs1 x xs2 g (Q : outcome Z -> globals -> hProp) :
  requestable n -> n <> 0%nat -> listed_blocks (xs1 ++ x :: xs2) -∗
  (∀ b, listed_blocks (xs1 ++ (if intact (inside x) then [] else [x]) ++
                       xs2 ++ [fresh_block b file line (resized (own (inside x)) n)]) -∗
   ∀ g', ⌜steady g g'⌝ -∗ Q (if intact (inside x) then Done (b + 96) else stop_of g Z) g') -∗
  hwp (_test_realloc (given x) (Z.of_nat n) file line) g Q.
Proof.
  iIntros (Hn Hn0) "Hx HQ". unfold _test_realloc.
  iAssert (⌜0 < base x⌝)%I as %Hx0.
  { iEval (rw listed_one) in "Hx". iDestruct "Hx" as "(%e & [[(_ & _ & % & _) _] _] & _)". done. }
  assert (given x <> 0) as Hg0 by (unfold given; lia). rw (proj2 (Z.eqb_neq _ _) Hg0).
  assert (Z.of_nat n <> 0) as Hnz by lia. rw (proj2 (Z.eqb_neq _ _) Hnz).
  wp_bind. iApply (hwp_test_malloc with "[Hx]"); [done|by iApply listed_owned|]. iIntros (b) "Hx". cbn beta iota.
  set (y := fresh_block b file line (unset n)). rw -app_assoc. cbn [app].
  iEval (rw listed_two) in "Hx". iDestruct "Hx" as "(%e & %f & Hx & Hy & Hclose)".
  iAssert (⌜0 < base y⌝)%I as %Hb0; [iDestruct "Hy" as "[[(_ & _ & % & _) _] _]"; done|]. cbn in Hb0.
  assert (b + 96 <> 0) as Hb96 by lia. rw (proj2 (Z.eqb_neq _ _) Hb96).
  assert (block_info (given x) = base x + 8) as -> by (unfold block_info, given, MALLOC_GUARD_SIZE, sizeof_MallocBlockInfoData; lia).
  wp_bind. iApply (hwp_load_info with "Hx"). iIntros "Hx". cbn beta iota. change (bi_size (info_of x)) with (block_size x).
  wp_bind. change (b + 96) with (given y). iApply (hwp_copy_block _ _ _ _ n with "Hx Hy"); [apply fresh_room|apply fresh_unset|].
  iIntros "Hx Hy". cbn beta iota. iSpecialize ("Hclose" with "Hx Hy"). rw fresh_with; [|apply resized_length].
  wp_bind. iApply (hwp_test_free with "Hclose"). iIntros "Hx". iSpecialize ("HQ" with "Hx"). iIntros (g' Hg').
  iSpecialize ("HQ" $! g' with "[//]"). destruct (intact (inside x)); [by iApply hwp_ret|].
  stops g.
Qed.
(** ** Leaks *)

(** The node of the last block, to check against later, and of the first. *)
Definition node_of (x : gblock) : Z := base x + 48.
Definition check_point (xs : list gblock) : Z :=
  match last xs with Some x => node_of x | None => global_allocated_blocks end.
Definition first_node (xs : list gblock) : Z :=
  match xs with [] => global_allocated_blocks | x :: _ => node_of x end.

Lemma blocks_first l xs : ([∗ list] e; x ∈ l; xs, owned_block e x) ⊢ ⌜first_of l global_allocated_blocks = first_node xs⌝.
Proof.
  destruct l as [|e l], xs as [|x xs]; cbn; try (by iIntros "?"). iIntros "[[[(_ & % & _) _] _] _]". done.
Qed.
Lemma blocks_last l xs : ([∗ list] e; x ∈ l; xs, owned_block e x) ⊢ ⌜last_of global_allocated_blocks l = check_point xs⌝.
Proof.
  destruct xs as [|x xs _] using rev_ind; [destruct l; by iIntros "?"|]. rw big_sepL2_app_inv_r.
  iIntros "(%l1 & %l2 & -> & _ & H)". rw big_sepL2_cons_inv_r. iDestruct "H" as "(%e & %l3 & -> & [[(_ & %Hp & _) _] _] & H)".
  destruct l3; [|done]. unfold check_point. by rw last_of_snoc last_snoc.
Qed.

(** Reading a node: of a check point, and of a block. *)
Lemma hwp_load_check_point xs0 xs g (Q : outcome ListNode -> globals -> hProp) :
  listed_blocks (xs0 ++ xs) -∗
  (listed_blocks (xs0 ++ xs) -∗ ∀ n, ⌜next n = first_node xs⌝ -∗ Q (Done n) g) -∗ hwp (load_node (check_point xs0)) g Q.
Proof.
  iIntros "(%v & %r & %l & %Hv & Hl & Hx) HQ". iDestruct (big_sepL2_app_inv_r with "Hx") as (l1 l2) "(-> & H1 & H2)".
  iDestruct (blocks_last with "H1") as %Hlast. iDestruct (blocks_first with "H2") as %Hfirst. rw -Hlast.
  destruct l1 as [|e l1 _] using rev_ind.
  - cbn [last_of]. iApply (hwp_load_head with "Hl"). iIntros "Hl". iApply ("HQ" with "[Hl H1 H2]"); [|done].
    iExists v, r, ([] ++ l2). iSplit; [done|]. iSplitL "Hl"; [iExact "Hl"|]. iApply (big_sepL2_app with "H1 H2").
  - rw last_of_snoc. iEval (rw -app_assoc) in "Hl". iApply (hwp_load_entry with "Hl"). iIntros "Hl".
    iApply ("HQ" with "[Hl H1 H2]"); [|done].
    iExists v, r, ((l1 ++ [e]) ++ l2). iSplit; [done|]. iSplitL "Hl"; [by rw -app_assoc|]. iApply (big_sepL2_app with "H1 H2").
Qed.

Lemma hwp_load_block_node xs1 x xs2 g (Q : outcome ListNode -> globals -> hProp) :
  listed_blocks (xs1 ++ x :: xs2) -∗
  (listed_blocks (xs1 ++ x :: xs2) -∗ ∀ n, ⌜next n = first_node xs2 /\ value n = (base x + 8)%Z⌝ -∗ Q (Done n) g) -∗
  hwp (load_node (node_of x)) g Q.
Proof.
  iIntros "(%v & %r & %l & %Hv & Hl & Hx) HQ". iDestruct (big_sepL2_app_inv_r with "Hx") as (l1 l2) "(-> & H1 & H2)".
  iDestruct (big_sepL2_cons_inv_r with "H2") as (e l3) "(-> & He & H2)". iDestruct (blocks_first with "H2") as %Hfirst.
  iAssert (⌜placed e x⌝)%I as %(Hh & Hp & _); [iDestruct "He" as "[[$ _] _]"|]. unfold node_of. rw -Hp.
  iApply (hwp_load_entry with "Hl"). iIntros "Hl". iApply ("HQ" with "[Hl H1 H2 He]"); [|done].
  iExists v, r, (l1 ++ e :: l3). iSplit; [done|]. iSplitL "Hl"; [iExact "Hl"|]. iApply (big_sepL2_app with "H1").
  iSplitL "He"; [iExact "He"|iExact "H2"].
Qed.

Lemma listed_nodes xs0 xs : listed_blocks (xs0 ++ xs) ⊢ [∗ list] a ∈ (node_of <$> xs), owns a.
Proof.
  iIntros "(%v & %r & %l & %Hv & [_ Hl] & Hx)". iDestruct (big_sepL2_app_inv_r with "Hx") as (l1 l2) "(-> & _ & H2)".
  iEval (rw nodes_app) in "Hl". iDestruct "Hl" as "[_ Hl]". rw nodes_owned.
  iAssert (⌜place <$> l2 = node_of <$> xs⌝)%I as %<-; [|iExact "Hl"]. iClear "Hl". iStopProof. clear.
  revert xs. induction l2 as [|e l2 IH]; intros [|x xs]; cbn; try (by iIntros "?").
  iIntros "[[[(_ & %Hp & _) _] _] H]". iDestruct (IH with "H") as %->. by rw Hp.
Qed.

Lemma first_node_pos xs : ([∗ list] a ∈ (node_of <$> xs), owns (V := cell) a) ⊢ ⌜0 < first_node xs⌝.
Proof. destruct xs as [|x xs]; cbn; [by iIntros "_"|]. iIntros "[[%v H] _]". iApply (pts_pos with "H"). Qed.

Lemma listed_not_head xs1 x xs2 : listed_blocks (xs1 ++ x :: xs2) ⊢ ⌜node_of x <> global_allocated_blocks⌝.
Proof.
  rw listed_at. iIntros "(%v & %r & %l1 & %e & %l2 & %Hv & (Hl & _) & [[(_ & %Hp & _) _] _])". rw dlist_at.
  iDestruct "Hl" as %[_ Hne]. iPureIntro. unfold node_of. by rw -Hp.
Qed.

Lemma hwp_check_point_blocks xs g (Q : outcome Z -> globals -> hProp) :
  owned_blocks xs -∗ (listed_blocks xs -∗ Q (Done (check_point xs)) g) -∗ hwp check_point_allocated_blocks g Q.
Proof.
  iIntros "Hx HQ". unfold check_point_allocated_blocks. wp_bind. iApply (hwp_blocks_list with "Hx").
  iIntros "(%v & %r & %l & %Hv & Hl & Hx)". cbn beta iota. iDestruct (blocks_last with "Hx") as %Hlast.
  wp_use (hwp_load_head with "Hl") as "Hl". cbn [prev]. rw Hlast. iApply hwp_ret. iApply "HQ". iExists v, r, l.
  iSplit; [done|]. iSplitL "Hl"; [iExact "Hl"|iExact "Hx"].
Qed.

Lemma listed_app_pos xs0 xs : listed_blocks (xs0 ++ xs) ⊢ ⌜check_point xs0 <> 0⌝.
Proof.
  destruct xs0 as [|x xs0 _] using rev_ind; [by iIntros "_"|]. unfold check_point. rw last_snoc -app_assoc listed_one.
  iIntros "(%e & [[(_ & _ & %Hb & _) _] _] & _)". iPureIntro. unfold node_of. lia.
Qed.
Lemma first_node_nonzero xs0 xs : listed_blocks (xs0 ++ xs) ⊢ ⌜first_node xs <> 0⌝.
Proof. rw listed_nodes first_node_pos. iPureIntro. lia. Qed.

Lemma hwp_display_blocks xs0 xs g (Q : outcome Z -> globals -> hProp) :
  owned_blocks (xs0 ++ xs) -∗
  (∀ g', ⌜steady g g'⌝ -∗ listed_blocks (xs0 ++ xs) -∗ Q (Done (Z.of_nat (length xs))) g') -∗
  hwp (display_allocated_blocks (check_point xs0)) g Q.
Proof.
  iIntros "Hx HQ". unfold display_allocated_blocks. wp_bind. iApply (hwp_blocks_list with "Hx"). iIntros "Hx". cbn beta iota. iDestruct (listed_app_pos with "Hx") as %Hcp. iDestruct (first_node_nonzero with "Hx") as %Hfn.
  wp_bind. iApply hwp_non_null; [done|]. cbn beta iota. wp_bind. iApply (hwp_load_check_point with "Hx"). iIntros "Hx" (n Hn). cbn beta iota.
  rw Hn. wp_bind. iApply hwp_non_null; [done|]. cbn beta iota.
  iApply (hwp_walk_bounded _ (fun k st g' => ∃ done rest, ⌜xs = done ++ rest /\ k = length rest /\
    st = (first_node rest, Z.of_nat (length done)) /\ steady g g'⌝ ∗ listed_blocks (xs0 ++ xs) ∗
    (∀ g', ⌜steady g g'⌝ -∗ listed_blocks (xs0 ++ xs) -∗ Q (Done (Z.of_nat (length xs))) g'))%I (node_of <$> xs)).
  - iIntros (k st g') "(%dn & %rest & (%Hxs & -> & -> & %Hg) & Hx & HQ)". destruct rest as [|x rest]; cbn [first_node length].
    { cbn [Z.eqb]. iApply hwp_ret. rw Hxs app_nil_r. iApply ("HQ" with "[//] Hx"). }
    rw Hxs app_assoc. iDestruct (listed_not_head with "Hx") as %Hne. rw (proj2 (Z.eqb_neq _ _) Hne).
    wp_bind. iApply (hwp_load_block_node with "Hx"). iIntros "Hx" (n' [Hn' Hv']). cbn beta iota. rw Hv'.
    iDestruct (listed_one with "Hx") as "(%e & Hb & Hclose)".
    iAssert (⌜0 < base x⌝)%I as %Hb0; [iDestruct "Hb" as "[[(_ & _ & % & _) _] _]"; done|].
    wp_bind. iApply hwp_non_null; [lia|]. cbn beta iota. wp_bind. iApply (hwp_load_info with "Hb"). iIntros "Hb". cbn beta iota.
    iSpecialize ("Hclose" with "Hb"). wp_bind. unfold when.
    iApply (hwp_wand _ _ (fun r g2 => ⌜r = Done tt /\ steady g' g2⌝)%I).
    { destruct (_ ==? 0); [iApply hwp_cm_print_error|iApply hwp_ret]; iPureIntro; auto. }
    iIntros (r2 g2 [-> Hg2]). wp_bind. iApply hwp_cm_print_error. iApply hwp_ret. iExists (length rest). iSplit; [done|].
    iExists (dn ++ [x]), rest. iSplit; [|rw -app_assoc; by iSplitL "Hclose"]. iPureIntro. rw -app_assoc Hn' length_app. cbn.
    split_and!; [done|done|by f_equal; lia|]. apply steady_text. by etransitivity.
  - iSplit; [by iApply (listed_nodes with "Hx")|]. rw length_fmap. iExists [], xs. iSplit; [by auto|]. by iSplitL "Hx".
Qed.

(** Blocks are released in order until one has a guard that was overwritten. *)
Fixpoint kept (xs : list gblock) : list gblock :=
  match xs with
  | [] => []
  | x :: rest => if intact (inside x) then kept rest else xs
  end.

Lemma hwp_free_blocks xs0 xs g (Q : outcome unit -> globals -> hProp) :
  listed_blocks (xs0 ++ xs) -∗
  (listed_blocks (xs0 ++ kept xs) -∗ goes_on (bool_decide (kept xs = [])) g Q) -∗
  hwp (free_allocated_blocks (check_point xs0)) g Q.
Proof.
  iIntros "Hx HQ". unfold free_allocated_blocks. wp_bind. iApply (hwp_blocks_list with "[Hx]"); [by iApply listed_owned|].
  iIntros "Hx". cbn beta iota. iDestruct (listed_app_pos with "Hx") as %Hcp. iDestruct (first_node_nonzero with "Hx") as %Hfn.
  wp_bind. iApply hwp_non_null; [done|]. cbn beta iota. wp_bind. iApply (hwp_load_check_point with "Hx"). iIntros "Hx" (n Hn). cbn beta iota.
  rw Hn. wp_bind. iApply hwp_non_null; [done|]. cbn beta iota.
  iApply (hwp_walk_bounded _ (fun k st g' => ∃ rest, ⌜k = length rest /\ st = first_node rest /\ kept xs = kept rest /\ steady g g'⌝ ∗
    listed_blocks (xs0 ++ rest) ∗ (listed_blocks (xs0 ++ kept xs) -∗ goes_on (bool_decide (kept xs = [])) g Q))%I (node_of <$> xs)).
  - iIntros (k st g') "(%rest & (-> & -> & %Hk & %Hg) & Hx & HQ)". destruct rest as [|x rest]; cbn [first_node length].
    { cbn [Z.eqb]. iApply hwp_ret. rw Hk. cbn [kept]. iApply ("HQ" with "Hx"). by iPureIntro. }
    iDestruct (listed_not_head with "Hx") as %Hne. rw (proj2 (Z.eqb_neq _ _) Hne).
    wp_bind. iApply (hwp_load_block_node with "Hx"). iIntros "Hx" (n' [Hn' Hv']). cbn beta iota. rw Hv'. wp_bind.
    replace (base x + 8 + sizeof_MallocBlockInfoData + MALLOC_GUARD_SIZE) with (given x)
      by (unfold given, sizeof_MallocBlockInfoData, MALLOC_GUARD_SIZE; lia).
    iApply (hwp_test_free with "Hx"). iIntros "Hx" (g2 Hg2). cbn [kept] in Hk. destruct (intact (inside x)).
    + iApply hwp_ret. iExists (length rest). iSplit; [done|]. iExists rest. iSplit; [|by iSplitL "Hx"].
      iPureIntro. split_and!; [done|done|done|by etransitivity].
    + rw Hk. cbn [app]. iSpecialize ("HQ" with "Hx"). rw bool_decide_false //.
      iSpecialize ("HQ" $! g2 with "[%]"); [by etransitivity|]. rw (steady_stop _ _ Hg). unfold stop_of.
      destruct (global_running_test g ==? 0); cbn [cast]; (iSplit; [done|iExact "HQ"]).
  - iSplit; [by iApply (listed_nodes with "Hx")|]. rw length_fmap. iExists xs. iSplit; [by auto|]. by iSplitL "Hx".
Qed.

(** The check for leaks: since a check point no block may be left. *)
Lemma hwp_fail_if_blocks xs0 xs name g (Q : outcome unit -> globals -> hProp) :
  owned_blocks (xs0 ++ xs) -∗
  (listed_blocks (xs0 ++ kept xs) -∗ goes_on (bool_decide (xs = [])) g Q) -∗
  hwp (fail_if_blocks_allocated (check_point xs0) name) g Q.
Proof.
  iIntros "Hx HQ". unfold fail_if_blocks_allocated. wp_bind. iApply (hwp_display_blocks with "Hx"). iIntros (g1 Hg1) "Hx".
  cbn beta iota. unfold when. destruct xs as [|x xs]; cbn [length].
  - cbn [Z.of_nat Z.ltb Z.compare]. iApply hwp_ret. iApply ("HQ" with "Hx"). done.
  - assert ((0 <? Z.of_nat (S (length xs))) = true) as -> by (apply Z.ltb_lt; lia). wp_bind.
    iApply (hwp_free_blocks with "Hx"). iIntros "Hx". iSpecialize ("HQ" with "Hx"). rw bool_decide_false //. iIntros (g2 Hg2).
    assert (steady g g2) as Hg by by etransitivity. rw (steady_stop _ _ Hg1). destruct (bool_decide (kept (x :: xs) = [])).
    + wp_bind. iApply hwp_cm_print_error. iApply hwp_exit_any; [done|].
      rw (steady_stop g); [|by apply steady_text]. iApply "HQ". auto.
    + iSpecialize ("HQ" $! g2 with "[//]"). stops g.
Qed.
End Memory.

(** ** Layout *)

(** C23: wherever malloc has put a block, and whatever the size that passes the check
    for overflow, the address that _test_malloc returns is aligned, the description of
    the block ends where the lower guard begins, and description, guards and bytes lie
    within the block. *)
Theorem block_layout block size :
  0 <= size < 2 ^ 64 -> size < allocate_size size ->
  let ptr := returned_address block in
  ptr mod MALLOC_ALIGNMENT = 0 /\ block <= block_info ptr /\
  block_info ptr + sizeof_MallocBlockInfoData = ptr - MALLOC_GUARD_SIZE /\
  ptr + size + MALLOC_GUARD_SIZE <= block + allocate_size size.
Proof.
  intros Hs Ha ptr. unfold ptr. rw returned_floor.
  assert (allocate_size size = size + 112) as ->.
  { revert Ha. unfold allocate_size, MALLOC_GUARD_SIZE, sizeof_MallocBlockInfoData, MALLOC_ALIGNMENT, uwrap.
    replace (size + 16 * 2 + 72 + 8) with (size + 112) by lia. intros Ha.
    destruct (Z.lt_ge_cases (size + 112) (2 ^ 64)) as [Hlt|Hge]; [rw Z.mod_small; lia|].
    replace (size + 112) with ((size + 112 - 2 ^ 64) + 1 * 2 ^ 64) in Ha by lia. rw Z_mod_plus_full Z.mod_small in Ha; lia. }
  unfold block_info, MALLOC_ALIGNMENT, MALLOC_GUARD_SIZE, sizeof_MallocBlockInfoData.
  pose proof (Z.div_mod (block + 96) 8 ltac:(done)) as E. pose proof (Z.mod_pos_bound (block + 96) 8 ltac:(done)).
  rw Z_mod_mult. lia.
Qed.

Lemma block_layout_witness :
  0 <= 100 < 2 ^ 64 /\ returned_address 1001 = 1096 /\ block_info 1096 = 1008 /\ 1096 + 100 + 16 <= 1001 + allocate_size 100.
Proof.
  split; [done|]. destruct (block_layout 1001 100 ltac:(done) ltac:(reflexivity)) as (_ & _ & _ & H).
  split; [reflexivity|]. split; [reflexivity|exact H].
Defined.
