(* ===== verification/CmMem.v ===== *)
(** * The memory of a test

    The blocks a test has asked for, as it sees them: a model of what the
    functions of guarded memory do to them, and that cmocka.c implements it. *)

From S2P Require Import Prelude.
From S2P Require Import CLib.
From S2P Require Import Sys.
From S2P Require Import Sem.
From S2P Require Import HeapLogic.
From S2P Require Import Cmocka.
From S2P Require Import CmBase.
From S2P Require Import CmHeap.
From iris.bi Require Import bi.
From iris.proofmode Require Import proofmode.
#[local] Open Scope Z_scope.
#[local] Open Scope cmd_scope.
Import cmocka.

#[local] Abbreviation hProp := (hpropI cell).

(** ** The model *)

(** What a pointer that the test was given stands for: a block that is released, the
    null pointer, or a block with its bytes. *)
Inductive slot := Gone | Null | Live (r : region).
(** The blocks left, in the order they were asked for. *)
Definition lives (ss : list slot) : list region := omap (fun s => match s with Live r => Some r | _ => None end) ss.

(** The uses of memory: pointers are numbered as they were given. *)
Inductive memory_op :=
| Malloc (size : Z)
| Calloc (count size : Z)
| Realloc (h : nat) (size : Z)
| Free (h : nat)
| Write (h : nat) (off b : Z).

(** The operation succeeds, it is refused (the test fails), or the test does what C
    leaves undefined: it uses a block that is released, or touches memory beyond the
    guards. *)
Inductive memory_result := Goes (ss : list slot) | Refused (ss : list slot) | Undefined.

Definition in_range (size : Z) : bool := (0 <=? size) && (size <? 2 ^ 64).
(** A request whose size with guards and description does not overflow. *)
Definition fits (size : Z) : bool := size + 112 <? 2 ^ 64.
Definition give (l : list Z) : slot := Live (fresh_region (length l) l).

Definition memory_step (op : memory_op) (ss : list slot) : memory_result :=
  match op with
  | Malloc size =>
      if negb (in_range size) then Undefined
      else if fits size then Goes (ss ++ [give (unset (Z.to_nat size))]) else Refused ss
  | Calloc count size =>
      let n := u64 (count * size) in
      if fits n then Goes (ss ++ [give (repeat 0 (Z.to_nat n))]) else Refused ss
  | Realloc h size =>
      if negb (in_range size) then Undefined else
      match ss !! h with
      | Some Null => if fits size then Goes (ss ++ [give (unset (Z.to_nat size))]) else Refused ss
      | Some (Live r) =>
          if size ==? 0 then if intact r then Goes (<[h := Gone]> ss ++ [Null]) else Refused ss
          else if negb (fits size) then Refused ss
          else let new := give (resized (own r) (Z.to_nat size)) in
               if intact r then Goes (<[h := Gone]> ss ++ [new]) else Refused (ss ++ [new])
      | _ => Undefined
      end
  | Free h =>
      match ss !! h with
      | Some Null => Goes ss
      | Some (Live r) => if intact r then Goes (<[h := Gone]> ss) else Refused ss
      | _ => Undefined
      end
  | Write h off b =>
      match ss !! h with
      | Some (Live r) => if touchable r off then Goes (<[h := Live (set_byte r off (b mod 256))]> ss) else Undefined
      | _ => Undefined
      end
  end.

(** Reading a byte, if it is there. *)
Definition memory_read (ss : list slot) (h : nat) (off : Z) : option Z :=
  match ss !! h with
  | Some (Live r) => if touchable r off then Some (byte_at r off) else None
  | _ => None
  end.

(** The blocks that the check for leaks leaves, when it meets a broken guard. *)
Fixpoint stuck (l : list region) : list region :=
  match l with [] => [] | r :: rest => if intact r then stuck rest else l end.

(** ** Guards *)
Definition within (n : nat) (off : Z) : bool := (0 <=? off) && (off <? Z.of_nat n).

Lemma unchanged_lookup l : unchanged l = true <-> forall k b, l !! k = Some b -> b = MALLOC_GUARD_PATTERN.
Proof.
  unfold unchanged. rw forallb_forall. split.
  - intros Hl k b Hk. apply Z.eqb_eq, Hl. by eapply list_elem_of_In, list_elem_of_lookup_2.
  - intros Hl b (k & Hk)%list_elem_of_In%list_elem_of_lookup. by apply Z.eqb_eq, (Hl k).
Qed.

Lemma intact_lookup r :
  intact r = true <-> forall k b, content r !! k = Some b -> (k < 16 \/ 16 + room r <= k)%nat -> b = MALLOC_GUARD_PATTERN.
Proof.
  unfold intact, lower, upper. rw andb_true_iff !unchanged_lookup. split.
  - intros [Hlo Hhi] k b Hk [H|H]; [apply (Hlo k); by rw lookup_take_lt|].
    apply (Hhi (k - (16 + room r))%nat). rw lookup_drop. by replace (16 + room r + (k - (16 + room r)))%nat with k by lia.
  - intros Hr. split; intros k b.
    + intros [Hk Hlt]%lookup_take_Some. apply (Hr k); [done|lia].
    + rw lookup_drop. intros Hk. apply (Hr _ _ Hk). lia.
Qed.

(** A byte that is not the pattern's breaks a guard, for good. *)
Lemma intact_set r off b : shaped r -> touchable r off = true -> b <> MALLOC_GUARD_PATTERN ->
  intact (set_byte r off b) = intact r && within (room r) off.
Proof.
  intros Hs Ht Hb. pose proof (touch_lookup _ _ Hs Ht) as [Hl Ho]. apply eq_true_iff_eq.
  rw andb_true_iff !intact_lookup. unfold within. rw andb_true_iff Z.leb_le Z.ltb_lt. cbn [content room set_byte].
  set (n := Z.to_nat (off + 16)) in *. assert (n < length (content r))%nat as Hn by by eapply lookup_lt_Some.
  split.
  - intros Hset. assert (0 <= off /\ off < Z.of_nat (room r)) as Hin.
    { destruct (decide (n < 16 \/ 16 + room r <= n)%nat) as [Hg|]; [|lia].
      destruct Hb. apply (Hset n); [by apply list_lookup_insert_eq|done]. }
    split; [|done]. intros k c Hk Hg. apply (Hset k); [|done]. rw list_lookup_insert_ne //. lia.
  - intros [Hr Hin] k c Hk Hg. apply (Hr k); [|done]. rw list_lookup_insert_ne in Hk; [done|lia].
Qed.

(** ** The pointers of a test *)

(** The addresses of the pointers, and the blocks that are there for them. *)
Inductive tracks : list slot -> list Z -> list gblock -> Prop :=
| tracks_nil : tracks [] [] []
| tracks_gone a ss env xs : tracks ss env xs -> tracks (Gone :: ss) (a :: env) xs
| tracks_null ss env xs : tracks ss env xs -> tracks (Null :: ss) (0 :: env) xs
| tracks_live x ss env xs : tracks ss env xs -> tracks (Live (inside x) :: ss) (given x :: env) (x :: xs).
#[local] Hint Constructors tracks : core.

Lemma tracks_app ss1 env1 xs1 ss2 env2 xs2 :
  tracks ss1 env1 xs1 -> tracks ss2 env2 xs2 -> tracks (ss1 ++ ss2) (env1 ++ env2) (xs1 ++ xs2).
Proof. induction 1; cbn; auto. Qed.

Lemma tracks_lives ss env xs : tracks ss env xs -> inside <$> xs = lives ss.
Proof. unfold lives. induction 1; cbn; by rw ?IHtracks. Qed.

Lemma tracks_null_at ss env xs h : tracks ss env xs -> ss !! h = Some Null -> nth h env 0 = 0.
Proof. intros Ht. revert h. induction Ht; intros [|h]; cbn; try done; apply IHHt. Qed.

Lemma tracks_live_at ss env xs h r : tracks ss env xs -> ss !! h = Some (Live r) ->
  exists xs1 x xs2, xs = xs1 ++ x :: xs2 /\ inside x = r /\ nth h env 0 = given x /\
    tracks (<[h := Gone]> ss) env (xs1 ++ xs2) /\
    (forall r', tracks (<[h := Live r']> ss) env (xs1 ++ with_region x r' :: xs2)).
Proof.
  intros Ht. revert h. induction Ht as [|a ss env xs Ht IH|ss env xs Ht IH|x ss env xs Ht IH]; intros [|h]; cbn; try done.
  - intros (xs1 & y & xs2 & -> & Hy & Hn & H1 & H2)%IH. exists xs1, y, xs2.
    split_and!; [done|done|done|by constructor|intros r'; constructor; apply H2].
  - intros (xs1 & y & xs2 & -> & Hy & Hn & H1 & H2)%IH. exists xs1, y, xs2.
    split_and!; [done|done|done|by constructor|intros r'; constructor; apply H2].
  - intros [= <-]. exists [], x, xs. split_and!; [done|done|done|by constructor|].
    intros r'. exact (tracks_live (with_region x r') _ _ _ Ht).
  - intros (xs1 & y & xs2 & -> & Hy & Hn & H1 & H2)%IH. exists (x :: xs1), y, xs2.
    split_and!; [done|done|done|by constructor|intros r'; cbn; constructor; apply H2].
Qed.

Lemma stuck_kept xs : inside <$> kept xs = stuck (inside <$> xs).
Proof. induction xs as [|x xs IH]; [done|]. cbn. by destruct (intact (inside x)). Qed.

Section Memory.
Context `{CText} `{Env} (Habort : getenv "CMOCKA_TEST_ABORT" = None).

(** The pointers of a test, next to blocks that others have left. *)
Definition owned_slots (xs0 : list gblock) (env : list Z) (ss : list slot) : hProp :=
  (∃ xs, ⌜tracks ss env xs⌝ ∗ listed_blocks (xs0 ++ xs))%I.

Lemma owned_slots_start xs0 : listed_blocks xs0 ⊢ owned_slots xs0 [] [].
Proof. iIntros "Hx". iExists []. iSplit; [by iPureIntro; constructor|]. by rw app_nil_r. Qed.

Lemma owned_slots_end xs0 env ss :
  owned_slots xs0 env ss ⊢ ∃ xs, ⌜inside <$> xs = lives ss⌝ ∗ listed_blocks (xs0 ++ xs).
Proof. iIntros "(%xs & %Ht & Hx)". iExists xs. iSplitR; [|iExact "Hx"]. iPureIntro. by eapply tracks_lives. Qed.

Lemma owned_slots_live xs0 env ss h r : ss !! h = Some (Live r) ->
  owned_slots xs0 env ss ⊢ ∃ xs1 x xs2, ⌜inside x = r /\ nth h env 0 = given x⌝ ∗ listed_blocks (xs1 ++ x :: xs2) ∗
    (listed_blocks (xs1 ++ x :: xs2) -∗ owned_slots xs0 env ss) ∧
    (listed_blocks (xs1 ++ xs2) -∗ owned_slots xs0 env (<[h := Gone]> ss)) ∧
    (∀ r', listed_blocks (xs1 ++ with_region x r' :: xs2) -∗ owned_slots xs0 env (<[h := Live r']> ss)) ∧
    (∀ y, listed_blocks (xs1 ++ xs2 ++ [y]) -∗ owned_slots xs0 (env ++ [given y]) (<[h := Gone]> ss ++ [Live (inside y)])) ∧
    (∀ y, listed_blocks (xs1 ++ x :: xs2 ++ [y]) -∗ owned_slots xs0 (env ++ [given y]) (ss ++ [Live (inside y)])).
Proof.
  iIntros (Hh) "(%xs & %Ht & Hx)". destruct (tracks_live_at _ _ _ _ _ Ht Hh) as (xs1 & x & xs2 & -> & Hx & Hn & H1 & H2).
  assert (forall y, tracks [Live (inside y)] [given y] [y]) as Hy by by repeat constructor.
  iExists (xs0 ++ xs1), x, xs2. iSplit; [done|]. iEval (rw app_assoc) in "Hx". iSplitL "Hx"; [iExact "Hx"|].
  repeat iSplit.
  - iIntros "Hx". iExists _. iSplitR; [done|]. by rw app_assoc.
  - iIntros "Hx". iExists _. iSplitR; [done|]. by rw app_assoc.
  - iIntros (r') "Hx". iExists _. iSplitR; [iPureIntro; apply H2|]. by rw app_assoc.
  - iIntros (y) "Hx". iExists ((xs1 ++ xs2) ++ [y]). iSplitR; [iPureIntro; by apply tracks_app|]. by rw -!app_assoc.
  - iIntros (y) "Hx". iExists ((xs1 ++ x :: xs2) ++ [y]). iSplitR; [iPureIntro; by apply tracks_app|]. by rw -!app_assoc.
Qed.

(** A new block. *)
Lemma owned_slots_new xs0 env ss xs y : tracks ss env xs ->
  listed_blocks ((xs0 ++ xs) ++ [y]) ⊢ owned_slots xs0 (env ++ [given y]) (ss ++ [Live (inside y)]).
Proof.
  iIntros (Ht) "Hx". iExists (xs ++ [y]). iSplitR; [|by rw -app_assoc]. iPureIntro. apply tracks_app; [done|]. by repeat constructor.
Qed.

Lemma requestable_fits n : requestable n <-> fits (Z.of_nat n) = true.
Proof. unfold requestable, fits. by rw Z.ltb_lt. Qed.
Lemma unfit_wraps size : in_range size = true -> fits size = false -> (size <? allocate_size size) = false.
Proof.
  unfold in_range, fits. intros [H1%Z.leb_le H2%Z.ltb_lt]%andb_true_iff H3%Z.ltb_ge. apply Z.ltb_ge.
  unfold allocate_size, MALLOC_GUARD_SIZE, sizeof_MallocBlockInfoData, MALLOC_ALIGNMENT, uwrap.
  replace (size + 16 * 2 + 72 + 8) with ((size + 112 - 2 ^ 64) + 1 * 2 ^ 64) by lia. rw Z_mod_plus_full Z.mod_small; lia.
Qed.
Lemma in_range_nat size : in_range size = true -> exists n, size = Z.of_nat n.
Proof. intros [H1%Z.leb_le _]%andb_true_iff. by apply Z_of_nat_complete. Qed.
Lemma u64_range z : in_range (u64 z) = true.
Proof. unfold in_range, uwrap. pose proof (Z.mod_pos_bound z (2 ^ 64) ltac:(done)). apply andb_true_iff. rw Z.leb_le Z.ltb_lt. lia. Qed.

(** The operations of the program. *)
Definition memory_run (op : memory_op) (file : string) (line : Z) (env : list Z) : M (list Z) :=
  let pointer h := nth h env 0 in
  match op with
  | Malloc size => p <- _test_malloc size file line ;; ret (env ++ [p])
  | Calloc count size => p <- _test_calloc count size file line ;; ret (env ++ [p])
  | Realloc h size => p <- _test_realloc (pointer h) size file line ;; ret (env ++ [p])
  | Free h => _test_free (pointer h) file line ;; ret env
  | Write h off b => store (pointer h + off) (CByte (b mod 256)) ;; ret env
  end.

Definition memory_post (res : memory_result) (xs0 : list gblock) (g : globals) (Q : outcome (list Z) -> globals -> hProp) : hProp :=
  match res with
  | Goes ss => ∀ env g', ⌜steady g g'⌝ -∗ owned_slots xs0 env ss -∗ Q (Done env) g'
  | Refused ss => ∀ env g', ⌜steady g g'⌝ -∗ owned_slots xs0 env ss -∗ Q (stop_of g _) g'
  | Undefined => False
  end%I.

Lemma hwp_slots_malloc size file line xs0 env ss g (Q : outcome (list Z) -> globals -> hProp) :
  in_range size = true -> owned_slots xs0 env ss -∗
  memory_post (if fits size then Goes (ss ++ [give (unset (Z.to_nat size))]) else Refused ss) xs0 g Q -∗
  hwp (p <- _test_malloc size file line ;; ret (env ++ [p])) g Q.
Proof.
  iIntros (Hr) "(%xs & %Ht & Hx) HQ". wp_bind. destruct (fits size) eqn:Hf.
  - destruct (in_range_nat _ Hr) as [n ->]. rw Nat2Z.id.
    iApply (hwp_test_malloc n with "[Hx]"); [by apply requestable_fits|by iApply listed_owned|].
    iIntros (b) "Hx". cbn beta iota. iApply hwp_ret. iApply ("HQ" with "[//]").
    iApply (owned_slots_new _ _ _ _ (fresh_block b file line (unset n)) Ht with "Hx").
  - iApply (hwp_test_malloc_wraps Habort with "[Hx]"); [by apply unfit_wraps|by iApply listed_owned|]. iIntros "Hx" (g' Hg).
    iSpecialize ("HQ" $! env g' with "[//] [Hx]"); [iExists xs; by iSplitR|]. stops g.
Qed.

Lemma hwp_slots_calloc count size file line xs0 env ss g (Q : outcome (list Z) -> globals -> hProp) :
  let n := u64 (count * size) in
  owned_slots xs0 env ss -∗
  memory_post (if fits n then Goes (ss ++ [give (repeat 0 (Z.to_nat n))]) else Refused ss) xs0 g Q -∗
  hwp (p <- _test_calloc count size file line ;; ret (env ++ [p])) g Q.
Proof.
  iIntros (z) "(%xs & %Ht & Hx) HQ". wp_bind. assert (in_range z = true) as Hr by apply u64_range.
  destruct (fits z) eqn:Hf.
  - destruct (in_range_nat _ Hr) as [n Hn]. rw Hn Nat2Z.id.
    iApply (hwp_test_calloc _ _ n with "[Hx]"); [done|apply requestable_fits; by rw -Hn|by iApply listed_owned|].
    iIntros (b) "Hx". cbn beta iota. iApply hwp_ret. iApply ("HQ" with "[//]").
    iApply (owned_slots_new _ _ _ _ (fresh_block b file line (repeat 0 n)) Ht with "Hx").
  - unfold _test_calloc. fold z. cbn zeta. wp_bind.
    iApply (hwp_test_malloc_wraps Habort with "[Hx]"); [by apply unfit_wraps|by iApply listed_owned|]. iIntros "Hx" (g' Hg).
    iSpecialize ("HQ" $! env g' with "[//] [Hx]"); [iExists xs; by iSplitR|]. stops g.
Qed.

Lemma hwp_slots_free h r file line xs0 env ss g (Q : outcome unit -> globals -> hProp) : ss !! h = Some (Live r) ->
  owned_slots xs0 env ss -∗
  (owned_slots xs0 env (if intact r then <[h := Gone]> ss else ss) -∗ goes_on (intact r) g Q) -∗
  hwp (_test_free (nth h env 0) file line) g Q.
Proof.
  iIntros (Hh) "Hs HQ". iDestruct (owned_slots_live _ _ _ _ _ Hh with "Hs") as "(%xs1 & %x & %xs2 & [<- ->] & Hx & Hback)".
  iApply (hwp_test_free Habort with "Hx"). iIntros "Hx". destruct (intact (inside x)); cbn [app].
  - iApply "HQ". iDestruct "Hback" as "(_ & Hback & _)". by iApply "Hback".
  - iApply "HQ". iDestruct "Hback" as "(Hback & _)". by iApply "Hback".
Qed.

Lemma hwp_slots_realloc h r size file line xs0 env ss g (Q : outcome (list Z) -> globals -> hProp) :
  ss !! h = Some (Live r) -> in_range size = true -> size <> 0 -> owned_slots xs0 env ss -∗
  memory_post (if negb (fits size) then Refused ss else
     if intact r then Goes (<[h := Gone]> ss ++ [give (resized (own r) (Z.to_nat size))])
     else Refused (ss ++ [give (resized (own r) (Z.to_nat size))])) xs0 g Q -∗
  hwp (p <- _test_realloc (nth h env 0) size file line ;; ret (env ++ [p])) g Q.
Proof.
  iIntros (Hh Hr Hnz) "Hs HQ". iDestruct (owned_slots_live _ _ _ _ _ Hh with "Hs") as "(%xs1 & %x & %xs2 & [<- ->] & Hx & Hback)".
  wp_bind. destruct (fits size) eqn:Hf; cbn [negb].
  - destruct (in_range_nat _ Hr) as [n ->]. rw Nat2Z.id.
    iApply (hwp_test_realloc Habort n with "Hx"); [by apply requestable_fits|lia|]. iIntros (b) "Hx".
    iIntros (g' Hg). destruct (intact (inside x)); cbn [app].
    + iApply hwp_ret. iApply ("HQ" with "[//]"). iDestruct "Hback" as "(_ & _ & _ & Hback & _)".
      iApply ("Hback" $! (fresh_block b file line (resized (own (inside x)) n)) with "Hx").
    + iDestruct "Hback" as "(_ & _ & _ & _ & Hback)". iSpecialize ("Hback" with "Hx"). iSpecialize ("HQ" with "[//] Hback"). stops g.
  - iAssert (⌜given x <> 0⌝)%I as %Hg0.
    { iDestruct (listed_one with "Hx") as "(%e & [[(_ & _ & % & _) _] _] & _)". iPureIntro. unfold given. lia. }
    unfold _test_realloc. rw (proj2 (Z.eqb_neq _ _) Hg0) (proj2 (Z.eqb_neq _ _) Hnz). wp_bind.
    iApply (hwp_test_malloc_wraps Habort with "[Hx]"); [by apply unfit_wraps|by iApply listed_owned|]. iIntros "Hx" (g' Hg).
    iDestruct "Hback" as "(Hback & _)". iSpecialize ("HQ" with "[//] [Hback Hx]"); [by iApply "Hback"|]. stops g.
Qed.

(** The functions of guarded memory do what the model says. *)
Lemma hwp_memory op file line xs0 env ss g (Q : outcome (list Z) -> globals -> hProp) :
  owned_slots xs0 env ss -∗ memory_post (memory_step op ss) xs0 g Q -∗ hwp (memory_run op file line env) g Q.
Proof.
  iIntros "Hs HQ". destruct op as [size|count size|h size|h|h off b]; cbn [memory_run memory_step].
  - destruct (in_range size) eqn:Hr; cbn [negb]; [|done]. by iApply (hwp_slots_malloc with "Hs").
  - by iApply (hwp_slots_calloc with "Hs").
  - destruct (in_range size) eqn:Hr; cbn [negb]; [|done]. destruct (ss !! h) as [[| |r]|] eqn:Hh; try done.
    + iAssert (⌜nth h env 0 = 0⌝)%I as %->; [iDestruct "Hs" as "(%xs & %Ht & _)"; iPureIntro; by eapply tracks_null_at|].
      by iApply (hwp_slots_malloc with "Hs").
    + destruct (Z.eqb_spec size 0) as [->|Hnz]; [|by iApply (hwp_slots_realloc with "Hs")].
      iAssert (⌜nth h env 0 <> 0⌝)%I as %Hp.
      { iDestruct (owned_slots_live _ _ _ _ _ Hh with "Hs") as "(%xs1 & %x & %xs2 & [_ %Hn] & Hx & _)".
        iDestruct (listed_one with "Hx") as "(%e & [[(_ & _ & % & _) _] _] & _)". iPureIntro. rw Hn /given. lia. }
      unfold _test_realloc. rw (proj2 (Z.eqb_neq _ _) Hp). cbn [Z.eqb]. do 2 wp_bind.
      iApply (hwp_slots_free with "Hs"); [done|]. iIntros "Hs" (g' Hg). destruct (intact r).
      * iApply hwp_ret. iApply hwp_ret. iApply ("HQ" with "[//]"). iDestruct "Hs" as "(%xs & %Ht & Hx)". iExists xs.
        iSplitR; [|iExact "Hx"]. iPureIntro. rw -(app_nil_r xs). by apply tracks_app; repeat constructor.
      * iSpecialize ("HQ" with "[//] Hs"). stops g.
  - destruct (ss !! h) as [[| |r]|] eqn:Hh; try done; wp_bind.
    + iAssert (⌜nth h env 0 = 0⌝)%I as %->; [iDestruct "Hs" as "(%xs & %Ht & _)"; iPureIntro; by eapply tracks_null_at|].
      unfold _test_free. cbn [Z.eqb]. iApply hwp_ret. iApply hwp_ret. by iApply ("HQ" with "[//] Hs").
    + iApply (hwp_slots_free with "Hs"); [done|]. iIntros "Hs" (g' Hg). destruct (intact r).
      * iApply hwp_ret. by iApply ("HQ" with "[//] Hs").
      * iSpecialize ("HQ" with "[//] Hs"). stops g.
  - destruct (ss !! h) as [[| |r]|] eqn:Hh; try done. destruct (touchable r off) eqn:Ht; [|done].
    iDestruct (owned_slots_live _ _ _ _ _ Hh with "Hs") as "(%xs1 & %x & %xs2 & [<- ->] & Hx & Hback)". wp_bind.
    iApply (hwp_write_byte with "Hx"); [done|apply Z.mod_pos_bound; done|]. iIntros "Hx". cbn beta iota. iApply hwp_ret.
    iApply ("HQ" with "[//]"). iDestruct "Hback" as "(_ & _ & Hback & _)". by iApply "Hback".
Qed.

Lemma hwp_memory_read h off b xs0 env ss g (Q : outcome Z -> globals -> hProp) :
  memory_read ss h off = Some b -> owned_slots xs0 env ss -∗ (owned_slots xs0 env ss -∗ Q (Done b) g) -∗
  hwp (load_byte (nth h env 0 + off)) g Q.
Proof.
  unfold memory_read. iIntros (Hb) "Hs HQ". destruct (ss !! h) as [[| |r]|] eqn:Hh; try done.
  destruct (touchable r off) eqn:Ht; [|done]. injection Hb as <-.
  iDestruct (owned_slots_live _ _ _ _ _ Hh with "Hs") as "(%xs1 & %x & %xs2 & [<- ->] & Hx & Hback)".
  iApply (hwp_read_byte with "Hx"); [done|]. iIntros "Hx". iApply "HQ". iDestruct "Hback" as "(Hback & _)". by iApply "Hback".
Qed.
End Memory.
