(* ===== verification/CmRun.v ===== *)
(** * The verdict of a test

    A test of the framework is a script of the calls it makes, which may depend on
    the values that mock functions returned and on the bytes it reads back. An
    abstract model judges scripts; the runner of cmocka.c comes to the same verdict,
    for one test after another. *)

From S2P Require Import Prelude.
From S2P Require Import CLib.
From S2P Require Import Sys.
From S2P Require Import Sem.
From S2P Require Import HeapLogic.
From S2P Require Import Cmocka.
From S2P Require Import CmBase.
From S2P Require Import CmLists.
From S2P Require Import CmMock.
From S2P Require Import CmOps.
From S2P Require Import CmLeft.
From S2P Require Import CmHeap.
From S2P Require Import CmMem.
From iris.bi Require Import bi.
From iris.proofmode Require Import proofmode.
#[local] Open Scope Z_scope.
#[local] Open Scope cmd_scope.
Import cmocka.

#[local] Abbreviation hProp := (hpropI cell).

(** ** Scripts *)
Inductive script :=
| End
| WillReturn (function file : string) (line value count : Z) (k : script)
| Mock (function file : string) (line : Z) (k : Z -> script)
| Expect (x : expectation) (function parameter file : string) (line count : Z) (k : script)
| CheckExpected (function parameter file : string) (line value : Z) (k : script)
| ExpectCall (function file : string) (line count : Z) (k : script)
| FunctionCalled (function file : string) (line : Z) (k : script)
| Assert (a : assertion) (file : string) (line : Z) (k : script)
| Memory (op : memory_op) (file : string) (line : Z) (k : script)
| ReadByte (h : nat) (off : Z) (k : Z -> script)
| Skip (file : string) (line : Z).

(** Its calls of the framework, with the pointers it was given. *)
Fixpoint run `{CText} `{Env} (env : list Z) (s : script) : M unit :=
  match s with
  | End => ret tt
  | WillReturn f file line v c k => _will_return f file line v c ;; run env k
  | Mock f file line k => v <- _mock f file line ;; run env (k v)
  | Expect x f p file line c k => expect x f p file line c ;; run env k
  | CheckExpected f p file line v k => _check_expected f p file line v ;; run env k
  | ExpectCall f file line c k => _expect_function_call f file line c ;; run env k
  | FunctionCalled f file line k => _function_called f file line ;; run env k
  | Assert a file line k => assert_that a file line ;; run env k
  | Memory op file line k => env <- memory_run op file line env ;; run env k
  | ReadByte h off k => b <- load_byte (nth h env 0 + off) ;; run env (k b)
  | Skip file line => _skip file line
  end.

(** The verdict on a script from what has been set up and the memory it has; what
    is left of the two. The fault is that of an ordered call (see [call]). *)
Inductive verdict :=
| Passes (left : mocks) (ss : list slot) | Fails (ss : list slot) | Skips (ss : list slot) | Crashes (ss : list slot)
| NoVerdict.

Fixpoint judge (s : script) (m : mocks) (ss : list slot) : verdict :=
  match s with
  | End => Passes m ss
  | WillReturn f _ _ v c k =>
      if c ==? 0 then Fails ss
      else judge k (mkMocks (add_value 1 (results m) [f] (v, c)) (params m) (calls m)) ss
  | Mock f _ _ k =>
      match obtain 1 (results m) [f] with
      | (Some v, t) => judge (k v) (mkMocks t (params m) (calls m)) ss
      | (None, _) => Fails ss
      end
  | Expect x f p _ _ c k =>
      if expectable x then judge k (mkMocks (results m) (add_value 2 (params m) [f; p] (x, c)) (calls m)) ss
      else Fails ss
  | CheckExpected f p _ _ v k =>
      match obtain 2 (params m) [f; p] with
      | (Some x, t) => if accepts x v then judge k (mkMocks (results m) t (calls m)) ss else Fails ss
      | (None, _) => Fails ss
      end
  | ExpectCall f _ _ c k =>
      if c ==? 0 then Fails ss else judge k (mkMocks (results m) (params m) (calls m ++ [(f, c)])) ss
  | FunctionCalled f _ _ k =>
      match call f (calls m) with
      | Called q => judge k (mkMocks (results m) (params m) q) ss
      | Wrong => Fails ss
      | Crash => Crashes ss
      end
  | Assert a _ _ k => if assertion_holds a then judge k m ss else Fails ss
  | Memory op _ _ k =>
      match memory_step op ss with
      | Goes ss => judge k m ss
      | Refused ss => Fails ss
      | Undefined => NoVerdict
      end
  | ReadByte h off k => match memory_read ss h off with Some b => judge (k b) m ss | None => NoVerdict end
  | Skip _ _ => Skips ss
  end.

(** The status a test deserves, and the number of blocks it leaves: a test that
    would pass fails for the blocks it has not released, which are released then
    up to the first with a broken guard. *)
Definition settle (v : verdict) : option (CMUnitTestStatus * nat) :=
  match v with
  | Passes m ss =>
      match lives ss with
      | [] => Some (if satisfied m then CM_TEST_PASSED else CM_TEST_FAILED, O)
      | l => Some (CM_TEST_FAILED, length (stuck l))
      end
  | Fails ss | Crashes ss => Some (CM_TEST_FAILED, length (lives ss))
  | Skips ss => Some (CM_TEST_SKIPPED, length (lives ss))
  | NoVerdict => None
  end.
Definition status_of (s : script) : option (CMUnitTestStatus * nat) := settle (judge s no_mocks []).

(** The numbers of failed, passed, executed, skipped tests and errors. *)
Definition counts (s : totals) : Z * Z * Z * Z * Z :=
  (total_failed s, total_passed s, total_executed s, total_skipped s, total_errors s).
Definition tally (st : CMUnitTestStatus) (n : Z * Z * Z * Z * Z) : Z * Z * Z * Z * Z :=
  let '(f, p, x, k, e) := n in
  match st with
  | CM_TEST_PASSED => (f, p + 1, x + 1, k, e)
  | CM_TEST_FAILED => (f + 1, p, x + 1, k, e)
  | CM_TEST_SKIPPED => (f, p, x + 1, k + 1, e)
  | _ => (f, p, x + 1, k, e + 1)
  end.

Definition tally_all (sts : list CMUnitTestStatus) (n : Z * Z * Z * Z * Z) := foldl (fun n st => tally st n) n sts.
(** The statuses of the tests, and the number of blocks they leave, if all have a
    verdict. *)
Fixpoint statuses (tests : list (string * script)) : option (list CMUnitTestStatus * nat) :=
  match tests with
  | [] => Some ([], O)
  | test :: tests =>
      match status_of test.2, statuses tests with
      | Some (st, n), Some (sts, m) => Some (st :: sts, n + m)%nat
      | _, _ => None
      end
  end.

(** What the group answers: the number of tests that failed, as an int. *)
Definition failing (st : CMUnitTestStatus) : bool :=
  match st with CM_TEST_PASSED | CM_TEST_SKIPPED => false | _ => true end.
Definition failed_of (sts : list CMUnitTestStatus) : Z := i32 (Z.of_nat (length (List.filter failing sts))).

(** The tests that pass the filters. *)
Definition passes_filters (g : globals) (name : string) : bool :=
  match global_test_filter_pattern g with Some p => c_strmatch name p | None => true end &&
  match global_skip_filter_pattern g with Some p => negb (c_strmatch name p) | None => true end.
Definition chosen (g : globals) (tests : list (string * script)) : list (string * script) :=
  List.filter (fun t => passes_filters g t.1) tests.

Lemma chosen_length g tests : (length (chosen g tests) <= length tests)%nat.
Proof.
  induction tests as [|t tests IH]; [done|]. unfold chosen in *. cbn [List.filter].
  destruct (passes_filters g t.1); cbn [length]; lia.
Qed.

Create HintDb writes.

Section Runs.
Context `{CText} `{Env} (Habort : getenv "CMOCKA_TEST_ABORT" = None).

(** What follows where there is a verdict. *)
Definition judged_post {A} (j : option A) (P : A -> hProp) : hProp :=
  match j with Some a => P a | None => False end%I.

Definition verdict_post (v : verdict) (xs0 : list gblock) (g : globals) (Q : outcome unit -> globals -> hProp) : hProp :=
  match v with
  | Passes m ss => ∀ env g', ⌜steady g g'⌝ -∗ owned_mocks m -∗ owned_slots xs0 env ss -∗ Q (Done tt) g'
  | Fails ss => ∀ env g' m, ⌜steady g g'⌝ -∗ owned_mocks m -∗ owned_slots xs0 env ss -∗ Q (LongJmp 1) g'
  | Skips ss => ∀ env g' m, ⌜steady (set_skip_test 1 g) g'⌝ -∗ owned_mocks m -∗ owned_slots xs0 env ss -∗ Q (LongJmp 1) g'
  | Crashes ss => ∀ env g' m, ⌜steady g g'⌝ -∗ owned_mocks m -∗ owned_slots xs0 env ss -∗ Q Fault g'
  | NoVerdict => False
  end%I.

Lemma steady_skip x g g' : steady g g' -> steady (set_skip_test x g) (set_skip_test x g').
Proof. destruct g, g'. unfold steady. cbn. tauto. Qed.

Lemma verdict_steady v xs0 g g' Q : steady g g' -> verdict_post v xs0 g Q ⊢ verdict_post v xs0 g' Q.
Proof.
  intros Hg. destruct v; cbn;
    [iIntros "H" (env g2 Hg2)|iIntros "H" (env g2 m Hg2)|iIntros "H" (env g2 m Hg2)|iIntros "H" (env g2 m Hg2)|done];
    iApply "H"; iPureIntro; (etransitivity; [|exact Hg2]); [done|done|by apply steady_skip|done].
Qed.

(** The framework comes to the verdict of the model. *)
Lemma hwp_script s m xs0 env ss g (Q : outcome unit -> globals -> hProp) :
  global_running_test g <> 0 -> owned_mocks m -∗ owned_slots xs0 env ss -∗ verdict_post (judge s m ss) xs0 g Q -∗
  hwp (run env s) g Q.
Proof.
  revert m env ss g. induction s as [|f file line v c k IH|f file line k IH|x f p file line c k IH|f p file line v k IH
    |f file line c k IH|f file line k IH|a file line k IH|op file line k IH|h off k IH|file line];
    intros m env ss g; iIntros (Hr) "Ho Hs HQ"; cbn [run judge].
  - iApply hwp_ret. by iApply ("HQ" with "[] Ho Hs").
  - iDestruct "Ho" as "(H1 & H2 & H3)". wp_bind. iApply (hwp_will_return with "H1"); [done..|]. iIntros "H1" (g' Hg).
    destruct (c ==? 0); [by iApply ("HQ" $! _ _ m with "[//] [$H1 $H2 $H3] Hs")|].
    iApply (IH (mkMocks _ _ _) with "[$H1 $H2 $H3] Hs"); [by eauto|]. by iApply verdict_steady.
  - iDestruct "Ho" as "(H1 & H2 & H3)". wp_bind. iApply (hwp_mock with "H1"); [done..|]. iIntros "H1" (g' Hg).
    destruct (obtain 1 (results m) [f]) as [[v|] t]; cbn [fst snd].
    + iApply (IH v (mkMocks _ _ _) with "[$H1 $H2 $H3] Hs"); [by eauto|]. by iApply verdict_steady.
    + by iApply ("HQ" $! _ _ (mkMocks t _ _) with "[//] [$H1 $H2 $H3] Hs").
  - iDestruct "Ho" as "(H1 & H2 & H3)". wp_bind. iApply (hwp_expect with "H2"); [done..|]. iIntros "H2" (g' Hg).
    destruct (expectable x); [|by iApply ("HQ" $! _ _ m with "[//] [$H1 $H2 $H3] Hs")].
    iApply (IH (mkMocks _ _ _) with "[$H1 $H2 $H3] Hs"); [by eauto|]. by iApply verdict_steady.
  - iDestruct "Ho" as "(H1 & H2 & H3)". wp_bind. iApply (hwp_check_expected with "H2"); [done..|]. iIntros "H2" (g' Hg).
    destruct (obtain 2 (params m) [f; p]) as [[x|] t]; cbn [fst snd]; [destruct (accepts x v)|].
    + iApply (IH (mkMocks _ _ _) with "[$H1 $H2 $H3] Hs"); [by eauto|]. by iApply verdict_steady.
    + by iApply ("HQ" $! _ _ (mkMocks _ t _) with "[//] [$H1 $H2 $H3] Hs").
    + by iApply ("HQ" $! _ _ (mkMocks _ t _) with "[//] [$H1 $H2 $H3] Hs").
  - iDestruct "Ho" as "(H1 & H2 & H3)". wp_bind. iApply (hwp_expect_function_call with "H3"); [done..|]. iIntros "H3" (g' Hg).
    destruct (c ==? 0); [by iApply ("HQ" $! _ _ m with "[//] [$H1 $H2 $H3] Hs")|].
    iApply (IH (mkMocks _ _ _) with "[$H1 $H2 $H3] Hs"); [by eauto|]. by iApply verdict_steady.
  - iDestruct "Ho" as "(H1 & H2 & H3)". wp_bind. iApply (hwp_function_called with "H3"); [done..|].
    destruct (call f (calls m)) as [q| |].
    + iIntros "H3" (g' Hg). iApply (IH (mkMocks _ _ _) with "[$H1 $H2 $H3] Hs"); [by eauto|]. by iApply verdict_steady.
    + iIntros "H3" (g' Hg). by iApply ("HQ" $! _ _ m with "[//] [$H1 $H2 $H3] Hs").
    + iIntros "H3". by iApply ("HQ" $! _ _ m with "[//] [$H1 $H2 $H3] Hs").
  - wp_bind. iApply hwp_assert_that; [done..|]. iIntros (g' Hg). destruct (assertion_holds a).
    + iApply (IH with "Ho Hs"); [by eauto|]. by iApply verdict_steady.
    + by iApply ("HQ" with "[//] Ho Hs").
  - wp_bind. iApply (hwp_memory Habort with "Hs"). destruct (memory_step op ss) as [ss'|ss'|]; [| |done].
    + iIntros (env' g' Hg) "Hs". iApply (IH with "Ho Hs"); [by eauto|]. by iApply verdict_steady.
    + iIntros (env' g' Hg) "Hs". rw running_stop //. by iApply ("HQ" with "[//] Ho Hs").
  - wp_bind. destruct (memory_read ss h off) as [b|] eqn:Hb; [|done].
    iApply (hwp_memory_read with "Hs"); [done|]. iIntros "Hs". by iApply (IH with "Ho Hs").
  - unfold _skip. wp_bind. iApply hwp_cm_print_error. wp_bind. iApply hwp_modify. wp_bind.
    iApply hwp_exit_test; [done|by destruct g|]. iApply ("HQ" with "[%] Ho Hs"). by destruct g.
Qed.

(** ** One test *)

(** What the runner keeps between tests: nothing is set up, and the blocks that
    tests have left. *)
Definition no_lists : hProp := (∃ n1 n2 n3, node_at global_function_result_map_head n1 ∗
  node_at global_function_parameter_map_head n2 ∗ node_at global_call_ordering_head n3)%I.
Definition idle (xs : list gblock) : hProp := (no_lists ∗ owned_blocks xs)%I.

Lemma mocks_idle m xs : owned_mocks m -∗ listed_blocks xs -∗ idle xs.
Proof.
  iIntros "([_ (%l1 & [H1 _] & _)] & [_ (%l2 & [H2 _] & _)] & (%l3 & [H3 _] & _)) Hx".
  iSplitR "Hx"; [iExists _, _, _; iFrame|by iApply listed_owned].
Qed.

Lemma hwp_initialize_testing name g (Q : outcome unit -> globals -> hProp) :
  no_lists -∗ (∀ g', ⌜steady g g'⌝ -∗ owned_mocks no_mocks -∗ Q (Done tt) g') -∗ hwp (initialize_testing name) g Q.
Proof.
  iIntros "(%n1 & %n2 & %n3 & H1 & H2 & H3) HQ". unfold initialize_testing.
  wp_use (hwp_list_initialize with "H1") as "H1". wp_bind. iApply hwp_modify.
  wp_use (hwp_list_initialize with "H2") as "H2". wp_bind. iApply hwp_modify.
  wp_use (hwp_list_initialize with "H3") as "H3". iApply hwp_modify. iApply ("HQ" with "[%] [H1 H2 H3]"); [by auto 10|].
  iSplitL "H1"; [iSplit; [by iPureIntro; constructor|by iExists []; iFrame]|].
  iSplitL "H2"; [iSplit; [by iPureIntro; constructor|by iExists []; iFrame]|]. iExists []. by iFrame.
Qed.

Definition passed (st : CMUnitTestStatus) : bool := match st with CM_TEST_PASSED => true | _ => false end.
Definition skip_flag (st : CMUnitTestStatus) : Z := match st with CM_TEST_SKIPPED => 1 | _ => 0 end.

(** The variables after a test, with the flag of the skipped. *)
Definition ended (flag : Z) (g g' : globals) : Prop := steady (set_running_test 0 (set_skip_test flag g)) g'.

Lemma steady_set_running x g g' : steady g g' -> steady (set_running_test x g) (set_running_test x g').
Proof. destruct g, g'. unfold steady. cbn. tauto. Qed.

(** From a running test on, with the runner's end of it. *)
Lemma ended_running flag g0 g1 g2 :
  steady g0 g1 -> steady (set_skip_test flag (set_running_test 1 g1)) g2 -> ended flag g0 (set_running_test 0 g2).
Proof. destruct g0, g1, g2. unfold ended, steady. cbn. intuition congruence. Qed.
Lemma steady_same_flag g g' : global_skip_test g = 0 -> steady g g' -> steady (set_skip_test 0 g) g'.
Proof. destruct g, g'. unfold steady. cbn. intuition congruence. Qed.

Definition test_result (st : CMUnitTestStatus) : Z := if passed st then 0 else -1.

(** The number of blocks that are left, on the heap and in the model. *)
Lemma kept_stuck xs l : inside <$> xs = l -> length (kept xs) = length (stuck l).
Proof. intros <-. by rw -stuck_kept length_fmap. Qed.

Lemma hwp_test_body name s m xs0 g (Q : outcome (Z + Z) -> globals -> hProp) :
  global_running_test g <> 0 -> global_skip_test g = 0 -> owned_mocks m -∗ owned_slots xs0 [] [] -∗
  judged_post (settle (judge s m [])) (fun '(st, n) => ∀ g' m' xs,
    ⌜steady (set_skip_test (skip_flag st) g) g'⌝ -∗ ⌜length xs = n⌝ -∗ owned_mocks m' -∗ listed_blocks (xs0 ++ xs) -∗
    if passed st then Q (Done (inl 0)) (set_running_test 0 g') else Q (Done (inr 1)) g')%I -∗
  hwp (try (handle_exceptions (
         rc <- (run [] s ;; fail_if_blocks_allocated (check_point xs0) name ;; ret 0) ;;
         fail_if_leftover_values name ;; modify (set_running_test 0) ;; ret rc))) g Q.
Proof.
  iIntros (Hr Hskip) "Ho Hs HQ". iApply hwp_try. iApply hwp_handle_exceptions; [done|]. iApply hwp_assoc. wp_bind. iApply (hwp_script with "Ho Hs"); [done|].
  destruct (judge s m []) as [m' ss|ss|ss|ss|]; cbn [verdict_post settle judged_post].
  - iIntros (env g1 Hg1) "Ho Hs". rw owned_slots_end. iDestruct "Hs" as "(%xs & %Hxs & Hx)". cbn beta iota.
    iApply hwp_assoc. wp_bind. iApply (hwp_fail_if_blocks Habort with "[Hx]"); [by iApply listed_owned|]. iIntros "Hx" (g2 Hg2).
    assert (steady g g2) as Hgg by by etransitivity. rw -Hxs. destruct xs as [|x xs].
    + rw bool_decide_true //. cbn [fmap list_fmap judged_post]. wp_bind. iApply hwp_ret. wp_bind.
      iApply (hwp_fail_if_leftover_values with "Ho"); [done|by eauto|]. iIntros "Ho" (g3 Hg3).
      assert (steady g g3) as Hg by by etransitivity.
      destruct (satisfied m'); cbn [judged_post passed skip_flag].
      * wp_bind. iApply hwp_modify. iApply hwp_ret. iApply ("HQ" $! _ _ [] with "[%] [//] Ho Hx"). by apply steady_same_flag.
      * iApply ("HQ" $! _ _ [] with "[%] [//] Ho Hx"). by apply steady_same_flag.
    + rw bool_decide_false //. rw running_stop; [|by eauto]. cbn [fmap list_fmap judged_post].
      iApply ("HQ" $! _ _ (kept (x :: xs)) with "[%] [%] Ho Hx"); [by apply steady_same_flag|by apply kept_stuck].
  - iIntros (env g' m' Hg) "Ho Hs". rw owned_slots_end. iDestruct "Hs" as "(%xs & %Hxs & Hx)".
    iApply ("HQ" $! _ _ xs with "[%] [%] Ho Hx"); [by apply steady_same_flag|by rw -Hxs length_fmap].
  - iIntros (env g' m' Hg) "Ho Hs". rw owned_slots_end. iDestruct "Hs" as "(%xs & %Hxs & Hx)".
    iApply ("HQ" $! _ _ xs with "[//] [%] Ho Hx"). by rw -Hxs length_fmap.
  - iIntros (env g1 m' Hg1) "Ho Hs". rw owned_slots_end. iDestruct "Hs" as "(%xs & %Hxs & Hx)". iIntros (g2 Hg2).
    assert (steady g g2) as Hg by by etransitivity. rw running_stop; [|by eauto].
    iApply ("HQ" $! _ _ xs with "[%] [%] Ho Hx"); [by apply steady_same_flag|by rw -Hxs length_fmap].
  - done.
Qed.

(** The lists are emptied and the variables set for the next test. *)
Lemma hwp_test_over name m xs rc g (Q : outcome Z -> globals -> hProp) :
  owned_mocks m -∗ listed_blocks xs -∗ (∀ g', ⌜steady g g'⌝ -∗ idle xs -∗ Q (Done rc) g') -∗
  hwp (teardown_testing name ;; ret rc) g Q.
Proof.
  iIntros "Ho Hx HQ". wp_bind. iApply (hwp_teardown_testing with "Ho"). iIntros (g' Hg) "Ho". cbn beta iota.
  iApply hwp_ret. iApply ("HQ" with "[//]"). iApply (mocks_idle with "Ho Hx").
Qed.

Lemma hwp_run_one_test name s state xs0 g (Q : outcome Z -> globals -> hProp) :
  global_skip_test g = 0 -> idle xs0 -∗
  judged_post (status_of s) (fun '(st, n) => ∀ g' xs, ⌜ended (skip_flag st) g g'⌝ -∗ ⌜length xs = n⌝ -∗
    idle (xs0 ++ xs) -∗ Q (Done (test_result st)) g')%I -∗
  hwp (cmocka_run_one_test_or_fixture name (Some (fun _ => run [] s)) None None state 0) g Q.
Proof.
  iIntros (Hs) "[H1 Hb] HQ". unfold cmocka_run_one_test_or_fixture. cbn [negb Z.eqb]. wp_bind.
  iApply (hwp_check_point_blocks with "Hb"). iIntros "Hb". cbn beta iota. wp_bind.
  iApply hwp_alloc; [by apply NoDup_singleton|by repeat constructor|]. iIntros (a Ha Hm) "[Ha _]". cbn beta iota zeta.
  cbn [fst snd]. rw Z.add_0_r. wp_bind. iApply hwp_handle_exceptions; [done|]. wp_bind. iApply (hwp_initialize_testing with "H1").
  iIntros (g1 Hg1) "Ho". cbn beta iota. wp_bind. iApply hwp_modify. wp_bind.
  assert (global_skip_test (set_running_test 1 g1) = 0) as Hs1 by (destruct Hg1 as (_ & E & _); destruct g1; cbn in *; congruence).
  iApply (hwp_test_body with "Ho [Hb]"); [by destruct g1|done|by iApply owned_slots_start|].
  assert (forall flag g2 g3, steady (set_skip_test flag (set_running_test 1 g1)) g2 -> steady (set_running_test 0 g2) g3 ->
    ended flag g g3) as Hend by (intros flag g2 g3 H1 H2; unfold ended; etransitivity; [by apply (ended_running flag g g1 g2)|exact H2]).
  unfold status_of. destruct (settle (judge s no_mocks [])) as [[st n]|]; cbn [judged_post]; [|done].
  iIntros (g2 m' xs Hg2 Hxs) "Ho Hx". unfold test_result. destruct (passed st); cbn beta iota; wp_bind.
  - iApply hwp_ret. cbn beta iota. iApply (hwp_test_over with "Ho Hx"). iIntros (g3 Hg3) "Hi". cbn beta iota.
    wp_bind. iApply (hwp_dealloc with "[Ha]"). { cbn. rw Z.add_0_r. iSplit; [by iExists _|done]. }
    iApply hwp_ret. iApply ("HQ" $! _ xs with "[%] [//] Hi"). by eapply Hend.
  - wp_bind. iApply hwp_modify. iApply hwp_ret. iApply (hwp_test_over with "Ho Hx"). iIntros (g3 Hg3) "Hi". cbn beta iota.
    wp_bind. iApply (hwp_dealloc with "[Ha]"). { cbn. rw Z.add_0_r. iSplit; [by iExists _|done]. }
    iApply hwp_ret. iApply ("HQ" $! _ xs with "[%] [//] Hi"). by eapply Hend.
Qed.

(** ** Reports *)

(** A program that only writes. *)
Definition only_writes (c : M unit) : Prop :=
  forall g (Q : outcome unit -> globals -> hProp), (∀ g', ⌜steady g g'⌝ -∗ Q (Done tt) g') ⊢ hwp c g Q.

Lemma writes_ret : only_writes (ret tt).
Proof. iIntros (g Q) "HQ". iApply hwp_ret. by iApply "HQ". Qed.
Lemma writes_modify f : (forall g, steady g (f g)) -> only_writes (modify f).
Proof. iIntros (Hf g Q) "HQ". iApply hwp_modify. by iApply "HQ". Qed.
Lemma writes_bind (c k : M unit) : only_writes c -> only_writes k -> only_writes (c ;; k).
Proof.
  iIntros (Hc Hk g Q) "HQ". wp_bind. iApply Hc. iIntros (g1 Hg1). iApply Hk. iIntros (g2 Hg2). iApply "HQ".
  iPureIntro. by etransitivity.
Qed.
Lemma writes_get (k : globals -> M unit) : (forall g, only_writes (k g)) -> only_writes (g <- get ;; k g).
Proof. iIntros (Hk g Q) "HQ". wp_bind. iApply hwp_get. by iApply Hk. Qed.
Lemma writes_when b (c : M unit) : only_writes c -> only_writes (when b c).
Proof. destruct b; [done|]. intros _. apply writes_ret. Qed.
Lemma writes_message fmt args : only_writes (print_message fmt args).
Proof. apply writes_modify. auto. Qed.
Lemma writes_error fmt args : only_writes (print_error fmt args).
Proof. apply writes_modify. auto. Qed.
Lemma writes_each {A} (l : list A) body : (forall x, only_writes (body x)) -> only_writes (for_each l body).
Proof. intros Hb. induction l as [|x l IH]; [apply writes_ret|]. by apply writes_bind. Qed.
Lemma writes_output (k : cm_message_output -> M unit) :
  (forall o, only_writes (k o)) -> only_writes (o <- cm_get_output ;; k o).
Proof.
  iIntros (Hk g Q) "HQ". unfold cm_get_output. do 2 wp_bind. iApply hwp_get. cbn beta iota. iApply hwp_ret. by iApply Hk.
Qed.
#[local] Hint Resolve writes_ret writes_bind writes_get writes_when writes_message writes_error writes_each writes_output : writes.

Lemma writes_cmprintf type n name m : only_writes (cmprintf type n name m).
Proof.
  apply writes_output. intros []; cbn; [|..|apply writes_ret].
  all: destruct type, m; cbn; eauto 6 with writes.
Qed.

Lemma writes_group_start name n : only_writes (cmprintf_group_start name n).
Proof.
  apply writes_output. intros []; cbn; try apply writes_ret; try apply writes_message.
  unfold cmprintf_group_start_tap. apply writes_get. intros g. apply writes_bind; [|apply writes_message].
  apply writes_when, writes_bind; [apply writes_message|]. apply writes_modify. by intros [].
Qed.

(** The format of the reports, from the environment or as set. *)
Definition report_format (g : globals) : cm_message_output :=
  match getenv "CMOCKA_MESSAGE_OUTPUT" with
  | None => global_msg_output g
  | Some env =>
      if strcaseeq env "STDOUT" then CM_OUTPUT_STDOUT
      else if strcaseeq env "SUBUNIT" then CM_OUTPUT_SUBUNIT
      else if strcaseeq env "TAP" then CM_OUTPUT_TAP
      else if strcaseeq env "XML" then CM_OUTPUT_XML
      else global_msg_output g
  end.

Lemma report_steady g g' : steady g g' -> report_format g' = report_format g.
Proof. intros (_ & _ & _ & _ & _ & E). unfold report_format. by rw E. Qed.

Lemma writes_finish_standard name a b c d e ts : only_writes (cmprintf_group_finish_standard name a b c d e ts).
Proof. unfold cmprintf_group_finish_standard. eauto 20 with writes. Qed.

Lemma hwp_group_finish name a b c d e r ts g (Q : outcome unit -> globals -> hProp) :
  report_format g <> CM_OUTPUT_XML -> (∀ g', ⌜steady g g'⌝ -∗ Q (Done tt) g') ⊢
  hwp (cmprintf_group_finish name a b c d e r ts) g Q.
Proof.
  iIntros (Hx) "HQ". unfold cmprintf_group_finish, cm_get_output. do 2 wp_bind. iApply hwp_get. cbn beta iota.
  iApply hwp_ret. fold (report_format g). destruct (report_format g); [..|done].
  - by iApply writes_finish_standard.
  - by iApply writes_ret.
  - by iApply writes_message.
Qed.

(** *** One test and its report *)
Lemma hwp_clock g (Q : outcome (Z * Z) -> globals -> hProp) :
  (∀ t g', ⌜steady g g'⌝ -∗ Q (Done t) g') ⊢ hwp clock_gettime g Q.
Proof.
  iIntros "HQ". unfold clock_gettime. wp_bind. iApply hwp_get. cbn beta iota. destruct (clock g) as [|t ts].
  - iApply hwp_ret. by iApply "HQ".
  - wp_bind. iApply hwp_put. iApply hwp_ret. iApply "HQ". auto.
Qed.

Definition test_at (p : Z) (t : CMUnitTestState) : hProp := pts p (CTest t).

Lemma hwp_load_test p t g (Q : outcome CMUnitTestState -> globals -> hProp) :
  test_at p t -∗ (test_at p t -∗ Q (Done t) g) -∗ hwp (load_test p) g Q.
Proof. iIntros "Ht HQ". unfold load_test. wp_use (hwp_load with "Ht") as "Ht". iApply hwp_ret. by iApply "HQ". Qed.

(** A field is set. *)
Lemma hwp_update_test p t (f : CMUnitTestState -> CMUnitTestState) g (Q : outcome unit -> globals -> hProp) :
  test_at p t -∗ (test_at p (f t) -∗ Q (Done tt) g) -∗ hwp (t <- load_test p ;; store p (CTest (f t))) g Q.
Proof. iIntros "Ht HQ". wp_use (hwp_load_test with "Ht") as "Ht". iApply (hwp_store with "Ht HQ"). Qed.

(** The status is set by the result and the flag of the skipped, which is reset. *)
Lemma hwp_mark_status st p t g0 g (Q : outcome unit -> globals -> hProp) :
  global_skip_test g0 = 0 -> global_running_test g0 = 0 -> st <> CM_TEST_NOT_STARTED -> st <> CM_TEST_ERROR ->
  ended (skip_flag st) g0 g -> test_at p t -∗
  (∀ g' t', ⌜steady g0 g'⌝ -∗ ⌜ts_status t' = st⌝ -∗ test_at p t' -∗ Q (Done tt) g') -∗
  hwp (if test_result st ==? 0 then set_status p CM_TEST_PASSED
       else
         g <- get ;;
         if global_skip_test g !=? 0 then set_status p CM_TEST_SKIPPED ;; modify (set_skip_test 0)
         else set_status p CM_TEST_FAILED) g Q.
Proof.
  iIntros (Hs Hr H1 H2 He) "Ht HQ".
  assert (global_skip_test g = skip_flag st) as Hf by (destruct He as (_ & E & _); rw E; by destruct g0).
  assert (steady g0 (set_skip_test 0 g)) as Hg.
  { destruct g0, g. unfold ended, steady in *. cbn in *. intuition congruence. }
  destruct st; try done; cbn [test_result passed skip_flag Z.eqb] in *.
  - iApply (hwp_update_test with "Ht"). iIntros "Ht". iApply ("HQ" with "[%] [%] Ht"); [|done].
    destruct g0, g. unfold steady in *. cbn in *. intuition congruence.
  - wp_bind. iApply hwp_get. cbn beta iota. rw Hf. iApply (hwp_update_test with "Ht"). iIntros "Ht".
    iApply ("HQ" with "[%] [%] Ht"); [|done]. destruct g0, g. unfold steady in *. cbn in *. intuition congruence.
  - wp_bind. iApply hwp_get. cbn beta iota. rw Hf. wp_bind. iApply (hwp_update_test with "Ht"). iIntros "Ht". cbn beta iota.
    iApply hwp_modify. by iApply ("HQ" with "[//] [%] Ht").
Qed.

Lemma status_final s st n : status_of s = Some (st, n) -> st <> CM_TEST_NOT_STARTED /\ st <> CM_TEST_ERROR.
Proof.
  unfold status_of. destruct (judge s no_mocks []) as [m ss| | | |]; cbn; [|by intros [= <- _]..|done].
  destruct (lives ss); [destruct (satisfied m)|]; by intros [= <- _].
Qed.

Definition plain_test (test : string * script) (state : Z) : CMUnitTest :=
  mkUnitTest (Some test.1) (Some (fun _ => run [] test.2)) None None state.

Lemma hwp_run_one_tests test state p t xs0 g (Q : outcome Z -> globals -> hProp) :
  global_skip_test g = 0 -> global_running_test g = 0 -> idle xs0 -∗ test_at p t -∗
  judged_post (status_of test.2) (fun '(st, n) => ∀ g' t' xs, ⌜steady g g'⌝ -∗ ⌜ts_status t' = st⌝ -∗ ⌜length xs = n⌝ -∗
    idle (xs0 ++ xs) -∗ test_at p t' -∗ Q (Done 0) g')%I -∗
  hwp (cmocka_run_one_tests (plain_test test state) p) g Q.
Proof.
  iIntros (Hs Hr) "Hi Ht HQ". unfold cmocka_run_one_tests, plain_test. cbn [setup_func teardown_func test_func].
  wp_bind. iApply hwp_ret. cbn beta iota. wp_bind. iApply hwp_clock. iIntros (start g1 Hg1). cbn beta iota. cbn [Z.eqb].
  wp_bind. wp_bind. iApply (hwp_run_one_test with "Hi"); [destruct Hg1 as (_ & -> & _); done|].
  destruct (status_of test.2) as [[st n]|] eqn:Est; cbn [judged_post]; [|done].
  apply status_final in Est as [H1 H2].
  iIntros (g2 xs Hg2 Hxs) "Hi". cbn beta iota. wp_bind. iApply (hwp_mark_status st _ _ g1 with "Ht");
    [by destruct Hg1 as (_ & -> & _)|by destruct Hg1 as (-> & _)|done..|].
  iIntros (g3 t3 Hg3 Ht3) "Ht". cbn beta iota. iApply hwp_ret. wp_bind. iApply hwp_clock. iIntros (finish g4 Hg4). cbn beta iota.
  wp_bind. iApply (hwp_update_test with "Ht"). iIntros "Ht". cbn beta iota. wp_bind. iApply hwp_ret. cbn beta iota.
  wp_bind. iApply hwp_get. cbn beta iota. wp_bind. iApply (hwp_update_test with "Ht"). iIntros "Ht". cbn beta iota.
  wp_bind. iApply hwp_put. iApply hwp_ret. iApply ("HQ" $! _ _ xs with "[%] [%] [//] Hi Ht"); [|done].
  apply steady_error. by do 3 (etransitivity; [eassumption|]).
Qed.

(** ** A group *)

(** The state of a test in the array, with the pointer to the state of the group. *)
Definition slot (p : Z) : hProp := (∃ t q, test_at p t ∗ pts (p + state_offset) (CPtr q))%I.

Lemma hwp_execute_test cm_tests group_state i test state s xs0 g (Q : outcome totals -> globals -> hProp) :
  global_skip_test g = 0 -> global_running_test g = 0 ->
  idle xs0 -∗ pts group_state (CPtr 0) -∗ slot (cm_tests + sizeof_CMUnitTestState * i) -∗
  judged_post (status_of test.2) (fun '(st, n) => ∀ g' s' xs, ⌜steady g g'⌝ -∗ ⌜counts s' = tally st (counts s)⌝ -∗
    ⌜length xs = n⌝ -∗ idle (xs0 ++ xs) -∗ pts group_state (CPtr 0) -∗
    slot (cm_tests + sizeof_CMUnitTestState * i) -∗ Q (Done s') g')%I -∗
  hwp (execute_test cm_tests group_state i (plain_test test state) s) g Q.
Proof.
  iIntros (Hs Hr) "Hi Hg (%t & %q & Ht & Hq) HQ". unfold execute_test. cbn zeta. set (p := cm_tests + sizeof_CMUnitTestState * i).
  wp_bind. iApply writes_cmprintf. iIntros (g1 Hg1). cbn beta iota. wp_use (hwp_load with "Hg") as "Hg".
  wp_bind. iApply (hwp_wand _ _ (fun r g' => ⌜r = Done tt⌝ ∗ ⌜g' = g1⌝ ∗ ∃ q, pts (p + state_offset) (CPtr q))%I with "[Hq]").
  { cbn [negb Z.eqb]. unfold when. destruct (initial_state _ !=? 0).
    - iApply (hwp_store with "Hq"). iIntros "Hq". repeat (iSplit; [done|]). by iExists _.
    - iApply hwp_ret. repeat (iSplit; [done|]). by iExists _. }
  iIntros (r g') "(-> & -> & (%q' & Hq))". cbn beta iota. wp_bind.
  iApply (hwp_run_one_tests with "Hi Ht"); [by destruct Hg1 as (_ & -> & _)|by destruct Hg1 as (-> & _)|].
  destruct (status_of test.2) as [[st n]|] eqn:Est; cbn [judged_post]; [|done]. apply status_final in Est as [H1 H2].
  iIntros (g2 t2 xs Hg2 Ht2 Hxs) "Hi Ht". cbn beta iota. wp_use (hwp_load_test with "Ht") as "Ht". rw Ht2. cbn [Z.eqb].
  destruct st; try done; wp_bind; iApply writes_cmprintf; iIntros (g3 Hg3); cbn beta iota; iApply hwp_ret;
    (iApply ("HQ" $! _ _ xs with "[%] [%] [//] Hi Hg [Ht Hq]");
      [by do 2 (etransitivity; [eassumption|])| |iExists _, _; iFrame]); cbn; by destruct s.
Qed.

Lemma hwp_execute_tests cm_tests group_state tests state : forall i s xs0 g (Q : outcome totals -> globals -> hProp),
  global_skip_test g = 0 -> global_running_test g = 0 ->
  idle xs0 -∗ pts group_state (CPtr 0) -∗
  ([∗ list] k ↦ _ ∈ tests, slot (cm_tests + sizeof_CMUnitTestState * (i + Z.of_nat k))) -∗
  judged_post (statuses tests) (fun '(sts, n) => ∀ g' s' xs, ⌜steady g g'⌝ -∗ ⌜counts s' = tally_all sts (counts s)⌝ -∗
    ⌜length xs = n⌝ -∗ idle (xs0 ++ xs) -∗ pts group_state (CPtr 0) -∗
    ([∗ list] k ↦ _ ∈ tests, slot (cm_tests + sizeof_CMUnitTestState * (i + Z.of_nat k))) -∗ Q (Done s') g')%I -∗
  hwp (execute_tests cm_tests group_state i (map (fun t => plain_test t state) tests) s) g Q.
Proof.
  induction tests as [|test tests IH]; iIntros (i s xs0 g Q Hs Hr) "Hi Hg Hsl HQ"; cbn [map execute_tests statuses].
  { iApply hwp_ret. iApply ("HQ" $! _ _ [] with "[//] [//] [//] [Hi] Hg"); [by rw app_nil_r|done]. }
  iDestruct "Hsl" as "[H0 Hsl]". rw Z.add_0_r. wp_bind. iApply (hwp_execute_test with "Hi Hg H0"); [done..|].
  destruct (status_of test.2) as [[st n]|]; [|done]. destruct (statuses tests) as [[sts m]|] eqn:Est; cbn [judged_post]; [|done].
  iIntros (g1 s1 xs1 Hg1 Hc1 Hxs1) "Hi Hg H0". cbn beta iota.
  iApply (IH with "Hi Hg [Hsl]"); [by destruct Hg1 as (_ & -> & _)|by destruct Hg1 as (-> & _)| |].
  { iApply (big_sepL_mono with "Hsl"). intros k x _. cbn. by replace (i + Z.of_nat (S k)) with (i + 1 + Z.of_nat k) by lia. }
  iIntros (g2 s2 xs2 Hg2 Hc2 Hxs2) "Hi Hg Hsl". iApply ("HQ" $! _ _ (xs1 ++ xs2) with "[%] [%] [%] [Hi] Hg [H0 Hsl]");
    [by etransitivity|by rw Hc2 Hc1|by rw length_app Hxs1 Hxs2|by rw app_assoc|].
  cbn. iSplitL "H0"; [by rw Z.add_0_r|]. iApply (big_sepL_mono with "Hsl"). intros k x _. cbn.
  by replace (i + Z.of_nat (S k)) with (i + 1 + Z.of_nat k) by lia.
Qed.

(** *** The array of states *)
Definition slot_cells (i : Z) : list (Z * cell) :=
  [(sizeof_CMUnitTestState * i, CTest (mkTestState 0 None CM_TEST_NOT_STARTED []));
   (sizeof_CMUnitTestState * i + state_offset, CPtr 0)].
Definition array_cells (m n : nat) : list (Z * cell) := concat (map slot_cells (map Z.of_nat (seq m n))).

Lemma array_above m n o : o ∈ (array_cells m n).*1 -> sizeof_CMUnitTestState * Z.of_nat m <= o.
Proof.
  revert m. induction n as [|n IH]; intros m; cbn; [by intros ?%elem_of_nil|].
  unfold sizeof_CMUnitTestState, state_offset in *. rw !elem_of_cons. intros [->|[->|Ho%IH]]; lia.
Qed.

Lemma array_distinct m n : NoDup (array_cells m n).*1 /\ Forall (fun c => 0 <= c.1) (array_cells m n).
Proof.
  revert m. induction n as [|n IH]; intros m; [split; constructor|]. destruct (IH (S m)) as [H1 H2]. cbn.
  unfold sizeof_CMUnitTestState, state_offset in *. split.
  - repeat apply NoDup_cons_2; [|..|exact H1].
    + rw not_elem_of_cons. split; [lia|]. intros Ho%array_above. unfold sizeof_CMUnitTestState in Ho. lia.
    + intros Ho%array_above. unfold sizeof_CMUnitTestState in Ho. lia.
  - do 2 (constructor; [cbn; lia|]). exact H2.
Qed.

Lemma array_slots p m n :
  ([∗ list] c ∈ array_cells m n, pts (p + c.1) c.2) ⊢
  [∗ list] k ∈ seq m n, slot (p + sizeof_CMUnitTestState * Z.of_nat k).
Proof.
  revert m. induction n as [|n IH]; intros m; [done|]. cbn. iIntros "(H1 & H2 & H)".
  iSplitL "H1 H2"; [iExists _, _; rw Z.add_assoc; iFrame|by iApply IH].
Qed.
Lemma slots_array p m n :
  ([∗ list] k ∈ seq m n, slot (p + sizeof_CMUnitTestState * Z.of_nat k)) ⊢
  [∗ list] o ∈ (array_cells m n).*1, owns (p + o).
Proof.
  revert m. induction n as [|n IH]; intros m; [done|]. cbn. iIntros "[(%t & %q & H1 & H2) H]".
  iSplitL "H1"; [by iExists _|]. iSplitL "H2"; [rw Z.add_assoc; by iExists _|by iApply IH].
Qed.

(** The first slots are for the tests that are run. *)
Lemma slots_tests {A} p (l : list A) m n :
  (length l <= n)%nat ->
  ([∗ list] k ∈ seq m n, slot (p + sizeof_CMUnitTestState * Z.of_nat k)) ⊣⊢
  ([∗ list] k ↦ _ ∈ l, slot (p + sizeof_CMUnitTestState * (Z.of_nat m + Z.of_nat k))) ∗
  ([∗ list] k ∈ seq (m + length l) (n - length l), slot (p + sizeof_CMUnitTestState * Z.of_nat k)).
Proof.
  revert m n. induction l as [|x l IH]; intros m n Hn; cbn [length].
  - cbn. by rw Nat.add_0_r Nat.sub_0_r left_id.
  - destruct n as [|n]; [cbn in Hn; lia|]. cbn [seq big_opL]. cbn in Hn. rw (IH (S m) n); [|lia].
    rw Nat.add_succ_comm Z.add_0_r. cbn [Nat.sub]. rw -assoc. f_equiv. f_equiv.
    apply big_sepL_proper. intros k y _. by replace (Z.of_nat (S m) + Z.of_nat k) with (Z.of_nat m + Z.of_nat (S k)) by lia.
Qed.

Lemma hwp_load_tests p (tests : list CMUnitTest) g : forall i (Q : outcome (list (CMUnitTest * CMUnitTestState)) -> globals -> hProp),
  ([∗ list] k ↦ _ ∈ tests, slot (p + sizeof_CMUnitTestState * (i + Z.of_nat k))) -∗
  (∀ ts, ([∗ list] k ↦ _ ∈ tests, slot (p + sizeof_CMUnitTestState * (i + Z.of_nat k))) -∗ Q (Done ts) g) -∗
  hwp (load_tests p i tests) g Q.
Proof.
  induction tests as [|test tests IH]; iIntros (i Q) "Hsl HQ"; cbn [load_tests].
  { iApply hwp_ret. by iApply "HQ". }
  iDestruct "Hsl" as "[(%t & %q & Ht & Hq) Hsl]". rw Z.add_0_r. wp_use (hwp_load_test with "Ht") as "Ht".
  assert (forall k x, tests !! k = Some x ->
    slot (p + sizeof_CMUnitTestState * (i + Z.of_nat (S k))) ⊣⊢ slot (p + sizeof_CMUnitTestState * (i + 1 + Z.of_nat k))) as Hk.
  { intros k x _. by replace (i + Z.of_nat (S k)) with (i + 1 + Z.of_nat k) by lia. }
  iEval (rw (big_sepL_proper _ _ _ Hk)) in "Hsl". wp_bind. iApply (IH with "Hsl"). iIntros (ts) "Hsl".
  iApply hwp_ret. iApply "HQ". cbn. iSplitL "Ht Hq"; [rw Z.add_0_r; iExists _, _; iFrame|].
  by rw (big_sepL_proper _ _ _ Hk).
Qed.

(** *** The group *)

Lemma chosen_tests g tests :
  filter (fun t => selected g t = true) (map (fun t => plain_test t 0) tests) = map (fun t => plain_test t 0) (chosen g tests).
Proof.
  induction tests as [|t tests IH]; [done|]. unfold chosen. cbn [map List.filter]. rw filter_cons IH.
  change (selected g (plain_test t 0)) with (passes_filters g t.1). by destruct (passes_filters g t.1).
Qed.

Lemma tally_totals sts f p x k e : exists f' p' k' e',
  tally_all sts (f, p, x, k, e) = (f', p', x + Z.of_nat (length sts), k', e') /\
  f' + e' = f + e + Z.of_nat (length (List.filter failing sts)).
Proof.
  unfold tally_all. revert f p x k e. induction sts as [|st sts IH]; intros f p x k e.
  - cbn. rw !Z.add_0_r. by eexists _, _, _, _.
  - cbn [foldl List.filter]. destruct st; cbn [tally failing].
    all: match goal with |- context [foldl _ (?a, ?b, ?c, ?d, ?h) _] =>
      destruct (IH a b c d h) as (f' & p' & k' & e' & -> & E) end.
    all: exists f', p', k', e'; cbn [length]; split; [do 3 f_equal; lia|lia].
Qed.
Lemma statuses_length tests sts n : statuses tests = Some (sts, n) -> length sts = length tests.
Proof.
  revert sts n. induction tests as [|t tests IH]; intros sts n; cbn; [by intros [= <- _]|].
  destruct (status_of t.2) as [[st k]|]; [|done]. destruct (statuses tests) as [[sts' m]|]; [|done]. intros [= <- _]. cbn. by erewrite IH.
Qed.

(** What a group answers; the process ends when a test has left a block. *)
Definition group_outcome (r : list CMUnitTestStatus * nat) : outcome Z :=
  match r with (sts, O) => Done (failed_of sts) | (_, S _) => Ended (Exited (-1)) end.

Lemma hwp_group_tests name tests g (Q : outcome Z -> globals -> hProp) :
  global_skip_test g = 0 -> global_running_test g = 0 -> report_format g <> CM_OUTPUT_XML -> idle [] -∗
  judged_post (statuses (chosen g tests)) (fun r => ∀ g', ⌜steady g g'⌝ -∗
    (if bool_decide (r.2 = O) then idle [] else True) -∗ Q (group_outcome r) g')%I -∗
  hwp (_cmocka_run_group_tests name (map (fun t => plain_test t 0) tests) None None) g Q.
Proof.
  iIntros (Hs Hr Hx) "[Hl Hb] HQ". unfold _cmocka_run_group_tests. wp_bind. iApply (hwp_check_point_blocks with "Hb").
  iIntros "Hb". cbn beta iota. wp_bind. iApply hwp_alloc; [by apply NoDup_singleton|by repeat constructor|].
  iIntros (gs Hgs _) "[Hgs _]". cbn beta iota zeta. cbn [fst snd]. rw Z.add_0_r.
  wp_bind. rw length_map /bytes Nat2Z.id. change (concat _) with (array_cells 0 (length tests)).
  destruct (array_distinct 0 (length tests)) as [Hnd Hpos]. iApply hwp_malloc; [done..|].
  iIntros (p Hp _) "Hpb Hcells". cbn beta iota. wp_bind. iApply hwp_get. cbn beta iota zeta.
  rw chosen_tests. set (ts := chosen g tests). rw array_slots (slots_tests _ ts); [|apply chosen_length].
  iDestruct "Hcells" as "[Hts Hrest]". wp_bind. iApply writes_group_start. iIntros (g1 Hg1). cbn beta iota.
  wp_bind. iApply hwp_ret. cbn beta iota. cbn [Z.eqb]. wp_bind. rw listed_owned.
  iApply (hwp_execute_tests with "[$Hl $Hb] Hgs Hts"); [by destruct Hg1 as (_ & -> & _)|by destruct Hg1 as (-> & _)|].
  destruct (statuses ts) as [[sts n]|] eqn:Ests; cbn [judged_post]; [|done].
  iIntros (g2 s xs Hg2 Hc Hxs) "[Hl Hb] Hgs Hts". cbn beta iota. wp_bind. iApply hwp_ret. cbn beta iota.
  destruct (tally_totals sts 0 0 0 0 0) as (f & np & k & e & Et & Efe). unfold counts in Hc. cbn in Hc. rw Et in Hc.
  injection Hc as Hf _ Hex _ He. rw Hex Z.add_0_l Nat2Z.id (statuses_length _ _ _ Ests) take_ge; [|by rw length_map].
  wp_bind. iApply (hwp_load_tests with "[Hts]"); [by rw big_sepL_fmap|]. iIntros (executed) "Hts". rw big_sepL_fmap. cbn beta iota.
  wp_bind. iApply hwp_group_finish; [rw (report_steady g g2); [done|by etransitivity]|].
  iIntros (g3 Hg3). cbn beta iota. assert (steady g g3) as Hgg by by do 2 (etransitivity; [eassumption|]).
  wp_bind. iApply (hwp_free with "Hpb [Hts Hrest]"); [lia| |].
  { iApply slots_array. rw (slots_tests p ts 0 (length tests)); [iFrame|apply chosen_length]. }
  wp_bind. iApply (hwp_dealloc with "[Hgs]"). { cbn. rw Z.add_0_r. iSplit; [by iExists _|done]. }
  wp_bind. change global_allocated_blocks with (CmHeap.check_point []). cbn [app]. iApply (hwp_fail_if_blocks Habort [] xs with "Hb").
  iIntros "Hb" (g4 Hg4). iSpecialize ("HQ" $! g4 with "[%]"); [by etransitivity|]. destruct xs as [|x xs]; cbn in Hxs; subst n.
  - rw !bool_decide_true //. iApply hwp_ret. cbn [group_outcome fst snd]. rw /failed_of -(Z.add_0_l (Z.of_nat _)) -Efe Hf He. iApply "HQ".
    iSplitL "Hl"; [iExact "Hl"|by iApply listed_owned].
  - rw !bool_decide_false //. rw /stop_of (proj2 (Z.eqb_eq _ _)); [by iApply "HQ"|]. by destruct Hgg as (-> & _).
Qed.
End Runs.

(** ** From the start of the process *)
Lemma idle_initially : holds (idle []) initial_heap.
Proof.
  set (n := CNode (mkListNode 0 0 0 0)).
  assert (initial_heap = put_cells 1 [(0, n); (1, n); (2, n); (3, n)] ∅) as -> by reflexivity.
  eapply (hentails_at _ _ _ _ (put_cells_owned 1 _ _ _ _)). Unshelve.
  - iIntros "(H1 & H2 & H3 & H4 & _)". iSplitL "H1 H2 H3"; [iExists _, _, _; iFrame|]. iLeft. iExists _. iFrame. done.
  - done.
  - by repeat constructor.
  - cbn. by apply (bool_decide_unpack (NoDup [0; 1; 2; 3])).
Qed.

(** Groups of tests, run one after another. *)
Definition group : Type := string * list (string * script).

Fixpoint run_groups `{CText} `{Env} (groups : list group) : M (list Z) :=
  match groups with
  | [] => ret []
  | (name, tests) :: groups =>
      r <- _cmocka_run_group_tests name (map (fun t => plain_test t 0) tests) None None ;;
      rs <- run_groups groups ;;
      ret (r :: rs)
  end.
(** What is expected of their run, if all tests have a verdict. *)
Fixpoint judge_groups (g : globals) (groups : list group) : option (outcome (list Z)) :=
  match groups with
  | [] => Some (Done [])
  | (_, tests) :: groups =>
      match statuses (chosen g tests), judge_groups g groups with
      | Some r, Some rs =>
          Some match group_outcome r with
               | Done n => match rs with Done ns => Done (n :: ns) | rs => rs end
               | stop => cast stop
               end
      | _, _ => None
      end
  end.

Section Groups.
Context `{CText} `{Env}.

Lemma chosen_steady g g' tests : steady g g' -> chosen g' tests = chosen g tests.
Proof.
  intros (_ & _ & _ & Ef & Es & _). unfold chosen. apply List.filter_ext. intros t. unfold passes_filters. by rw Ef Es.
Qed.
Lemma judge_steady g g' groups : steady g g' -> judge_groups g' groups = judge_groups g groups.
Proof.
  intros Hg. induction groups as [|[name tests] groups IH]; [done|]. cbn. by rw (chosen_steady g g') // IH.
Qed.

Lemma hwp_groups groups g (Q : outcome (list Z) -> globals -> hProp) :
  getenv "CMOCKA_TEST_ABORT" = None ->
  global_skip_test g = 0 -> global_running_test g = 0 -> report_format g <> CM_OUTPUT_XML -> idle [] -∗
  judged_post (judge_groups g groups) (fun rs => ∀ g', Q rs g')%I -∗
  hwp (run_groups groups) g Q.
Proof.
  intros Ha. revert g Q. induction groups as [|[name tests] groups IH]; iIntros (g Q Hs Hr Hx) "Hi HQ"; cbn [run_groups judge_groups].
  { by iApply hwp_ret. }
  wp_bind. iApply (hwp_group_tests with "Hi"); [done..|].
  destruct (statuses (chosen g tests)) as [[sts n]|]; [|done].
  destruct (judge_groups g groups) as [rs|] eqn:Ers; cbn [judged_post]; [|done].
  iIntros (g' Hg) "Hi". destruct n as [|n]; cbn [group_outcome snd cast]; [|iApply "HQ"].
  rw bool_decide_true //. wp_bind.
  iApply (IH with "Hi"); [by destruct Hg as (_ & -> & _)|by destruct Hg as (-> & _)|by rw (report_steady g)|].
  rw (judge_steady g g') // Ers. cbn [judged_post].
  iIntros (g2). destruct rs; cbn [cast]; [iApply hwp_ret|..]; iApply "HQ".
Qed.

Lemma group_judged name tests g r :
  getenv "CMOCKA_TEST_ABORT" = None ->
  global_skip_test g = 0 -> global_running_test g = 0 -> report_format g <> CM_OUTPUT_XML ->
  statuses (chosen g tests) = Some r ->
  (_cmocka_run_group_tests name (map (fun t => plain_test t 0) tests) None None (mkWorld initial_heap g)).1 = group_outcome r.
Proof.
  intros Ha Hs Hr Hx Hst.
  destruct (hwp_run (_cmocka_run_group_tests name (map (fun t => plain_test t 0) tests) None None) g
    (fun r' _ => ⌜r' = group_outcome r⌝)%I initial_heap (idle []) idle_initially) as (r' & h & g' & -> & E); [|exact E].
  iIntros "Hi". iApply (hwp_group_tests with "Hi"); [done..|]. rw Hst. cbn [judged_post]. by iIntros (g' Hg) "_".
Qed.

Lemma groups_judged (groups : list group) g r :
  getenv "CMOCKA_TEST_ABORT" = None ->
  global_skip_test g = 0 -> global_running_test g = 0 -> report_format g <> CM_OUTPUT_XML ->
  judge_groups g groups = Some r ->
  (run_groups groups (mkWorld initial_heap g)).1 = r.
Proof.
  intros Ha Hs Hr Hx Hj.
  destruct (hwp_run (run_groups groups) g (fun r' _ => ⌜r' = r⌝)%I initial_heap (idle []) idle_initially)
    as (r' & h & g' & -> & E); [|exact E].
  iIntros "Hi". iApply (hwp_groups with "Hi"); [done..|]. rw Hj. cbn [judged_post]. by iIntros (g').
Qed.
End Groups.
