(* ===== verification/CmVerdict.v ===== *)
(** * Verdicts

    What a run of groups of tests answers, from the start of the process; and what
    the model's verdict means for mock functions and for guarded memory. *)

From S2P Require Import Prelude.
From S2P Require Import CLib.
From S2P Require Import Sys.
From S2P Require Import Sem.
From S2P Require Import HeapLogic.
From S2P Require Import Cmocka.
From S2P Require Import CmBase.
From S2P Require Import CmLists.
From S2P Require Import CmMock.
From S2P Require Import CmOps.
From S2P Require Import CmLeft.
From S2P Require Import CmHeap.
From S2P Require Import CmMem.
From S2P Require Import CmRun.
From iris.bi Require Import bi.
From iris.proofmode Require Import proofmode.
#[local] Open Scope Z_scope.
#[local] Open Scope cmd_scope.
Import cmocka.

(** ** Mock functions *)

(** The values of [l] are set up for [f], each for a number of calls; then calls
    must return [vs]. *)
Fixpoint set_up (f file : string) (l : list (Z * Z)) (k : script) : script :=
  match l with [] => k | (v, c) :: l => WillReturn f file 1 v c (set_up f file l k) end.
Fixpoint ask (f file : string) (vs : list Z) : script :=
  match vs with
  | [] => End
  | v :: vs => Mock f file 2 (fun x => Assert (IntEqual x v) file 3 (ask f file vs))
  end.
(** Each value as often as it is for. *)
Definition spread (l : list (Z * Z)) : list Z := flat_map (fun '(v, c) => repeat v (Z.to_nat c)) l.

(** The state with a queue for [f] alone. *)
Definition queued (f : string) (q : list (Z * Z)) : mocks :=
  mkMocks (match q with [] => [] | _ => [(f, q)] end) [] [].

Lemma judge_set_up f file l k q : Forall (fun e => 0 < e.2) l ->
  judge (set_up f file l k) (queued f q) [] = judge k (queued f (q ++ l)) [].
Proof.
  intros Hl. revert q. induction Hl as [|[v c] l Hc _ IH]; intros q; cbn [set_up judge]; [by rw app_nil_r|].
  cbn in Hc. assert ((c ==? 0) = false) as -> by (apply Z.eqb_neq; lia).
  rw (app_assoc q [(v, c)] l) -IH. f_equal. unfold queued. cbn [results params calls].
  destruct q as [|e q]; cbn; [done|]. by rw streq_refl.
Qed.

(** A queue gives the first of what it spreads to. *)
Lemma obtain_queued f q : Forall (fun e => 0 < e.2) q ->
  match spread q with
  | [] => q = []
  | v :: vs => exists q', obtain 1 (results (queued f q)) [f] = (Some v, results (queued f q')) /\
      Forall (fun e => 0 < e.2) q' /\ spread q' = vs
  end.
Proof.
  intros Hq. destruct Hq as [|[v c] q Hc Hq]; [done|]. cbn in Hc.
  assert (exists n, Z.to_nat c = S n) as (n & Hn) by (exists (Z.to_nat (c - 1)); lia).
  unfold spread. cbn [flat_map]. rw Hn. cbn [repeat app].
  exists (if c ==? 1 then q else (v, c - 1) :: q). destruct (Z.eqb_spec c 1) as [->|H1].
  - split; [|split; [done|by injection Hn as <-]]. unfold obtain. cbn. rw streq_refl. by destruct q.
  - assert ((c ==? 0) = false /\ (-2 <? c) = true /\ (c ==? 1) = false) as (E0 & E2 & E1).
    { split_and!; [apply Z.eqb_neq; lia|apply Z.ltb_lt; lia|by apply Z.eqb_neq]. }
    split; [unfold obtain; cbn -[Z.eqb Z.ltb streq]; rw !streq_refl; unfold take_head; rw E1 E2 E0; done|].
    split; [constructor; [cbn; lia|done]|]. cbn. by replace (Z.to_nat (c - 1)) with n by lia.
Qed.

Lemma judge_ask f file vs q : Forall (fun e => 0 < e.2) q ->
  match judge (ask f file vs) (queued f q) [] with
  | Passes m [] => exists q', m = queued f q' /\ Forall (fun e => 0 < e.2) q' /\ spread q = vs ++ spread q'
  | Fails [] => forall rest, spread q <> vs ++ rest
  | _ => False
  end.
Proof.
  revert q. induction vs as [|v vs IH]; intros q Hq; cbn [ask judge]; [by exists q|].
  pose proof (obtain_queued f q Hq) as Ho. destruct (spread q) as [|x xs] eqn:E.
  - by subst q.
  - destruct Ho as (q' & -> & Hq' & <-). cbn [judge assertion_holds]. destruct (Z.eqb_spec x v) as [->|Hne].
    + specialize (IH q' Hq'). change (mkMocks (results (queued f q')) (params (queued f q)) (calls (queued f q))) with (queued f q').
      destruct (judge _ _ _) as [m [|]|[|]| | |]; try done.
      * destruct IH as (q2 & -> & H2 & ->). by exists q2.
      * intros rest [=]. by eapply IH.
    + intros rest [=]. done.
Qed.

Lemma satisfied_queued f q : Forall (fun e => 0 < e.2) q -> satisfied (queued f q) = bool_decide (spread q = []).
Proof.
  intros Hq. destruct Hq as [|[v c] q Hc _]; [done|]. cbn in Hc. unfold spread. cbn [flat_map].
  assert (exists n, Z.to_nat c = S n) as (n & ->) by (exists (Z.to_nat (c - 1)); lia).
  unfold satisfied. cbn. assert ((c <? -1) = false) as -> by (apply Z.ltb_ge; lia). done.
Qed.

Lemma status_in_order f file l vs : Forall (fun e => 0 < e.2) l ->
  status_of (set_up f file l (ask f file vs)) =
  Some (if bool_decide (vs = spread l) then CM_TEST_PASSED else CM_TEST_FAILED, O).
Proof.
  intros Hl. unfold status_of. change no_mocks with (queued f []). rw judge_set_up //. cbn [app].
  pose proof (judge_ask f file vs l Hl) as Hj. destruct (judge _ _ _) as [m [|]|[|]| | |]; try done; cbn [settle lives omap list_omap].
  - destruct Hj as (q & -> & Hq & E). rw satisfied_queued // E. do 2 f_equal.
    destruct (spread q) as [|x xs]; [by rw app_nil_r !bool_decide_true|].
    rw !bool_decide_false //. intros Ev. apply (f_equal length) in Ev. rw length_app in Ev. cbn in Ev. lia.
  - rw bool_decide_false //. intros ->. by apply (Hj []); rw app_nil_r.
Qed.

(** ** Guarded memory *)

(** A test that asks for [n] bytes, writes the [ws] (offset and byte) and perhaps
    releases the block. *)
Fixpoint write_all (file : string) (ws : list (Z * Z)) (k : script) : script :=
  match ws with [] => k | (off, b) :: ws => Memory (Write 0 off b) file 2 (write_all file ws k) end.
Definition memory_test (file : string) (n : Z) (ws : list (Z * Z)) (frees : bool) : script :=
  Memory (Malloc n) file 1 (write_all file ws (if frees then Memory (Free 0) file 3 End else End)).


Lemma judge_writes file ws k m r : Forall (fun w => touchable r w.1 = true) ws ->
  judge (write_all file ws k) m [Live r] = judge k m [Live (foldl (fun r w => set_byte r w.1 (w.2 mod 256)) r ws)].
Proof.
  intros Hws. revert r Hws. induction ws as [|[off b] ws IH]; intros r Hws; [done|].
  apply Forall_cons in Hws as [Ht Hws]. cbn [write_all judge memory_step lookup list_lookup fst] in *. rw Ht. cbn [foldl].
  apply IH. done.
Qed.

Lemma intact_writes ws r : shaped r ->
  Forall (fun w => touchable r w.1 = true /\ w.2 mod 256 <> MALLOC_GUARD_PATTERN) ws ->
  intact (foldl (fun r w => set_byte r w.1 (w.2 mod 256)) r ws) = intact r && forallb (fun w => within (room r) w.1) ws.
Proof.
  revert r. induction ws as [|[off b] ws IH]; intros r Hs Hws; [by rw andb_true_r|].
  apply Forall_cons in Hws as [[Ht Hb] Hws]. cbn [foldl forallb fst snd] in *.
  rw IH; [|by apply set_shaped; [|apply Z.mod_pos_bound]|done]. rw intact_set //. by rw andb_assoc.
Qed.

(** The test, as the model judges it. *)
Lemma status_memory file n ws frees : Z.of_nat n < 2 ^ 64 - 112 ->
  Forall (fun w => -16 <= w.1 < Z.of_nat n + 16 /\ 0 <= w.2 < 256 /\ w.2 <> MALLOC_GUARD_PATTERN) ws ->
  status_of (memory_test file (Z.of_nat n) ws frees) =
  Some (if forallb (fun w => within n w.1) ws && frees then CM_TEST_PASSED else CM_TEST_FAILED,
         if forallb (fun w => within n w.1) ws then O else 1%nat).
Proof.
  intros Hn Hws. set (r := fresh_region n (unset n)).
  assert (length (unset n) = n) as Hu by apply repeat_length.
  assert (Forall (fun w => touchable r w.1 = true /\ w.2 mod 256 <> MALLOC_GUARD_PATTERN) ws) as Hok.
  { eapply Forall_impl; [exact Hws|]. intros [off b] ((H1 & H2) & (H3 & H4) & H5). cbn in *. rw Z.mod_small //.
    split; [|done]. apply andb_true_iff. rw Z.leb_le Z.ltb_lt. done. }
  assert (judge (memory_test file (Z.of_nat n) ws frees) no_mocks [] =
          judge (if frees then Memory (Free 0) file 3 End else End) no_mocks
            [Live (foldl (fun r w => set_byte r w.1 (w.2 mod 256)) r ws)]) as E.
  { rw -(judge_writes file); [|by eapply Forall_impl; [exact Hok|intros w [? _]]]. unfold memory_test. cbn [judge memory_step].
    assert (in_range (Z.of_nat n) = true) as -> by (apply andb_true_iff; rw Z.leb_le Z.ltb_lt; lia).
    assert (fits (Z.of_nat n) = true) as -> by (apply Z.ltb_lt; lia). cbn [negb app]. by rw Nat2Z.id /give Hu. }
  pose proof (intact_writes ws r (fresh_shaped _ _ Hu (unset_bytes n)) Hok) as Hi. rw fresh_intact // in Hi. cbn [andb room r] in Hi.
  unfold status_of. rw E. destruct frees; cbn [judge memory_step lookup list_lookup settle lives omap list_omap].
  - rw Hi. destruct (forallb _ _); done.
  - cbn [stuck]. rw Hi. by destruct (forallb _ _).
Qed.

(** ** The theorems *)
Section Theorems.
Context `{CText} `{Env}.

(** C5: the runner of Cmocka comes to the verdict of the abstract model. Groups of
    tests that set up values, parameters and ordered calls, call mock functions (and
    go on as these answer), use guarded memory (and go on as they read it), assert and
    skip are run one after another from the start of the process; each group answers
    the number of its tests, of those the filters choose, that the model lets fail:
    for an assertion, a value or call that was not expected, or one that was and did
    not come, for a block that was not released, a guard overwritten, or a request
    that overflows, or for the fault of an ordered call that comes after a single call
    that need not come, which the runner's handler catches. No test changes the verdict
    on another; but the process ends after a group in which a test left a block:
    one that it had not released when it failed or skipped, or one whose guard it had
    overwritten. Groups are given a verdict unless a test's use of memory is
    one that C leaves undefined. *)
Theorem group_verdicts (groups : list group) g r :
  getenv "CMOCKA_TEST_ABORT" = None ->
  global_skip_test g = 0 -> global_running_test g = 0 -> report_format g <> CM_OUTPUT_XML ->
  judge_groups g groups = Some r ->
  (run_groups groups (mkWorld initial_heap g)).1 = r.
Proof. apply groups_judged. Qed.

(** One test, from the start of the process. *)
Lemma run_test s st n times existing :
  getenv "CMOCKA_TEST_ABORT" = None -> report_format (initial_globals times existing) <> CM_OUTPUT_XML ->
  status_of s = Some (st, n) ->
  (run_groups [("group", [("test", s)])] (mkWorld initial_heap (initial_globals times existing))).1 =
  if (n =? 0)%nat then Done [if failing st then 1 else 0] else Ended (Exited (-1)).
Proof.
  intros Ha Hx Hs. apply groups_judged; [done..|]. cbn [judge_groups chosen List.filter].
  change (passes_filters _ _) with true. cbn [statuses snd]. rw Hs Nat.add_0_r.
  destruct n as [|n]; [by destruct st|done].
Qed.

(** C14: a mock function returns the values set up for it first in, first out, each
    as often as it was counted: the test that sets up [l] for [f] and then calls [f]
    passes when the calls are made to return what [l] spreads to, and fails for
    another value, for a call too many and for a call too few. *)
Theorem mock_values_in_order f file (l : list (Z * Z)) vs times existing :
  getenv "CMOCKA_TEST_ABORT" = None -> report_format (initial_globals times existing) <> CM_OUTPUT_XML ->
  Forall (fun e => 0 < e.2) l ->
  (run_groups [("group", [("test", set_up f file l (ask f file vs))])]
     (mkWorld initial_heap (initial_globals times existing))).1 =
  Done [if bool_decide (vs = spread l) then 0 else 1].
Proof.
  intros Ha Hx Hl. erewrite run_test by (try apply status_in_order; done). by destruct (bool_decide _).
Qed.

(** C6: what a test does to its memory is noticed. A test that asks for [n] bytes and
    writes bytes in the block or in its guards passes when all of them are in the
    block and it releases it, and fails when it does not release it; when one is in a
    guard (and is not the guard's own pattern) the block cannot be released, and the
    process ends with a failure after the group. *)
Theorem memory_is_guarded file n ws (frees : bool) times existing :
  getenv "CMOCKA_TEST_ABORT" = None -> report_format (initial_globals times existing) <> CM_OUTPUT_XML ->
  Z.of_nat n < 2 ^ 64 - 112 ->
  Forall (fun w => -16 <= w.1 < Z.of_nat n + 16 /\ 0 <= w.2 < 256 /\ w.2 <> MALLOC_GUARD_PATTERN) ws ->
  (run_groups [("group", [("test", memory_test file (Z.of_nat n) ws frees)])]
     (mkWorld initial_heap (initial_globals times existing))).1 =
  if forallb (fun w => within n w.1) ws then Done [if frees then 0 else 1] else Ended (Exited (-1)).
Proof.
  intros Ha Hx Hn Hws. erewrite run_test by (try apply status_memory; done). by destruct (forallb _ _), frees.
Qed.
End Theorems.

(** ** Concrete runs *)

(** An environment with no variable set, where no file may be written. *)
Definition plain_env : Env := {|
  getenv := fun _ => None;
  runtime_text := fun _ => "0.000";
  float_text := fun _ => "?";
  writable := fun _ => false;
  user_check := fun _ _ _ => ret 1 |}.

(** A test that passes, one with a value left, one that is skipped, one that calls
    out of order, one that fails a parameter, one that leaks a block, and one that
    resizes a block. *)
Definition some_groups : list group :=
  [("first",
    [("passes", set_up "f" "t.c" [(5, 2); (7, 1)] (ask "f" "t.c" [5; 5; 7]));
     ("leaves", WillReturn "f" "t.c" 1 5 1 End);
     ("skips", Skip "t.c" 4)]);
   ("second",
    [("orders", ExpectCall "f" "t.c" 1 1 (ExpectCall "g" "t.c" 2 1 (FunctionCalled "g" "t.c" 3 End)));
     ("checks", Expect (InRange 1 9) "f" "x" "t.c" 1 (-1) (CheckExpected "f" "x" "t.c" 2 4 (CheckExpected "f" "x" "t.c" 3 10 End)))]);
   ("third",
    [("leaks", Memory (Malloc 4) "t.c" 1 (Memory (Malloc 0) "t.c" 2 (Memory (Free 0) "t.c" 3 End)));
     ("reads", Memory (Calloc 2 4) "t.c" 1 (Memory (Write 0 1 7) "t.c" 2 (Memory (Realloc 0 12) "t.c" 3
        (ReadByte 1 1 (fun b => Assert (IntEqual b 7) "t.c" 4 (Memory (Free 1) "t.c" 5 End))))))])].

Lemma group_verdicts_witness :
  (@run_groups plain_text plain_env some_groups (mkWorld initial_heap (initial_globals [] ∅))).1 = Done [1; 2; 1].
Proof. exact (@group_verdicts plain_text plain_env some_groups (initial_globals [] ∅) _ eq_refl eq_refl eq_refl ltac:(done)
  ltac:(vm_compute; reflexivity)). Defined.

Lemma mock_values_in_order_witness :
  (@run_groups plain_text plain_env [("group", [("test", set_up "f" "t.c" [(5, 2); (7, 1)] (ask "f" "t.c" [5; 7; 5]))])]
     (mkWorld initial_heap (initial_globals [] ∅))).1 = Done [1].
Proof.
  exact (@mock_values_in_order plain_text plain_env "f" "t.c" [(5, 2); (7, 1)] [5; 7; 5] [] ∅ eq_refl ltac:(done)
    ltac:(by repeat constructor)).
Defined.

Lemma memory_is_guarded_witness :
  (@run_groups plain_text plain_env [("group", [("test", memory_test "t.c" 3 [(0, 65); (3, 0)] true)])]
     (mkWorld initial_heap (initial_globals [] ∅))).1 = Ended (Exited (-1)).
Proof.
  exact (@memory_is_guarded plain_text plain_env "t.c" 3 [(0, 65); (3, 0)] true [] ∅ eq_refl ltac:(done) ltac:(done)
    ltac:(by repeat constructor)).
Defined.
