(* ===== verification/CmMatch.v ===== *)
(** * The filters of the runner: c_strmatch of cmocka.c as a relation *)

From S2P Require Import Prelude.
From S2P Require Import CLib.
From S2P Require Import Sys.
From S2P Require Import Sem.
From S2P Require Import HeapLogic.
From S2P Require Import Cmocka.
#[local] Open Scope Z_scope.
Import cmocka.

(** What a pattern matches: [*] any text, [?] any character, another character
    itself. *)
Inductive glob : string -> string -> Prop :=
| glob_end : glob "" ""
| glob_star s1 s2 p : glob s2 p -> glob (s1 +:+ s2) (String "*" p)
| glob_any c s p : glob s p -> glob (String c s) (String "?" p)
| glob_char c s p : c <> "*"%char -> c <> "?"%char -> glob s p -> glob (String c s) (String c p).

(** No star follows a star. *)
Fixpoint single_stars (p : string) : bool :=
  match p with
  | String a (String b _ as p') => negb (Ascii.eqb a "*" && Ascii.eqb b "*") && single_stars p'
  | _ => true
  end.

Lemma single_tail a p : single_stars (String a p) = true -> single_stars p = true.
Proof. destruct p; [done|]. cbn [single_stars]. by intros [_ ?]%andb_true_iff. Qed.

(** The search of the rest of a pattern behind a star. *)
Definition some_suffix (f : string -> bool) : string -> bool :=
  fix each str := match str with EmptyString => false | String _ rest => f str || each rest end.

Lemma strmatch_star str p : p <> ""%string -> c_strmatch str (String "*" p) = some_suffix (fun s => c_strmatch s p) str.
Proof. by destruct p. Qed.

Lemma some_suffix_spec f str :
  some_suffix f str = true <-> exists s1 s2, str = s1 +:+ s2 /\ s2 <> ""%string /\ f s2 = true.
Proof.
  induction str as [|c str IH]; cbn.
  - split; [done|]. intros (s1 & s2 & E & Hs & _). by destruct s1, s2.
  - rewrite orb_true_iff, IH. split.
    + intros [Hf|(s1 & s2 & -> & Hs & Hf)]; [by exists "", (String c str)|by exists (String c s1), s2].
    + intros (s1 & s2 & E & Hs & Hf). destruct s1 as [|c1 s1]; cbn in E.
      * left. by rewrite E.
      * injection E as -> ->. right. by exists s1, s2.
Qed.

Lemma glob_all s : glob s "*".
Proof.
  assert (s = s +:+ "") as ->. { induction s as [|c s IH]; [done|]. exact (f_equal (String c) IH). }
  apply glob_star, glob_end.
Qed.

Lemma strmatch_sound p s : c_strmatch s p = true -> glob s p.
Proof.
  revert s. induction p as [|a p IH]; intros s.
  - intros E. apply streq_spec in E as ->. apply glob_end.
  - destruct (Ascii.eqb_spec a "*") as [->|Ha].
    + destruct (decide (p = "")%string) as [->|Hp]; [intros _; apply glob_all|].
      rewrite strmatch_star by done. intros (s1 & s2 & -> & _ & Hm)%some_suffix_spec. by apply glob_star, IH.
    + cbn. rewrite (proj2 (Ascii.eqb_neq a "*") Ha). destruct s as [|c s]; [done|].
      destruct (Ascii.eqb_spec a "?") as [->|Hq]; cbn; [intros Hm; by apply glob_any, IH|].
      destruct (Ascii.eqb_spec c a) as [->|Hc]; cbn; [|done]. intros Hm. by apply glob_char, IH.
Qed.

Lemma strmatch_complete p s : single_stars p = true -> glob s p -> c_strmatch s p = true.
Proof.
  intros Hp Hg. induction Hg as [|s1 s2 p Hg IH|c s p Hg IH|c s p Hs Hq Hg IH]; [done|..].
  - destruct p as [|b p]; [done|]. cbn [single_stars] in Hp. apply andb_true_iff in Hp as [Hb Hp].
    rewrite strmatch_star by done. apply some_suffix_spec. exists s1, s2. split; [done|]. split; [|by apply IH].
    intros ->. inversion Hg; subst. done.
  - apply IH. by eapply single_tail.
  - cbn. rewrite (proj2 (Ascii.eqb_neq c "*") Hs), (proj2 (Ascii.eqb_neq c "?") Hq), Ascii.eqb_refl. cbn. apply IH. by eapply single_tail.
Qed.

(** C28: the filters of the runner match as they should: what c_strmatch accepts is
    matched by the pattern, where a star is any text and a question mark any
    character; and it accepts whatever a pattern matches that has no two stars in a
    row. (With two stars at the end it wants a character for the second.) *)
Theorem strmatch_glob str pattern :
  (c_strmatch str pattern = true -> glob str pattern) /\
  (single_stars pattern = true -> glob str pattern -> c_strmatch str pattern = true).
Proof. split; [apply strmatch_sound|apply strmatch_complete]. Qed.

Lemma strmatch_glob_witness :
  glob "testFilePermsR" "test*Perms?" /\ c_strmatch "ab" "a*" = true /\ c_strmatch "a" "a**" = false.
Proof.
  split; [|split; [|reflexivity]].
  - apply (proj1 (strmatch_glob "testFilePermsR" "test*Perms?")). reflexivity.
  - apply (proj2 (strmatch_glob "ab" "a*") eq_refl). apply glob_char; [done|done|]. apply glob_all.
Defined.
