(* ===== verification/CmFloat.v ===== *)
(** * Comparing floating-point numbers

    What [float_compare] and [double_compare] of cmocka.c answer, with the
    arithmetic of IEEE 754 (round to nearest, ties to even) of the Standard
    Library's SpecFloat, against the exact values of the numbers. *)

From S2P Require Import Prelude.
From S2P Require Import CLib.
From S2P Require Import Sys.
From S2P Require Import Sem.
From S2P Require Import Cmocka.
From Stdlib Require Import SpecFloat.
#[local] Open Scope Z_scope.
Import cmocka.

(** ** Equality of numbers *)

(** The zeros are one number. *)
Definition number_eq (x y : spec_float) : Prop :=
  match x, y with S754_zero _, S754_zero _ => True | _, _ => x = y end.
Infix "≈" := number_eq (at level 70).

#[global] Instance number_eq_equivalence : Equivalence number_eq.
Proof. split; [intros []; done|intros [] []; cbn; congruence|intros [] [] []; cbn; congruence]. Qed.

#[global] Instance compare_proper : Proper (number_eq ==> number_eq ==> eq) SFcompare.
Proof.
  assert (forall x x', x ≈ x' -> x = x' \/ exists s s', x = S754_zero s /\ x' = S754_zero s') as Hz.
  { intros [] []; cbn; eauto. }
  intros x x' Hx y y' Hy.
  destruct (Hz _ _ Hx) as [<-|(s & s' & -> & ->)], (Hz _ _ Hy) as [<-|(t & t' & -> & ->)]; destruct x, y || done; done.
Qed.
#[global] Instance leb_proper : Proper (number_eq ==> number_eq ==> eq) SFleb.
Proof. intros x x' Hx y y' Hy. unfold SFleb. by rewrite Hx, Hy. Qed.

(** ** Magnitudes *)
Definition magnitude (x : spec_float) : spec_float := if SFleb float_zero x then x else SFopp x.
Definition larger (x y : spec_float) : spec_float := if SFltb x y then y else x.

Lemma magnitude_abs x : magnitude x ≈ SFabs x.
Proof. by destruct x as [[]|[]| |[]]. Qed.

Definition finite_number (x : spec_float) : bool :=
  match x with S754_infinity _ | S754_nan => false | _ => true end.

(** ** Digits and shifts *)
Lemma digits_log2 m : Zpos (digits2_pos m) = Z.log2 (Zpos m) + 1.
Proof.
  induction m as [m IH|m IH|]; [| |done]; cbn [digits2_pos]; rewrite Pos2Z.inj_succ, IH.
  - rewrite (Pos2Z.inj_xI m), Z.log2_succ_double by lia. lia.
  - rewrite (Pos2Z.inj_xO m), Z.log2_double by lia. lia.
Qed.

Lemma log2_bounds m : 2 ^ Z.log2 (Zpos m) <= Zpos m < 2 * 2 ^ Z.log2 (Zpos m).
Proof. pose proof (Z.log2_spec (Zpos m) ltac:(lia)) as H. rewrite Z.pow_succ_r in H by apply Z.log2_nonneg. done. Qed.

Lemma log2_shift m k : 0 <= k -> Z.log2 (Zpos m * 2 ^ k) = Z.log2 (Zpos m) + k.
Proof. intros Hk. rewrite Z.log2_mul_pow2 by lia. lia. Qed.

Lemma pow2_xO p : 2 ^ Zpos p~0 = 2 ^ Zpos p * 2 ^ Zpos p.
Proof. rewrite <- Z.pow_add_r by lia. f_equal. lia. Qed.
Lemma pow2_xI p : 2 ^ Zpos p~1 = 2 * (2 ^ Zpos p * 2 ^ Zpos p).
Proof. rewrite <- Z.pow_add_r, <- Z.pow_succ_r by lia. f_equal. lia. Qed.

(** One bit is shifted out. *)
Lemma shr_1_half r : 0 <= shr_m r -> shr_m (shr_1 r) = shr_m r / 2.
Proof.
  intros Hr. rewrite <- Z.div2_div. destruct r as [[|[m|m|]|m] r s]; cbn in *; done || lia.
Qed.
Lemma shr_half p r : 0 <= shr_m r -> shr_m (iter_pos shr_1 p r) = shr_m r / 2 ^ Zpos p.
Proof.
  revert r. induction p as [p IH|p IH|]; intros r Hr; cbn [iter_pos].
  - assert (0 <= shr_m (shr_1 r)) as H1 by (rewrite shr_1_half by done; apply Z.div_pos; lia).
    assert (0 <= shr_m (iter_pos shr_1 p (shr_1 r))) as H2 by (rewrite IH by done; apply Z.div_pos; lia).
    rewrite !IH, shr_1_half, !Z.div_div by (done || lia). f_equal.
    rewrite pow2_xI. lia.
  - assert (0 <= shr_m (iter_pos shr_1 p r)) by (rewrite IH by done; apply Z.div_pos; lia).
    rewrite !IH, Z.div_div by (done || lia). f_equal. by rewrite pow2_xO.
  - by apply shr_1_half.
Qed.

(** Only zeros are shifted out. *)
Lemma shr_1_exact z : 0 <= z -> shr_1 (Build_shr_record (2 * z) false false) = Build_shr_record z false false.
Proof. by destruct z. Qed.
Lemma shr_exact p m : 0 <= m -> iter_pos shr_1 p (Build_shr_record (m * 2 ^ Zpos p) false false) = Build_shr_record m false false.
Proof.
  revert m. induction p as [p IH|p IH|]; intros m Hm; cbn [iter_pos];
    try pose proof (Z.pow_pos_nonneg 2 (Zpos p) ltac:(lia) ltac:(lia)).
  - replace (m * 2 ^ Zpos p~1) with (2 * (m * 2 ^ Zpos p * 2 ^ Zpos p)) by (rewrite pow2_xI; lia).
    rewrite shr_1_exact by (repeat apply Z.mul_nonneg; lia).
    rewrite IH by (repeat apply Z.mul_nonneg; lia). by apply IH.
  - replace (m * 2 ^ Zpos p~0) with (m * 2 ^ Zpos p * 2 ^ Zpos p) by (rewrite pow2_xO; lia).
    rewrite IH by (repeat apply Z.mul_nonneg; lia). by apply IH.
  - change (2 ^ 1) with 2. rewrite Z.mul_comm. by destruct m.
Qed.

(** ** Rounding *)
Section Format.
Context (prec emax : Z) (Hprec : 0 < prec).
#[local] Abbreviation emin := (3 - emax - prec).
#[local] Abbreviation valid := (valid_binary prec emax).

(** The value of a finite number, in units of the smallest. *)
Definition value (x : spec_float) : Z :=
  match x with S754_finite s m e => cond_Zopp s (Zpos m) * 2 ^ (e - emin) | _ => 0 end.

Lemma fexp_max e : fexp prec emax e = Z.max (e - prec) emin.
Proof. done. Qed.

Lemma bounded_spec m e : bounded prec emax m e = true <->
  Z.max (Z.log2 (Zpos m) + 1 + e - prec) emin = e /\ e <= emax - prec.
Proof.
  unfold bounded, canonical_mantissa. rewrite andb_true_iff, Z.eqb_eq, Z.leb_le, fexp_max, digits_log2. done.
Qed.

Lemma valid_finite s m e : valid (S754_finite s m e) = true <->
  Z.max (Z.log2 (Zpos m) + 1 + e - prec) emin = e /\ e <= emax - prec.
Proof. apply bounded_spec. Qed.

(** A mantissa in the format with zeros behind it is rounded to itself. *)
Lemma round_aux_exact s m k e p :
  bounded prec emax m e = true -> 0 <= k -> Zpos p = Zpos m * 2 ^ k ->
  binary_round_aux prec emax s (Zpos p) (e - k) loc_Exact = S754_finite s m e.
Proof.
  intros [Hm He]%bounded_spec Hk Hp. unfold binary_round_aux, shr_fexp. cbn [Zdigits2 shr_record_of_loc].
  rewrite digits_log2, Hp, log2_shift, fexp_max by done.
  replace (Z.max _ _ - (e - k)) with k by lia.
  assert (shr (Build_shr_record (Zpos m * 2 ^ k) false false) (e - k) k = (Build_shr_record (Zpos m) false false, e)) as ->.
  { unfold shr. destruct k as [|k|k]; [|rewrite shr_exact by lia; f_equal; lia|lia].
    change (2 ^ 0) with 1. rewrite Z.mul_1_r. f_equal. lia. }
  cbn [loc_of_shr_record round_nearest_even shr_m Zdigits2 shr_record_of_loc].
  rewrite digits_log2, fexp_max. replace (Z.max _ _ - e) with 0 by lia. cbn [shr shr_m].
  by rewrite (proj2 (Z.leb_le _ _)).
Qed.

(** A number of the format is its own rounding. *)
Lemma round_small s m e :
  Z.log2 (Zpos m) < prec -> emin <= e -> e <= emax - prec ->
  let r := binary_round prec emax s m e in
  valid r = true /\ finite_number r = true /\ value r = cond_Zopp s (Zpos m) * 2 ^ (e - emin).
Proof.
  intros Hm He1 He2. unfold binary_round. rewrite digits_log2, fexp_max. set (f := Z.max _ _).
  assert (exists mz, shl_align m e f = (mz, f) /\ Zpos mz = Zpos m * 2 ^ (e - f)) as (mz & -> & Hmz).
  { unfold shl_align. destruct (f - e) as [|d|d] eqn:Ed; [|lia|].
    - exists m. replace (e - f) with 0 by lia. split; [f_equal; lia|]. change (2 ^ 0) with 1. lia.
    - exists (Pos.iter xO m d). split; [done|]. replace (e - f) with (Zpos d) by lia.
      rewrite Z.mul_comm. exact (shift_pos_correct d m). }
  assert (bounded prec emax mz f = true) as Hb.
  { apply bounded_spec. rewrite Hmz, log2_shift by lia. lia. }
  pose proof (round_aux_exact s mz 0 f mz Hb ltac:(lia) ltac:(lia)) as Hr. rewrite Z.sub_0_r in Hr. cbv zeta. rewrite Hr.
  split; [exact Hb|]. split; [done|]. cbn [value]. replace (e - emin) with ((e - f) + (f - emin)) by lia.
  rewrite Z.pow_add_r by lia. destruct s; cbn [cond_Zopp]; rewrite Hmz; lia.
Qed.

(** The mantissa that is left has as many digits as the format, and stays positive. *)
Lemma round_kept m d p :
  Zpos d <= Z.log2 (Zpos m) -> Zpos m / 2 ^ Zpos d = Zpos p -> Z.log2 (Zpos p) = Z.log2 (Zpos m) - Zpos d.
Proof. intros Hd <-. rewrite <- Z.shiftr_div_pow2, Z.log2_shiftr; lia. Qed.

Lemma shr_fexp_twice m e :
  prec - 1 <= Z.log2 (Zpos m) <= prec -> emin <= e ->
  exists m' e', shr_fexp prec emax (Zpos m) e loc_Exact = (m', e') /\ 0 < shr_m m' /\ e <= e'.
Proof.
  intros Hm He. unfold shr_fexp. cbn [Zdigits2 shr_record_of_loc]. rewrite digits_log2, fexp_max, Z.max_l by lia.
  destruct (Z.eq_dec (Z.log2 (Zpos m)) prec) as [E|E].
  - replace (Z.log2 (Zpos m) + 1 + e - prec - e) with 1 by lia. eexists _, _. split; [reflexivity|].
    cbn [iter_pos]. rewrite shr_1_half by done. cbn [shr_m]. split; [|lia]. apply Z.div_str_pos.
    pose proof (log2_bounds m). pose proof (Z.pow_gt_1 2 (Z.log2 (Zpos m)) ltac:(lia)). lia.
  - replace (Z.log2 (Zpos m) + 1 + e - prec - e) with 0 by lia. eexists _, _. split; [reflexivity|]. cbn. lia.
Qed.

(** A longer one becomes at least as large a number of its last digit. *)
Lemma round_big s m e :
  prec <= Z.log2 (Zpos m) -> emin <= e ->
  match binary_round prec emax s m e with
  | S754_infinity s' => s' = s
  | S754_finite s' _ e' => s' = s /\ Z.log2 (Zpos m) + 1 + e - prec <= e'
  | _ => False
  end.
Proof.
  intros Hm He. unfold binary_round. rewrite digits_log2, fexp_max. rewrite Z.max_l by lia.
  set (f := Z.log2 (Zpos m) + 1 + e - prec).
  assert (exists d, f - e = Zpos d) as (d & Hd) by (exists (Z.to_pos (f - e)); lia).
  assert (shl_align m e f = (m, e)) as -> by (unfold shl_align; by rewrite Hd).
  unfold binary_round_aux. unfold shr_fexp at 1. cbn [Zdigits2 shr_record_of_loc]. rewrite digits_log2, fexp_max, Z.max_l by lia.
  fold f. rewrite Hd. cbn [shr]. rewrite shr_half by done. cbn [shr_m].
  set (l := loc_of_shr_record _). assert (exists p, Zpos m / 2 ^ Zpos d = Zpos p) as (p & Hp).
  { exists (Z.to_pos (Zpos m / 2 ^ Zpos d)). rewrite Z2Pos.id; [done|]. apply Z.div_str_pos.
    pose proof (log2_bounds m). pose proof (Z.pow_le_mono_r 2 (Zpos d) (Z.log2 (Zpos m)) ltac:(lia) ltac:(lia)). lia. }
  rewrite Hp. pose proof (round_kept m d p ltac:(lia) Hp) as Hl.
  assert (exists q, round_nearest_even (Zpos p) l = Zpos q /\ prec - 1 <= Z.log2 (Zpos q) <= prec) as (q & -> & Hq).
  { assert (prec - 1 <= Z.log2 (Zpos p + 1) <= prec) as H1.
    { pose proof (Z.log2_le_mono (Zpos p) (Zpos p + 1) ltac:(lia)). pose proof (Z.log2_succ_le (Zpos p)) as H2. rewrite <- Z.add_1_r in H2. lia. }
    assert (Zpos (p + 1) = Zpos p + 1) as Hs by lia.
    destruct l as [|[]]; cbn [round_nearest_even]; [exists p|destruct (Z.even _); [exists p|exists (p + 1)%positive]|exists p|exists (p + 1)%positive];
      rewrite ?Hs; (split; [done|lia]). }
  destruct (shr_fexp_twice q (e + Zpos d) Hq ltac:(lia)) as (m' & e' & -> & Hm' & He').
  destruct (shr_m m') as [|m2|]; [lia| |lia]. destruct (e' <=? emax - prec); [|done]. split; [done|lia].
Qed.

(** ** Order by value *)
Definition no_sign (x : spec_float) : bool :=
  match x with S754_zero _ | S754_finite false _ _ => true | _ => false end.

Lemma valid_log2 s m e : valid (S754_finite s m e) = true -> Zpos m < 2 ^ prec /\ emin <= e /\ (emin < e -> 2 ^ (prec - 1) <= Zpos m).
Proof.
  intros [Hm _]%valid_finite. pose proof (log2_bounds m) as [H1 H2]. split; [|split; [lia|]].
  - rewrite <- Z.pow_succ_r in H2 by apply Z.log2_nonneg. eapply Z.lt_le_trans; [exact H2|]. apply Z.pow_le_mono_r; lia.
  - intros He. etransitivity; [|exact H1]. apply Z.pow_le_mono_r; lia.
Qed.

Lemma exponent_first m1 e1 m2 e2 :
  Zpos m1 < 2 ^ prec -> 2 ^ (prec - 1) <= Zpos m2 -> emin <= e1 < e2 ->
  Zpos m1 * 2 ^ (e1 - emin) < Zpos m2 * 2 ^ (e2 - emin).
Proof.
  intros H1 H2 He. replace (e2 - emin) with ((e2 - e1 - 1) + 1 + (e1 - emin)) by lia.
  rewrite !Z.pow_add_r by lia. change (2 ^ 1) with 2.
  replace (2 ^ prec) with (2 * 2 ^ (prec - 1)) in H1 by (rewrite <- Z.pow_succ_r by lia; f_equal; lia).
  pose proof (Z.pow_pos_nonneg 2 (e2 - e1 - 1) ltac:(lia) ltac:(lia)).
  rewrite !Z.mul_assoc. apply Z.mul_lt_mono_pos_r; [apply Z.pow_pos_nonneg; lia|]. nia.
Qed.

Lemma ltb_value x y :
  valid x = true -> valid y = true -> no_sign x = true -> no_sign y = true -> SFltb x y = (value x <? value y).
Proof.
  intros Hx Hy Px Py. destruct x as [| | |[] m1 e1], y as [| | |[] m2 e2]; try discriminate; cbn [value cond_Zopp].
  - done.
  - symmetry. apply Z.ltb_lt. apply Z.mul_pos_pos; [lia|]. apply Z.pow_pos_nonneg; [lia|]. apply valid_log2 in Hy. lia.
  - symmetry. apply Z.ltb_ge. apply Z.mul_nonneg_nonneg; [lia|]. apply Z.pow_nonneg. lia.
  - apply valid_log2 in Hx as (Hm1 & He1 & Hx), Hy as (Hm2 & He2 & Hy). unfold SFltb. cbn [SFcompare].
    change (Pos.compare_cont Eq m1 m2) with (m1 ?= m2)%positive. destruct (Z.compare_spec e1 e2) as [<-|H|H].
    + change (m1 ?= m2)%positive with (Zpos m1 ?= Zpos m2). pose proof (Z.pow_pos_nonneg 2 (e1 - emin) ltac:(lia) ltac:(lia)).
      destruct (Z.ltb_spec (Zpos m1 * 2 ^ (e1 - emin)) (Zpos m2 * 2 ^ (e1 - emin))), (Z.compare_spec (Zpos m1) (Zpos m2)); try done; nia.
    + symmetry. apply Z.ltb_lt. apply exponent_first; [done|apply Hy; lia|lia].
    + symmetry. apply Z.ltb_ge, Z.lt_le_incl. apply exponent_first; [done|apply Hx; lia|lia].
Qed.

(** ** Differences *)
Lemma align_value m e e' : e' <= e -> Zpos (fst (shl_align m e e')) = Zpos m * 2 ^ (e - e').
Proof.
  intros He. unfold shl_align. destruct (e' - e) as [|d|d] eqn:E; [|lia|].
  - replace (e - e') with 0 by lia. cbn. lia.
  - replace (e - e') with (Zpos d) by lia. cbn [fst]. rewrite Z.mul_comm. exact (shift_pos_correct d m).
Qed.

(** A difference is exact, or half as large as the numbers. *)
Definition difference (x y D : spec_float) : Prop :=
  let d := Z.abs (value x - value y) in
  valid D = true /\ finite_number D = true /\ Z.abs (value D) = d \/
  Z.max (Z.abs (value x)) (Z.abs (value y)) <= 2 * d /\
  match D with S754_infinity _ => True | S754_finite _ _ e => Z.log2 d + 1 + emin - prec <= e | _ => False end.

Lemma normalize_value z e (x y : spec_float) :
  emin <= e <= emax - prec -> value x - value y = z * 2 ^ (e - emin) ->
  (2 ^ prec <= Z.abs z -> Z.max (Z.abs (value x)) (Z.abs (value y)) <= 2 * Z.abs (value x - value y)) ->
  difference x y (binary_normalize prec emax z e false).
Proof.
  intros He Hd Hbig. unfold difference. rewrite Hd in *. clear Hd.
  assert (z = 0 \/ exists s p, z = cond_Zopp s (Zpos p)) as [->|(s & p & ->)].
  { destruct z as [|p|p]; [by left|right; by exists false, p|right; by exists true, p]. }
  { left. done. }
  replace (binary_normalize _ _ _ _ _) with (binary_round prec emax s p e) by (by destruct s).
  assert (Z.abs (cond_Zopp s (Zpos p)) = Zpos p) as Hs by (by destruct s). rewrite Z.abs_mul, Hs, (Z.abs_eq (2 ^ _)) in * by (apply Z.pow_nonneg; lia).
  destruct (Z.lt_ge_cases (Z.log2 (Zpos p)) prec) as [Hp|Hp].
  - left. destruct (round_small s p e Hp ltac:(lia) ltac:(lia)) as (Hv & Hf & ->). split; [done|]. split; [done|].
    rewrite Z.abs_mul, Hs, Z.abs_eq by (apply Z.pow_nonneg; lia). done.
  - right. pose proof (round_big s p e Hp ltac:(lia)) as Hr. rewrite log2_shift by lia. split.
    + apply Hbig. pose proof (log2_bounds p). pose proof (Z.pow_le_mono_r 2 prec (Z.log2 (Zpos p)) ltac:(lia) ltac:(lia)). lia.
    + destruct (binary_round _ _ _ _ _); try done. lia.
Qed.

Lemma sub_value x y :
  valid x = true -> valid y = true -> finite_number x = true -> finite_number y = true ->
  difference x y (SFsub prec emax x y).
Proof.
  intros Hx Hy Fx Fy. destruct x as [sx|sx| |sx mx ex], y as [sy|sy| |sy my ey]; try discriminate; cbn [SFsub].
  - left. by destruct sx, sy.
  - left. split; [exact Hy|]. split; [done|]. cbn [value]. destruct sy; cbn [cond_Zopp negb]; lia.
  - left. split; [exact Hx|]. split; [done|]. cbn [value]. f_equal. lia.
  - pose proof (valid_log2 _ _ _ Hx) as (Hm & He & _). pose proof (valid_log2 _ _ _ Hy) as (Hm' & He' & _).
    apply valid_finite in Hx as [_ Hx], Hy as [_ Hy].
    set (e := Z.min ex ey). rewrite !align_value by lia. set (A := Zpos mx * 2 ^ (ex - e)). set (B := Zpos my * 2 ^ (ey - e)).
    set (u := 2 ^ (e - emin)). assert (0 < u) as Hu by (apply Z.pow_pos_nonneg; lia).
    assert (value (S754_finite sx mx ex) = cond_Zopp sx A * u /\ value (S754_finite sy my ey) = cond_Zopp sy B * u) as [Vx Vy].
    { cbn [value]. replace (ex - emin) with ((ex - e) + (e - emin)) by lia. replace (ey - emin) with ((ey - e) + (e - emin)) by lia.
      rewrite !Z.pow_add_r by lia. fold u. unfold A, B. destruct sx, sy; cbn [cond_Zopp]; lia. }
    assert (0 <= A /\ 0 <= B /\ (A < 2 ^ prec \/ B < 2 ^ prec)) as (HA & HB & Hlow).
    { split; [apply Z.mul_nonneg_nonneg; [lia|by apply Z.pow_nonneg]|]. split; [apply Z.mul_nonneg_nonneg; [lia|by apply Z.pow_nonneg]|].
      unfold A, B, e. destruct (Z.min_spec ex ey) as [[_ ->]|[_ ->]]; rewrite Z.sub_diag; [left|right]; lia. }
    apply normalize_value; [lia|rewrite Vx, Vy; lia|]. rewrite Vx, Vy, <- Z.mul_sub_distr_r, !Z.abs_mul, (Z.abs_eq u) by lia.
    intros Hz. assert (Z.max (Z.abs (cond_Zopp sx A)) (Z.abs (cond_Zopp sy B)) <= 2 * Z.abs (cond_Zopp sx A - cond_Zopp sy B)); [|nia].
    destruct sx, sy; cbn [cond_Zopp] in *; lia.
Qed.

(** ** The relative tolerance *)
Definition relative_epsilon : spec_float := S754_finite false (Z.to_pos (2 ^ (prec - 1))) (1 - prec - 23).

(** The product with 2^-23 is exact, unless the number is tiny. *)
Lemma mul_epsilon m e :
  valid (S754_finite false m e) = true -> emin + 23 <= e ->
  SFmul prec emax (S754_finite false m e) relative_epsilon = S754_finite false m (e - 23) /\
  valid (S754_finite false m (e - 23)) = true.
Proof.
  intros [Hm He]%valid_finite Hmin. assert (bounded prec emax m (e - 23) = true) as Hb by (apply bounded_spec; lia).
  split; [|done]. unfold SFmul, relative_epsilon. cbn [xorb].
  replace (e + (1 - prec - 23)) with (e - 23 - (prec - 1)) by lia. apply round_aux_exact; [done|lia|].
  rewrite Pos2Z.inj_mul, Z2Pos.id; [done|]. apply Z.pow_pos_nonneg; lia.
Qed.

(** ** The comparison *)
Lemma magnitude_value x : finite_number x = true ->
  no_sign (magnitude x) = true /\ valid (magnitude x) = valid x /\ value (magnitude x) = Z.abs (value x).
Proof.
  destruct x as [[]|s| |[] m e]; try discriminate; intros _; try done; (split; [done|]; split; [done|]);
    change (magnitude _) with (S754_finite false m e); cbn [value cond_Zopp];
    pose proof (Z.pow_nonneg 2 (e - emin) ltac:(lia)); rewrite ?Z.mul_opp_l, ?Z.abs_opp, Z.abs_eq by (apply Z.mul_nonneg_nonneg; lia); done.
Qed.

Lemma larger_value a b :
  valid a = true -> valid b = true -> no_sign a = true -> no_sign b = true ->
  valid (larger a b) = true /\ no_sign (larger a b) = true /\ value (larger a b) = Z.max (value a) (value b).
Proof.
  intros Ha Hb Pa Pb. unfold larger. rewrite ltb_value by done.
  destruct (Z.ltb_spec (value a) (value b)); (split; [done|]; split; [done|]); lia.
Qed.

Lemma fp_compare_eq epsilon x y eps :
  fp_compare prec emax epsilon x y eps =
  let diff := magnitude (SFsub prec emax x y) in
  SFleb diff eps || negb (SFltb (SFmul prec emax (larger (magnitude x) (magnitude y)) epsilon) diff).
Proof.
  unfold fp_compare. change (if SFleb float_zero ?z then ?z else SFopp ?z) with (magnitude z).
  cbn zeta. destruct (SFleb _ eps); [done|]. unfold larger. by destruct (SFltb _ (magnitude _)).
Qed.

(** Below the relative tolerance, by value. *)
Lemma relative_value m e D d M :
  valid (S754_finite false m e) = true -> value (S754_finite false m e) = M -> 2 ^ (prec + 22) <= M ->
  valid D = true /\ finite_number D = true /\ Z.abs (value D) = d \/
  M <= 2 * d /\ match D with S754_infinity _ => True | S754_finite _ _ e => Z.log2 d + 1 + emin - prec <= e | _ => False end ->
  SFltb (SFmul prec emax (S754_finite false m e) relative_epsilon) (magnitude D) = (M <? 2 ^ 23 * d).
Proof.
  intros Hv HM Hmin HD. pose proof (valid_log2 _ _ _ Hv) as (Hm & He & Hn).
  assert (emin + 23 <= e) as He23.
  { destruct (Z.le_gt_cases (emin + 23) e) as [|Hlt]; [done|exfalso]. cbn [value cond_Zopp] in HM.
    pose proof (Z.pow_le_mono_r 2 (e - emin) 22 ltac:(lia) ltac:(lia)) as Hp. rewrite Z.pow_add_r in Hmin by lia.
    pose proof (Z.pow_nonneg 2 (e - emin) ltac:(lia)). nia. }
  destruct (mul_epsilon m e Hv He23) as [-> Hv'].
  assert (M = 2 ^ 23 * value (S754_finite false m (e - 23))) as HR.
  { rewrite <- HM. cbn [value cond_Zopp]. replace (e - emin) with (23 + (e - 23 - emin)) by lia. rewrite Z.pow_add_r by lia. lia. }
  destruct HD as [(HvD & HfD & HdD)|[Hd HD]].
  - destruct (magnitude_value D HfD) as (HP & Hvm & Hval). rewrite ltb_value by (done || by rewrite Hvm).
    rewrite Hval, HdD, HR. change (2 ^ 23) with 8388608. destruct (Z.ltb_spec (value (S754_finite false m (e - 23))) d);
      symmetry; [apply Z.ltb_lt|apply Z.ltb_ge]; lia.
  - rewrite (proj2 (Z.ltb_lt M _)).
    2: { pose proof (Z.pow_pos_nonneg 2 (prec + 22) ltac:(lia) ltac:(lia)). change (2 ^ 23) with 8388608. lia. }
    destruct D as [s|s| |s m' e']; try done; [by destruct s|].
    assert (e - 23 < e') as Hlt.
    { assert (2 ^ (prec - 2 + (e - emin)) <= d) as Hd2.
      { rewrite <- HM in Hd. cbn [value cond_Zopp] in Hd. specialize (Hn ltac:(lia)).
        replace (prec - 2 + (e - emin)) with (prec - 1 + (e - emin) - 1) by lia.
        apply (Z.mul_le_mono_pos_l _ _ 2); [done|]. rewrite <- Z.pow_succ_r by lia.
        replace (Z.succ _) with ((prec - 1) + (e - emin)) by lia. rewrite Z.pow_add_r by lia.
        pose proof (Z.pow_nonneg 2 (e - emin) ltac:(lia)). nia. }
      apply Z.log2_le_pow2 in Hd2; [lia|]. pose proof (Z.pow_pos_nonneg 2 (prec + 22) ltac:(lia) ltac:(lia)). lia. }
    assert (magnitude (S754_finite s m' e') = S754_finite false m' e') as -> by (by destruct s).
    unfold SFltb. cbn [SFcompare]. by rewrite (proj2 (Z.compare_lt_iff _ _) Hlt).
Qed.

Lemma compare_value x y eps :
  valid x = true -> valid y = true -> finite_number x = true -> finite_number y = true ->
  2 ^ (prec + 22) <= Z.max (Z.abs (value x)) (Z.abs (value y)) ->
  fp_compare prec emax relative_epsilon x y eps =
  SFleb (SFabs (SFsub prec emax x y)) eps ||
  (2 ^ 23 * Z.abs (value x - value y) <=? Z.max (Z.abs (value x)) (Z.abs (value y))).
Proof.
  intros Hx Hy Fx Fy Hmin. rewrite fp_compare_eq. cbv zeta. rewrite magnitude_abs at 1. f_equal.
  destruct (magnitude_value x Fx) as (Px & Vx & Ex), (magnitude_value y Fy) as (Py & Vy & Ey).
  destruct (larger_value (magnitude x) (magnitude y)) as (HL & HP & HV); [congruence..|]. rewrite Ex, Ey in HV.
  pose proof (Z.pow_pos_nonneg 2 (prec + 22) ltac:(lia) ltac:(lia)).
  destruct (larger (magnitude x) (magnitude y)) as [s|s| |[] m e] eqn:EL; try discriminate; [cbn [value] in HV; lia|].
  rewrite (relative_value m e _ _ _ HL HV Hmin (sub_value x y Hx Hy Fx Fy)).
  by rewrite Z.leb_antisym.
Qed.

Lemma compare_no_number x y eps :
  finite_number x = false \/ finite_number y = false -> fp_compare prec emax relative_epsilon x y eps = true.
Proof.
  intros Hf. rewrite fp_compare_eq. apply orb_true_iff. right. apply negb_true_iff.
  destruct x as [[]|[]| |[]], y as [[]|[]| |[]]; try (by destruct Hf); try done; by destruct (SFmul _ _ _ _).
Qed.
End Format.

(** What a comparison of numbers with [prec] digits decides: whether they are within
    the tolerance, or within 2^-23 of the larger; but whatever is no number equals
    all. *)
Definition decides (prec emax : Z) (compare : spec_float -> spec_float -> spec_float -> bool) : Prop :=
  let number x := valid_binary prec emax x = true /\ finite_number x = true in
  let val := value prec emax in
  forall x y eps,
    (number x -> number y -> 2 ^ (prec + 22) <= Z.max (Z.abs (val x)) (Z.abs (val y)) ->
     compare x y eps =
       SFleb (SFabs (SFsub prec emax x y)) eps ||
       (2 ^ 23 * Z.abs (val x - val y) <=? Z.max (Z.abs (val x)) (Z.abs (val y)))) /\
    (finite_number x = false \/ finite_number y = false -> compare x y eps = true).

Lemma fp_compare_decides prec emax : 0 < prec -> decides prec emax (fp_compare prec emax (relative_epsilon prec)).
Proof.
  intros Hp. unfold decides. cbv zeta. intros x y eps. split; [|by apply compare_no_number].
  intros [? ?] [? ?] Hmin. by apply compare_value.
Qed.

(** C27: [assert_float_equal] and [assert_double_equal] decide by the exact values of
    two finite numbers, as long as the larger is not tiny (2^-103, or 2^-999 for
    doubles): they are equal just when their difference, rounded, is at most the
    tolerance, or their difference, not rounded, is at most 2^-23 of the larger; for
    doubles too. An infinity, like what is not a number, equals every number, so that
    the assertions cannot fail for a result that has overflown. *)
Theorem float_compare_exact : decides 24 128 float_compare /\ decides 53 1024 double_compare.
Proof. split; by apply fp_compare_decides. Qed.

(** One and its successor are equal, one and two are not; but infinity equals one. *)
Example float_compare_examples :
  let one := S754_finite false 8388608 (-23) in
  float_compare one (S754_finite false 8388609 (-23)) float_zero = true /\
  float_compare one (S754_finite false 8388608 (-22)) float_zero = false /\
  float_compare one (S754_infinity false) float_zero = true.
Proof. vm_compute. done. Qed.
