(* ===== verification/UnitTests.v ===== *)
(** * The unit tests: tests/test_FilePerms.c

    The tests of [filePermStr], in the framework of Cmocka. *)

From S2P Require Import Prelude.
From S2P Require Import CLib.
From S2P Require Import Sys.
From S2P Require Import Sem.
From S2P Require Import Lpi.
From S2P Require Import HeapLogic.
From S2P Require Import Cmocka.
From S2P Require Import CmOps.
From S2P Require Import CmRun.
From S2P Require Import CmVerdict.
#[local] Open Scope Z_scope.
#[local] Open Scope cmd_scope.

Module test_FilePerms.
Import cmocka.
Section Tests.
Context `{CText} `{Env}.

Definition __FILE__ : string := "test_FilePerms.c".
Definition assert_string_equal (a b : string) (line : Z) : M unit := _assert_string_equal a b __FILE__ line.
Definition filePermStr : Z -> string := FilePerms.filePermStr.

Definition testFilePermsNone (state : Z) : M unit :=
  assert_string_equal (filePermStr 0) "---------" 31 ;;
  assert_string_equal (filePermStr S_ISUID) "--S------" 32 ;;
  assert_string_equal (filePermStr S_ISGID) "-----S---" 33 ;;
  assert_string_equal (filePermStr S_ISVTX) "--------T" 34 ;;
  ret tt.

Definition testFilePermsR (state : Z) : M unit :=
  assert_string_equal (filePermStr S_IRUSR) "r--------" 38 ;;
  assert_string_equal (filePermStr S_IRGRP) "---r-----" 39 ;;
  assert_string_equal (filePermStr S_IROTH) "------r--" 40 ;;
  assert_string_equal (filePermStr (S_IRUSR .| S_IRGRP)) "r--r-----" 42 ;;
  assert_string_equal (filePermStr (S_IRUSR .| S_IROTH)) "r-----r--" 43 ;;
  assert_string_equal (filePermStr (S_IRGRP .| S_IROTH)) "---r--r--" 44 ;;
  assert_string_equal (filePermStr (S_IRUSR .| S_IRGRP .| S_IROTH)) "r--r--r--" 46 ;;
  ret tt.

Definition testFilePermsW (state : Z) : M unit :=
  assert_string_equal (filePermStr S_IWUSR) "-w-------" 50 ;;
  assert_string_equal (filePermStr S_IWGRP) "----w----" 51 ;;
  assert_string_equal (filePermStr S_IWOTH) "-------w-" 52 ;;
  assert_string_equal (filePermStr (S_IWUSR .| S_IWGRP)) "-w--w----" 54 ;;
  assert_string_equal (filePermStr (S_IWUSR .| S_IWOTH)) "-w-----w-" 55 ;;
  assert_string_equal (filePermStr (S_IWGRP .| S_IWOTH)) "----w--w-" 56 ;;
  assert_string_equal (filePermStr (S_IWUSR .| S_IWGRP .| S_IWOTH)) "-w--w--w-" 58 ;;
  ret tt.

Definition testFilePermsX (state : Z) : M unit :=
  assert_string_equal (filePermStr S_IXUSR) "--x------" 62 ;;
  assert_string_equal (filePermStr S_IXGRP) "-----x---" 63 ;;
  assert_string_equal (filePermStr S_IXOTH) "--------x" 64 ;;
  assert_string_equal (filePermStr (S_IXUSR .| S_IXGRP)) "--x--x---" 66 ;;
  assert_string_equal (filePermStr (S_IXUSR .| S_IXOTH)) "--x-----x" 67 ;;
  assert_string_equal (filePermStr (S_IXGRP .| S_IXOTH)) "-----x--x" 68 ;;
  assert_string_equal (filePermStr (S_IXUSR .| S_IXGRP .| S_IXOTH)) "--x--x--x" 70 ;;
  assert_string_equal (filePermStr (S_ISUID .| S_IXUSR)) "--s------" 73 ;;
  assert_string_equal (filePermStr (S_ISUID .| S_IXGRP)) "--S--x---" 74 ;;
  assert_string_equal (filePermStr (S_ISUID .| S_IXOTH)) "--S-----x" 75 ;;
  assert_string_equal (filePermStr (S_ISUID .| S_IXUSR .| S_IXGRP)) "--s--x---" 77 ;;
  assert_string_equal (filePermStr (S_ISUID .| S_IXUSR .| S_IXOTH)) "--s-----x" 78 ;;
  assert_string_equal (filePermStr (S_ISUID .| S_IXGRP .| S_IXOTH)) "--S--x--x" 79 ;;
  assert_string_equal (filePermStr (S_ISUID .| S_IXUSR .| S_IXGRP .| S_IXOTH)) "--s--x--x" 81 ;;
  assert_string_equal (filePermStr (S_ISGID .| S_IXUSR)) "--x--S---" 84 ;;
  assert_string_equal (filePermStr (S_ISGID .| S_IXGRP)) "-----s---" 85 ;;
  assert_string_equal (filePermStr (S_ISGID .| S_IXOTH)) "-----S--x" 86 ;;
  assert_string_equal (filePermStr (S_ISGID .| S_IXUSR .| S_IXGRP)) "--x--s---" 88 ;;
  assert_string_equal (filePermStr (S_ISGID .| S_IXUSR .| S_IXOTH)) "--x--S--x" 89 ;;
  assert_string_equal (filePermStr (S_ISGID .| S_IXGRP .| S_IXOTH)) "-----s--x" 90 ;;
  assert_string_equal (filePermStr (S_ISGID .| S_IXUSR .| S_IXGRP .| S_IXOTH)) "--x--s--x" 92 ;;
  assert_string_equal (filePermStr (S_ISVTX .| S_IXUSR)) "--x-----T" 95 ;;
  assert_string_equal (filePermStr (S_ISVTX .| S_IXGRP)) "-----x--T" 96 ;;
  assert_string_equal (filePermStr (S_ISVTX .| S_IXOTH)) "--------t" 97 ;;
  assert_string_equal (filePermStr (S_ISVTX .| S_IXUSR .| S_IXGRP)) "--x--x--T" 99 ;;
  assert_string_equal (filePermStr (S_ISVTX .| S_IXUSR .| S_IXOTH)) "--x-----t" 100 ;;
  assert_string_equal (filePermStr (S_ISVTX .| S_IXGRP .| S_IXOTH)) "-----x--t" 101 ;;
  assert_string_equal (filePermStr (S_ISVTX .| S_IXUSR .| S_IXGRP .| S_IXOTH)) "--x--x--t" 103 ;;
  ret tt.

Definition testFilePermsRWX (state : Z) : M unit :=
  assert_string_equal (filePermStr (S_IRUSR .| S_IWUSR .| S_IXUSR)) "rwx------" 107 ;;
  assert_string_equal (filePermStr (S_IRGRP .| S_IWGRP .| S_IXGRP)) "---rwx---" 110 ;;
  assert_string_equal (filePermStr (S_IROTH .| S_IWOTH .| S_IXOTH)) "------rwx" 113 ;;
  assert_string_equal (filePermStr (S_IRUSR .| S_IWUSR .| S_IXUSR .| S_IRGRP .| S_IWGRP .| S_IXGRP)) "rwxrwx---" 116 ;;
  assert_string_equal (filePermStr (S_IRUSR .| S_IWUSR .| S_IXUSR .| S_IROTH .| S_IWOTH .| S_IXOTH)) "rwx---rwx" 120 ;;
  assert_string_equal (filePermStr (S_IRGRP .| S_IWGRP .| S_IXGRP .| S_IROTH .| S_IWOTH .| S_IXOTH)) "---rwxrwx" 124 ;;
  assert_string_equal (filePermStr (S_IRUSR .| S_IWUSR .| S_IXUSR .| S_IRGRP .| S_IWGRP .| S_IXGRP .| S_IROTH .| S_IWOTH .| S_IXOTH)) "rwxrwxrwx" 128 ;;
  assert_string_equal (filePermStr (S_ISUID .| S_ISGID .| S_ISVTX .| S_IRUSR .| S_IWUSR .| S_IXUSR)) "rws--S--T" 135 ;;
  assert_string_equal (filePermStr (S_ISUID .| S_ISGID .| S_ISVTX .| S_IRGRP .| S_IWGRP .| S_IXGRP)) "--Srws--T" 139 ;;
  assert_string_equal (filePermStr (S_ISUID .| S_ISGID .| S_ISVTX .| S_IROTH .| S_IWOTH .| S_IXOTH)) "--S--Srwt" 143 ;;
  assert_string_equal (filePermStr (S_ISUID .| S_ISGID .| S_ISVTX .| S_IRUSR .| S_IWUSR .| S_IXUSR .| S_IRGRP .| S_IWGRP .| S_IXGRP)) "rwsrws--T" 147 ;;
  assert_string_equal (filePermStr (S_ISUID .| S_ISGID .| S_ISVTX .| S_IRUSR .| S_IWUSR .| S_IXUSR .| S_IROTH .| S_IWOTH .| S_IXOTH)) "rws--Srwt" 152 ;;
  assert_string_equal (filePermStr (S_ISUID .| S_ISGID .| S_ISVTX .| S_IRGRP .| S_IWGRP .| S_IXGRP .| S_IROTH .| S_IWOTH .| S_IXOTH)) "--Srwsrwt" 157 ;;
  assert_string_equal (filePermStr (S_ISUID .| S_ISGID .| S_ISVTX .| S_IRUSR .| S_IWUSR .| S_IXUSR .| S_IRGRP .| S_IWGRP .| S_IXGRP .| S_IROTH .| S_IWOTH .| S_IXOTH)) "rwsrwsrwt" 162 ;;
  ret tt.

Definition cmocka_unit_test (name : string) (f : Z -> M unit) : CMUnitTest := mkUnitTest (Some name) (Some f) None None 0.
Definition tests : list CMUnitTest :=
  [cmocka_unit_test "testFilePermsNone" testFilePermsNone;
   cmocka_unit_test "testFilePermsR" testFilePermsR;
   cmocka_unit_test "testFilePermsW" testFilePermsW;
   cmocka_unit_test "testFilePermsX" testFilePermsX;
   cmocka_unit_test "testFilePermsRWX" testFilePermsRWX].

Definition main : M Z := _cmocka_run_group_tests "tests" tests None None.

(** ** The tests as scripts *)

(** A program that makes the calls of a script. *)
Class Scripted (c : M unit) (s : script) := scripted : c = run [] s.
#[local] Instance scripted_end : Scripted (ret tt) End.
Proof. done. Qed.
#[local] Instance scripted_equal a b line (k : M unit) s :
  Scripted k s -> Scripted (assert_string_equal a b line ;; k) (Assert (StringEqual a b) __FILE__ line s).
Proof. unfold Scripted. by intros ->. Qed.

Lemma scripted_test name (f : Z -> M unit) s :
  f = (fun _ => run [] s) -> cmocka_unit_test name f = plain_test (name, s) 0.
Proof. by intros ->. Qed.

Lemma tests_scripted : exists scripts, tests = map (fun t => plain_test t 0) scripts /\
  statuses scripts = Some (repeat CM_TEST_PASSED 5, O).
Proof.
  eexists [(_, _); (_, _); (_, _); (_, _); (_, _)]. split.
  - unfold tests. cbn [map]. repeat apply (f_equal2 cons); [apply scripted_test..|reflexivity];
      [unfold testFilePermsNone|unfold testFilePermsR|unfold testFilePermsW|unfold testFilePermsX|unfold testFilePermsRWX];
      apply (f_equal (fun c (_ : Z) => c)); exact scripted.
  - vm_compute. reflexivity.
Qed.

(** C18: the unit tests of the library pass: in any environment that does not ask for
    an abort or for XML, the test program answers 0, that is, no assertion on the
    permission strings fails, under the runner of the framework it is linked with. *)
Theorem unit_tests_pass times existing :
  getenv "CMOCKA_TEST_ABORT" = None -> report_format (initial_globals times existing) <> CM_OUTPUT_XML ->
  (main (mkWorld initial_heap (initial_globals times existing))).1 = Done 0.
Proof.
  intros Ha Hx. destruct tests_scripted as (scripts & Hs & Hst). unfold main. rewrite Hs.
  refine (group_judged "tests" scripts (initial_globals times existing) (repeat CM_TEST_PASSED 5, O) Ha eq_refl eq_refl Hx _).
  rewrite <- Hst. f_equal. unfold chosen. clear. induction scripts as [|t scripts IH]; [done|]. cbn in *. by rewrite IH.
Qed.
End Tests.

Lemma unit_tests_pass_witness :
  (@main plain_text plain_env (mkWorld initial_heap (initial_globals [] ∅))).1 = Done 0.
Proof. exact (@unit_tests_pass plain_text plain_env [] ∅ eq_refl ltac:(done)). Defined.
End test_FilePerms.
